(* ===== verification/_CoqProject ===== *)
-Q . S2P
Prelude.v
Interfaces.v
Proto.v
Stream.v
Regex.v
Text.v
HostServices.v
Registry.v
RegistryProps.v
ProxyRegistry.v
ProxyProps.v
Config.v
Tokens.v
TokenStore.v
TokenProps.v
KeyStore.v
ExpireMap.v
Json.v
OidcLogin.v
OidcLoginProps.v
Access.v
AuthStart.v
AuthStartProps.v
LoginProps.v
AccessProps.v
ProxyConnect.v
Lomax.v
LomaxProps.v
LomaxUnix.v
LomaxStart.v
LomaxStartProps.v
Channels.v
ChannelsProps.v
ChannelSystem.v
RegistryApi.v
Executor.v
Download.v
ExecutorProps.v
WasmMemory.v
WasiHost.v
WasiProcess.v
Wasi.v
WasiRun.v
SimpleCodec.v
WasiProps.v
FilesystemSource.v
AveryStart.v
AveryUnix.v
AveryProps.v
Quinn.v
QuinnProps.v
Postgres.v
PostgresProps.v
QuinnConfig.v
QuinnConfigProps.v
WinText.v
WinRegistry.v
WinRegistryProps.v
WinService.v
AveryWindows.v
Installer.v
InstallerProps.v
Bendini.v
BendiniRegister.v
BendiniProps.v
BendiniRun.v
BendiniRunProps.v
BendiniFormat.v
BendiniFormatProps.v
BendiniAuth.v
CertVerifier.v
BendiniMain.v
BendiniMainProps.v
FirmRust.v
GuestCalculus.v
FirmRustProps.v
PyShims.v
PyRuntime.v
MockHost.v
MockHostProps.v
