(* ===== verification/Prelude.v ===== *)
(** * Firm: verification library

    Firm runs functions: a registry keeps them with their attachments, a runtime
    executes them on typed inputs, and a client registers and runs them.  This
    library models the program as it is written and proves what its parts
    promise, and where they do not keep it.

    ** The program and the files that model it

    - Avery (services/avery) is the server of one user.  Its public registry
      ([ProxyRegistry], proxy_registry.rs) puts an internal one ([Registry],
      registry.rs) in front of external ones ([ProxyConnect] sends the requests to
      them); its execution service ([Executor],
      executor.rs, runtime.rs) looks functions up there ([RegistryApi] is the
      interface), gets their attachments ([Download]) and runs them in a runtime:
      WebAssembly modules ([WasmMemory], [WasiHost], [WasiProcess],
      [Wasi], [WasiRun]: runtime/wasi.rs and runtime/wasi/*.rs) or modules that run
      functions of their own ([FilesystemSource]).  Values travel on channels ([Channels],
      [ChannelSystem]: channels.rs).  Its authentication service ([Access],
      [AuthStart]: auth.rs) decides on incoming tokens and hands out outgoing
      ones ([Tokens], [TokenStore]: auth/internal.rs, auth/oidc.rs,
      auth/aliasmap.rs), with keys of other users ([KeyStore]), entries that
      expire ([ExpireMap]) and logins in the browser ([OidcLogin]); [Json] is what
      serde derives for their data.  [Config] is config.rs; [AveryStart] (run.rs)
      takes a process from its configuration to its end, on the systems [AveryUnix]
      and [AveryWindows] (unix.rs, windows.rs).
    - The runtime for Python (services/avery/runtimes/python) is a guest of that
      runtime: [PyRuntime] calls the code and is the module the code imports,
      [PyShims] the C functions CPython expects.
    - Quinn (services/quinn) is a registry for many users: [Quinn] its service,
      checks and backend in memory, [Postgres] the PostgreSQL backend,
      [QuinnConfig] configuration and start.
    - Lomax (services/lomax) is the proxy in front of the servers of the users of
      one machine: [Lomax] passes requests on, [LomaxUnix] handles privileges,
      [LomaxStart] configuration, certificates and start, and in its module
      [LomaxWindows] pipes and the service.  [HostServices] is what both servers do
      alike: sockets from systemd and being a service of Windows.
    - Bendini (clients/bendini) is the command line client: [Bendini] (errors,
      logins, lists), [BendiniRegister], [BendiniRun] and [BendiniAuth] are its
      commands, [BendiniFormat] what it prints, [CertVerifier] its trust in servers
      and [BendiniMain] the whole: connections, credentials and dispatch.
    - The libraries: [Stream] (firm-types) the typed streams all parts exchange,
      [FirmRust] (firm-rust) what a function calls, [MockHost] the host of tests
      of functions; [GuestCalculus] is a calculus for code of functions.
    - The Windows installer: [WinText], [WinRegistry], [WinService]
      (windows-install) and [Installer] (firm-windows-installer).
    - [Proto] holds the messages of the protocols.  [Prelude] (this file),
      [Interfaces], [Regex], [Text] and [SimpleCodec] are shared: results,
      computations with state and errors, sorting, texts, the third-party crates
      as classes with concrete instances.

    A file [XProps] holds the theorems about [X]; small components have theirs at
    the end of their own file.  Definitions keep the names of the source (a
    constructor [new] or a method shared by several types has its type in front),
    states are records with the fields of the structs, and each handler is one
    definition.  Handlers that change state run in [sem S E] (state kept on
    errors), those that only read return a [result].

    ** What the theorems show

    - Registries: [RegistryProps] has the invariant of all reachable states, what
      listing answers, that registering and getting, and uploading, are round
      trips, and that a refused registration already deleted its predecessor;
      [ProxyProps] what the combination of registries answers (lists: on their first
      page; later ones are cut twice, a flaw) and
      [ProxyConnect] that a token made for one registry is shown to no other;
      [PostgresProps] that the two backends of Quinn answer every sequence of
      requests alike up to the order of attachments, which the database leaves open, as
      long as version numbers fit 32 bits, and what happens else.
    - Streams and channels: [Stream] that validation reports exactly the
      violations; [ChannelsProps] and [ChannelSystem] how readers share data, what
      a view shows under concurrency, and that a waiting read starves.
    - Execution: [ExecutorProps] that a queued function runs at most once with
      arguments and results of the declared types; [WasmMemory] and [WasiProps]
      the bounds of guest memory and that what is answered is what the guest
      handed over; [FirmRustProps] and [MockHostProps] the same from the side of
      the function, and that tests see what the runtime would do; [WasiProcess] that
      what a host process prints arrives however it interleaves with its readers;
      [PyRuntime] which errors a Python function leaves however it fails, and that
      only one that ends the process (sys.exit) or traps leaves none, [PyShims] that a
      lock has one holder and exactly what a lookup of the user writes.
    - Start and end: [AveryProps] when the socket file is removed and what its being
      left does, [AveryWindows] all that the service manager gets to know.
    - Access: [AccessProps] that access comes from the configuration or an
      answer to a request (a denial grants it like an approval: a flaw) and ends when
      that expires, [OidcLoginProps] and [LoginProps] what
      a login has checked and serves, [AuthStartProps] what survives a restart,
      [LomaxProps] that requests are passed on by consent, [LomaxUnix] and
      [LomaxStartProps] privileges and certificates, [CertVerifier] trust.
    - Clients: [BendiniMainProps] which requests a run makes, posts of attachments among them, and
      which carry a token, [BendiniFormatProps] that printed channels read back, [BendiniProps]
      and [BendiniRunProps] that what the client sends the server accepts,
      [BendiniRegister] and [BendiniProps] which uploads end and what they store,
      [WinRegistryProps], [WinService] and [InstallerProps] that an
      installation ends, waiting for services too, and is undone where it fails.

    ** Fuel and bounds

    Recursion that is not structural takes fuel, and a theorem or a remark at the
    definition says what is enough: displaying channel types ([Stream],
    [Channels]) needs one unit for a type of the protocol and none is enough for
    others; scanners over a text ([Text], [BendiniRun.arg_matches],
    [QuinnConfig.captures_iter], [WinText]) its length; the upload of a file
    ([BendiniRegister]) a number of reads that [upload_terminates] gives, where it
    ends at all; polling ([WinService], [BendiniAuth.approval]) the number of
    polls before the deadline; opening a pipe ([LomaxWindows.open_pipe]) the number of
    tries, of which none is enough for a pipe that stays busy.  A host process and its
    readers take at most [3 + pending] steps ([WasiProcess]).  Numbers have the width
    of the source ([u32] in guest memory, [u64] positions that wrap, [i32] in
    PostgreSQL); [usize] has 64 bits but where a file says otherwise.  Arithmetic wraps
    as in release builds where it can overflow.

    ** What stands for the outside

    Clock, random numbers, identifiers, answers of the operating system, of HTTP
    servers and databases, and the crates that parse, encrypt or serialise are
    arguments or classes; the laws stated for them are documented behaviour, and
    each has an instance the witnesses are evaluated with.  The order in which a
    hash map is iterated is an argument too, so theorems hold for every order.
    Guests are finite trees of calls.  An unstable sort is taken to be a stable
    one where ties can be told apart.

    ** Not modelled

    Logging, colours and progress bars; TLS and the polling of futures; what the
    streams of sockets and pipes carry; the interpreter of Python; the binary that
    seeds a development registry; generated code and macros of tests.  What a guest
    prints through the WASI crate, the abort of a thread pool on a panic, closing of a channel by
    a dropped sender, uploads of the client at the same time (they follow one
    another), structs read from JSON arrays and texts with NUL bytes in
    PostgreSQL are left out as well; each file says so where it matters. *)
From stdpp Require Export base tactics decidable option list gmap strings sorting.
From Stdlib Require Export ZArith NArith Lia.
From Stdlib Require String Ascii.

#[global] Open Scope list_scope.
#[export] Set Warnings "-clear-no-such-hyp,-register-all".

Abbreviation byte := Corelib.Init.Byte.byte.

(** ** Results *)

(** Rust's [Result<T, E>], error type first so that [result E] is a monad. *)
Inductive result (E A : Type) : Type :=
| Ok (a : A)
| Err (e : E).
(** A computation that panics: an index out of range, a failed [unwrap]. *)
Inductive panic := Panicked.
Arguments Ok {E A} a.
Arguments Err {E A} e.

#[global] Instance result_ret {E} : MRet (result E) := fun A a => Ok a.
#[global] Instance result_bind {E} : MBind (result E) :=
  fun A B f m => match m with Ok a => f a | Err e => Err e end.
#[global] Instance result_fmap {E} : FMap (result E) :=
  fun A B f m => match m with Ok a => Ok (f a) | Err e => Err e end.
#[global] Instance result_eq_dec {E A} `{EqDecision E, EqDecision A} : EqDecision (result E A).
Proof. solve_decision. Defined.

(** [Option::ok_or], [Result::map_err], [Result::ok], [Result::is_ok]. *)
Definition ok_or {E A} (e : E) (o : option A) : result E A :=
  match o with Some a => Ok a | None => Err e end.
Definition map_err {E F A} (f : E -> F) (r : result E A) : result F A :=
  match r with Ok a => Ok a | Err e => Err (f e) end.
Definition result_ok {E A} (r : result E A) : option A :=
  match r with Ok a => Some a | Err _ => None end.
Definition is_ok {E A} (r : result E A) : bool :=
  match r with Ok _ => true | Err _ => false end.

(** [Option<Result<T, E>>::transpose]. *)
Definition transpose {E A} (o : option (result E A)) : result E (option A) :=
  match o with
  | None => Ok None
  | Some (Ok a) => Ok (Some a)
  | Some (Err e) => Err e
  end.

(** [Iterator<Item = Result<T, E>>::collect::<Result<Vec<T>, E>>]: the first
    error wins. *)
Fixpoint collect {E A} (l : list (result E A)) : result E (list A) :=
  match l with
  | [] => Ok []
  | r :: l' => a ← r; as_ ← collect l'; Ok (a :: as_)
  end.

(** [Iterator::try_fold]. *)
Fixpoint try_fold {E S A} (f : S -> A -> result E S) (s : S) (l : list A) : result E S :=
  match l with
  | [] => Ok s
  | a :: l' => s' ← f s a; try_fold f s' l'
  end.

Section result_lemmas.
Context {E : Type}.

Lemma bind_Ok_inv {A B} (f : A -> result E B) (m : result E A) b :
  m ≫= f = Ok b -> exists a, m = Ok a /\ f a = Ok b.
Proof. destruct m as [a|e]; simpl; [eauto | discriminate]. Qed.

Lemma bind_Err_inv {A B} (f : A -> result E B) (m : result E A) e :
  m ≫= f = Err e -> m = Err e \/ exists a, m = Ok a /\ f a = Err e.
Proof. destruct m as [a|e']; simpl; [eauto | intros [= ->]; auto]. Qed.

Lemma fmap_Ok_inv {A B} (f : A -> B) (m : result E A) b :
  f <$> m = Ok b -> exists a, m = Ok a /\ b = f a.
Proof. destruct m as [a|e]; [intros [= <-]; eauto | discriminate]. Qed.

Lemma ok_or_Ok {A} (e : E) (o : option A) a : ok_or e o = Ok a <-> o = Some a.
Proof. destruct o; simpl; split; congruence. Qed.

Lemma ok_or_Err {A} (e e' : E) (o : option A) : ok_or e o = Err e' <-> o = None /\ e' = e.
Proof. destruct o; simpl; split; intuition congruence. Qed.

Lemma map_err_Ok {F A} (f : E -> F) (r : result E A) a : map_err f r = Ok a <-> r = Ok a.
Proof. destruct r; simpl; split; congruence. Qed.

Lemma result_ok_Some {A} (r : result E A) a : result_ok r = Some a <-> r = Ok a.
Proof. destruct r; simpl; split; congruence. Qed.

Lemma transpose_Ok {A} (o : option (result E A)) r :
  transpose o = Ok r <-> o = Ok <$> r.
Proof. destruct o as [[a|e]|], r; simpl; split; congruence. Qed.

Lemma collect_Ok {A} (l : list (result E A)) (v : list A) :
  collect l = Ok v <-> l = Ok <$> v.
Proof.
  revert v. induction l as [|r l IH]; intros [|a v]; simpl; try (split; congruence).
  - split; [|discriminate]. destruct r; simpl; [|discriminate].
    by destruct (collect l).
  - destruct r as [a'|e]; simpl; [|split; discriminate].
    specialize (IH v). destruct (collect l) as [v'|e]; simpl; split; intros H.
    + injection H as <- <-. f_equal. by apply IH.
    + injection H as <- H2. by apply IH in H2 as [= ->].
    + discriminate.
    + injection H as <- H2. by apply IH in H2.
Qed.

Lemma collect_Err {A} (l : list (result E A)) e :
  collect l = Err e <-> exists v rest, l = (Ok <$> v) ++ Err e :: rest.
Proof.
  induction l as [|[a|e'] l IH]; simpl.
  - split; [discriminate | intros ([|? ?] & ? & ?); discriminate].
  - destruct (collect l) as [v'|e'] eqn:Hc; simpl; split.
    + discriminate.
    + intros ([|a' v] & rest & [= -> ->]).
      assert (Ok v' = Err e) as [=]. apply IH; eauto.
    + intros [= ->]. destruct IH as [(v & rest & ->) _]; [done|].
      by exists (a :: v), rest.
    + intros ([|a' v] & rest & [= -> ->]). apply IH; eauto.
  - split; [intros [= ->]; by exists [], l | intros ([|? ?] & ? & [=]); by subst].
Qed.

Lemma try_fold_app {S A} (f : S -> A -> result E S) s l1 l2 :
  try_fold f s (l1 ++ l2) = s' ← try_fold f s l1; try_fold f s' l2.
Proof. revert s. induction l1 as [|a l1 IH]; intros s; simpl; [done|].
  destruct (f s a); simpl; [apply IH | done]. Qed.

(** Rule of invariants for [try_fold]: [P] indexed by the consumed prefix. *)
Lemma try_fold_inv {S A} (f : S -> A -> result E S) (P : list A -> S -> Prop) s l s' :
  P [] s ->
  (forall done_ a s s', P done_ s -> f s a = Ok s' -> P (done_ ++ [a]) s') ->
  try_fold f s l = Ok s' -> P l s'.
Proof.
  intros H0 Hstep. change l with ([] ++ l) at 2.
  revert H0. generalize (@nil A) as pre. revert s.
  induction l as [|a l IH]; intros s pre HP; simpl.
  - intros [= <-]. by rewrite app_nil_r.
  - intros (s1 & Hf & Hl)%bind_Ok_inv.
    replace (pre ++ a :: l) with ((pre ++ [a]) ++ l) by by rewrite <- (assoc_L (++)).
    eapply IH; eauto.
Qed.
End result_lemmas.

(** Peels binds, [ok_or]s and [map_err]s off a hypothesis [_ = Ok _]. *)
Ltac inv_ok :=
  repeat match goal with
  | H : _ ≫= _ = Ok _ |- _ =>
      let a := fresh "a" in let H1 := fresh "Hok" in
      apply bind_Ok_inv in H; destruct H as (a & H1 & H); simpl in H
  | H : _ <$> _ = Ok _ |- _ =>
      let a := fresh "a" in let H1 := fresh "Hok" in
      apply fmap_Ok_inv in H; destruct H as (a & H1 & H)
  | H : ok_or _ _ = Ok _ |- _ => apply ok_or_Ok in H
  | H : map_err _ _ = Ok _ |- _ => apply map_err_Ok in H
  | H : Ok _ = Ok _ |- _ => injection H as H
  | H : Err _ = Ok _ |- _ => discriminate H
  | H : Ok _ = Err _ |- _ => discriminate H
  | H : (if ?c then Err _ else _) = Ok _ |- _ => let C := fresh "Hc" in destruct c eqn:C
  | H : (if ?c then _ else Err _) = Ok _ |- _ => let C := fresh "Hc" in destruct c eqn:C
  end.

(** ** Stateful fallible code

    A handler that changes a state [S] and may leave early through [?]: the
    changes made before the error stay. *)
Definition sem (S E A : Type) : Type := S -> S * result E A.
#[global] Instance sem_ret {S E} : MRet (sem S E) := fun A a s => (s, Ok a).
#[global] Instance sem_bind {S E} : MBind (sem S E) :=
  fun A B f m s => match m s with
                   | (s', Ok a) => f a s'
                   | (s', Err e) => (s', Err e)
                   end.
Definition sem_lift {S E A} (r : result E A) : sem S E A := fun s => (s, r).
(** Evaluates a fallible expression on the current state. *)
Definition sem_ask {S E A} (f : S -> result E A) : sem S E A := fun s => (s, f s).
Definition sem_modify {S E} (f : S -> S) : sem S E unit := fun s => (f s, Ok tt).

(** Case analysis of a run that ended, one hypothesis per statement. *)
Lemma sem_bind_Ok {S E A B} (m : sem S E A) (f : A -> sem S E B) s s' b :
  (m ≫= f) s = (s', Ok b) -> exists s1 a, m s = (s1, Ok a) /\ f a s1 = (s', Ok b).
Proof. unfold mbind, sem_bind. destruct (m s) as [s1 [a|e]]; [eauto | congruence]. Qed.

(** The first statement of a run is known. *)
Lemma sem_bind_run {S E A B} (m : sem S E A) (f : A -> sem S E B) s s1 a : m s = (s1, Ok a) -> (m ≫= f) s = f a s1.
Proof. intros H. unfold mbind, sem_bind. by rewrite H. Qed.
Lemma sem_bind_stop {S E A B} (m : sem S E A) (f : A -> sem S E B) s s1 e : m s = (s1, Err e) -> (m ≫= f) s = (s1, Err e).
Proof. intros H. unfold mbind, sem_bind. by rewrite H. Qed.

(** A property of the state kept by both statements is kept by the sequence. *)
Lemma sem_bind_inv {S E A B} (I : S -> Prop) (m : sem S E A) (f : A -> sem S E B) :
  (forall s, I s -> I (m s).1) -> (forall a s, I s -> I (f a s).1) ->
  forall s, I s -> I ((m ≫= f) s).1.
Proof.
  intros Hm Hf s Hs. unfold mbind, sem_bind. specialize (Hm s Hs).
  destruct (m s) as [s1 [a|e]]; simpl in *; auto.
Qed.

(** ** Comparison functions and sorting *)

(** What Rust's [Ord] contract promises of a comparison function: a total
    preorder.  Comparators passed to [sort_unstable_by] are built from these by
    the three combinators below. *)
Class CmpOrder {A} (cmp : A -> A -> comparison) : Prop := {
  cmp_flip_eq : forall x y, cmp y x = CompOpp (cmp x y);
  cmp_trans_le : forall x y z, cmp x y <> Gt -> cmp y z <> Gt -> cmp x z <> Gt
}.
#[export] Hint Mode CmpOrder ! ! : typeclass_instances.
Arguments cmp_flip_eq {A} cmp {_} x y.
Arguments cmp_trans_le {A} cmp {_} x y z.

Definition cmp_on {A B} (f : A -> B) (cmp : B -> B -> comparison) : A -> A -> comparison :=
  fun x y => cmp (f x) (f y).
Definition cmp_rev {A} (cmp : A -> A -> comparison) : A -> A -> comparison :=
  fun x y => cmp y x.
Definition cmp_lex {A} (c1 c2 : A -> A -> comparison) : A -> A -> comparison :=
  fun x y => match c1 x y with Eq => c2 x y | o => o end.

Section cmp.
Context {A : Type} (cmp : A -> A -> comparison) `{!CmpOrder cmp}.

Lemma cmp_refl_eq x : cmp x x = Eq.
Proof. pose proof (cmp_flip_eq cmp x x) as H. by destruct (cmp x x). Qed.

Lemma cmp_trans_lt_le x y z : cmp x y = Lt -> cmp y z <> Gt -> cmp x z = Lt.
Proof.
  intros H1 H2. destruct (cmp x z) eqn:Hxz; [|done|].
  - assert (cmp y x <> Gt) as H3.
    { apply (cmp_trans_le cmp y z x); [done|]. rewrite (cmp_flip_eq cmp), Hxz. done. }
    rewrite (cmp_flip_eq cmp), H1 in H3. done.
  - exfalso. apply (cmp_trans_le cmp x y z); congruence.
Qed.

Lemma cmp_trans_le_lt x y z : cmp x y <> Gt -> cmp y z = Lt -> cmp x z = Lt.
Proof.
  intros H1 H2. destruct (cmp x z) eqn:Hxz; [|done|].
  - assert (cmp z y <> Gt) as H3.
    { apply (cmp_trans_le cmp z x y); [|done]. rewrite (cmp_flip_eq cmp), Hxz. done. }
    rewrite (cmp_flip_eq cmp), H2 in H3. done.
  - exfalso. apply (cmp_trans_le cmp x y z); congruence.
Qed.

Lemma cmp_trans_eq x y z : cmp x y = Eq -> cmp y z = Eq -> cmp x z = Eq.
Proof.
  intros H1 H2. destruct (cmp x z) eqn:Hxz; [done| |].
  - assert (cmp x y = Lt); [|congruence].
    apply (cmp_trans_lt_le x z y); [done|]. rewrite (cmp_flip_eq cmp), H2. done.
  - exfalso. apply (cmp_trans_le cmp x y z); congruence.
Qed.

#[export] Instance cmp_rev_order : CmpOrder (cmp_rev cmp).
Proof.
  split; unfold cmp_rev.
  - intros x y. apply (cmp_flip_eq cmp).
  - intros x y z H1 H2. by apply (cmp_trans_le cmp z y x).
Qed.

#[export] Instance cmp_on_order {B} (f : B -> A) : CmpOrder (cmp_on f cmp).
Proof.
  split; unfold cmp_on.
  - intros x y. apply (cmp_flip_eq cmp).
  - intros x y z. apply (cmp_trans_le cmp).
Qed.
End cmp.
#[export] Existing Instance cmp_rev_order.
#[export] Existing Instance cmp_on_order.

#[export] Instance cmp_lex_order {A} (c1 c2 : A -> A -> comparison)
  `{!CmpOrder c1, !CmpOrder c2} : CmpOrder (cmp_lex c1 c2).
Proof.
  split; unfold cmp_lex.
  - intros x y. rewrite (cmp_flip_eq c1 x y), (cmp_flip_eq c2 x y).
    by destruct (c1 x y).
  - intros x y z H1 H2.
    destruct (c1 x y) eqn:Hxy; [| |done].
    + destruct (c1 y z) eqn:Hyz; [| |done].
      * rewrite (cmp_trans_eq c1 x y z Hxy Hyz). by apply (cmp_trans_le c2 x y z).
      * rewrite (cmp_trans_le_lt c1 x y z); congruence.
    + rewrite (cmp_trans_lt_le c1 x y z); [done..|].
      by destruct (c1 y z).
Qed.

#[global] Typeclasses Opaque cmp_on cmp_rev cmp_lex.

(** [slice::sort_unstable_by]: an ascending permutation.  The model returns the
    stable one; [sort_by_unique] shows where every admissible result is that
    one. *)
Definition cmp_le {A} (cmp : A -> A -> comparison) : relation A := fun x y => cmp x y <> Gt.
#[export] Instance cmp_le_dec {A} (cmp : A -> A -> comparison) : RelDecision (cmp_le cmp).
Proof. intros x y. apply not_dec, comparison_eq_dec. Defined.
Definition sort_by {A} (cmp : A -> A -> comparison) (l : list A) : list A :=
  merge_sort (cmp_le cmp) l.

Section sort_by.
Context {A : Type} (cmp : A -> A -> comparison) `{!CmpOrder cmp}.

#[export] Instance cmp_le_total : Total (cmp_le cmp).
Proof. intros x y. unfold cmp_le. rewrite (cmp_flip_eq cmp x y). destruct (cmp x y); auto. Qed.
#[export] Instance cmp_le_trans : Transitive (cmp_le cmp).
Proof. intros x y z. apply (cmp_trans_le cmp). Qed.

Lemma sort_by_perm l : sort_by cmp l ≡ₚ l.
Proof. apply merge_sort_Permutation. Qed.

Lemma sort_by_sorted l : StronglySorted (cmp_le cmp) (sort_by cmp l).
Proof. apply Sorted_StronglySorted; [apply _|]. apply Sorted_merge_sort, _. Qed.

Lemma elem_of_sort_by x l : x ∈ sort_by cmp l <-> x ∈ l.
Proof. by rewrite sort_by_perm. Qed.

(** A list whose elements are told apart by [cmp] has one ascending
    permutation: what an unstable sort returns is determined. *)
Lemma sort_by_unique l l' :
  (forall x y, x ∈ l -> y ∈ l -> cmp x y = Eq -> x = y) ->
  l' ≡ₚ l -> StronglySorted (cmp_le cmp) l' -> l' = sort_by cmp l.
Proof.
  intros Hinj Hp Hs. apply (StronglySorted_unique_strong (cmp_le cmp));
    [|done|apply sort_by_sorted|by rewrite sort_by_perm].
  intros x y Hx Hy H1 H2. rewrite Hp in Hx. rewrite elem_of_sort_by in Hy.
  apply Hinj; [done..|]. unfold cmp_le in *. rewrite (cmp_flip_eq cmp x y) in H2.
  by destruct (cmp x y).
Qed.

Lemma sort_by_proper l l' :
  (forall x y, x ∈ l -> y ∈ l -> cmp x y = Eq -> x = y) ->
  l' ≡ₚ l -> sort_by cmp l' = sort_by cmp l.
Proof.
  intros Hinj Hp. apply sort_by_unique; [done| |apply sort_by_sorted].
  by rewrite sort_by_perm.
Qed.
End sort_by.

(** [iter().skip(offset).take(limit)]. *)
Definition page {A} (offset limit : N) (l : list A) : list A :=
  take (N.to_nat limit) (drop (N.to_nat offset) l).

Lemma page_length {A} off lim (l : list A) : length (page off lim l) <= N.to_nat lim.
Proof. unfold page. rewrite length_take. lia. Qed.

Lemma page_elem_of {A} off lim (l : list A) x : x ∈ page off lim l -> x ∈ l.
Proof.
  unfold page. intros H. rewrite <- (take_drop (N.to_nat off) l).
  apply elem_of_app. right.
  rewrite <- (take_drop (N.to_nat lim) (drop _ l)). apply elem_of_app. by left.
Qed.

Lemma page_all {A} lim (l : list A) : length l <= N.to_nat lim -> page 0 lim l = l.
Proof. intros H. unfold page. simpl. by rewrite drop_0, take_ge. Qed.

Lemma StronglySorted_take {A} (R : relation A) n l :
  StronglySorted R l -> StronglySorted R (take n l).
Proof. rewrite <- (take_drop n l) at 1. apply StronglySorted_app_1_l. Qed.

Lemma StronglySorted_page {A} (R : relation A) off lim l :
  StronglySorted R l -> StronglySorted R (page off lim l).
Proof.
  intros H. apply StronglySorted_take.
  rewrite <- (take_drop (N.to_nat off) l) in H. by apply StronglySorted_app_1_r in H.
Qed.

Lemma StronglySorted_reverse {A} (R : relation A) `{!Transitive R} l :
  StronglySorted R l -> StronglySorted (flip R) (reverse l).
Proof.
  intros H. apply Sorted_StronglySorted; [intros x y z ? ?; by apply (transitivity (R := R) (y := y))|].
  by apply Sorted_reverse, StronglySorted_Sorted.
Qed.

Lemma NoDup_fmap_inj_on {A B} (h : A -> B) (l : list A) x y :
  NoDup (h <$> l) -> x ∈ l -> y ∈ l -> h x = h y -> x = y.
Proof.
  intros Hnd [i Hi]%list_elem_of_lookup [j Hj]%list_elem_of_lookup Hxy.
  assert (i = j) as ->; [|congruence].
  apply (NoDup_lookup _ _ _ (h x) Hnd); rewrite list_lookup_fmap; [by rewrite Hi|].
  by rewrite Hj, Hxy.
Qed.

(** ** Strings

    [String] and [&str] are UTF-8 byte strings; a Rocq [string] is a byte
    string, so [str::len], [==], [cmp], [contains] act on the same bytes. *)

Abbreviation str_len := String.length.
Abbreviation str_cmp := String.compare.
Definition str_is_empty (s : string) : bool :=
  match s with EmptyString => true | _ => false end.

(** The double quote and quoting, for the [\"{}\"] of format strings. *)
Definition dquote : string := String (Ascii.ascii_of_nat 34) EmptyString.
Definition quoted (s : string) : string := dquote +:+ s +:+ dquote.
Definition newline : string := String (Ascii.ascii_of_nat 10) EmptyString.

(** [s.contains(pat)]. *)
Fixpoint str_contains (pat s : string) : bool :=
  String.prefix pat s ||
  match s with EmptyString => false | String _ s' => str_contains pat s' end.

(** [[_]::join(sep)]. *)
Fixpoint str_join (sep : string) (l : list string) : string :=
  match l with
  | [] => EmptyString
  | [s] => s
  | s :: l' => s +:+ sep +:+ str_join sep l'
  end.

Lemma prefix_spec pat s : String.prefix pat s = true <-> exists r, s = pat +:+ r.
Proof.
  revert s. induction pat as [|c pat IH]; intros [|d s]; simpl.
  1,2: split; eauto.
  - split; [done | by intros (r & ?)].
  - destruct (Ascii.ascii_dec c d) as [->|Hne].
    + rewrite IH. split; intros (r & H); exists r; simpl.
      * by rewrite H.
      * by injection H.
    + split; [done|]. intros (r & H). injection H as Hd _. by destruct Hne.
Qed.

Lemma str_contains_spec pat s :
  str_contains pat s = true <-> exists a b, s = a +:+ pat +:+ b.
Proof.
  induction s as [|c s IH]; cbn [str_contains].
  - rewrite orb_false_r, prefix_spec. split.
    + intros (r & ->). by exists EmptyString, r.
    + intros ([|? ?] & b & H); [by exists b | discriminate].
  - rewrite orb_true_iff, prefix_spec, IH. split.
    + intros [(r & ->)|(a & b & ->)]; [by exists EmptyString, r | by exists (String c a), b].
    + intros ([|d a] & b & H); [left; by exists b | right].
      injection H as -> ->. eauto.
Qed.

Lemma str_contains_empty s : str_contains EmptyString s = true.
Proof. apply str_contains_spec. by exists EmptyString, s. Qed.

Lemma str_contains_refl s : str_contains s s = true.
Proof.
  apply str_contains_spec. exists EmptyString, EmptyString. simpl.
  induction s as [|c s IH]; [done | exact (f_equal (String c) IH)].
Qed.

Lemma ascii_compare_N a b : Ascii.compare a b = N.compare (Ascii.N_of_ascii a) (Ascii.N_of_ascii b).
Proof. done. Qed.

#[export] Instance str_cmp_order : CmpOrder str_cmp.
Proof.
  split.
  - intros x y. apply String.compare_antisym.
  - intros x y z. revert y z.
    induction x as [|a x IH]; intros [|b y] [|c z]; simpl; try done.
    rewrite !ascii_compare_N.
    destruct (N.compare_spec (Ascii.N_of_ascii a) (Ascii.N_of_ascii b)) as [Hab|Hab|Hab];
    destruct (N.compare_spec (Ascii.N_of_ascii b) (Ascii.N_of_ascii c)) as [Hbc|Hbc|Hbc];
    destruct (N.compare_spec (Ascii.N_of_ascii a) (Ascii.N_of_ascii c)) as [Hac|Hac|Hac];
      try done; try lia; apply IH.
Qed.

Lemma str_cmp_eq a b : str_cmp a b = Eq <-> a = b.
Proof.
  split; [apply String.compare_eq_iff | intros ->; apply cmp_refl_eq, _].
Qed.

(** Byte slices compare as texts. *)
Definition bytes_eqb (a b : list byte) : bool :=
  String.eqb (String.string_of_list_byte a) (String.string_of_list_byte b).

Lemma bytes_eqb_eq a b : bytes_eqb a b = true <-> a = b.
Proof.
  unfold bytes_eqb. rewrite String.eqb_eq. split; [|by intros ->].
  intros Heq. rewrite <- (String.list_byte_of_string_of_list_byte a), Heq.
  apply String.list_byte_of_string_of_list_byte.
Qed.

Lemma bytes_eqb_neq a b : bytes_eqb a b = false <-> a <> b.
Proof. rewrite <- not_true_iff_false, bytes_eqb_eq. done. Qed.

(** [&s[..n]]: panics past the end and inside a character. *)
Definition is_char_boundary (s : string) (n : nat) : bool :=
  match String.get n s with
  | Some c => negb ((128 <=? Ascii.N_of_ascii c)%N && (Ascii.N_of_ascii c <? 192)%N)
  | None => Nat.eqb n (str_len s)
  end.
Definition str_slice_to (n : nat) (s : string) : result panic string :=
  if is_char_boundary s n then Ok (String.substring 0 n s) else Err Panicked.

(** ** Machine integers

    [u64] arithmetic as release builds have it: it wraps. *)
Definition u64_modulus : N := 18446744073709551616.
Definition u64_add (a b : N) : N := ((a + b) mod u64_modulus)%N.
Definition u64_sub (a b : N) : N := ((a + u64_modulus - b) mod u64_modulus)%N.

Lemma u64_add_small a b : (a + b < u64_modulus)%N -> u64_add a b = (a + b)%N.
Proof. unfold u64_add. apply N.mod_small. Qed.
Lemma u64_sub_small a b : (b <= a)%N -> (a < u64_modulus)%N -> u64_sub a b = (a - b)%N.
Proof.
  unfold u64_sub. intros Hle Hlt.
  replace (a + u64_modulus - b)%N with ((a - b) + 1 * u64_modulus)%N by lia.
  rewrite N.Div0.mod_add. apply N.mod_small. lia.
Qed.

(** [str::parse::<usize>] on a 64-bit target: decimal digits after an optional
    plus sign. *)
Definition digit_value (c : Ascii.ascii) : option N :=
  let n := Ascii.N_of_ascii c in if (48 <=? n)%N && (n <=? 57)%N then Some (n - 48)%N else None.
Fixpoint parse_digits (acc : N) (s : string) : option N :=
  match s with
  | EmptyString => Some acc
  | String c s' =>
      d ← digit_value c;
      let acc' := (acc * 10 + d)%N in
      if (acc' <? u64_modulus)%N then parse_digits acc' s' else None
  end.
Definition parse_usize (s : string) : option N :=
  match s with
  | EmptyString => None
  | String c s' =>
      if (Ascii.N_of_ascii c =? 43)%N
      then match s' with EmptyString => None | _ => parse_digits 0 s' end
      else parse_digits 0 s
  end.

(** [str::split_once] on one character. *)
Fixpoint split_once (sep : Ascii.ascii) (s : string) : option (string * string) :=
  match s with
  | EmptyString => None
  | String c s' =>
      if Ascii.eqb c sep then Some (EmptyString, s')
      else '(a, b) ← split_once sep s'; Some (String c a, b)
  end.

(** [str::split] on one character. *)
Fixpoint str_split (sep : Ascii.ascii) (s : string) : list string :=
  match s with
  | EmptyString => [EmptyString]
  | String c s' =>
      if Ascii.eqb c sep then EmptyString :: str_split sep s'
      else match str_split sep s' with
           | w :: l => String c w :: l
           | [] => [String c EmptyString]
           end
  end.

(** [str::replace] of a pattern that is not empty; [skip] characters belong to the
    occurrence before. *)
Fixpoint str_replace_from (pat by_ : string) (skip : nat) (s : string) : string :=
  match s with
  | EmptyString => EmptyString
  | String c s' =>
      match skip with
      | S skip => str_replace_from pat by_ skip s'
      | O => if String.prefix pat s then by_ +:+ str_replace_from pat by_ (String.length pat - 1) s'
             else String c (str_replace_from pat by_ 0 s')
      end
  end.
Definition str_replace (pat by_ : string) (s : string) : string := str_replace_from pat by_ 0 s.

(** [str::to_lowercase] on ASCII letters. *)
Definition lowercase (s : string) : string :=
  String.string_of_list_ascii
    ((fun c => let n := Ascii.N_of_ascii c in if ((65 <=? n) && (n <=? 90))%N then Ascii.ascii_of_N (n + 32) else c)
       <$> String.list_ascii_of_string s).

(** ** Hash maps

    [std::collections::HashMap] iterates in an unspecified order that may
    differ from map to map.  Code that iterates takes the order as an argument
    through this class; its law is what the documentation promises (every entry
    once). *)
Class HashOrder := {
  hash_iter : forall {V : Type}, gmap string V -> list (string * V);
  hash_iter_perm : forall V (m : gmap string V), hash_iter m ≡ₚ map_to_list m
}.

Definition key_order : HashOrder :=
  {| hash_iter := fun V m => map_to_list m; hash_iter_perm := fun V m => Permutation_refl _ |}.
(** A second order, for statements that compare two orders. *)
Definition reverse_order : HashOrder :=
  {| hash_iter := fun V m => reverse (map_to_list m);
     hash_iter_perm := fun V m => reverse_Permutation _ |}.

Section hash_order.
Context {HO : HashOrder} {V : Type}.
Implicit Types m : gmap string V.

Definition hash_keys m : list string := (hash_iter m).*1.
Definition hash_values m : list V := (hash_iter m).*2.

Lemma elem_of_hash_iter m k v : (k, v) ∈ hash_iter m <-> m !! k = Some v.
Proof. by rewrite hash_iter_perm, elem_of_map_to_list. Qed.

Lemma hash_iter_nodup m : NoDup (hash_iter m).*1.
Proof. rewrite hash_iter_perm. apply NoDup_fst_map_to_list. Qed.

Lemma elem_of_hash_keys m k : k ∈ hash_keys m <-> is_Some (m !! k).
Proof.
  unfold hash_keys. rewrite list_elem_of_fmap. split.
  - intros ([k' v] & -> & H%elem_of_hash_iter). by exists v.
  - intros [v H]. exists (k, v). split; [done|]. by apply elem_of_hash_iter.
Qed.

Lemma elem_of_hash_values m v : v ∈ hash_values m <-> exists k, m !! k = Some v.
Proof.
  unfold hash_values. rewrite list_elem_of_fmap. split.
  - intros ([k v'] & -> & H%elem_of_hash_iter). by exists k.
  - intros [k H]. exists (k, v). split; [done|]. by apply elem_of_hash_iter.
Qed.
End hash_order.

(** ** Locks

    [std::sync::RwLock]/[Mutex]: a lock is poisoned when a holder panicked;
    acquiring it then fails with this message. *)
Record lock (A : Type) := Lock { lk_poisoned : bool; lk_data : A }.
Arguments Lock {A} _ _.
Arguments lk_poisoned {A} _.
Arguments lk_data {A} _.
Definition poison_msg : string := "poisoned lock: another task failed inside".
Definition lock_new {A} (a : A) : lock A := Lock false a.
Definition lock_get {E A} (e : string -> E) (l : lock A) : result E A :=
  if lk_poisoned l then Err (e poison_msg) else Ok (lk_data l).
Definition lock_set {A} (l : lock A) (a : A) : lock A := Lock (lk_poisoned l) a.

Lemma lock_get_Ok {E A} (e : string -> E) (l : lock A) a :
  lock_get e l = Ok a <-> lk_poisoned l = false /\ lk_data l = a.
Proof. unfold lock_get. destruct (lk_poisoned l); split; intuition congruence. Qed.

Lemma lock_set_new {A} (l : lock A) a : lk_data (lock_set l a) = a.
Proof. done. Qed.

(** ** [std::task::Poll] *)
Inductive Poll (A : Type) := Pending | Ready (a : A).
Arguments Pending {A}.
Arguments Ready {A} a.

(** ** gRPC statuses ([tonic::Status], [tonic::Code]) *)
Inductive Code :=
| CUnknown | CInvalidArgument | CNotFound | CAlreadyExists | CPermissionDenied
| CUnimplemented | CInternal | CUnauthenticated
| CCancelled | CDeadlineExceeded | CAborted | CUnavailable.
#[export] Instance Code_eq_dec : EqDecision Code.
Proof. solve_decision. Defined.
Record Status := MkStatus { st_code : Code; st_message : string }.
#[export] Instance Status_eq_dec : EqDecision Status.
Proof. solve_decision. Defined.

(** ** Hints *)
Create HintDb firm.
Create Rewrite HintDb firm_rw.
#[export] Hint Resolve str_contains_empty str_contains_refl page_elem_of sort_by_perm
  sort_by_sorted StronglySorted_page : firm.
#[export] Hint Rewrite @elem_of_hash_iter @elem_of_hash_keys @elem_of_hash_values : firm_rw.
