(* ===== verification/Interfaces.v ===== *)
(** * Interfaces to the crates the program calls

    [semver], [uuid], [sha2] and [hex] are third-party: their operations are
    class fields and the laws stated are the documented ones.  Every class has
    an instance at the end of the file, used by the concrete evaluations of the
    other files. *)
From S2P Require Import Prelude.
From Stdlib Require Import Ascii.

(** ** semver 0.11

    [version_cmp] is [Ord::cmp]; [==] and [<] on versions are [Eq] and [Lt] of
    it (the crate's [PartialEq] ignores build metadata, like its [Ord]).
    [version_push_pre s v] is [v.pre.push(Identifier::AlphaNumeric(s))];
    [req_parse_npm] is [VersionReq::parse_compat(_, Compat::Npm)]. *)
Class SemVer := {
  Version : Type;
  version_parse : string -> result string Version;
  version_to_string : Version -> string;
  version_cmp : Version -> Version -> comparison;
  version_push_pre : string -> Version -> Version;
  (** [0.0.1-invalid], built field by field in proxy_registry.rs *)
  version_invalid : Version;
  VersionReq : Type;
  req_parse : string -> result string VersionReq;
  req_parse_npm : string -> result string VersionReq;
  req_matches : VersionReq -> Version -> bool;
  version_cmp_order :: CmpOrder version_cmp
}.

Definition version_eqb `{SemVer} (a b : Version) : bool :=
  match version_cmp a b with Eq => true | _ => false end.
Definition version_ltb `{SemVer} (a b : Version) : bool :=
  match version_cmp a b with Lt => true | _ => false end.

Section version.
Context `{SemVer}.

Lemma version_eqb_eq a b : version_eqb a b = true <-> version_cmp a b = Eq.
Proof. unfold version_eqb. destruct (version_cmp a b); split; congruence. Qed.
Lemma version_ltb_lt a b : version_ltb a b = true <-> version_cmp a b = Lt.
Proof. unfold version_ltb. destruct (version_cmp a b); split; congruence. Qed.
Lemma version_ltb_ge a b : version_ltb a b = false <-> version_cmp b a <> Gt.
Proof.
  unfold version_ltb. rewrite (cmp_flip_eq version_cmp a b).
  destruct (version_cmp a b); simpl; split; congruence.
Qed.
Lemma version_eqb_refl a : version_eqb a a = true.
Proof. apply version_eqb_eq, cmp_refl_eq, _. Qed.
Lemma version_eqb_sym a b : version_eqb a b = version_eqb b a.
Proof. unfold version_eqb. rewrite (cmp_flip_eq version_cmp a b). by destruct (version_cmp a b). Qed.
End version.

(** ** uuid *)
Class UuidLib := {
  uuid : Type;
  uuid_eq_dec :: EqDecision uuid;
  uuid_countable :: Countable uuid;
  uuid_parse : string -> result string uuid;
  uuid_to_string : uuid -> string;
  uuid_parse_to_string : forall u, uuid_parse (uuid_to_string u) = Ok u
}.

#[export] Instance uuid_to_string_inj `{UuidLib} : Inj eq eq uuid_to_string.
Proof.
  intros u v Heq. pose proof (uuid_parse_to_string u) as H1.
  rewrite Heq, uuid_parse_to_string in H1. congruence.
Qed.

(** ** sha2 and hex

    A [Sha256] hasher that was fed the byte strings [b1 .. bn] finalizes to
    [sha256 (b1 ++ .. ++ bn)], so a hasher is modelled by the bytes it was
    fed. *)
Class DigestLib := {
  sha256 : list byte -> list byte;
  hex_encode : list byte -> string;
  hex_decode : string -> result string (list byte);
  hex_decode_encode : forall b, hex_decode (hex_encode b) = Ok b
}.

(** ** serde_json *)
Inductive Value :=
| VNull
| VBool (b : bool)
| VNumber (as_u64 : option N)
| VString (s : string)
| VArray (l : list Value)
| VObject (m : list (string * Value)).
Definition value_as_str (v : Value) : option string := match v with VString s => Some s | _ => None end.
Definition value_as_u64 (v : Value) : option N := match v with VNumber n => n | _ => None end.

(** ** jsonwebtoken 7

    Tokens and their claims; the key types are opaque.  [jwt_decode now token
    key v] is [decode] with the clock reading [now] that the crate takes
    itself; its law is the expiry check that [validate_exp] asks for. *)
Inductive Algorithm := ES256 | RS256 | OtherAlgorithm (name : string).
Record Validation := MkValidation {
  va_leeway : N;
  va_validate_exp : bool;
  va_aud : option string;
  va_algorithms : list Algorithm
}.
Class JwtLib := {
  EncodingKey : Type;
  DecodingKey : Type;
  encoding_key_from_rsa_pem : list byte -> result string EncodingKey;
  encoding_key_from_ec_pem : list byte -> result string EncodingKey;
  encoding_key_from_ec_der : list byte -> EncodingKey;
  decoding_key_from_ec_pem : list byte -> result string DecodingKey;
  decoding_key_from_rsa_components : string -> string -> DecodingKey;
  (** algorithm, key id of the header, claims, key *)
  jwt_encode : Algorithm -> option string -> list (string * Value) -> EncodingKey -> result string string;
  (** the key id of the header *)
  jwt_decode_header : string -> result string (option string);
  jwt_decode : N -> string -> DecodingKey -> Validation -> result string (gmap string Value);
  jwt_decode_exp : forall now token key v claims exp,
    jwt_decode now token key v = Ok claims -> va_validate_exp v = true ->
    claims !! "exp" = Some (VNumber (Some exp)) -> (now <= exp + va_leeway v)%N
}.

(** ** url *)
Class UrlLib := {
  Url : Type;
  url_parse : string -> result string Url;
  url_join : Url -> string -> result string Url;
  url_host : Url -> option string;
  url_scheme : Url -> string;
  url_to_file_path : Url -> option string;
  url_to_string : Url -> string
}.

(** ** base64 and simple_asn1 *)
Inductive ASN1Block :=
| ASN1Sequence (l : list ASN1Block)
| ASN1ObjectIdentifier (oid : list N)
| ASN1BitString (nbits : N) (content : list byte).
Class EncodingLib := {
  base64_encode : list byte -> string;
  der_encode : ASN1Block -> list byte
}.

(** ** Instances for concrete evaluation *)

Module Concrete.
(** Versions are their own text, non-empty and starting with a digit, ordered
    as text; a requirement is a version or a star. *)
Definition starts_with_digit (s : string) : bool :=
  match s with
  | String c _ => (48 <=? Ascii.N_of_ascii c)%N && (Ascii.N_of_ascii c <=? 57)%N
  | EmptyString => false
  end.
Definition parse (s : string) : result string string :=
  if starts_with_digit s then Ok s else Err "not a version".
Definition parse_req (s : string) : result string string :=
  if starts_with_digit s || bool_decide (s = "*") then Ok s else Err "not a requirement".
Definition matches (r v : string) : bool := bool_decide (r = "*" \/ r = v).

#[export] Instance text_semver : SemVer := {|
  Version := string;
  version_parse := parse;
  version_to_string := fun v => v;
  version_cmp := str_cmp;
  version_cmp_order := str_cmp_order;
  version_push_pre := fun s v => v +:+ "-" +:+ s;
  version_invalid := "0.0.1-invalid";
  VersionReq := string;
  req_parse := parse_req;
  req_parse_npm := parse_req;
  req_matches := matches
|}.

(** Identifiers are texts after a hash sign. *)
#[export] Instance text_uuid : UuidLib := {|
  uuid := string;
  uuid_eq_dec := _;
  uuid_countable := _;
  uuid_parse := fun s =>
    match s with String "#"%char r => Ok r | _ => Err "not a uuid" end;
  uuid_to_string := fun u => String "#"%char u;
  uuid_parse_to_string := fun u => eq_refl
|}.

(** Two spellings of each identifier, like the hyphenated and the simple form
    of a real one. *)
#[export] Instance two_form_uuid : UuidLib := {|
  uuid := string;
  uuid_eq_dec := _;
  uuid_countable := _;
  uuid_parse := fun s =>
    match s with String "#"%char r => Ok r | String "@"%char r => Ok r | _ => Err "not a uuid" end;
  uuid_to_string := fun u => String "#"%char u;
  uuid_parse_to_string := fun u => eq_refl
|}.

#[export] Instance text_digest : DigestLib := {|
  sha256 := fun b => b;
  hex_encode := String.string_of_list_byte;
  hex_decode := fun s => Ok (String.list_byte_of_string s);
  hex_decode_encode := fun b => f_equal Ok (String.list_byte_of_string_of_list_byte b)
|}.

(** Tokens are their subject and never name a key; every token expires at the
    time 1000. *)
Definition expires_at_1000 (token : string) : gmap string Value :=
  {[ "sub" := VString token; "exp" := VNumber (Some 1000%N) ]}.
#[export] Program Instance text_jwt : JwtLib := {|
  EncodingKey := unit;
  DecodingKey := list byte;
  encoding_key_from_rsa_pem := fun b => Ok tt;
  encoding_key_from_ec_pem := fun b => Ok tt;
  encoding_key_from_ec_der := fun b => tt;
  decoding_key_from_ec_pem := fun b => Ok b;
  decoding_key_from_rsa_components := fun n e => String.list_byte_of_string (n +:+ e);
  jwt_encode := fun alg kid claims key => Ok (default "none" kid);
  jwt_decode_header := fun token => Ok (Some "key:1");
  jwt_decode := fun now token key v =>
    if (now <=? 1000 + va_leeway v)%N || negb (va_validate_exp v)
    then Ok (expires_at_1000 token) else Err "ExpiredSignature"
|}.
Next Obligation.
  intros now token key v claims exp H Hv. simpl in H. rewrite Hv, orb_false_r in H.
  destruct (now <=? 1000 + va_leeway v)%N eqn:Hle; [|discriminate]. injection H as <-.
  unfold expires_at_1000. rewrite lookup_insert_ne, lookup_singleton_eq by done.
  intros [= <-]. by apply N.leb_le.
Qed.

(** Urls are their text, the host is the whole of it, the scheme and the path are
    what is before and after the first colon. *)
#[export] Instance text_url : UrlLib := {|
  Url := string;
  url_parse := fun s => match s with EmptyString => Err "empty" | _ => Ok s end;
  url_join := fun u s => Ok (u +:+ "/" +:+ s);
  url_host := fun u => Some u;
  url_scheme := fun u => match split_once ":" u with Some (scheme, _) => scheme | None => EmptyString end;
  url_to_file_path := fun u => match split_once ":" u with Some (_, path) => Some path | None => None end;
  url_to_string := fun u => u
|}.

#[export] Instance plain_encoding : EncodingLib := {|
  base64_encode := String.string_of_list_byte;
  der_encode := fun b => match b with ASN1Sequence [_; ASN1BitString _ c] => c | _ => [] end
|}.
End Concrete.
