(* ===== verification/Proto.v ===== *)
(** * Messages of the function and registry protocols

    The records the Rust code sees for protocols/firm_protocols/functions/
    functions.proto and registry.proto: message fields are options, maps are
    [gmap string _], enumerations are plain [i32] numbers decoded by the
    [*_from_i32] functions, and [u64] fields are [N]. *)
From S2P Require Import Prelude.

(** ** functions.proto *)
Inductive ChannelType := CTString | CTBool | CTInt | CTFloat | CTBytes.
#[export] Instance ChannelType_eq_dec : EqDecision ChannelType.
Proof. solve_decision. Defined.

Definition ChannelType_to_i32 (t : ChannelType) : Z :=
  match t with CTString => 0 | CTBool => 1 | CTInt => 2 | CTFloat => 3 | CTBytes => 4 end.
Definition ChannelType_from_i32 (z : Z) : option ChannelType :=
  match z with
  | 0 => Some CTString | 1 => Some CTBool | 2 => Some CTInt
  | 3 => Some CTFloat | 4 => Some CTBytes | _ => None
  end%Z.

Inductive AuthMethod := AMNone | AMBasic | AMOauth2.
#[export] Instance AuthMethod_eq_dec : EqDecision AuthMethod.
Proof. solve_decision. Defined.
Definition AuthMethod_to_i32 (m : AuthMethod) : Z :=
  match m with AMNone => 0 | AMBasic => 1 | AMOauth2 => 2 end.
Definition AuthMethod_from_i32 (z : Z) : option AuthMethod :=
  match z with 0 => Some AMNone | 1 => Some AMBasic | 2 => Some AMOauth2 | _ => None end%Z.

Record ChannelSpec := MkChannelSpec { cs_type : Z; cs_description : string }.
Record RuntimeSpec := MkRuntimeSpec {
  rs_name : string; rs_entrypoint : string; rs_arguments : gmap string string }.
Record Publisher := MkPublisher { pub_name : string; pub_email : string }.
Record AttachmentUrl := MkAttachmentUrl { au_url : string; au_auth_method : Z }.

(** [Checksums] has the one field [sha256] and [Signature] the one field
    [signature]; [AttachmentId] the one field [uuid]. *)
Record Checksums := MkChecksums { ck_sha256 : string }.
Record Signature := MkSignature { sig_signature : list byte }.
Record AttachmentId := MkAttachmentId { aid_uuid : string }.

Record Attachment := MkAttachment {
  att_name : string;
  att_url : option AttachmentUrl;
  att_metadata : gmap string string;
  att_checksums : option Checksums;
  att_created_at : N;
  att_publisher : option Publisher;
  att_signature : option Signature
}.

Record Function_ := MkFunction {
  fn_name : string;
  fn_version : string;
  fn_metadata : gmap string string;
  fn_required_inputs : gmap string ChannelSpec;
  fn_optional_inputs : gmap string ChannelSpec;
  fn_outputs : gmap string ChannelSpec;
  fn_code : option Attachment;
  fn_attachments : list Attachment;
  fn_runtime : option RuntimeSpec;
  fn_created_at : N;
  fn_publisher : option Publisher;
  fn_signature : option Signature
}.

(** ** registry.proto *)
Inductive OrderingKey := NameVersion.
Definition OrderingKey_from_i32 (z : Z) : option OrderingKey :=
  match z with 0 => Some NameVersion | _ => None end%Z.
Definition OrderingKey_to_i32 (k : OrderingKey) : Z := match k with NameVersion => 0 end.

Record Ordering := MkOrdering {
  ord_key : Z; ord_reverse : bool; ord_offset : N; ord_limit : N }.

Record Filters := MkFilters {
  fl_name : string;
  fl_version_requirement : option string;
  fl_metadata : gmap string string;
  fl_order : option Ordering;
  fl_publisher_email : string
}.

Record FunctionId := MkFunctionId { fid_name : string; fid_version : string }.

Record FunctionData := MkFunctionData {
  fd_name : string;
  fd_version : string;
  fd_metadata : gmap string string;
  fd_required_inputs : gmap string ChannelSpec;
  fd_optional_inputs : gmap string ChannelSpec;
  fd_outputs : gmap string ChannelSpec;
  fd_code_attachment_id : option AttachmentId;
  fd_runtime : option RuntimeSpec;
  fd_attachment_ids : list AttachmentId;
  fd_publisher : option Publisher;
  fd_signature : option Signature
}.

Record AttachmentStreamUpload := MkAttachmentStreamUpload {
  asu_id : option AttachmentId; asu_content : list byte }.

Record AttachmentData := MkAttachmentData {
  ad_name : string;
  ad_metadata : gmap string string;
  ad_checksums : option Checksums;
  ad_publisher : option Publisher;
  ad_signature : option Signature
}.

Record AttachmentHandle := MkAttachmentHandle {
  ah_id : option AttachmentId; ah_upload_url : option AttachmentUrl }.

(** [function.metadata.insert(k, v)] on a function. *)
Definition fn_set_metadata (m : gmap string string) (f : Function_) : Function_ :=
  MkFunction (fn_name f) (fn_version f) m (fn_required_inputs f) (fn_optional_inputs f)
    (fn_outputs f) (fn_code f) (fn_attachments f) (fn_runtime f) (fn_created_at f)
    (fn_publisher f) (fn_signature f).

(** ** Enumeration numbers *)
Lemma ChannelType_from_to t : ChannelType_from_i32 (ChannelType_to_i32 t) = Some t.
Proof. by destruct t. Qed.

Lemma ChannelType_from_Some z t :
  ChannelType_from_i32 z = Some t <-> z = ChannelType_to_i32 t.
Proof.
  split; [|intros ->; apply ChannelType_from_to].
  unfold ChannelType_from_i32. repeat case_match; intros [= <-]; done.
Qed.

Lemma ChannelType_to_inj t1 t2 : ChannelType_to_i32 t1 = ChannelType_to_i32 t2 -> t1 = t2.
Proof. by destruct t1, t2. Qed.
