(* ===== verification/Stream.v ===== *)
(** * Typed streams of named channels (libraries/rust/firm-types/src/stream.rs)

    A [Channel] carries one vector of one of five element types; a stream is a
    map from names to channels.  The macros [as_ref_try_from_impl!] and
    [to_channel_impl!] become definitions over the class [ChannelElem] of the
    element types and the class [IntoElem] of the types converted into one.

    Validation against a specification prints the expected type of a mismatched
    channel, and that printing calls itself on an enumeration number outside the
    protocol ([display_channel_spec]), so it takes fuel; one unit is enough for
    every number of the protocol and none is enough for another. *)
From S2P Require Import Prelude Proto.
From Stdlib Require Import Floats.SpecFloat.

(** ** Data *)

(** [ValueType], the [oneof] of a channel.  An [f64] is its value as a
    [spec_float]; the code only moves it. *)
Inductive ValueType :=
| Strings (values : list string)
| Integers (values : list Z)
| Floats (values : list spec_float)
| Booleans (values : list bool)
| Bytes (values : list byte).

Record Channel := MkChannel { ch_value : option ValueType }.
Record ValueStream := MkStream { channels : gmap string Channel }.

Record ChannelConversionError := MkConversionError {
  expected_type : string; found_type : string }.

Definition display_value (v : option ValueType) : string :=
  match v with
  | Some (Strings _) => "strings"
  | Some (Integers _) => "integers"
  | Some (Booleans _) => "booleans"
  | Some (Floats _) => "floats"
  | Some (Bytes _) => "bytes"
  | None => "null"
  end.
Definition display_channel (c : Channel) : string := display_value (ch_value c).

(** ** Conversions *)

(** An element type of a channel: the arguments of [as_ref_try_from_impl!]. *)
Class ChannelElem (T : Type) := {
  elem_type_name : string;
  elem_wrap : list T -> ValueType;
  elem_unwrap : ValueType -> option (list T);
  elem_unwrap_wrap : forall l, elem_unwrap (elem_wrap l) = Some l;
  elem_wrap_unwrap : forall v l, elem_unwrap v = Some l -> v = elem_wrap l
}.
Arguments elem_type_name T {_}.

Ltac solve_elem := intros []; simpl; congruence.
#[export] Instance elem_byte : ChannelElem byte.
Proof.
  refine {| elem_type_name := "byte"; elem_wrap := Bytes;
            elem_unwrap v := match v with Bytes l => Some l | _ => None end |};
    [done | solve_elem].
Defined.
#[export] Instance elem_string : ChannelElem string.
Proof.
  refine {| elem_type_name := "string"; elem_wrap := Strings;
            elem_unwrap v := match v with Strings l => Some l | _ => None end |};
    [done | solve_elem].
Defined.
#[export] Instance elem_i64 : ChannelElem Z.
Proof.
  refine {| elem_type_name := "integer"; elem_wrap := Integers;
            elem_unwrap v := match v with Integers l => Some l | _ => None end |};
    [done | solve_elem].
Defined.
#[export] Instance elem_f64 : ChannelElem spec_float.
Proof.
  refine {| elem_type_name := "float"; elem_wrap := Floats;
            elem_unwrap v := match v with Floats l => Some l | _ => None end |};
    [done | solve_elem].
Defined.
#[export] Instance elem_bool : ChannelElem bool.
Proof.
  refine {| elem_type_name := "boolean"; elem_wrap := Booleans;
            elem_unwrap v := match v with Booleans l => Some l | _ => None end |};
    [done | solve_elem].
Defined.

(** [get_exactly_one]. *)
Definition get_exactly_one {T} (values : list T) (expected_type_name : string)
  : result ChannelConversionError T :=
  if Nat.ltb 1 (length values) then
    Err (MkConversionError expected_type_name ("array of " +:+ expected_type_name +:+ "s"))
  else
    ok_or (MkConversionError expected_type_name (display_value None)) (head values).

(** [TryRefFromChannel for [T]] and [TryFromChannel for Vec<T>]: they differ in
    borrowing only. *)
Definition try_from_vec (T : Type) `{ChannelElem T} (c : Channel)
  : result ChannelConversionError (list T) :=
  ok_or (MkConversionError ("array of " +:+ elem_type_name T +:+ "s") (display_channel c))
        (ch_value c ≫= elem_unwrap).

(** [TryRefFromChannel for T] and [TryFromChannel for T]. *)
Definition try_from_one (T : Type) `{ChannelElem T} (c : Channel)
  : result ChannelConversionError T :=
  match ch_value c ≫= elem_unwrap with
  | Some v => get_exactly_one v (elem_type_name T)
  | None => Err (MkConversionError (elem_type_name T) (display_channel c))
  end.

(** [TryFromChannel for Option<T>], over the conversion of [T]. *)
Definition try_from_option {A} (try_from : Channel -> result ChannelConversionError A)
  (c : Channel) : result ChannelConversionError (option A) :=
  match ch_value c with
  | Some _ => Some <$> try_from c
  | None => Ok None
  end.

(** A type whose values convert into elements: the [v.into()] of
    [to_channel_impl!]. *)
Class IntoElem (T U : Type) := into_elem : T -> U.
#[export] Instance into_elem_refl {U} `{ChannelElem U} : IntoElem U U := fun u => u.

(** Fixed-width integers that convert to [i64]. *)
Record bounded (lo hi : Z) := MkBounded {
  bounded_val : Z; bounded_range : (lo <= bounded_val <= hi)%Z }.
Arguments MkBounded {lo hi} _ _.
Arguments bounded_val {lo hi} _.
Definition i8 := bounded (-128) 127.
Definition i16 := bounded (-32768) 32767.
Definition i32 := bounded (-2147483648) 2147483647.
Definition u16 := bounded 0 65535.
Definition u32 := bounded 0 4294967295.
#[export] Instance into_i64 {lo hi} : IntoElem (bounded lo hi) Z := bounded_val.

Definition to_channel_vec {T U} `{IntoElem T U, ChannelElem U} (vs : list T) : Channel :=
  MkChannel (Some (elem_wrap (into_elem <$> vs))).
Definition to_channel_one {T U} `{IntoElem T U, ChannelElem U} (v : T) : Channel :=
  MkChannel (Some (elem_wrap [into_elem v])).
Definition to_channel_option {A} (to_channel : A -> Channel) (v : option A) : Channel :=
  match v with Some value => to_channel value | None => MkChannel None end.

(** ** Streams ([StreamExt for ValueStream]) *)
Definition stream_new : ValueStream := MkStream ∅.
Definition get_channel (s : ValueStream) (name : string) : option Channel := channels s !! name.
Definition has_channel (s : ValueStream) (name : string) : bool :=
  bool_decide (is_Some (channels s !! name)).
Definition set_channel (s : ValueStream) (name : string) (c : Channel) : ValueStream :=
  MkStream (<[name := c]> (channels s)).
(** [self.channels.extend(other.channels)]: the other stream wins. *)
Definition merge (s other : ValueStream) : ValueStream :=
  MkStream (channels other ∪ channels s).
Definition get_channel_as_ref {A} (try_from : Channel -> result ChannelConversionError A)
  (s : ValueStream) (name : string) : result ChannelConversionError A :=
  c ← ok_or (MkConversionError "?" (display_channel (MkChannel None))) (get_channel s name);
  try_from c.

(** ** Validation *)
Inductive StreamValidationError :=
| MismatchedChannelType (channel_name expected got : string)
| UnexpectedChannel (channel_name : string)
| RequiredChannelMissing (channel_name : string).

Definition type_matches (c : Channel) (spec : ChannelSpec) : bool :=
  match ch_value c with
  | Some (Strings _) => Z.eqb (cs_type spec) (ChannelType_to_i32 CTString)
  | Some (Integers _) => Z.eqb (cs_type spec) (ChannelType_to_i32 CTInt)
  | Some (Floats _) => Z.eqb (cs_type spec) (ChannelType_to_i32 CTFloat)
  | Some (Booleans _) => Z.eqb (cs_type spec) (ChannelType_to_i32 CTBool)
  | Some (Bytes _) => Z.eqb (cs_type spec) (ChannelType_to_i32 CTBytes)
  | None => false
  end.

Definition channel_type_name (t : ChannelType) : string :=
  match t with
  | CTString => "string" | CTInt => "integer" | CTBool => "boolean"
  | CTFloat => "float" | CTBytes => "bytes"
  end.

(** [Display for Displayer<ChannelSpec>]: the last arm formats [self] with the
    formatter it is part of. *)
Fixpoint display_channel_spec (fuel : nat) (spec : ChannelSpec) : option string :=
  match fuel with
  | O => None
  | S fuel' =>
      match ChannelType_from_i32 (cs_type spec) with
      | Some t => Some (channel_type_name t)
      | None => s ← display_channel_spec fuel' spec;
                Some ("Unknown type with discriminator " +:+ s)
      end
  end.

Section validate.
Context `{HashOrder}.
Context (self : ValueStream) (required : gmap string ChannelSpec)
        (optional : option (gmap string ChannelSpec)).

Definition is_expected (k : string) : bool :=
  bool_decide (is_Some (required !! k)) ||
  match optional with Some o => bool_decide (is_Some (o !! k)) | None => false end.

(** The chained iterator of [validate]. *)
Definition validation_items : list (result StreamValidationError (string * Channel * ChannelSpec)) :=
  ((fun '(name, spec) =>
      ok_or (RequiredChannelMissing name) ((fun c => (name, c, spec)) <$> channels self !! name))
     <$> hash_iter required)
  ++ omap (fun '(name, spec) => (fun c => Ok (name, c, spec)) <$> channels self !! name)
       (match optional with Some o => hash_iter o | None => [] end)
  ++ omap (fun k => if is_expected k then None else Some (Err (UnexpectedChannel k)))
       (hash_keys (channels self)).

(** Its final [filter_map]. *)
Definition judge (fuel : nat) (r : result StreamValidationError (string * Channel * ChannelSpec))
  : option (option StreamValidationError) :=
  match r with
  | Ok (name, c, spec) =>
      if type_matches c spec then Some None
      else e ← display_channel_spec fuel spec;
           Some (Some (MismatchedChannelType name e (display_channel c)))
  | Err e => Some (Some e)
  end.

Definition validate (fuel : nat) : option (result (list StreamValidationError) unit) :=
  outs ← mapM (judge fuel) validation_items;
  let err := omap id outs in
  Some (if bool_decide (err = []) then Ok tt else Err err).
End validate.

(** ** Theorems *)

Lemma display_channel_spec_some fuel spec t :
  ChannelType_from_i32 (cs_type spec) = Some t ->
  display_channel_spec (S fuel) spec = Some (channel_type_name t).
Proof. intros H. simpl. by rewrite H. Qed.

Lemma display_channel_spec_none fuel spec :
  ChannelType_from_i32 (cs_type spec) = None -> display_channel_spec fuel spec = None.
Proof. intros H. induction fuel as [|fuel IH]; simpl; [done|]. by rewrite H, IH. Qed.

(** The type a channel holds, as the number a specification would carry. *)
Definition value_type (v : ValueType) : ChannelType :=
  match v with
  | Strings _ => CTString | Integers _ => CTInt | Floats _ => CTFloat
  | Booleans _ => CTBool | Bytes _ => CTBytes
  end.

Lemma type_matches_iff c spec :
  type_matches c spec = true <->
  exists v, ch_value c = Some v /\ ChannelType_from_i32 (cs_type spec) = Some (value_type v).
Proof.
  unfold type_matches. destruct (ch_value c) as [v|].
  - transitivity (ChannelType_from_i32 (cs_type spec) = Some (value_type v)).
    + rewrite ChannelType_from_Some. destruct v; apply Z.eqb_eq.
    + split; [eauto | by intros (? & [= ->] & ?)].
  - split; [done | by intros (? & ? & _)].
Qed.

Section validate_spec.
Context `{HashOrder} (self : ValueStream) (required : gmap string ChannelSpec)
        (optional : option (gmap string ChannelSpec)).

(** [name] is declared with [spec], as required or as optional. *)
Definition declared (name : string) (spec : ChannelSpec) : Prop :=
  required !! name = Some spec \/ exists o, optional = Some o /\ o !! name = Some spec.

(** What the documentation of [validate] asks of a stream. *)
Record conforms : Prop := {
  conforms_required : forall name spec, required !! name = Some spec -> is_Some (channels self !! name);
  conforms_types : forall name spec c,
    declared name spec -> channels self !! name = Some c -> type_matches c spec = true;
  conforms_expected : forall name, is_Some (channels self !! name) -> exists spec, declared name spec
}.

(** The ways a stream can fail to, with the error each is reported as. *)
Inductive violation : StreamValidationError -> Prop :=
| violation_missing name spec :
    required !! name = Some spec -> channels self !! name = None ->
    violation (RequiredChannelMissing name)
| violation_type name spec c t :
    declared name spec -> channels self !! name = Some c -> type_matches c spec = false ->
    ChannelType_from_i32 (cs_type spec) = Some t ->
    violation (MismatchedChannelType name (channel_type_name t) (display_channel c))
| violation_unexpected name :
    is_Some (channels self !! name) -> (forall spec, ~ declared name spec) ->
    violation (UnexpectedChannel name).

(** Every declared type is a number of the protocol. *)
Definition specs_in_range : Prop :=
  forall name spec, declared name spec -> is_Some (ChannelType_from_i32 (cs_type spec)).

#[local] Abbreviation items := (validation_items self required optional).

Lemma is_expected_iff k :
  is_expected required optional k = true <-> exists spec, declared k spec.
Proof.
  unfold is_expected, declared. rewrite orb_true_iff, bool_decide_eq_true. split.
  - intros [[spec Hr]|Ho]; [eauto|]. destruct optional as [o|]; [|done].
    apply bool_decide_eq_true in Ho as [spec Ho]. eauto.
  - intros [spec [Hr|(o & -> & Ho)]]; [by eauto|]. right. apply bool_decide_eq_true. eauto.
Qed.

Lemma items_Ok name c spec :
  Ok (name, c, spec) ∈ items <-> declared name spec /\ channels self !! name = Some c.
Proof.
  unfold validation_items, declared. rewrite !elem_of_app, list_elem_of_fmap, !list_elem_of_omap.
  split.
  - intros [([n s] & Heq & Hin)|[([n s] & Hin & Heq)|(k & _ & Heq)]].
    + rewrite elem_of_hash_iter in Hin.
      destruct (channels self !! n) eqn:Hc; simplify_eq/=; auto.
    + destruct optional as [o|]; [|set_solver]. rewrite elem_of_hash_iter in Hin.
      destruct (channels self !! n) eqn:Hc; simplify_eq/=. eauto.
    + by destruct (is_expected _ _ k).
  - intros [[Hr|(o & -> & Ho)] Hc]; [left|right; left]; exists (name, spec);
      rewrite ?elem_of_hash_iter, ?Hc; auto.
Qed.

Lemma items_Err e :
  Err e ∈ items <->
  (exists name spec, required !! name = Some spec /\ channels self !! name = None /\
                     e = RequiredChannelMissing name) \/
  (exists name, is_Some (channels self !! name) /\ (forall spec, ~ declared name spec) /\
                e = UnexpectedChannel name).
Proof.
  unfold validation_items. rewrite !elem_of_app, list_elem_of_fmap, !list_elem_of_omap.
  split.
  - intros [([n s] & Heq & Hin)|[([n s] & Hin & Heq)|(k & Hin & Heq)]].
    + rewrite elem_of_hash_iter in Hin. destruct (channels self !! n) eqn:Hc; simplify_eq/=.
      left. eauto.
    + by destruct (channels self !! n).
    + rewrite elem_of_hash_keys in Hin. destruct (is_expected _ _ k) eqn:Hk; simplify_eq/=.
      right. exists k. split_and!; [done| |done]. intros spec Hd.
      assert (is_expected required optional k = true); [apply is_expected_iff; eauto|congruence].
  - intros [(n & s & Hr & Hc & ->)|(k & Hk & Hd & ->)].
    + left. exists (n, s). by rewrite elem_of_hash_iter, Hc.
    + right. right. exists k. rewrite elem_of_hash_keys. split; [done|].
      destruct (is_expected _ _ k) eqn:Hx; [|done].
      apply is_expected_iff in Hx as [spec ?]. by destruct (Hd spec).
Qed.

Lemma judge_total fuel r :
  specs_in_range -> r ∈ items -> is_Some (judge (S fuel) r).
Proof.
  intros Hrange Hin. destruct r as [[[name c] spec]|e]; [|by eexists]. cbn [judge].
  apply items_Ok in Hin as [Hd _]. destruct (Hrange _ _ Hd) as [t Ht].
  rewrite (display_channel_spec_some _ _ t Ht). destruct (type_matches _ _); simpl; eauto.
Qed.

Lemma judge_violation fuel r e :
  r ∈ items -> judge (S fuel) r = Some (Some e) -> violation e.
Proof.
  intros Hin. destruct r as [[[name c] spec]|e']; cbn [judge].
  - apply items_Ok in Hin as [Hd Hc]. destruct (type_matches c spec) eqn:Hm; [done|].
    destruct (ChannelType_from_i32 (cs_type spec)) as [t|] eqn:Ht.
    + rewrite (display_channel_spec_some _ _ t Ht). intros [= <-]. by eapply violation_type.
    + by rewrite display_channel_spec_none.
  - intros [= ->]. apply items_Err in Hin as [(n & s & ? & ? & ->)|(n & ? & ? & ->)];
      by econstructor.
Qed.

Lemma violation_judged fuel e :
  violation e -> exists r, r ∈ items /\ judge (S fuel) r = Some (Some e).
Proof.
  intros [name spec Hr Hc|name spec c t Hd Hc Hm Ht|name Hs Hd].
  - exists (Err (RequiredChannelMissing name)). split; [apply items_Err; eauto 10|done].
  - exists (Ok (name, c, spec)). split; [by apply items_Ok|]. cbn [judge].
    by rewrite Hm, (display_channel_spec_some _ _ t Ht).
  - exists (Err (UnexpectedChannel name)). split; [apply items_Err; eauto 10|done].
Qed.

Lemma validate_returns fuel :
  specs_in_range ->
  exists outs : list (option StreamValidationError),
    mapM (judge (S fuel)) items = Some outs /\
    forall e, e ∈ omap id outs <-> violation e.
Proof.
  intros Hrange.
  assert (is_Some (mapM (judge (S fuel)) items)) as [outs Houts].
  { apply mapM_is_Some, Forall_forall. intros r. by apply judge_total. }
  exists outs. split; [done|]. intros e. apply mapM_Some in Houts.
  rewrite list_elem_of_omap. split.
  - intros (o & Ho & [= ->]). apply list_elem_of_lookup in Ho as [i Hi].
    destruct (Forall2_lookup_r _ _ _ _ _ Houts Hi) as (r & Hr & Hj).
    eapply judge_violation; [by eapply list_elem_of_lookup_2|done].
  - intros Hv. destruct (violation_judged fuel e Hv) as (r & Hr & Hj).
    apply list_elem_of_lookup in Hr as [i Hi].
    destruct (Forall2_lookup_l _ _ _ _ _ Houts Hi) as (o & Ho & Hj').
    exists (Some e). split; [|done]. eapply list_elem_of_lookup_2. naive_solver.
Qed.

Lemma conforms_iff_no_violation :
  specs_in_range -> conforms <-> forall e, ~ violation e.
Proof.
  intros Hrange. split.
  - intros [Hr Ht He] e [name spec Hq Hc|name spec c t Hd Hc Hm _|name Hs Hd].
    + destruct (Hr _ _ Hq). congruence.
    + rewrite (Ht _ _ _ Hd Hc) in Hm. done.
    + destruct (He _ Hs) as [spec ?]. by destruct (Hd spec).
  - intros Hno. split.
    + intros name spec Hq. destruct (channels self !! name) eqn:Hc; [done|].
      destruct (Hno _ (violation_missing _ _ Hq Hc)).
    + intros name spec c Hd Hc. destruct (type_matches c spec) eqn:Hm; [done|].
      destruct (Hrange _ _ Hd) as [t Ht]. destruct (Hno _ (violation_type _ _ _ _ Hd Hc Hm Ht)).
    + intros name Hs. destruct (is_expected required optional name) eqn:Hx.
      * by apply is_expected_iff.
      * destruct (Hno (UnexpectedChannel name)). constructor; [done|]. intros spec Hd.
        assert (is_expected required optional name = true); [apply is_expected_iff; eauto|congruence].
Qed.
End validate_spec.

(** C3: [validate] is the specification check its documentation describes.  For
    specifications whose types are protocol numbers it returns, it answers
    [Ok] exactly for the streams that conform, and the errors it reports
    otherwise are exactly the violations there are: a missing required channel,
    a channel of another type, a channel nothing declares. *)
Theorem validate_correct `{HashOrder} self required optional fuel :
  specs_in_range required optional ->
  (conforms self required optional /\
   validate self required optional (S fuel) = Some (Ok tt)) \/
  (~ conforms self required optional /\
   exists errs, validate self required optional (S fuel) = Some (Err errs) /\ errs <> [] /\
     forall e, e ∈ errs <-> violation self required optional e).
Proof.
  intros Hrange. destruct (validate_returns self required optional fuel Hrange) as (outs & Hm & Hv).
  unfold validate. rewrite Hm. simpl.
  rewrite (conforms_iff_no_violation self required optional Hrange).
  case_bool_decide as Hnil; [left|right].
  - split; [|done]. intros e He. apply Hv in He. rewrite Hnil in He. set_solver.
  - split; [|eauto]. intros Hno. destruct (omap id outs) as [|e l] eqn:Ho; [done|].
    destruct (Hno e). apply Hv. rewrite ?Ho. set_solver.
Qed.

Definition w_int_spec : ChannelSpec := MkChannelSpec 2 "a number".
Lemma validate_correct_witness :
  let self := MkStream {[ "n" := to_channel_one 3%Z ]} in
  let required := {[ "n" := w_int_spec; "m" := w_int_spec ]} in
  specs_in_range required None /\
  ((conforms self required None /\
    @validate key_order self required None 1 = Some (Ok tt)) \/
   (~ conforms self required None /\
    exists errs, @validate key_order self required None 1 = Some (Err errs) /\ errs <> [] /\
      forall e, e ∈ errs <-> violation self required None e)).
Proof.
  intros self required.
  assert (specs_in_range required None) as Hr.
  { intros name spec [Hl|(o & [=] & _)]. unfold required in Hl.
    repeat (rewrite lookup_insert_Some in Hl || rewrite lookup_singleton_Some in Hl).
    assert (spec = w_int_spec) as -> by naive_solver. by eexists. }
  split; [exact Hr | exact (@validate_correct key_order self required None 0 Hr)].
Defined.

(** A declared type outside the protocol's numbers makes [validate] run
    forever (in the program: overflow the stack) on every stream that has a
    value in that channel, whatever the fuel, because printing such a type
    prints itself. *)
Theorem validate_unknown_type_diverges `{HashOrder} self required optional name spec c :
  declared required optional name spec ->
  ChannelType_from_i32 (cs_type spec) = None ->
  channels self !! name = Some c ->
  forall fuel, validate self required optional fuel = None.
Proof.
  intros Hd Ht Hc fuel. unfold validate.
  destruct (mapM (judge fuel) (validation_items self required optional)) as [outs|] eqn:Hm; [|done].
  exfalso. apply mapM_Some in Hm.
  assert (Ok (name, c, spec) ∈ validation_items self required optional) as Hin by by apply items_Ok.
  apply list_elem_of_lookup in Hin as [i Hi].
  destruct (Forall2_lookup_l _ _ _ _ _ Hm Hi) as (o & _ & Hj). cbn [judge] in Hj.
  destruct (type_matches c spec) eqn:Hx.
  - apply type_matches_iff in Hx as (v & _ & ?). congruence.
  - by rewrite display_channel_spec_none in Hj.
Qed.

Lemma validate_unknown_type_diverges_witness :
  @validate key_order (MkStream {[ "n" := to_channel_one 3%Z ]})
    {[ "n" := MkChannelSpec 5 "unheard of" ]} None 1000 = None.
Proof.
  apply (@validate_unknown_type_diverges key_order _ _ _ "n" (MkChannelSpec 5 "unheard of")
           (to_channel_one 3%Z)).
  - left. apply lookup_singleton_eq.
  - reflexivity.
  - apply lookup_singleton_eq.
Defined.

(** *** Conversions *)

Lemma elem_unwrap_eq {T} `{ChannelElem T} v l : elem_unwrap v = Some l <-> v = elem_wrap l.
Proof. split; [apply elem_wrap_unwrap | intros ->; apply elem_unwrap_wrap]. Qed.

Lemma try_from_vec_Ok {T} `{ChannelElem T} c l :
  try_from_vec T c = Ok l <-> ch_value c = Some (elem_wrap l).
Proof.
  unfold try_from_vec. rewrite ok_or_Ok. destruct (ch_value c) as [v|]; simpl; [|done].
  rewrite elem_unwrap_eq. split; congruence.
Qed.

Lemma try_from_one_Ok {T} `{ChannelElem T} c x :
  try_from_one T c = Ok x <-> ch_value c = Some (elem_wrap [x]).
Proof.
  unfold try_from_one, get_exactly_one. destruct (ch_value c) as [v|]; simpl; [|done].
  destruct (elem_unwrap v) as [l|] eqn:Hv.
  - apply elem_unwrap_eq in Hv as ->.
    assert (elem_wrap l = elem_wrap [x] <-> l = [x]) as Hinj.
    { split; [|by intros ->]. intros Hw. apply (f_equal elem_unwrap) in Hw.
      rewrite !elem_unwrap_wrap in Hw. congruence. }
    destruct l as [|y [|z l]]; simpl.
    + split; [done|]. intros [= Hw]. by apply Hinj in Hw.
    + split; [by intros [= ->]|]. intros [= Hw]. apply Hinj in Hw. congruence.
    + split; [done|]. intros [= Hw]. by apply Hinj in Hw.
  - split; [done|]. intros [= ->]. by rewrite elem_unwrap_wrap in Hv.
Qed.

(** Conversion into a channel and back is the identity, for vectors, for
    single values and for optional values, at every element type and for every
    type the code converts into it; reading one value succeeds exactly on the
    channels that hold exactly one element of that type. *)
Theorem channel_roundtrip {T U} `{IntoElem T U, ChannelElem U} :
  (forall vs : list T, try_from_vec U (to_channel_vec vs) = Ok (into_elem <$> vs)) /\
  (forall v : T, try_from_one U (to_channel_one v) = Ok (into_elem v)) /\
  (forall o : option T, try_from_option (try_from_one U) (to_channel_option to_channel_one o)
                        = Ok (into_elem <$> o)) /\
  (forall c (x : U), try_from_one U c = Ok x <-> ch_value c = Some (elem_wrap [x])).
Proof.
  assert (forall v : T, try_from_one U (to_channel_one v) = Ok (into_elem v)) as Hone
    by (intros v; by apply try_from_one_Ok).
  split_and!; [intros vs; by apply try_from_vec_Ok | exact Hone | | intros; apply try_from_one_Ok].
  intros [v|]; simpl; [|done]. unfold try_from_option. simpl. by rewrite Hone.
Qed.

(** The error branch of reading one value: which error for how many elements. *)
Lemma get_exactly_one_cases {T} (l : list T) name :
  match l with
  | [x] => get_exactly_one l name = Ok x
  | [] => get_exactly_one l name = Err (MkConversionError name "null")
  | _ => get_exactly_one l name = Err (MkConversionError name ("array of " +:+ name +:+ "s"))
  end.
Proof. by destruct l as [|x [|y l]]. Qed.

Lemma channels_merge s other name :
  get_channel (merge s other) name =
    match get_channel other name with Some c => Some c | None => get_channel s name end.
Proof.
  unfold get_channel, merge. simpl. rewrite lookup_union.
  by destruct (channels other !! name), (channels s !! name).
Qed.
