(* ===== verification/Regex.v ===== *)
(** * Regular expressions and the pattern of function names

    The [regex] crate is third-party: [RegexEngine] states its contract (an
    anchored pattern matches exactly the texts of its language) and
    [derivative_engine] inhabits it.  [name_pattern] is the literal both
    registries compile; [name_pattern_iff] describes its language by a
    left-to-right scan. *)
From S2P Require Import Prelude.
From Stdlib Require Import Ascii.

Inductive re :=
| REmpty | REps | RSet (p : ascii -> bool) | RCat (a b : re) | RAlt (a b : re) | RStar (a : re).

Definition RPlus (a : re) : re := RCat a (RStar a).
Definition ROpt (a : re) : re := RAlt REps a.

Inductive re_in : re -> list ascii -> Prop :=
| in_eps : re_in REps []
| in_set p c : p c = true -> re_in (RSet p) [c]
| in_cat a b l1 l2 : re_in a l1 -> re_in b l2 -> re_in (RCat a b) (l1 ++ l2)
| in_alt_l a b l : re_in a l -> re_in (RAlt a b) l
| in_alt_r a b l : re_in b l -> re_in (RAlt a b) l
| in_star_nil a : re_in (RStar a) []
| in_star_cons a l1 l2 : re_in a l1 -> re_in (RStar a) l2 -> re_in (RStar a) (l1 ++ l2).
#[export] Hint Constructors re_in : firm.

Definition chars (s : string) : list ascii := String.list_ascii_of_string s.

(** [Regex::is_match] of a pattern [^...$]. *)
Class RegexEngine := {
  is_match : re -> string -> bool;
  is_match_iff : forall r s, is_match r s = true <-> re_in r (chars s)
}.

(** ** Character classes *)
Definition in_range (lo hi : N) (c : ascii) : bool :=
  (lo <=? N_of_ascii c)%N && (N_of_ascii c <=? hi)%N.
Definition lower : ascii -> bool := in_range 97 122.
Definition digit : ascii -> bool := in_range 48 57.
Definition alnum (c : ascii) : bool := lower c || digit c.
Definition dash (c : ascii) : bool := (N_of_ascii c =? 45)%N.

(** [^[a-z][a-z0-9]{1,}([a-z0-9\-]?[a-z0-9]+)+$|^[a-z][a-z0-9]{2,}$] *)
Definition name_group : re := RCat (ROpt (RSet (fun c => alnum c || dash c))) (RPlus (RSet alnum)).
Definition name_pattern : re :=
  RAlt (RCat (RSet lower) (RCat (RPlus (RSet alnum)) (RPlus name_group)))
       (RCat (RSet lower) (RCat (RSet alnum) (RPlus (RSet alnum)))).

(** ** A matcher *)
Fixpoint nullable (r : re) : bool :=
  match r with
  | REmpty | RSet _ => false
  | REps | RStar _ => true
  | RCat a b => nullable a && nullable b
  | RAlt a b => nullable a || nullable b
  end.
Fixpoint derive (c : ascii) (r : re) : re :=
  match r with
  | REmpty | REps => REmpty
  | RSet p => if p c then REps else REmpty
  | RCat a b =>
      if nullable a then RAlt (RCat (derive c a) b) (derive c b) else RCat (derive c a) b
  | RAlt a b => RAlt (derive c a) (derive c b)
  | RStar a => RCat (derive c a) (RStar a)
  end.
Fixpoint re_match (r : re) (l : list ascii) : bool :=
  match l with [] => nullable r | c :: l' => re_match (derive c r) l' end.

Lemma nullable_iff r : nullable r = true <-> re_in r [].
Proof.
  induction r as [| |p|a IHa b IHb|a IHa b IHb|a IHa]; simpl.
  - split; [done | inversion 1].
  - split; auto with firm.
  - split; [done | inversion 1].
  - rewrite andb_true_iff, IHa, IHb. split.
    + intros [H1 H2]. exact (in_cat _ _ [] [] H1 H2).
    + inversion 1 as [| |? ? l1 l2 H1 H2 Heq Hnil| | | |]; subst.
      apply app_eq_nil in Hnil as [-> ->]. done.
  - rewrite orb_true_iff, IHa, IHb. split; [intros []; auto with firm | inversion 1; auto].
  - split; auto with firm.
Qed.

Lemma star_cons_inv a c l :
  re_in (RStar a) (c :: l) -> exists l1 l2, l = l1 ++ l2 /\ re_in a (c :: l1) /\ re_in (RStar a) l2.
Proof.
  intros H. remember (RStar a) as r eqn:Hr. remember (c :: l) as w eqn:Hw.
  revert Hr Hw. induction H as [| | | | | |a' l1 l2 H1 IH1 H2 IH2]; intros Hr Hw; try discriminate.
  injection Hr as ->. destruct l1 as [|d l1]; simpl in Hw.
  - by apply IH2.
  - injection Hw as -> <-. eauto.
Qed.

Lemma derive_iff c r l : re_in (derive c r) l <-> re_in r (c :: l).
Proof.
  revert l. induction r as [| |p|a IHa b IHb|a IHa b IHb|a IHa]; intros l; simpl.
  - split; inversion 1.
  - split; inversion 1.
  - destruct (p c) eqn:Hp; split; inversion 1; subst; try constructor; congruence.
  - assert (re_in (RCat a b) (c :: l) <->
      re_in (RCat (derive c a) b) l \/ (re_in a [] /\ re_in b (c :: l))) as ->.
    { split.
      - inversion 1 as [| |? ? l1 l2 H1 H2 Heq Hl| | | |]; subst.
        destruct l1 as [|d l1]; simpl in Hl.
        + subst. auto.
        + injection Hl as -> <-. left. constructor; [by apply IHa|done].
      - intros [H|[H1 H2]].
        + inversion H as [| |? ? l1 l2 H1 H2 Heq Hl| | | |]; subst.
          apply IHa in H1. exact (in_cat _ _ (c :: l1) l2 H1 H2).
        + exact (in_cat _ _ [] (c :: l) H1 H2). }
    rewrite <- nullable_iff. destruct (nullable a).
    + rewrite <- IHb. split; [inversion 1; auto | intros [|[_ ?]]; auto with firm].
    + split; [auto | by intros [|[? _]]].
  - split; inversion 1; subst; (apply in_alt_l; by apply IHa) || (apply in_alt_r; by apply IHb).
  - split.
    + inversion 1 as [| |? ? l1 l2 H1 H2 Heq Hl| | | |]; subst.
      apply IHa in H1. exact (in_star_cons _ (c :: l1) l2 H1 H2).
    + intros (l1 & l2 & -> & H1 & H2)%star_cons_inv. constructor; [by apply IHa|done].
Qed.

Lemma re_match_iff r l : re_match r l = true <-> re_in r l.
Proof.
  revert r. induction l as [|c l IH]; intros r; simpl; [apply nullable_iff|].
  rewrite IH. apply derive_iff.
Qed.

Definition derivative_engine : RegexEngine :=
  {| is_match r s := re_match r (chars s); is_match_iff r s := re_match_iff r (chars s) |}.

(** ** The language of names *)

(** Letters, digits and dashes, every dash followed by a letter or digit. *)
Fixpoint dashes_ok (l : list ascii) : bool :=
  match l with
  | [] => true
  | c :: l' =>
      if alnum c then dashes_ok l'
      else dash c && match l' with [] => false | d :: _ => alnum d && dashes_ok l' end
  end.
Definition name_ok (l : list ascii) : bool :=
  match l with
  | c :: d :: e :: l' => lower c && alnum d && dashes_ok (e :: l')
  | _ => false
  end.

Lemma dashes_ok_app l1 l2 :
  dashes_ok l1 = true -> dashes_ok l2 = true -> dashes_ok (l1 ++ l2) = true.
Proof.
  intros H1 H2. induction l1 as [|c l1 IH]; [done|]. simpl in *.
  destruct (alnum c); [auto|]. destruct l1 as [|d l1].
  - by rewrite andb_false_r in H1.
  - apply andb_true_iff in H1 as [Hc [Ha H1]%andb_true_iff].
    simpl in *. rewrite Hc, Ha in *. auto.
Qed.

Lemma alnum_star l : re_in (RStar (RSet alnum)) l <-> Forall (fun c => alnum c = true) l.
Proof.
  split.
  - intros H. remember (RStar (RSet alnum)) as r eqn:Hr. revert Hr.
    induction H as [| | | | | |a l1 l2 H1 IH1 H2 IH2]; intros Hr; try discriminate; [constructor|].
    injection Hr as ->. inversion H1; subst. constructor; auto.
  - induction 1 as [|c l Hc Hl IH]; [constructor|].
    exact (in_star_cons _ [c] l (in_set _ _ Hc) IH).
Qed.

Lemma alnum_plus l :
  re_in (RPlus (RSet alnum)) l <-> l <> [] /\ Forall (fun c => alnum c = true) l.
Proof.
  split.
  - inversion 1 as [| |? ? l1 l2 H1 H2 Heq Hl| | | |]; subst. inversion H1; subst.
    split; [done|]. constructor; [done|]. by apply alnum_star.
  - intros [Hne Hl]. destruct Hl as [|c l Hc Hl]; [done|].
    exact (in_cat _ _ [c] l (in_set _ _ Hc) (proj2 (alnum_star l) Hl)).
Qed.

Lemma alnum_dashes_ok l : Forall (fun c => alnum c = true) l -> dashes_ok l = true.
Proof. induction 1 as [|c l Hc Hl IH]; simpl; [done|]. by rewrite Hc. Qed.

Lemma name_group_ok l : re_in name_group l -> l <> [] /\ dashes_ok l = true.
Proof.
  inversion 1 as [| |? ? l1 l2 H1 H2 Heq Hl| | | |]; subst. apply alnum_plus in H2 as [Hne H2].
  split; [by destruct l1, l2|]. pose proof (alnum_dashes_ok _ H2) as Hok.
  inversion H1 as [| | |? ? ? He|? ? ? Hs| |]; subst.
  - by inversion He; subst.
  - inversion Hs as [|? c Hc| | | | |]; subst. simpl. destruct (alnum c); [done|].
    simpl in Hc. rewrite Hc. destruct H2 as [|d l2 Hd H2]; [done|].
    simpl in *. by rewrite Hd in *.
Qed.

Lemma name_groups_ok l : re_in (RStar name_group) l -> dashes_ok l = true.
Proof.
  intros H. remember (RStar name_group) as r eqn:Hr. revert Hr.
  induction H as [| | | | | |a l1 l2 H1 IH1 H2 IH2]; intros Hr; try discriminate; [done|].
  injection Hr as ->. apply dashes_ok_app; [by apply name_group_ok | auto].
Qed.

Lemma name_group_one c : alnum c = true -> re_in name_group [c].
Proof.
  intros Hc. apply (in_cat _ _ [] [c]); [by apply in_alt_l; constructor|].
  apply alnum_plus. by auto.
Qed.

Lemma name_group_dash c d : dash c = true -> alnum d = true -> re_in name_group [c; d].
Proof.
  intros Hc Hd. apply (in_cat _ _ [c] [d]).
  - apply in_alt_r. constructor. by rewrite Hc, orb_true_r.
  - apply alnum_plus. by auto.
Qed.

Lemma name_groups_complete n l :
  length l <= n -> dashes_ok l = true -> re_in (RStar name_group) l.
Proof.
  revert l. induction n as [|n IH]; intros [|c l] Hn Hok; simpl in *; try (constructor || lia).
  destruct (alnum c) eqn:Hc.
  - apply (in_star_cons _ [c] l); [by apply name_group_one | apply IH; [lia|done]].
  - apply andb_true_iff in Hok as [Hd Hok]. destruct l as [|d l]; [done|].
    apply andb_true_iff in Hok as [Ha Hok]. simpl in Hok, Hn. rewrite Ha in Hok.
    apply (in_star_cons _ [c; d] l); [by apply name_group_dash | apply IH; [lia|done]].
Qed.

Lemma name_groups_plus l : re_in (RPlus name_group) l <-> l <> [] /\ dashes_ok l = true.
Proof.
  split.
  - inversion 1 as [| |? ? l1 l2 H1 H2 Heq Hl| | | |]; subst. apply name_group_ok in H1 as [Hne H1].
    split; [by destruct l1|]. apply dashes_ok_app; [done | by apply name_groups_ok].
  - intros [Hne Hok]. pose proof (name_groups_complete _ l (Nat.le_refl _) Hok) as Hs.
    destruct l as [|c l]; [done|]. apply star_cons_inv in Hs as (l1 & l2 & -> & H1 & H2).
    exact (in_cat _ _ (c :: l1) l2 H1 H2).
Qed.

(** The two alternatives of the pattern accept what one scan accepts: a letter,
    a letter or digit, then at least one more character, dashes only before a
    letter or digit. *)
Lemma name_pattern_iff l : re_in name_pattern l <-> name_ok l = true.
Proof.
  split.
  - inversion 1 as [| | |? ? ? H1|? ? ? H1| |]; subst; clear H;
      inversion H1 as [| |? ? l1 l2 Hc H2 Heq Hl| | | |]; subst; inversion Hc as [|? c Hlow| | | | |]; subst;
      inversion H2 as [| |? ? l3 l4 H3 H4 Heq Hl| | | |]; subst; simpl; rewrite Hlow; simpl.
    + apply alnum_plus in H3 as [Hne3 H3]. apply name_groups_plus in H4 as [Hne4 H4].
      destruct H3 as [|d l3 Hd H3]; [done|]. simpl.
      assert (dashes_ok (l3 ++ l4) = true) as Hok
        by (apply dashes_ok_app; [by apply alnum_dashes_ok | done]).
      destruct (l3 ++ l4) as [|e l'] eqn:He.
      { apply app_eq_nil in He as [-> ->]. done. }
      rewrite Hd. exact Hok.
    + inversion H3 as [|? d Hd| | | | |]; subst. apply alnum_plus in H4 as [Hne4 H4]. simpl.
      destruct l4 as [|e l']; [done|]. rewrite Hd. exact (alnum_dashes_ok _ H4).
  - destruct l as [|c [|d [|e l]]]; try done. cbn [name_ok].
    intros [[Hc Hd]%andb_true_iff Hok]%andb_true_iff.
    apply in_alt_l, (in_cat _ _ [c]); [by constructor|].
    apply (in_cat _ _ [d]); [apply alnum_plus; by auto | by apply name_groups_plus].
Qed.

Lemma is_match_name `{RegexEngine} s : is_match name_pattern s = name_ok (chars s).
Proof.
  apply eq_bool_prop_intro. rewrite !Is_true_true, is_match_iff. apply name_pattern_iff.
Qed.

(** The scan, stated on positions. *)
Definition good_name (l : list ascii) : Prop :=
  exists c d r, l = c :: d :: r /\ r <> [] /\ lower c = true /\ alnum d = true /\
    forall i x, r !! i = Some x -> alnum x = true \/
      (dash x = true /\ exists y, r !! S i = Some y /\ alnum y = true).

Lemma dashes_ok_iff r :
  dashes_ok r = true <->
  forall i x, r !! i = Some x -> alnum x = true \/
    (dash x = true /\ exists y, r !! S i = Some y /\ alnum y = true).
Proof.
  induction r as [|c r IH]; [done|]. cbn [dashes_ok]. split.
  - intros H. assert (dashes_ok r = true) as Hr.
    { destruct (alnum c); [done|]. apply andb_true_iff in H as [_ H]. destruct r; [done|].
      by apply andb_true_iff in H as [_ H]. }
    intros [|i] x Hx; [|exact (proj1 IH Hr i x Hx)]. injection Hx as <-.
    destruct (alnum c); [by left | right]. apply andb_true_iff in H as [Hc H]. split; [done|].
    destruct r as [|d r]; [done|]. apply andb_true_iff in H as [Hd _]. by exists d.
  - intros H. assert (dashes_ok r = true) as Hr by (apply IH; intros i; exact (H (S i))).
    destruct (H 0 c eq_refl) as [->|(Hc & y & Hy & Ha)]; [done|]. destruct (alnum c); [done|].
    destruct r as [|d r]; [done|]. injection Hy as ->. by rewrite Hc, Ha, Hr.
Qed.

Lemma name_ok_iff l : name_ok l = true <-> good_name l.
Proof.
  unfold good_name. setoid_rewrite <- dashes_ok_iff. split.
  - destruct l as [|c [|d [|e l]]]; try done. intros [[? ?]%andb_true_iff ?]%andb_true_iff.
    by exists c, d, (e :: l).
  - intros (c & d & [|e r] & -> & ? & Hc & Hd & Hr); [done|]. cbn [name_ok]. by rewrite Hc, Hd, Hr.
Qed.

Lemma name_ok_length l : name_ok l = true -> 3 <= length l.
Proof. destruct l as [|? [|? [|? ?]]]; simpl; [done..|lia]. Qed.

Lemma length_chars s : length (chars s) = str_len s.
Proof. induction s; simpl; [done | by f_equal]. Qed.
