(* ===== verification/Text.v ===== *)
(** * The characters of a text

    A text as the regular expressions of the sources see it: its characters, each
    with its scalar value, and scanners over them.  The Unicode tables of the regex
    crate are [UnicodeTables].  And numbers in texts: [parse_int] is [str::parse] of an
    integer type, which reads back what is printed ([parse_int_pretty]). *)
From S2P Require Import Prelude Regex.
From stdpp Require Import pretty.
From Stdlib Require Import Ascii.

Class UnicodeTables := {
  is_emoji : N -> bool;
  is_word : N -> bool;
  is_space : N -> bool;
  emoji_ascii : forall c, (N_of_ascii c < 128)%N ->
    is_emoji (N_of_ascii c) = (N_of_ascii c =? 35)%N || (N_of_ascii c =? 42)%N || digit c;
  word_ascii : forall c, (N_of_ascii c < 128)%N ->
    is_word (N_of_ascii c) = lower c || in_range 65 90 c || digit c || (N_of_ascii c =? 95)%N;
  space_ascii : forall c, (N_of_ascii c < 128)%N -> is_space (N_of_ascii c) = in_range 9 13 c || (N_of_ascii c =? 32)%N
}.
(** The characters of a UTF-8 text, each as its bytes: a continuation byte belongs
    to the byte before it. *)
Fixpoint grouped (s : string) : string * list string :=
  match s with
  | EmptyString => (EmptyString, [])
  | String c s =>
      let '(k, l) := grouped s in
      if in_range 128 191 c then (String c k, l) else (EmptyString, String c k :: l)
  end.
Definition str_chars (s : string) : list string := (grouped s).2.
Definition str_of_chars (l : list string) : string := str_join EmptyString l.
(** The scalar value of a character. *)
Definition char_code (c : string) : N :=
  match c with
  | EmptyString => 0
  | String b rest =>
      let n := N_of_ascii b in
      let lead := (if n <? 128 then n else if n <? 224 then n - 192 else if n <? 240 then n - 224 else n - 240)%N in
      foldl (fun acc b => acc * 64 + (N_of_ascii b - 128))%N lead (chars rest)
  end.
Definition is_char (n : N) (c : string) : bool := (char_code c =? n)%N.
Fixpoint span (p : string -> bool) (l : list string) : list string * list string :=
  match l with
  | c :: l' => if p c then let '(a, b) := span p l' in (c :: a, b) else ([], l)
  | [] => ([], [])
  end.
Definition drop_while (p : string -> bool) (l : list string) : list string := (span p l).2.

(** The tables of ASCII. *)
Definition ascii_tables : UnicodeTables.
Proof.
  refine {| is_emoji n := ((n =? 35) || (n =? 42) || ((48 <=? n) && (n <=? 57)))%N;
            is_word n := (((97 <=? n) && (n <=? 122)) || ((65 <=? n) && (n <=? 90)) || ((48 <=? n) && (n <=? 57)) || (n =? 95))%N;
            is_space n := (((9 <=? n) && (n <=? 13)) || (n =? 32))%N |}; by intros.
Defined.

(** ** Numbers ([str::parse] of an integer type from [lo] to [hi]) *)
Definition to_digit (c : ascii) : option Z := if digit c then Some (Z.of_N (N_of_ascii c) - 48)%Z else None.
Definition digit_step (lo hi : Z) (sign : Z) (value : Z) (c : ascii) : result string Z :=
  x ← ok_or "invalid digit found in string" (to_digit c);
  let v := (value * 10 + sign * x)%Z in
  if (hi <? v)%Z then Err "number too large to fit in target type"
  else if (v <? lo)%Z then Err "number too small to fit in target type" else Ok v.
Definition parse_int (lo hi : Z) (s : string) : result string Z :=
  match chars s with
  | [] => Err "cannot parse integer from empty string"
  | c :: rest =>
      if Ascii.eqb c "+" && bool_decide (rest <> []) then try_fold (digit_step lo hi 1) 0%Z rest
      else if Ascii.eqb c "-" && bool_decide (rest <> []) && (lo <? 0)%Z then try_fold (digit_step lo hi (-1)) 0%Z rest
      else try_fold (digit_step lo hi 1) 0%Z (c :: rest)
  end.

Lemma digit_char_code n : (n < 10)%N -> N_of_ascii (pretty_N_char n) = (48 + n)%N /\ digit (pretty_N_char n) = true.
Proof.
  intros H. assert (forallb (fun k => (N_of_ascii (pretty_N_char (N.of_nat k)) =? 48 + N.of_nat k)%N &&
                      digit (pretty_N_char (N.of_nat k))) (seq 0 10) = true) as Hall by done.
  rewrite forallb_forall in Hall. specialize (Hall (N.to_nat n)). rewrite N2Nat.id in Hall.
  apply andb_prop in Hall as [Hv Hd]; [by apply N.eqb_eq in Hv|]. apply in_seq. lia.
Qed.
Definition decimal_value (v : N) (l : list ascii) : N := foldl (fun v c => v * 10 + (N_of_ascii c - 48))%N v l.
Lemma pretty_go_chars n s : (0 < n)%N ->
  exists l, chars (pretty_N_go n s) = l ++ chars s /\ l <> [] /\ forallb digit l = true /\ decimal_value 0 l = n.
Proof.
  revert s. induction (N.lt_wf_0 n) as [n _ IH]; intros s Hn. rewrite pretty_N_go_step by done.
  pose proof (N.div_mod n 10 ltac:(done)) as Hd. pose proof (N.mod_lt n 10 ltac:(done)) as Hm.
  destruct (digit_char_code (n mod 10) Hm) as [Hc Hdig].
  destruct (decide (0 < n / 10)%N) as [Hq|Hq].
  - destruct (IH (n / 10)%N ltac:(apply N.div_lt; [exact Hn|done]) (String (pretty_N_char (n mod 10)) s) Hq) as (l & Hl & Hne & Hdl & Hv).
    exists (l ++ [pretty_N_char (n mod 10)]). split_and!.
    + rewrite Hl. unfold chars. cbn [String.list_ascii_of_string]. by rewrite <- app_assoc.
    + by destruct l.
    + rewrite forallb_app, Hdl. cbn. by rewrite Hdig.
    + unfold decimal_value in *. rewrite foldl_app, Hv. cbn [foldl]. rewrite Hc.
      clear - Hd. generalize dependent (n `div` 10)%N. generalize (n `mod` 10)%N. lia.
  - assert (n / 10 = 0)%N as Hz by lia. rewrite Hz, pretty_N_go_0. exists [pretty_N_char (n mod 10)].
    split_and!; [done..|cbn; by rewrite Hdig|]. cbn [decimal_value foldl]. rewrite Hc. rewrite Hz in Hd. clear - Hd. generalize dependent (n `mod` 10)%N. lia.
Qed.
Lemma decimal_value_ge v l : (v <= decimal_value v l)%N.
Proof.
  revert v. induction l as [|c l IH]; intros v; [done|]. cbn [decimal_value foldl].
  etrans; [|apply IH]. lia.
Qed.
Lemma pretty_chars n :
  chars (pretty n) <> [] /\ forallb digit (chars (pretty n)) = true /\ decimal_value 0 (chars (pretty n)) = n.
Proof.
  destruct (decide (n = 0)%N) as [->|Hne]; [done|].
  assert (pretty n = pretty_N_go n "") as -> by (unfold pretty, pretty_N; by rewrite decide_False).
  destruct (pretty_go_chars n EmptyString ltac:(lia)) as (l & Hl & Hnil & Hd & Hv).
  rewrite Hl. change (chars "") with (@nil ascii). by rewrite app_nil_r.
Qed.
Definition is_sign (sign : Z) : Prop := sign = 1%Z \/ sign = (-1)%Z.
Lemma digit_step_next lo hi sign v c :
  is_sign sign -> (lo <= 0 <= hi)%Z -> digit c = true ->
  (lo <= sign * Z.of_N (v * 10 + (N_of_ascii c - 48)) <= hi)%Z ->
  digit_step lo hi sign (sign * Z.of_N v) c = Ok (sign * Z.of_N (v * 10 + (N_of_ascii c - 48)))%Z.
Proof.
  intros Hs Hlh Hc Hv. unfold digit_step, to_digit. rewrite Hc. cbn [ok_or mbind result_bind].
  assert (48 <= N_of_ascii c)%N by (unfold digit, in_range in Hc; apply andb_true_iff in Hc as [H _]; by apply N.leb_le in H).
  assert (sign * Z.of_N v * 10 + sign * (Z.of_N (N_of_ascii c) - 48) = sign * Z.of_N (v * 10 + (N_of_ascii c - 48)))%Z as ->
    by (destruct Hs as [-> | ->]; lia).
  by rewrite (proj2 (Z.ltb_ge _ _)), (proj2 (Z.ltb_ge _ _)) by lia.
Qed.
Lemma try_fold_digits lo hi sign v l :
  is_sign sign -> (lo <= 0 <= hi)%Z -> forallb digit l = true ->
  (lo <= sign * Z.of_N (decimal_value v l) <= hi)%Z ->
  try_fold (digit_step lo hi sign) (sign * Z.of_N v)%Z l = Ok (sign * Z.of_N (decimal_value v l))%Z.
Proof.
  intros Hs Hlh. revert v. induction l as [|c l IH]; intros v Hd Hv; [done|].
  cbn [forallb] in Hd. apply andb_true_iff in Hd as [Hc Hd].
  change (decimal_value v (c :: l)) with (decimal_value (v * 10 + (N_of_ascii c - 48)) l) in *.
  pose proof (decimal_value_ge (v * 10 + (N_of_ascii c - 48)) l). cbn [try_fold].
  rewrite digit_step_next by (done || destruct Hs as [-> | ->]; lia). cbn [mbind result_bind]. by apply IH.
Qed.
Lemma digit_no_sign c : digit c = true -> Ascii.eqb c "+" = false /\ Ascii.eqb c "-" = false.
Proof. destruct c as [[] [] [] [] [] [] [] []]; vm_compute; intros H; try discriminate H; split; reflexivity. Qed.

(** What is printed is read back, with and without a sign. *)
Lemma parse_int_unsigned lo hi n : (lo <= 0)%Z -> (Z.of_N n <= hi)%Z -> parse_int lo hi (pretty n) = Ok (Z.of_N n).
Proof.
  intros Hlo Hn. destruct (pretty_chars n) as (Hnil & Hd & Hv). unfold parse_int.
  pose proof (try_fold_digits lo hi 1 0 (chars (pretty n)) (or_introl eq_refl) ltac:(lia) Hd ltac:(rewrite Hv; lia)) as Hf.
  rewrite Hv, !Z.mul_1_l in Hf. destruct (chars (pretty n)) as [|c l]; [done|]. cbn [forallb] in Hd.
  apply andb_true_iff in Hd as [Hc _]. destruct (digit_no_sign c Hc) as [-> ->]. exact Hf.
Qed.
Lemma parse_int_pretty hi n : (Z.of_N n <= hi)%Z -> parse_int 0 hi (pretty n) = Ok (Z.of_N n).
Proof. by apply parse_int_unsigned. Qed.
Lemma pretty_neg p : pretty (Z.neg p) = String "-" (pretty (N.pos p)).
Proof. done. Qed.
Lemma parse_int_signed lo hi z : (lo <= 0 <= hi)%Z -> (lo <= z <= hi)%Z -> parse_int lo hi (pretty z) = Ok z.
Proof.
  intros Hlo Hz. destruct z as [|p|p].
  - change (pretty 0%Z) with (pretty 0%N). apply (parse_int_unsigned lo hi 0); [lia|]. cbn. lia.
  - change (pretty (Z.pos p)) with (pretty (N.pos p)). apply (parse_int_unsigned lo hi (N.pos p)); [lia|]. cbn. lia.
  - rewrite pretty_neg. destruct (pretty_chars (N.pos p)) as (Hnil & Hd & Hv).
    pose proof (try_fold_digits lo hi (-1) 0 (chars (pretty (N.pos p))) (or_intror eq_refl) ltac:(lia) Hd
      ltac:(rewrite Hv; lia)) as Hf.
    rewrite Hv in Hf. unfold parse_int.
    change (chars (String "-" (pretty (N.pos p)))) with ("-"%char :: chars (pretty (N.pos p))). cbn [Ascii.eqb].
    assert ((lo <? 0)%Z = true) as -> by (apply Z.ltb_lt; lia). rewrite (bool_decide_eq_true_2 _ Hnil). exact Hf.
Qed.

(** ** Characters of composed texts *)

(** A text that does not start inside a character: every [&str]. *)
Definition whole (s : string) : Prop := (grouped s).1 = EmptyString.
Lemma grouped_app a b : whole b -> grouped (a +:+ b) = ((grouped a).1, (grouped a).2 ++ str_chars b).
Proof.
  unfold whole, str_chars. intros Hb. induction a as [|c a IH].
  - change (EmptyString +:+ b) with b. destruct (grouped b). cbn in *. by subst.
  - change (String c a +:+ b) with (String c (a +:+ b)). cbn [grouped]. rewrite IH. destruct (grouped a) as [k l]. cbn.
    by destruct (in_range 128 191 c).
Qed.
Lemma str_chars_app a b : whole b -> str_chars (a +:+ b) = str_chars a ++ str_chars b.
Proof. intros Hb. unfold str_chars. by rewrite (grouped_app a b Hb). Qed.
Lemma whole_app a b : whole a -> whole b -> whole (a +:+ b).
Proof. unfold whole at 3. intros Ha Hb. by rewrite (grouped_app a b Hb). Qed.
Lemma str_join_cons c l : str_join EmptyString (c :: l) = c +:+ str_join EmptyString l.
Proof. destruct l; [|done]. cbn. by induction c as [|d c IH]; [|exact (f_equal (String d) IH)]. Qed.
Lemma str_of_str_chars s : whole s -> str_of_chars (str_chars s) = s.
Proof.
  assert ((grouped s).1 +:+ str_of_chars (grouped s).2 = s) as H.
  { induction s as [|c s IH]; [done|]. cbn [grouped]. destruct (grouped s) as [k l]. cbn in IH.
    destruct (in_range 128 191 c); cbn [fst snd]; [exact (f_equal (String c) IH)|].
    unfold str_of_chars. rewrite str_join_cons. exact (f_equal (String c) IH). }
  intros Hs. unfold whole in Hs. by rewrite Hs in H.
Qed.
(** A text of ASCII characters. *)
Definition ascii_only (s : string) : Prop := Forall (fun c => (N_of_ascii c < 128)%N) (chars s).
Lemma grouped_ascii s : ascii_only s -> grouped s = (EmptyString, (fun c => String c EmptyString) <$> chars s).
Proof.
  induction s as [|c s IH]; intros H; [done|]. apply Forall_cons_1 in H as [Hc H]. cbn [grouped]. rewrite (IH H).
  assert (in_range 128 191 c = false) as ->; [|done].
  unfold in_range. apply andb_false_iff. left. by apply N.leb_gt.
Qed.
Lemma ascii_whole s : ascii_only s -> whole s.
Proof. intros H. unfold whole. by rewrite grouped_ascii. Qed.
Lemma str_chars_ascii s : ascii_only s -> str_chars s = (fun c => String c EmptyString) <$> chars s.
Proof. intros H. unfold str_chars. by rewrite grouped_ascii. Qed.
Lemma char_code_ascii c : (N_of_ascii c < 128)%N -> char_code (String c EmptyString) = N_of_ascii c.
Proof. intros H. unfold char_code. by rewrite (proj2 (N.ltb_lt _ _) H). Qed.
Lemma span_all p l r : forallb p l = true -> match r with c :: _ => p c = false | [] => True end -> span p (l ++ r) = (l, r).
Proof.
  intros Hl Hr. induction l as [|c l IH]; cbn in Hl.
  - destruct r as [|c r]; [done|]. cbn. by rewrite Hr.
  - apply andb_true_iff in Hl as [Hc Hl]. cbn. by rewrite Hc, (IH Hl).
Qed.
