(* ===== verification/HostServices.v ===== *)
(** * What both servers do alike (services/avery/src/windows.rs, unix.rs,
      services/lomax/src/windows.rs, tls.rs)

    Avery and Lomax are services of Windows in the same way: [service_main] makes a
    logger, which panics where that fails, registers a handler of control events, runs the program with a callback that reports it as
    running, and reports it as stopped whatever came of it.  The program is a
    parameter; the world is any that keeps what was reported ([Reporting]).

    On Unix both take a socket that systemd has opened for them, by the protocol of
    [sd_listen_fds]: the number of sockets and the process they are meant for come in
    the environment, and the variables are removed once they were understood. *)
From S2P Require Import Prelude Regex Text.

Inductive ServiceState := ServiceRunning | ServiceStopped.
(** What [set_service_status] tells the service manager. *)
Record ServiceStatus := MkServiceStatus { ss_current_state : ServiceState; ss_exit_code : N }.
Class Reporting (W : Type) := {
  reported : W -> list ServiceStatus;
  report : ServiceStatus -> W -> W;
  reported_report : forall s w, reported (report s w) = reported w ++ [s]
}.
Record ServiceOs := MkServiceOs {
  (** [WinLogger::try_new], [service_control_handler::register], making the
      asynchronous runtime, the service dispatcher, and reporting a status: their errors *)
  so_logger : option string;
  so_register : option string;
  so_runtime : option string;
  so_dispatcher : option string;
  so_set_status : ServiceState -> option string
}.

(** ** Control events *)
Inductive ServiceControl := ControlStop | ControlInterrogate | ControlOther (code : N).
Inductive HandlerResult := HandlerNoError | HandlerNotImplemented.
(** Whether the stop event was triggered, and what the handler answers. *)
Definition event_handler (control_event : ServiceControl) (stop_event : bool) : bool * HandlerResult :=
  match control_event with
  | ControlStop => (true, HandlerNoError)
  | ControlInterrogate => (stop_event, HandlerNoError)
  | ControlOther _ => (stop_event, HandlerNotImplemented)
  end.
Definition handle_events (events : list ServiceControl) (stop_event : bool) : bool :=
  foldl (fun stop e => (event_handler e stop).1) stop_event events.
(** [shutdown_signal]: after how many events the service is told to stop, if no
    Ctrl-C comes; a handler of Ctrl-C that cannot be installed counts as one. *)
Fixpoint stop_after (events : list ServiceControl) : option nat :=
  match events with
  | [] => None
  | e :: events => if (event_handler e false).1 then Some 1 else S <$> stop_after events
  end.
Definition shutdown_signal (ctrl_c : option nat) (events : list ServiceControl) : option nat :=
  match ctrl_c, stop_after events with
  | Some a, Some b => Some (Nat.min a b)
  | Some a, None => Some a
  | None, b => b
  end.

(** ** The service *)
Section service.
Context {W : Type} {RW : Reporting W}.
Variable name : string.
Variable os : ServiceOs.
Definition set_service_status (state : ServiceState) : sem W string unit :=
  fun w => match so_set_status os state with
           | Some e => (w, Err e)
           | None => (report (MkServiceStatus state 0) w, Ok tt)
           end.
Definition started_callback : sem W string unit :=
  fun w => let '(w, r) := set_service_status ServiceRunning w in
           (w, map_err (fun e => "Failed to set service running status: " +:+ e) r).
(** How a process ends but by its own will: with an exit code, or by a panic, which a
    function called by the service manager cannot unwind from. *)
Inductive ProcessEnd := ExitCode (code : Z) | Panicked (message : string).
Definition service_main (run : sem W string unit -> sem W string unit) : sem W ProcessEnd unit :=
  fun w =>
    match so_logger os with
    | Some e => (w, Err (Panicked ("Failed to create windows event logger for " +:+ name +:+ ": " +:+ e)))
    | None =>
        match so_register os, so_runtime os with
        | None, None => ((set_service_status ServiceStopped (run started_callback w).1).1, Ok tt)
        | _, _ => (w, Ok tt)
        end
    end.
(** As a service, or in the foreground. *)
Definition bootstrap (service : bool) (run : sem W string unit -> sem W string unit) (run_with_tokio : sem W Z unit)
  : sem W ProcessEnd unit :=
  if service then
    match so_dispatcher os with
    | Some _ => sem_lift (Err (ExitCode 1))
    | None => service_main run
    end
  else fun w => let '(w, r) := run_with_tokio w in (w, map_err ExitCode r).
End service.

(** ** Properties *)
Lemma stop_is_final events : handle_events events true = true.
Proof. induction events as [|[] events IH]; done. Qed.
(** The service is told to stop by a Stop event, and by no other one. *)
Lemma stopped_by_stop events : handle_events events false = true <-> ControlStop ∈ events.
Proof.
  induction events as [|e events IH]; [set_solver|]. unfold handle_events in *. cbn [foldl].
  destruct e; cbn [event_handler fst]; [|rewrite IH; set_solver..].
  split; [intros _; by left|intros _; apply stop_is_final].
Qed.
Lemma stop_after_stop events : is_Some (stop_after events) <-> ControlStop ∈ events.
Proof.
  induction events as [|e events IH]; [cbn; split; [by intros []|set_solver]|]. cbn [stop_after].
  destruct e; cbn; [split; [by left|by eexists]|rewrite fmap_is_Some, IH; set_solver..].
Qed.

(** The environment: a variable that is not Unicode is [None]. *)
Abbreviation Environment := (gmap string (option string)).
Definition parse_i32 : string -> result string Z := parse_int (-2147483648) 2147483647.
Definition for_this_pid (pid : Z) (env : Environment) : bool :=
  match env !! "LISTEN_PID" with
  | None | Some (Some EmptyString) => true
  | Some (Some val) => bool_decide (result_ok (parse_i32 val) = Some pid)
  | Some None => false
  end.
(** The sockets systemd hands over, and the environment without them. *)
Definition get_systemd_sockets (pid : Z) (env : Environment) : Environment * list Z :=
  match (x ← env !! "LISTEN_FDS" ≫= id; result_ok (parse_i32 x)) with
  | None => (env, [])
  | Some offset =>
      (delete "LISTEN_FDS" (delete "LISTEN_PID" env),
       if for_this_pid pid env then (fun i => 3 + i)%Z <$> seqZ 0 offset else [])
  end.

(** They are handed over once. *)
Lemma sockets_once pid pid' env : (get_systemd_sockets pid env).2 <> [] ->
  get_systemd_sockets pid' (get_systemd_sockets pid env).1 = ((get_systemd_sockets pid env).1, []).
Proof.
  unfold get_systemd_sockets. destruct (x ← env !! "LISTEN_FDS" ≫= id; result_ok (parse_i32 x)); [|done].
  intros _. cbn [fst]. by rewrite lookup_delete_eq.
Qed.
(** What is left of the environment never hands over more than before. *)
Lemma no_sockets_left pid env : (get_systemd_sockets pid env).2 = [] ->
  (get_systemd_sockets pid (get_systemd_sockets pid env).1).2 = [].
Proof.
  unfold get_systemd_sockets. destruct (x ← env !! "LISTEN_FDS" ≫= id; result_ok (parse_i32 x)) eqn:Hx; cbn [fst snd].
  - intros _. by rewrite lookup_delete_eq.
  - intros _. by rewrite Hx.
Qed.
