(* ===== verification/Registry.v ===== *)
(** * The internal registry (services/avery/src/registry.rs)

    [RegistryService] keeps registered functions in a vector and attachments in
    a hash map, each behind a lock, and the uploaded bytes in files of a
    temporary directory.  Each handler is one definition: the read handlers
    return a result, the write handlers run in [sem RegistryService Status], so
    what they changed before an error stays changed.

    What comes from outside is an argument: the clock ([now]), fresh
    identifiers ([new_id]) and what the operating system answers ([OsAnswers],
    and per chunk the outcome of opening and writing the file).  Logging is not
    modelled. *)
From S2P Require Import Prelude Interfaces Proto Regex.
From Stdlib Require Import Ascii.

(** ** State *)
Record RPublisher := MkRPublisher { rp_name : string; rp_email : string }.

(** What the operating system answers while an attachment is registered. *)
Record OsAnswers := MkOs {
  os_create : string -> option string;       (** error creating a file *)
  os_canonicalize : string -> result string string;
  os_file_url : string -> option string      (** [Url::from_file_path] *)
}.

(** One item of an upload stream with the outcome of the file operations it
    leads to: an error opening the file, and the number of bytes [write]
    accepted. *)
Record UploadItem := MkUploadItem {
  up_chunk : result Status AttachmentStreamUpload;
  up_open : option string;
  up_write : result string nat
}.

(** [Path::join]: an absolute path replaces the directory. *)
Definition is_absolute (path : string) : bool := String.prefix "/" path.
Definition needs_separator (dir : string) : bool :=
  match String.get (str_len dir - 1) dir with Some c => negb (Ascii.eqb c "/"%char) | None => false end.
Definition path_join (dir name : string) : string :=
  if is_absolute name then name else if needs_separator dir then dir +:+ "/" +:+ name else dir +:+ name.

(** [write] at a position of a file. *)
Definition write_at (pos : nat) (new old : list byte) : list byte :=
  take pos old ++ new ++ drop (pos + length new) old.

Definition bytes_of (s : string) : list byte := String.list_byte_of_string s.

Section registry.
Context {SV : SemVer} {UL : UuidLib} {DL : DigestLib} {RE : RegexEngine} {HO : HashOrder}.

Record RFunction := MkRFunction {
  f_name : string;
  f_created_at : N;
  f_version : Version;
  f_runtime : RuntimeSpec;
  f_required_inputs : gmap string ChannelSpec;
  f_optional_inputs : gmap string ChannelSpec;
  f_outputs : gmap string ChannelSpec;
  f_code : option AttachmentId;
  f_attachments : list AttachmentId;
  f_metadata : gmap string string;
  f_publisher : RPublisher;
  f_signature : option (list byte)
}.

Record RegistryService := MkRegistry {
  functions : lock (list RFunction);
  function_attachments : lock (gmap uuid Attachment);
  version_suffix : string;
  attachment_directory : string;
  (** the files of the attachment directory *)
  files : gmap string (list byte)
}.

Definition set_functions (fs : list RFunction) (self : RegistryService) : RegistryService :=
  MkRegistry (lock_set (functions self) fs) (function_attachments self) (version_suffix self)
    (attachment_directory self) (files self).
Definition set_attachments (a : gmap uuid Attachment) (self : RegistryService) : RegistryService :=
  MkRegistry (functions self) (lock_set (function_attachments self) a) (version_suffix self)
    (attachment_directory self) (files self).
Definition set_files (fs : gmap string (list byte)) (self : RegistryService) : RegistryService :=
  MkRegistry (functions self) (function_attachments self) (version_suffix self)
    (attachment_directory self) fs.

Definition new (suffix dir : string) : RegistryService :=
  MkRegistry (lock_new []) (lock_new ∅) suffix dir ∅.

(** ** Names and versions *)
Definition validate_name (name : string) : result string unit :=
  if Nat.ltb 128 (str_len name) then Err "Function name is too long! Max 128 characters"
  else if Nat.ltb (str_len name) 3 then Err "Function name is too short! Min 3 characters"
  else if is_match name_pattern name then Ok tt
  else Err "Name contains invalid characters. Only lower case characters, numbers and dashes are allowed".

Definition validate_version (version : string) : result string Version :=
  if str_is_empty version then Err "Version cannot be empty when registering function"
  else map_err (fun e => "Invalid semantic version specified: " +:+ e) (version_parse version).

(** ** Reading *)
Definition get_attachment (self : RegistryService) (id : AttachmentId) : result Status Attachment :=
  attachment_id ← map_err
    (fun e => MkStatus CInvalidArgument ("failed to parse UUID from attachment id: " +:+ e))
    (uuid_parse (aid_uuid id));
  attachments ← lock_get
    (fun e => MkStatus CInternal ("Failed to get write lock for function attachments: " +:+ e))
    (function_attachments self);
  ok_or (MkStatus CNotFound ("failed to find attachment with id: " +:+ uuid_to_string attachment_id))
        (attachments !! attachment_id).

Definition get_function (self : RegistryService) (f : RFunction) : result Status Function_ :=
  code ← transpose (get_attachment self <$> f_code f);
  attachments ← collect (get_attachment self <$> f_attachments f);
  Ok (MkFunction (f_name f) (version_to_string (f_version f)) (f_metadata f)
        (f_required_inputs f) (f_optional_inputs f) (f_outputs f) code attachments
        (Some (f_runtime f)) (f_created_at f)
        (Some (MkPublisher (rp_name (f_publisher f)) (rp_email (f_publisher f))))
        (MkSignature <$> f_signature f)).

Definition functions_read (self : RegistryService) : result Status (list RFunction) :=
  lock_get (fun e => MkStatus CInternal ("Failed to get read lock for functions: " +:+ e))
    (functions self).

(** *** [RegistryService::list] *)
Definition matches_name (group_by_version : bool) (name_filter : string) (f : RFunction) : bool :=
  match group_by_version with
  | false => bool_decide (f_name f = name_filter)
  | true => str_contains name_filter (f_name f)
  end.
Definition matches_version (version_req : option VersionReq) (f : RFunction) : bool :=
  match version_req with Some ver_req => req_matches ver_req (f_version f) | None => true end.

(** The fold into [HashMap<String, &Function>]. *)
Definition keep_latest (map : gmap string RFunction) (f : RFunction) : gmap string RFunction :=
  match map !! f_name f with
  | Some entry => if version_ltb (f_version entry) (f_version f) then <[f_name f := f]> map else map
  | None => <[f_name f := f]> map
  end.
Definition latest_versions (fs : list RFunction) : gmap string RFunction := foldl keep_latest ∅ fs.

Definition matches_metadata (required_metadata : option (gmap string string)) (f : RFunction) : bool :=
  match required_metadata with
  | None => true
  | Some filters =>
      forallb (fun '(fk, fv) =>
                 existsb (fun '(k, v) => bool_decide (fk = k) && (str_is_empty fv || bool_decide (fv = v)))
                         (hash_iter (f_metadata f)))
              (hash_iter filters)
  end.

Definition list_cmp (key : Z) : RFunction -> RFunction -> comparison :=
  match OrderingKey_from_i32 key with
  | Some NameVersion | None =>
      cmp_lex (cmp_on f_name str_cmp) (cmp_rev (cmp_on f_version version_cmp))
  end.

Definition default_ordering : Ordering := MkOrdering (OrderingKey_to_i32 NameVersion) false 0 100.

Definition list_ (self : RegistryService) (filters : Filters) (group_by_version : bool)
  : result Status (list Function_) :=
  reader ← functions_read self;
  let required_metadata :=
    if bool_decide (fl_metadata filters = ∅) then None else Some (fl_metadata filters) in
  let name_filter := fl_name filters in
  let order := default default_ordering (fl_order filters) in
  version_req ← transpose
    ((fun vr => map_err
        (fun e => MkStatus CInvalidArgument ("Supplied version requirement is invalid: " +:+ e))
        (req_parse_npm vr)) <$> fl_version_requirement filters);
  let filtered_functions :=
    filter (fun f => matches_name group_by_version name_filter f && matches_version version_req f) reader in
  let filtered_functions :=
    filter (fun f => matches_metadata required_metadata f &&
                     str_contains (fl_publisher_email filters) (rp_email (f_publisher f)))
      (if group_by_version then hash_values (latest_versions filtered_functions)
       else filtered_functions) in
  let sorted := sort_by (list_cmp (ord_key order)) filtered_functions in
  Ok (omap (fun f => result_ok (get_function self f))
        (page (ord_offset order) (ord_limit order)
           (if ord_reverse order then reverse sorted else sorted))).

Definition rpc_list (self : RegistryService) (filters : Filters)   := list_ self filters true.
Definition rpc_list_versions (self : RegistryService) (filters : Filters)   := list_ self filters false.

(** *** [Registry::get] *)
Definition get (self : RegistryService) (fn_id : FunctionId) : result Status Function_ :=
  reader ← functions_read self;
  f ← ok_or
    (MkStatus CNotFound ("failed to find function with id (name " +:+ quoted (fid_name fn_id) +:+
       " and version " +:+ quoted (fid_version fn_id) +:+ ")"))
    (snd <$> list_find (fun f => f_name f = fid_name fn_id /\
                                 version_to_string (f_version f) = fid_version fn_id)
                       (reverse reader));
  get_function self f.
(** ** Registering a function *)
Definition handler := sem RegistryService Status.

(** The fold over the attachment ids: a hasher, or the list of what failed. *)
Definition checksum_step (self : RegistryService) (r : result string (list byte)) (id : AttachmentId)
  : result string (list byte) :=
  match r, get_attachment self id with
  | Ok cs, Ok a => Ok (cs ++ bytes_of (ck_sha256 (default (MkChecksums EmptyString) (att_checksums a))))
  | Ok _, Err e => Err (aid_uuid id +:+ " (" +:+ st_message e +:+ ")")
  | Err e, Ok _ => Err e
  | Err e1, Err e2 => Err (e1 +:+ ", " +:+ aid_uuid id +:+ " (" +:+ st_message e2 +:+ ")")
  end.
Definition combined_checksum (self : RegistryService) (payload : FunctionData)
  : result Status (list byte) :=
  map_err (fun msg => MkStatus CInvalidArgument ("Failed to get attachment for ids: [" +:+ msg +:+ "]"))
    (foldl (checksum_step self) (Ok [])
       (fd_attachment_ids payload ++ option_list (fd_code_attachment_id payload))).

Definition check_publisher (what : string) (publisher : option Publisher) : result Status Publisher :=
  p ← ok_or (MkStatus CInvalidArgument ("Publisher is required when registering " +:+ what)) publisher;
  let article := if bool_decide (what = "attachment") then "an " else "a " in
  if str_is_empty (pub_name p) then
    Err (MkStatus CInvalidArgument ("Publisher name is required when registering " +:+ article +:+ what))
  else if str_is_empty (pub_email p) then
    Err (MkStatus CInvalidArgument ("Publisher email is required when registering " +:+ article +:+ what))
  else Ok p.

Definition same_id (name : string) (version : Version) (v : RFunction) : bool :=
  bool_decide (f_name v = name) && version_eqb (f_version v) version.

Definition suffixed (suffix : string) (version : Version) : Version :=
  if str_is_empty suffix then version else version_push_pre suffix version.

Definition register (now : N) (payload : FunctionData) : handler Function_ :=
  _ ← sem_lift (map_err (fun e => MkStatus CInvalidArgument
         ("Invalid function name " +:+ quoted (fd_name payload) +:+ ": " +:+ e))
         (validate_name (fd_name payload)));
  version0 ← sem_lift (map_err (fun e => MkStatus CInvalidArgument
         ("Invalid function version " +:+ quoted (fd_version payload) +:+ ": " +:+ e))
         (validate_version (fd_version payload)));
  version ← sem_ask (fun self => Ok (suffixed (version_suffix self) version0));
  locked ← sem_ask (fun self => lock_get
         (fun e => MkStatus CInternal ("Failed to get write lock for functions: " +:+ e)) (functions self));
  let retained := filter (fun v => negb (same_id (fd_name payload) version v)) locked in
  _ ← sem_modify (set_functions retained);
  runtime ← sem_lift (ok_or (MkStatus CInvalidArgument "Runtime is required when registering function")
         (fd_runtime payload));
  checksum ← sem_ask (fun self => combined_checksum self payload);
  let metadata := <["_dev-checksum" := hex_encode (sha256 checksum)]> (fd_metadata payload) in
  publisher ← sem_lift (check_publisher "function" (fd_publisher payload));
  let function := MkRFunction (fd_name payload) now version runtime
    (fd_required_inputs payload) (fd_optional_inputs payload) (fd_outputs payload)
    (fd_code_attachment_id payload) (fd_attachment_ids payload) metadata
    (MkRPublisher (pub_name publisher) (pub_email publisher))
    (sig_signature <$> fd_signature payload) in
  _ ← sem_modify (set_functions (retained ++ [function]));
  sem_ask (fun self => get_function self function).

(** ** Registering an attachment *)
Definition register_attachment (now : N) (new_id : uuid) (os : OsAnswers) (payload : AttachmentData)
  : handler AttachmentHandle :=
  _ ← sem_lift (if str_is_empty (ad_name payload)
         then Err (MkStatus CInvalidArgument "Name is required when registering attachment") else Ok tt);
  checksum ← sem_lift (ok_or (MkStatus CInvalidArgument "Checksum is required when registering attachment")
         (ad_checksums payload));
  attachments ← sem_ask (fun self => lock_get
         (fun e => MkStatus CInternal ("Failed to get write lock for function attachments: " +:+ e))
         (function_attachments self));
  path ← sem_ask (fun self => Ok (path_join (attachment_directory self) (uuid_to_string new_id)));
  let upload_url := Some (MkAttachmentUrl "grpc://" (AuthMethod_to_i32 AMNone)) in
  publisher ← sem_lift (check_publisher "attachment" (ad_publisher payload));
  let create_failed e :=
    MkStatus CInternal ("Failed to create attachment file " +:+ path +:+ ": " +:+ e) in
  _ ← sem_ask (fun self =>
         match files self !! path, os_create os path with
         | Some _, _ => Err (create_failed "File exists")
         | None, Some e => Err (create_failed e)
         | None, None => Ok tt
         end);
  _ ← sem_modify (fun self => set_files (<[path := []]> (files self)) self);
  canonical ← sem_lift (map_err (fun e => MkStatus CInternal
         ("Failed to canonicalize attachment path " +:+ quoted path +:+ ": " +:+ e))
         (os_canonicalize os path));
  url ← sem_lift (ok_or (MkStatus CInternal
         ("Attachment path " +:+ quoted canonical +:+ " could not be made into a valid url"))
         (os_file_url os canonical));
  _ ← sem_modify (set_attachments (<[new_id :=
         MkAttachment (ad_name payload) (Some (MkAttachmentUrl url (AuthMethod_to_i32 AMNone)))
           (ad_metadata payload) (Some checksum) now (Some publisher) (ad_signature payload)]> attachments));
  mret (MkAttachmentHandle (Some (MkAttachmentId (uuid_to_string new_id))) upload_url).

(** ** Uploading *)

(** What the loop carries: the bytes hashed, the attachment of the first
    chunk, and the file opened for the first chunk with its path (the position
    in it, or the error opening it). *)
Record Upload := MkUpload {
  u_hashed : list byte;
  u_attachment : option Attachment;
  u_file : option (result Status nat * string)
}.

Definition remove_partial (u : Upload) (self : RegistryService) : RegistryService :=
  match u_file u with
  | Some (_, path) => set_files (delete path (files self)) self
  | None => self
  end.

Definition upload_chunk (u : Upload) (item : UploadItem) : handler Upload :=
  chunk ← (fun self => match up_chunk item with
                       | Ok chunk => (self, Ok chunk)
                       | Err e => (remove_partial u self, Err e)
                       end);
  '(attachment, path) ← sem_ask (fun self =>
      idd ← ok_or (MkStatus CInvalidArgument "Failed to get function attachment with None as id. 🤷")
                  (asu_id chunk);
      a ← get_attachment self idd;
      Ok (a, path_join (attachment_directory self) (aid_uuid idd)));
  '(handle, path_opened) ← (fun self =>
      match u_file u with
      | Some f => (self, Ok f)
      | None =>
          match up_open item with
          | None => (set_files (<[path := default [] (files self !! path)]> (files self)) self,
                     Ok (Ok 0, path))
          | Some e => (self, Ok (Err (MkStatus CInternal
              ("Failed to open attachment file " +:+ path +:+ ": " +:+ e)), path))
          end
      end);
  pos ← sem_lift handle;
  accepted ← sem_lift (map_err (fun e => MkStatus CInternal
      ("Failed to save the attachment in " +:+ path +:+ " 🐼: " +:+ e)) (up_write item));
  let written := take accepted (asu_content chunk) in
  _ ← sem_modify (fun self =>
      set_files (<[path_opened := write_at pos written (default [] (files self !! path_opened))]> (files self)) self);
  mret (MkUpload (u_hashed u ++ asu_content chunk)
          (match u_attachment u with Some a => Some a | None => Some attachment end)
          (Some (Ok (pos + length written)%nat, path_opened))).

Fixpoint upload_loop (u : Upload) (stream : list UploadItem) : handler Upload :=
  match stream with
  | [] => mret u
  | item :: stream' => u' ← upload_chunk u item; upload_loop u' stream'
  end.

Definition check_upload (u : Upload) : result Status unit :=
  checksums ← ok_or (MkStatus CInternal
      "Attachment is missing checksums. This should have been validated when registering 🤷")
    (u_attachment u ≫= att_checksums);
  let uploaded_content_checksum := sha256 (u_hashed u) in
  if bytes_eqb uploaded_content_checksum
       (default [] (result_ok (hex_decode (ck_sha256 checksums))))
  then Ok tt
  else Err (MkStatus CInvalidArgument
    ("Uploaded attachment checksum mismatch. Registered with: " +:+ ck_sha256 checksums +:+
     ", got from uploaded content: " +:+ hex_encode uploaded_content_checksum)).

Definition upload_stream_attachment (stream : list UploadItem) : handler unit :=
  u ← upload_loop (MkUpload [] None None) stream;
  sem_lift (check_upload u).

Definition upload_streamed_attachment (stream : list UploadItem) : handler unit :=
  upload_stream_attachment stream.
End registry.

(** C7: the names accepted are those of at most 128 bytes that start with a
    lower case letter and a letter or digit, go on with at least one more
    character, and have dashes only in front of a letter or digit; the first
    failing check, in the order length, shortness, characters, decides the
    message. *)
Theorem validate_name_correct `{RegexEngine} name :
  (validate_name name = Ok tt <-> str_len name <= 128 /\ good_name (chars name)) /\
  (forall e, validate_name name = Err e ->
     e = if bool_decide (128 < str_len name) then "Function name is too long! Max 128 characters"
         else if bool_decide (str_len name < 3) then "Function name is too short! Min 3 characters"
         else "Name contains invalid characters. Only lower case characters, numbers and dashes are allowed").
Proof.
  unfold validate_name. rewrite is_match_name. split.
  - rewrite <- name_ok_iff. pose proof (name_ok_length (chars name)) as Hlen.
    rewrite length_chars in Hlen.
    destruct (Nat.ltb_spec 128 (str_len name)), (Nat.ltb_spec (str_len name) 3);
      destruct (name_ok (chars name)); split; intros Hx; try done; try lia; intuition lia.
  - intros e. destruct (Nat.ltb_spec 128 (str_len name)), (Nat.ltb_spec (str_len name) 3);
      repeat case_bool_decide; try lia; destruct (name_ok (chars name)); by intros [=].
Qed.

Lemma validate_name_correct_witness :
  @validate_name derivative_engine "sum-it" = Ok tt /\
  @validate_name derivative_engine "sum--it" = Err "Name contains invalid characters. Only lower case characters, numbers and dashes are allowed".
Proof.
  split; [apply validate_name_correct|].
  - split; [vm_compute; lia|]. apply name_ok_iff. reflexivity.
  - destruct (@validate_name derivative_engine "sum--it") as [|e] eqn:He; [discriminate He|].
    apply validate_name_correct in He. subst e. reflexivity.
Defined.
