(* ===== verification/RegistryProps.v ===== *)
(** * Properties of the internal registry

    The invariant of every state the handlers can reach, what each handler
    returns and leaves behind, and the two flaws of the upload and registration
    paths that the model exhibits. *)
From S2P Require Import Prelude Interfaces Proto Regex Registry.

Section registry_props.
Context {SV : SemVer} {UL : UuidLib} {DL : DigestLib} {RE : RegexEngine} {HO : HashOrder}.
Implicit Types self : RegistryService.
Implicit Types f g : RFunction.

(** ** Identity of functions *)
Definition different_id f g : Prop := same_id (f_name g) (f_version g) f = false.

Lemma same_id_iff name v f :
  same_id name v f = true <-> f_name f = name /\ version_cmp (f_version f) v = Eq.
Proof. unfold same_id. by rewrite andb_true_iff, bool_decide_eq_true, version_eqb_eq. Qed.

Lemma different_id_sym f g : different_id f g -> different_id g f.
Proof.
  unfold different_id. intros H. apply not_true_iff_false. intros [Hn Hv]%same_id_iff.
  rewrite <- not_true_iff_false, same_id_iff in H. apply H. split; [done|].
  rewrite (cmp_flip_eq version_cmp (f_version g)), Hv. done.
Qed.

Lemma unique_eq l f g :
  StronglySorted different_id l -> f ∈ l -> g ∈ l ->
  f_name f = f_name g -> version_cmp (f_version f) (f_version g) = Eq -> f = g.
Proof.
  induction 1 as [|x l Hl IH Hx]; [set_solver|].
  rewrite !elem_of_cons. rewrite Forall_forall in Hx.
  intros [->|Hf] [->|Hg] Hn Hv; auto; exfalso.
  - specialize (Hx _ Hg). unfold different_id in Hx.
    rewrite <- not_true_iff_false, same_id_iff in Hx. auto.
  - specialize (different_id_sym _ _ (Hx _ Hf)) as Hy. unfold different_id in Hy.
    rewrite <- not_true_iff_false, same_id_iff in Hy. auto.
Qed.

Lemma StronglySorted_filter {A} (R : relation A) (P : A -> Prop) `{!forall x, Decision (P x)} l :
  StronglySorted R l -> StronglySorted R (filter P l).
Proof.
  induction 1 as [|x l Hl IH Hx]; [constructor|]. rewrite filter_cons. case_decide; [|done].
  constructor; [done|]. apply Forall_forall. intros y [_ Hy]%list_elem_of_filter.
  rewrite Forall_forall in Hx. auto.
Qed.

(** *** The last match of a vector *)
Lemma snd_list_find_cons {A} (P : A -> Prop) `{!forall x, Decision (P x)} l :
  snd <$> (prod_map S id <$> list_find P l) = snd <$> list_find P l.
Proof. by destruct (list_find P l) as [[]|]. Qed.

Lemma snd_list_find_filter {A} (P Q : A -> Prop)
    `{!forall x, Decision (P x), !forall x, Decision (Q x)} l :
  (forall x, P x -> Q x) -> snd <$> list_find P (filter Q l) = snd <$> list_find P l.
Proof.
  intros HPQ. induction l as [|x l IH]; [done|].
  rewrite filter_cons. destruct (decide (Q x)) as [HQ|HQ]; cbn [list_find]; case_decide; auto.
  - by rewrite !snd_list_find_cons.
  - by destruct HQ; apply HPQ.
  - by rewrite snd_list_find_cons.
Qed.

(** ** The invariant *)
Definition attachment_ids f : list AttachmentId := f_attachments f ++ option_list (f_code f).
Definition resolves self f : Prop :=
  forall id, id ∈ attachment_ids f -> is_ok (get_attachment self id) = true.

Definition function_ok self f : Prop :=
  validate_name (f_name f) = Ok tt /\
  str_is_empty (rp_name (f_publisher f)) = false /\
  str_is_empty (rp_email (f_publisher f)) = false /\
  is_Some (f_metadata f !! "_dev-checksum") /\
  resolves self f.

Record registry_inv self : Prop := {
  ri_functions_lock : lk_poisoned (functions self) = false;
  ri_attachments_lock : lk_poisoned (function_attachments self) = false;
  ri_unique : StronglySorted different_id (lk_data (functions self));
  ri_functions : forall f, f ∈ lk_data (functions self) -> function_ok self f;
  ri_attachments : forall u a, lk_data (function_attachments self) !! u = Some a ->
    is_Some (att_checksums a) /\ is_Some (att_url a) /\ is_Some (att_publisher a)
}.

(** *** Attachments are never lost *)
Lemma get_attachment_Ok self id a :
  get_attachment self id = Ok a <->
  exists u, uuid_parse (aid_uuid id) = Ok u /\ lk_poisoned (function_attachments self) = false /\
            lk_data (function_attachments self) !! u = Some a.
Proof.
  unfold get_attachment. split.
  - intros H. inv_ok. apply lock_get_Ok in Hok0 as [Hp <-]. eauto.
  - intros (u & -> & Hp & Hl). simpl. unfold lock_get. rewrite Hp. simpl. by rewrite Hl.
Qed.

Lemma get_attachment_ext self self' id :
  function_attachments self = function_attachments self' ->
  get_attachment self id = get_attachment self' id.
Proof. unfold get_attachment. by intros ->. Qed.

Lemma get_function_ext self self' f :
  function_attachments self = function_attachments self' ->
  get_function self f = get_function self' f.
Proof.
  intros He. unfold get_function.
  assert ((get_attachment self <$> f_attachments f) = (get_attachment self' <$> f_attachments f)) as ->
    by (apply list_fmap_ext; intros; by apply get_attachment_ext).
  destruct (f_code f); simpl; [by rewrite (get_attachment_ext self self')|done].
Qed.

Lemma is_ok_iff {E A} (r : result E A) : is_ok r = true <-> exists a, r = Ok a.
Proof. destruct r; simpl; split; [eauto | done | done | by intros [? ?]]. Qed.

Lemma resolves_ext self self' f :
  function_attachments self = function_attachments self' -> resolves self f -> resolves self' f.
Proof. intros He Hr id Hid. rewrite <- (get_attachment_ext self self'); auto. Qed.

Lemma resolves_insert self f u a :
  resolves self f ->
  resolves (set_attachments (<[u := a]> (lk_data (function_attachments self))) self) f.
Proof.
  intros Hr id Hid. apply is_ok_iff. apply Hr, is_ok_iff in Hid as [b Hb].
  apply get_attachment_Ok in Hb as (w & Hp & Hl & Hb).
  exists (if decide (u = w) then a else b). apply get_attachment_Ok. exists w.
  split_and!; [done..|]. simpl. rewrite lookup_insert. by repeat case_decide.
Qed.

(** A function whose attachments resolve has a protobuf image. *)
Lemma collect_total {E A} (l : list (result E A)) :
  (forall r, r ∈ l -> is_ok r = true) -> exists v, collect l = Ok v.
Proof.
  induction l as [|r l IH]; intros Hl; simpl; [eauto|].
  destruct r as [a|e]; [|by specialize (Hl (Err e) ltac:(set_solver))]. simpl.
  destruct IH as [v ->]; [set_solver|]. simpl. eauto.
Qed.

Lemma get_function_total self f : resolves self f -> exists r, get_function self f = Ok r.
Proof.
  intros Hr. unfold get_function.
  assert (exists c, transpose (get_attachment self <$> f_code f) = Ok c) as [c ->].
  { unfold resolves, attachment_ids in Hr. destruct (f_code f) as [id|]; simpl in *; [|eauto].
    assert (is_ok (get_attachment self id) = true) as [a ->]%is_ok_iff by (apply Hr; set_solver).
    eauto. }
  destruct (collect_total (get_attachment self <$> f_attachments f)) as [v Hv].
  { intros r (id & -> & Hid)%list_elem_of_fmap. apply Hr. unfold attachment_ids. set_solver. }
  simpl. rewrite Hv. simpl. eauto.
Qed.

(** ** [register] *)

(** The state after the registered function of the id has been dropped. *)
Definition without (name : string) (v : Version) self : RegistryService :=
  set_functions (filter (fun f => negb (same_id name v f)) (lk_data (functions self))) self.

Lemma checksum_step_Ok self ids cs r :
  foldl (checksum_step self) r ids = Ok cs ->
  exists cs0 atts, r = Ok cs0 /\ get_attachment self <$> ids = Ok <$> atts /\
    cs = cs0 ++ concat ((fun a => bytes_of (ck_sha256 (default (MkChecksums EmptyString) (att_checksums a)))) <$> atts).
Proof.
  revert r. induction ids as [|id ids IH]; intros r; cbn [foldl].
  - intros ->. exists cs, []. by rewrite app_nil_r.
  - intros (cs1 & atts & Hs & Hids & ->)%IH. rewrite fmap_cons. unfold checksum_step in Hs.
    destruct r as [cs0|e]; destruct (get_attachment self id) as [a|e'] eqn:Ha; simplify_eq.
    exists cs0, (a :: atts). rewrite !fmap_cons, Hids. simpl. by rewrite (assoc_L (++)).
Qed.

Lemma checksum_resolves self payload cs :
  combined_checksum self payload = Ok cs ->
  forall id, id ∈ fd_attachment_ids payload ++ option_list (fd_code_attachment_id payload) ->
    is_ok (get_attachment self id) = true.
Proof.
  unfold combined_checksum. intros H%map_err_Ok id Hid.
  apply checksum_step_Ok in H as (cs0 & atts & _ & Hids & _).
  assert (get_attachment self id ∈ get_attachment self <$> (fd_attachment_ids payload ++ option_list (fd_code_attachment_id payload)))
    as Hin by by apply list_elem_of_fmap_2.
  rewrite Hids in Hin. apply list_elem_of_fmap in Hin as (a & -> & _). done.
Qed.

Lemma check_publisher_Ok what p p' :
  check_publisher what p = Ok p' ->
  p = Some p' /\ str_is_empty (pub_name p') = false /\ str_is_empty (pub_email p') = false.
Proof. unfold check_publisher. intros H. inv_ok. by subst. Qed.

(** The function a payload is stored as. *)
Definition registered_as (now : N) (payload : FunctionData) (v : Version) self f : Prop :=
  exists runtime cs p,
    fd_runtime payload = Some runtime /\ combined_checksum self payload = Ok cs /\
    check_publisher "function" (fd_publisher payload) = Ok p /\
    f = MkRFunction (fd_name payload) now v runtime
      (fd_required_inputs payload) (fd_optional_inputs payload) (fd_outputs payload)
      (fd_code_attachment_id payload) (fd_attachment_ids payload)
      (<["_dev-checksum" := hex_encode (sha256 cs)]> (fd_metadata payload))
      (MkRPublisher (pub_name p) (pub_email p)) (sig_signature <$> fd_signature payload).

(** The version a payload is registered under. *)
Definition registered_version (payload : FunctionData) self (v : Version) : Prop :=
  exists v0, validate_version (fd_version payload) = Ok v0 /\ v = suffixed (version_suffix self) v0.

(** The three ways a registration ends. *)
Inductive register_outcome (now : N) (payload : FunctionData) self
  : RegistryService * result Status Function_ -> Prop :=
| register_refused e :
    is_ok (validate_name (fd_name payload)) = false \/ is_ok (validate_version (fd_version payload)) = false \/
    lk_poisoned (functions self) = true ->
    register_outcome now payload self (self, Err e)
| register_dropped v e :
    registered_version payload self v ->
    register_outcome now payload self (without (fd_name payload) v self, Err e)
| register_done v f :
    lk_poisoned (functions self) = false ->
    validate_name (fd_name payload) = Ok tt ->
    registered_version payload self v ->
    registered_as now payload v self f ->
    function_ok self f ->
    register_outcome now payload self
      (set_functions (lk_data (functions (without (fd_name payload) v self)) ++ [f]) self,
       get_function self f).

Lemma register_cases now payload self :
  register_outcome now payload self (register now payload self).
Proof.
  unfold register, sem_lift, sem_ask, sem_modify. cbv [mbind sem_bind].
  destruct (validate_name (fd_name payload)) as [[]|] eqn:Hname; [|constructor; by rewrite Hname; auto].
  cbn [map_err]. destruct (validate_version _) as [v0|] eqn:Hv; [|constructor; rewrite Hv; auto].
  cbn [map_err]. destruct (lock_get _ _) as [locked|] eqn:Hlock.
  2: { constructor. unfold lock_get in Hlock. destruct (lk_poisoned _); [auto|done]. }
  apply lock_get_Ok in Hlock as [Hp <-].
  assert (registered_version payload self (suffixed (version_suffix self) v0)) as Hrv by by exists v0.
  set (v := suffixed _ _) in *.
  change (set_functions _ self) with (without (fd_name payload) v self).
  destruct (fd_runtime payload) as [runtime|] eqn:Hrt; cbn [ok_or]; [|by apply register_dropped].
  destruct (combined_checksum _ _) as [cs|] eqn:Hcs; [|by apply register_dropped].
  destruct (check_publisher _ _) as [p|] eqn:Hpub; [|by apply register_dropped].
  pose proof (check_publisher_Ok _ _ _ Hpub) as (Hpp & Hpn & Hpe).
  set (f := MkRFunction _ _ _ _ _ _ _ _ _ _ _ _).
  rewrite (get_function_ext _ self f) by done.
  apply (register_done now payload self v f); try done.
  { by exists runtime, cs, p. }
  split_and!; [done..| |].
  - simpl. rewrite lookup_insert_eq. eauto.
  - intros id Hid. rewrite (get_attachment_ext _ (without (fd_name payload) v self)) by done.
    by apply (checksum_resolves _ payload cs).
Qed.

(** A successful registration appends the function, which can be looked up. *)
Lemma register_Ok now payload self self' r :
  register now payload self = (self', Ok r) ->
  exists v f, registered_version payload self v /\ registered_as now payload v self f /\
    lk_poisoned (functions self) = false /\
    self' = set_functions (lk_data (functions (without (fd_name payload) v self)) ++ [f]) self /\
    get_function self f = Ok r /\ get self' (MkFunctionId (fn_name r) (fn_version r)) = Ok r.
Proof.
  intros Hreg. destruct (register_cases now payload self) as [| |v f Hp0 Hn Hv Hf Hok]; try done.
  injection Hreg as <- Hr. exists v, f. split_and!; try done.
  pose proof Hr as Hr'. unfold get_function in Hr. inv_ok. subst r. cbn [fn_name fn_version].
  unfold get, functions_read, lock_get. simpl. rewrite Hp0.
  cbn [mbind result_bind]. rewrite reverse_app, reverse_singleton. cbn [app list_find].
  rewrite decide_True by done. cbn. exact Hr'.
Qed.

(** ** Every handler keeps the invariant *)
Lemma elem_without name v self f :
  f ∈ lk_data (functions (without name v self)) <->
  f ∈ lk_data (functions self) /\ same_id name v f = false.
Proof.
  unfold without. simpl. rewrite list_elem_of_filter, Is_true_true, negb_true_iff. tauto.
Qed.

Lemma function_ok_ext self self' f :
  function_attachments self = function_attachments self' -> function_ok self f -> function_ok self' f.
Proof. intros He (?&?&?&?&Hr). split_and!; [done..|]. by apply (resolves_ext self). Qed.

Lemma inv_without name v self : registry_inv self -> registry_inv (without name v self).
Proof.
  intros [H1 H2 H3 H4 H5]. split; [done | done | by apply StronglySorted_filter | | done].
  intros f [Hf _]%elem_without. apply (function_ok_ext self); auto.
Qed.

Lemma inv_register now payload self :
  registry_inv self -> registry_inv (register now payload self).1.
Proof.
  intros Hinv. destruct (register_cases now payload self) as [e|v e _|v f _ _ _ Hf Hok]; simpl;
    [done | by apply inv_without |].
  destruct Hf as (rt & cs & p & _ & _ & _ & Hf).
  assert (f_name f = fd_name payload /\ f_version f = v) as [Hfn Hfv] by by subst f.
  destruct (inv_without (fd_name payload) v self Hinv) as [H1 H2 H3 H4 H5].
  split; simpl; [done | done | | | done].
  - apply StronglySorted_app. split_and!; [ | done | by repeat constructor].
    intros x y [_ Hx]%elem_without Hy%list_elem_of_singleton. subst y.
    unfold different_id. rewrite Hfn, Hfv. exact Hx.
  - intros g [Hg|Hg%list_elem_of_singleton]%elem_of_app.
    + apply (function_ok_ext self); [done|]. apply Hinv. by apply elem_without in Hg as [? _].
    + subst g. by apply (function_ok_ext self).
Qed.

Lemma inv_set_files fs self : registry_inv self -> registry_inv (set_files fs self).
Proof.
  intros [H1 H2 H3 H4 H5]. by split.
Qed.

Lemma inv_set_attachments u a self :
  registry_inv self -> is_Some (att_checksums a) -> is_Some (att_url a) -> is_Some (att_publisher a) ->
  registry_inv (set_attachments (<[u := a]> (lk_data (function_attachments self))) self).
Proof.
  intros [H1 H2 H3 H4 H5] Ha1 Ha2 Ha3. split; try done.
  - intros f Hf. destruct (H4 f Hf) as (?&?&?&?&Hr). split_and!; [done..|]. by apply resolves_insert.
  - intros w b. simpl. rewrite lookup_insert. case_decide; [intros [= <-]; auto | apply H5].
Qed.

(** Statements that leave the state alone. *)
Lemma keep_ask {A} (I : RegistryService -> Prop) (r : RegistryService -> result Status A) self :
  I self -> I (sem_ask r self).1.
Proof. done. Qed.

Lemma inv_register_attachment now new_id os payload self :
  registry_inv self -> registry_inv (register_attachment now new_id os payload self).1.
Proof.
  intros Hinv. unfold register_attachment, sem_lift, sem_ask, sem_modify.
  cbv [mbind sem_bind mret sem_ret].
  destruct (str_is_empty _); [done|]. destruct (ad_checksums payload) as [ck|]; cbn [ok_or]; [|done].
  destruct (lock_get _ _) as [atts|] eqn:Hl; [|done]. apply lock_get_Ok in Hl as [_ <-].
  destruct (check_publisher _ _) as [p|]; [|done].
  destruct (files self !! _); [done|]. destruct (os_create os _); [done|].
  destruct (os_canonicalize os _) as [c|]; cbn [map_err]; [|by apply inv_set_files].
  destruct (os_file_url os c) as [url|]; cbn [ok_or]; [|by apply inv_set_files].
  simpl.
  assert (forall fs, registry_inv (set_files fs self)) as Hf by (intros; by apply inv_set_files).
  by apply (inv_set_attachments new_id _ (set_files _ self)).
Qed.

Lemma inv_upload_chunk u item self : registry_inv self -> registry_inv (upload_chunk u item self).1.
Proof.
  unfold upload_chunk. apply sem_bind_inv.
  { intros s Hs. destruct (up_chunk item); simpl; [done|]. unfold remove_partial.
    destruct (u_file u) as [[? ?]|]; [by apply inv_set_files|done]. }
  intros chunk. apply sem_bind_inv; [done|]. intros [a path]. apply sem_bind_inv.
  { intros s Hs. destruct (u_file u); [done|]. destruct (up_open item); simpl; [done|].
    by apply inv_set_files. }
  intros [h p]. apply sem_bind_inv; [done|]. intros pos. apply sem_bind_inv; [done|].
  intros n. apply sem_bind_inv; [intros s Hs; by apply inv_set_files | done].
Qed.

Lemma inv_upload stream self : registry_inv self -> registry_inv (upload_stream_attachment stream self).1.
Proof.
  unfold upload_stream_attachment. apply sem_bind_inv; [|done].
  generalize (MkUpload [] None None) as u.
  induction stream as [|item stream IH]; intros u s Hs; [done|]. cbn [upload_loop].
  revert s Hs. apply sem_bind_inv; [apply inv_upload_chunk | exact IH].
Qed.

(** The requests a client can send that change the service, with what the
    environment answers. *)
Inductive request :=
| Register (now : N) (payload : FunctionData)
| RegisterAttachment (now : N) (new_id : uuid) (os : OsAnswers) (payload : AttachmentData)
| UploadStreamed (stream : list UploadItem).
Definition serve (r : request) self : RegistryService :=
  match r with
  | Register now payload => (register now payload self).1
  | RegisterAttachment now new_id os payload => (register_attachment now new_id os payload self).1
  | UploadStreamed stream => (upload_streamed_attachment stream self).1
  end.
Inductive reachable (suffix dir : string) : RegistryService -> Prop :=
| reachable_new : reachable suffix dir (new suffix dir)
| reachable_serve r self : reachable suffix dir self -> reachable suffix dir (serve r self).

Lemma unique_lookup self f g :
  registry_inv self -> f ∈ lk_data (functions self) -> g ∈ lk_data (functions self) ->
  f_name f = f_name g -> version_cmp (f_version f) (f_version g) = Eq -> f = g.
Proof. intros Hinv. apply unique_eq, Hinv. Qed.

(** ** Listing *)
Lemma latest_versions_spec (fs : list RFunction) n :
  match latest_versions fs !! n with
  | Some f => f ∈ fs /\ f_name f = n /\
              forall g, g ∈ fs -> f_name g = n -> version_ltb (f_version f) (f_version g) = false
  | None => forall g, g ∈ fs -> f_name g <> n
  end.
Proof.
  unfold latest_versions. induction fs as [|x fs IH] using rev_ind; [simpl; set_solver|].
  rewrite foldl_snoc. set (m := foldl keep_latest ∅ fs) in *. unfold keep_latest.
  destruct (decide (f_name x = n)) as [<-|Hne].
  - destruct (m !! f_name x) as [e|] eqn:He.
    + destruct IH as (Hin & Hname & Hmax).
      destruct (version_ltb (f_version e) (f_version x)) eqn:Hlt.
      * rewrite lookup_insert_eq. split_and!; [set_solver | done |].
        intros g [Hg| ->%list_elem_of_singleton]%elem_of_app Hgn.
        -- apply version_ltb_ge. specialize (Hmax _ Hg Hgn). apply version_ltb_ge in Hmax.
           apply version_ltb_lt in Hlt. rewrite (cmp_trans_le_lt version_cmp _ _ _ Hmax Hlt). done.
        -- apply version_ltb_ge. by rewrite (cmp_refl_eq version_cmp).
      * rewrite He. split_and!; [set_solver | done |].
        intros g [Hg| ->%list_elem_of_singleton]%elem_of_app Hgn; auto.
    + rewrite lookup_insert_eq. split_and!; [set_solver | done |].
      intros g [Hg| ->%list_elem_of_singleton]%elem_of_app Hgn; [by destruct (IH g)|].
      apply version_ltb_ge. by rewrite (cmp_refl_eq version_cmp).
  - assert ((match m !! f_name x with
             | Some entry => if version_ltb (f_version entry) (f_version x) then <[f_name x:=x]> m else m
             | None => <[f_name x:=x]> m end) !! n = m !! n) as ->.
    { destruct (m !! f_name x); [destruct (version_ltb _ _)|]; by rewrite ?lookup_insert_ne. }
    destruct (m !! n); [destruct IH as (? & ? & IH); split_and!; [set_solver | done |] |];
      intros g [Hg| ->%list_elem_of_singleton]%elem_of_app; auto; congruence.
Qed.

Definition metadata_ok (required : gmap string string) f : Prop :=
  forall k v, required !! k = Some v ->
    exists w, f_metadata f !! k = Some w /\ (v = EmptyString \/ v = w).

Lemma str_is_empty_iff s : str_is_empty s = true <-> s = EmptyString.
Proof. by destruct s. Qed.

Lemma matches_metadata_iff required f :
  matches_metadata (if bool_decide (required = ∅) then None else Some required) f = true <->
  metadata_ok required f.
Proof.
  unfold metadata_ok. case_bool_decide as He; simpl.
  - subst. split; [intros _ k v; by rewrite lookup_empty | done].
  - rewrite forallb_forall. split.
    + intros Hall k v Hk. assert ((k, v) ∈ hash_iter required) as Hin by by apply elem_of_hash_iter.
      apply list_elem_of_In, Hall, existsb_exists in Hin as ([k' w] & Hw & Hm).
      apply list_elem_of_In, elem_of_hash_iter in Hw.
      rewrite andb_true_iff, orb_true_iff, !bool_decide_eq_true, str_is_empty_iff in Hm.
      destruct Hm as [-> Hm]. eauto.
    + intros Hall [k v] Hin%list_elem_of_In%elem_of_hash_iter.
      destruct (Hall _ _ Hin) as (w & Hw & Hv). apply existsb_exists. exists (k, w).
      split; [by apply list_elem_of_In, elem_of_hash_iter|].
      rewrite andb_true_iff, orb_true_iff, !bool_decide_eq_true, str_is_empty_iff. auto.
Qed.

(** What a listing selects: the documentation of [Filters], the newest
    version of each name when versions are grouped. *)
Definition matches_id (group : bool) (filters : Filters) (req : option VersionReq) f : Prop :=
  matches_name group (fl_name filters) f = true /\ matches_version req f = true.
Definition selected self (filters : Filters) (req : option VersionReq) (group : bool) f : Prop :=
  f ∈ lk_data (functions self) /\ matches_id group filters req f /\
  (group = true -> forall g, g ∈ lk_data (functions self) -> matches_id group filters req g ->
                     f_name g = f_name f -> version_ltb (f_version f) (f_version g) = false) /\
  metadata_ok (fl_metadata filters) f /\
  str_contains (fl_publisher_email filters) (rp_email (f_publisher f)) = true.

Definition candidates self (filters : Filters) (req : option VersionReq) (group : bool) : list RFunction :=
  let matching := filter (fun f => matches_name group (fl_name filters) f && matches_version req f)
                         (lk_data (functions self)) in
  filter (fun f => matches_metadata (if bool_decide (fl_metadata filters = ∅) then None else Some (fl_metadata filters)) f &&
                   str_contains (fl_publisher_email filters) (rp_email (f_publisher f)))
    (if group then hash_values (latest_versions matching) else matching).

Lemma elem_of_latest (fs : list RFunction) f :
  StronglySorted different_id fs ->
  f ∈ hash_values (latest_versions fs) <->
  f ∈ fs /\ forall g, g ∈ fs -> f_name g = f_name f -> version_ltb (f_version f) (f_version g) = false.
Proof.
  intros Hu. rewrite elem_of_hash_values. split.
  - intros [k Hk]. pose proof (latest_versions_spec fs k) as Hs. rewrite Hk in Hs.
    destruct Hs as (? & <- & ?). done.
  - intros [Hf Hmax]. exists (f_name f). pose proof (latest_versions_spec fs (f_name f)) as Hs.
    destruct (latest_versions fs !! f_name f) as [g|]; [|by destruct (Hs f)].
    destruct Hs as (Hg & Hn & Hgmax). f_equal. apply (unique_eq fs); [done..|].
    specialize (Hmax g Hg Hn). specialize (Hgmax f Hf eq_refl).
    apply version_ltb_ge in Hmax, Hgmax.
    rewrite (cmp_flip_eq version_cmp (f_version f) (f_version g)) in *.
    by destruct (version_cmp (f_version f) (f_version g)).
Qed.

Lemma elem_of_candidates self filters req group f :
  registry_inv self ->
  f ∈ candidates self filters req group <-> selected self filters req group f.
Proof.
  intros Hinv. unfold candidates, selected, matches_id.
  rewrite list_elem_of_filter, Is_true_true, andb_true_iff, matches_metadata_iff.
  set (matching := filter _ _).
  assert (forall g, g ∈ matching <-> g ∈ lk_data (functions self) /\
    (matches_name group (fl_name filters) g = true /\ matches_version req g = true)) as Hm.
  { intros g. unfold matching. rewrite list_elem_of_filter, Is_true_true, andb_true_iff. tauto. }
  assert (StronglySorted different_id matching) as Hu by apply StronglySorted_filter, Hinv.
  destruct group.
  - rewrite elem_of_latest by done. rewrite Hm. setoid_rewrite Hm. split; [naive_solver|].
    intros (?&?&Hmax&?&?). split_and!; [tauto..|]. intros g [? ?] ?. apply Hmax; auto.
  - rewrite Hm. split; [naive_solver | tauto].
Qed.

Lemma unique_nodup (l : list RFunction) : StronglySorted different_id l -> NoDup l.
Proof.
  induction 1 as [|x l Hl IH Hx]; constructor; [|done]. intros Hin.
  rewrite Forall_forall in Hx. specialize (Hx _ Hin). unfold different_id in Hx.
  rewrite <- not_true_iff_false, same_id_iff in Hx. destruct Hx.
  split; [done|]. apply cmp_refl_eq, _.
Qed.

Lemma latest_nodup (fs : list RFunction) : NoDup (hash_values (latest_versions fs)).
Proof.
  apply (NoDup_fmap_1 f_name). unfold hash_values.
  assert (f_name <$> (hash_iter (latest_versions fs)).*2 = (hash_iter (latest_versions fs)).*1) as ->;
    [|apply hash_iter_nodup].
  rewrite <- list_fmap_compose. apply list_fmap_ext. intros i [k f] Hi. simpl.
  apply list_elem_of_lookup_2, elem_of_hash_iter in Hi.
  pose proof (latest_versions_spec fs k) as Hs. rewrite Hi in Hs. by destruct Hs as (_ & ? & _).
Qed.

Lemma candidates_nodup self filters req group :
  registry_inv self -> NoDup (candidates self filters req group).
Proof.
  intros Hinv. unfold candidates. apply NoDup_filter. destruct group; [apply latest_nodup|].
  apply NoDup_filter, unique_nodup, Hinv.
Qed.

#[export] Instance list_cmp_order key : CmpOrder (list_cmp key).
Proof.
  assert (CmpOrder (cmp_lex (cmp_on f_name str_cmp) (cmp_rev (cmp_on f_version version_cmp)))) as Ho
    by exact (cmp_lex_order _ _).
  unfold list_cmp. by destruct (OrderingKey_from_i32 key) as [[]|].
Qed.

Lemma list_cmp_eq key f g :
  list_cmp key f g = Eq -> f_name f = f_name g /\ version_cmp (f_version f) (f_version g) = Eq.
Proof.
  assert (list_cmp key f g = cmp_lex (cmp_on f_name str_cmp) (cmp_rev (cmp_on f_version version_cmp)) f g)
    as ->.
  { unfold list_cmp. destruct (OrderingKey_from_i32 key) as [[]|]; reflexivity. }
  unfold cmp_lex, cmp_rev, cmp_on. destruct (str_cmp _ _) eqn:Hn; [|done..].
  apply str_cmp_eq in Hn. rewrite (cmp_flip_eq version_cmp (f_version f)).
  by destruct (version_cmp (f_version f) (f_version g)).
Qed.

Lemma list_cmp_name key f g :
  cmp_le (list_cmp key) f g -> cmp_le str_cmp (f_name f) (f_name g).
Proof.
  assert (list_cmp key = cmp_lex (cmp_on f_name str_cmp) (cmp_rev (cmp_on f_version version_cmp))) as ->
    by (unfold list_cmp; by destruct (OrderingKey_from_i32 key) as [[]|]).
  unfold cmp_le, cmp_lex, cmp_on. by destruct (str_cmp _ _).
Qed.

Definition parsed_requirement (filters : Filters) : result Status (option VersionReq) :=
  transpose ((fun vr => map_err
      (fun e => MkStatus CInvalidArgument ("Supplied version requirement is invalid: " +:+ e))
      (req_parse_npm vr)) <$> fl_version_requirement filters).
Definition ordering (filters : Filters) : Ordering := default default_ordering (fl_order filters).

Lemma omap_images {A B E} (g : A -> result E B) (l : list A) :
  (forall a, a ∈ l -> exists b, g a = Ok b) ->
  Forall2 (fun a b => g a = Ok b) l (omap (fun a => result_ok (g a)) l).
Proof.
  induction l as [|a l IH]; intros Hl; [constructor|].
  destruct (Hl a) as [b Hb]; [set_solver|]. simpl. rewrite Hb. simpl.
  constructor; [done|]. apply IH. set_solver.
Qed.

(** The sequence a listing cuts its page from. *)
Definition listing self (filters : Filters) (req : option VersionReq) (group : bool) : list RFunction :=
  let sorted := sort_by (list_cmp (ord_key (ordering filters))) (candidates self filters req group) in
  if ord_reverse (ordering filters) then reverse sorted else sorted.

Lemma list_unfold self filters group req :
  registry_inv self -> parsed_requirement filters = Ok req ->
  list_ self filters group =
  Ok (omap (fun f => result_ok (get_function self f))
       (page (ord_offset (ordering filters)) (ord_limit (ordering filters)) (listing self filters req group))).
Proof.
  intros Hinv Hreq. unfold list_, functions_read, lock_get. rewrite (ri_functions_lock _ Hinv).
  cbn [mbind result_bind]. fold (parsed_requirement filters). by rewrite Hreq.
Qed.

Lemma listing_perm self filters req group : listing self filters req group ≡ₚ candidates self filters req group.
Proof. unfold listing. destruct (ord_reverse _); rewrite ?reverse_Permutation; apply sort_by_perm. Qed.

Lemma elem_of_listing self filters req group f :
  registry_inv self -> f ∈ listing self filters req group <-> selected self filters req group f.
Proof. intros Hinv. rewrite listing_perm. by apply elem_of_candidates. Qed.

Lemma listing_nodup self filters req group : registry_inv self -> NoDup (listing self filters req group).
Proof. intros Hinv. rewrite listing_perm. by apply candidates_nodup. Qed.

Definition listing_order (filters : Filters) : relation RFunction :=
  let le := cmp_le (list_cmp (ord_key (ordering filters))) in
  if ord_reverse (ordering filters) then flip le else le.

Lemma listing_sorted self filters req group :
  StronglySorted (listing_order filters) (listing self filters req group).
Proof.
  unfold listing, listing_order. destruct (ord_reverse _);
    [apply StronglySorted_reverse; [apply _|]|]; apply (sort_by_sorted (list_cmp _)).
Qed.

(** Every function on the page has an image. *)
Lemma list_images self filters group req :
  registry_inv self -> parsed_requirement filters = Ok req ->
  exists rs, list_ self filters group = Ok rs /\
    Forall2 (fun f r => get_function self f = Ok r)
      (page (ord_offset (ordering filters)) (ord_limit (ordering filters)) (listing self filters req group)) rs.
Proof.
  intros Hinv Hreq. rewrite (list_unfold _ _ _ req) by done. eexists. split; [done|].
  apply omap_images. intros f Hf%page_elem_of. apply elem_of_listing in Hf; [|done].
  apply get_function_total. by apply (ri_functions _ Hinv f), Hf.
Qed.

(** A grouped listing has one function per name. *)
Lemma listing_names self filters req f g :
  registry_inv self -> f ∈ listing self filters req true -> g ∈ listing self filters req true ->
  f_name f = f_name g -> f = g.
Proof.
  intros Hinv Hf Hg Hn. apply elem_of_listing in Hf as (Hf & Hfi & Hfmax & _), Hg as (Hg & Hgi & Hgmax & _);
    [|done..]. specialize (Hfmax eq_refl g Hg Hgi (eq_sym Hn)). specialize (Hgmax eq_refl f Hf Hfi Hn).
  apply version_ltb_ge in Hfmax, Hgmax. apply (unique_lookup self); [done..|].
  rewrite (cmp_flip_eq version_cmp (f_version f)) in Hfmax.
  by destruct (version_cmp (f_version f) (f_version g)).
Qed.

Lemma list_Ok_requirement self filters group rs :
  list_ self filters group = Ok rs -> exists req, parsed_requirement filters = Ok req.
Proof.
  unfold list_. intros (reader & _ & H)%bind_Ok_inv. fold (parsed_requirement filters) in H.
  destruct (parsed_requirement filters) as [req|]; [eauto | discriminate H].
Qed.

Lemma get_function_name self f r : get_function self f = Ok r -> fn_name r = f_name f.
Proof. unfold get_function. intros H. inv_ok. by subst r. Qed.

(** ** Uploading *)

(** A client sending the chunks [contents] for [id], every file operation
    succeeding and every write taking the whole chunk. *)
Definition whole_chunks (id : AttachmentId) (contents : list (list byte)) : list UploadItem :=
  (fun c => MkUploadItem (Ok (MkAttachmentStreamUpload (Some id) c)) None (Ok (length c))) <$> contents.

Lemma write_at_app pos (a b old : list byte) :
  write_at (pos + length a) b (write_at pos a old) = write_at pos (a ++ b) old.
Proof.
  unfold write_at. rewrite length_app.
  destruct (decide (pos <= length old)) as [Hle|Hgt].
  - assert (length (take pos old) = pos) as Hlen by (rewrite length_take; lia).
    assert (take (pos + length a) (take pos old ++ a ++ drop (pos + length a) old) = take pos old ++ a)
      as -> by (rewrite (assoc_L (++)); apply take_app_length'; rewrite length_app; lia).
    assert (drop (pos + length a + length b) (take pos old ++ a ++ drop (pos + length a) old) =
            drop (pos + length a + length b) old) as ->.
    { rewrite (assoc_L (++)), drop_app, length_app, Hlen.
      rewrite (drop_ge (take pos old ++ a)) by (rewrite length_app; lia).
      rewrite drop_drop. simpl. f_equal. lia. }
    rewrite <- !(assoc_L (++)). by rewrite Nat.add_assoc.
  - rewrite !(drop_ge old), !app_nil_r by lia. rewrite (take_ge old) by lia.
    rewrite (take_ge (old ++ a)) by (rewrite length_app; lia).
    rewrite (drop_ge (old ++ a)) by (rewrite length_app; lia).
    by rewrite app_nil_r, (assoc_L (++)).
Qed.

(** One chunk of such a stream, the file being open already or not. *)
Lemma upload_chunk_next u id a c pos path self :
  get_attachment self id = Ok a -> u_file u = Some (Ok pos, path) ->
  upload_chunk u (MkUploadItem (Ok (MkAttachmentStreamUpload (Some id) c)) None (Ok (length c))) self =
  (set_files (<[path := write_at pos c (default [] (files self !! path))]> (files self)) self,
   Ok (MkUpload (u_hashed u ++ c) (Some (default a (u_attachment u))) (Some (Ok (pos + length c)%nat, path)))).
Proof.
  intros Ha Hu. unfold upload_chunk, sem_lift, sem_ask, sem_modify.
  cbv [mbind sem_bind mret sem_ret result_bind]. cbn [up_chunk asu_id ok_or]. rewrite Ha, Hu.
  cbn. rewrite (take_ge c) by done. by destruct (u_attachment u).
Qed.
Lemma upload_chunk_first u id a c self :
  let path := path_join (attachment_directory self) (aid_uuid id) in
  get_attachment self id = Ok a -> u_file u = None ->
  upload_chunk u (MkUploadItem (Ok (MkAttachmentStreamUpload (Some id) c)) None (Ok (length c))) self =
  (set_files (<[path := write_at 0 c (default [] (files self !! path))]> (files self)) self,
   Ok (MkUpload (u_hashed u ++ c) (Some (default a (u_attachment u))) (Some (Ok (length c), path)))).
Proof.
  intros path Ha Hu. unfold upload_chunk, sem_lift, sem_ask, sem_modify.
  cbv [mbind sem_bind mret sem_ret result_bind]. cbn [up_chunk asu_id ok_or]. rewrite Ha, Hu.
  cbn [up_open]. fold path. cbn [up_write map_err asu_content set_files files].
  rewrite lookup_insert_eq, insert_insert_eq, (take_ge c) by done. by destruct (u_attachment u).
Qed.

Lemma upload_loop_whole id a self contents u pos path :
  get_attachment self id = Ok a -> u_file u = Some (Ok pos, path) -> contents <> [] ->
  upload_loop u (whole_chunks id contents) self =
  (set_files (<[path := write_at pos (concat contents) (default [] (files self !! path))]> (files self)) self,
   Ok (MkUpload (u_hashed u ++ concat contents) (Some (default a (u_attachment u)))
         (Some (Ok (pos + length (concat contents))%nat, path)))).
Proof.
  revert u pos self. induction contents as [|c contents IH]; intros u pos self Ha Hu Hne; [done|].
  unfold whole_chunks. rewrite fmap_cons. cbn [upload_loop]. fold (whole_chunks id contents).
  unfold mbind, sem_bind. rewrite (upload_chunk_next u id a c pos path) by done.
  destruct contents as [|c' contents].
  { simpl. by rewrite app_nil_r. }
  rewrite (IH _ (pos + length c)) by done. cbn [files set_files u_hashed u_attachment].
  rewrite lookup_insert_eq, insert_insert_eq. cbn [concat]. simpl default.
  rewrite write_at_app, <- !(assoc_L (++)).
  replace (pos + length c + length (c' ++ concat contents))%nat
    with (pos + length (c ++ c' ++ concat contents))%nat by (rewrite !length_app; lia). done.
Qed.

(** A complete upload writes its chunks, in order, over the start of the file
    and then compares the checksum. *)
Lemma upload_whole id a self contents :
  get_attachment self id = Ok a -> contents <> [] ->
  let path := path_join (attachment_directory self) (aid_uuid id) in
  let content := concat contents in
  let old := default [] (files self !! path) in
  upload_streamed_attachment (whole_chunks id contents) self =
  (set_files (<[path := content ++ drop (length content) old]> (files self)) self,
   check_upload (MkUpload content (Some a) None)).
Proof.
  intros Ha Hne path content old. destruct contents as [|c contents]; [done|].
  unfold upload_streamed_attachment, upload_stream_attachment, whole_chunks.
  rewrite fmap_cons. fold (whole_chunks id contents). cbn [upload_loop].
  unfold mbind, sem_bind. rewrite (upload_chunk_first _ id a) by done. fold path.
  destruct contents as [|c' contents].
  { unfold content. simpl. by rewrite app_nil_r. }
  rewrite (upload_loop_whole id a _ _ _ (length c) path) by done.
  cbn [files set_files u_hashed u_attachment].
  rewrite lookup_insert_eq, insert_insert_eq. simpl default.
  pose proof (write_at_app 0 c (concat (c' :: contents)) old) as Hw. simpl Nat.add in Hw. fold old. rewrite Hw.
  done.
Qed.

(** ** Properties *)

Lemma inv_new suffix dir : registry_inv (new suffix dir).
Proof. split; try done; [constructor | simpl; intros f; set_solver]. Qed.
Lemma inv_serve r self : registry_inv self -> registry_inv (serve r self).
Proof.
  destruct r; [apply inv_register | apply inv_register_attachment | apply inv_upload].
Qed.

(** C1: whatever sequence of requests a registry has served, successful or
    not, no two stored functions share a name and a version, every stored
    function has an accepted name, a publisher and a checksum entry, and every
    attachment it names is registered (with checksum, url and publisher). *)
Theorem reachable_registry_inv suffix dir self : reachable suffix dir self -> registry_inv self.
Proof. induction 1 as [|r self _ IH]; [apply inv_new | by apply inv_serve]. Qed.

(** C4: a successful registration can be read back.  The function returned has
    the payload's fields under the suffixed version, [get] with the returned
    name and version answers exactly it, no other function is touched beyond
    the one of the same id it replaces, and lookups of other names do not
    change. *)
Theorem register_then_get now payload self self' r :
  register now payload self = (self', Ok r) ->
  (exists v f, registered_version payload self v /\ registered_as now payload v self f /\
     lk_data (functions self') =
       filter (fun g => negb (same_id (fd_name payload) v g)) (lk_data (functions self)) ++ [f] /\
     get_function self f = Ok r) /\
  fn_name r = fd_name payload /\ fn_created_at r = now /\ fn_runtime r = fd_runtime payload /\
  fn_required_inputs r = fd_required_inputs payload /\
  fn_optional_inputs r = fd_optional_inputs payload /\ fn_outputs r = fd_outputs payload /\
  get self' (MkFunctionId (fn_name r) (fn_version r)) = Ok r /\
  forall fn_id, fid_name fn_id <> fd_name payload -> get self' fn_id = get self fn_id.
Proof.
  intros (v & f & Hv & Hf & Hl & -> & Hr & Hget)%register_Ok. pose proof Hr as Hr'.
  unfold get_function in Hr. inv_ok. subst r. pose proof Hf as (rt & cs & p & Hrt & Hcs & Hp & ->).
  cbn [f_name f_version] in *. set (f := MkRFunction _ _ _ _ _ _ _ _ _ _ _ _) in *.
  split_and!; try done; [by exists v, f|].
  intros fn_id Hne. unfold get, functions_read, lock_get. simpl. rewrite Hl.
  cbn [mbind result_bind]. rewrite reverse_app, reverse_singleton. cbn [app list_find].
  rewrite decide_False by (cbn; intros [? _]; by apply Hne).
  rewrite snd_list_find_cons, <- filter_reverse, snd_list_find_filter.
  { destruct (snd <$> _) as [g|]; [|done]. cbn. by apply get_function_ext. }
  intros g [Hg _]. apply Is_true_true, negb_true_iff, not_true_iff_false.
  intros [Hfn _]%same_id_iff. congruence.
Qed.

(** Registration is not atomic.  Once name and version are accepted, the
    stored function of that id is dropped first, so a payload refused for a
    missing runtime, an attachment that does not resolve or an incomplete
    publisher still removes it. *)
Theorem register_refused_drops now payload self v :
  validate_name (fd_name payload) = Ok tt ->
  registered_version payload self v ->
  lk_poisoned (functions self) = false ->
  fd_runtime payload = None \/ is_ok (combined_checksum self payload) = false \/
    is_ok (check_publisher "function" (fd_publisher payload)) = false ->
  (register now payload self).1 = without (fd_name payload) v self /\
  is_ok (register now payload self).2 = false /\
  forall fn_id (g : Function_), get (register now payload self).1 fn_id = Ok g ->
    exists f, f ∈ lk_data (functions self) /\ same_id (fd_name payload) v f = false /\
      get_function self f = Ok g.
Proof.
  intros Hn Hv Hp Hbad.
  assert (exists e, register now payload self = (without (fd_name payload) v self, Err e)) as [e ->].
  { destruct (register_cases now payload self) as [e Hr|w e Hw|w f _ _ Hw Hf _].
    - destruct Hv as (v0 & Hv0 & _). rewrite Hn, Hv0, Hp in Hr. by destruct Hr as [|[|]].
    - exists e. destruct Hv as (v0 & Hv0 & ->), Hw as (w0 & Hw0 & ->).
      rewrite Hv0 in Hw0. by injection Hw0 as ->.
    - destruct Hf as (rt & cs & p & Hrt & Hcs & Hpub & ->). exfalso.
      destruct Hbad as [?|[Hb|Hb]]; [congruence | by rewrite Hcs in Hb | by rewrite Hpub in Hb]. }
  split_and!; [done..|]. intros fn_id g Hg. unfold get, functions_read, lock_get in Hg.
  simpl in Hg. rewrite Hp in Hg. cbn [mbind result_bind] in Hg. inv_ok.
  apply fmap_Some in Hok as ([i f] & Hf & ->). apply list_find_Some in Hf as (Hf & _ & _).
  apply list_elem_of_lookup_2 in Hf. rewrite elem_of_reverse in Hf.
  exists f. apply (elem_without _ _ self) in Hf as [? ?]. split_and!; [done..|].
  by rewrite <- (get_function_ext (without (fd_name payload) v self)).
Qed.

(** C2: [list] and [list_versions] answer what their filters document.  The
    functions listed are, on the requested page of one sequence without
    repetitions sorted by the ordering key (backwards when asked for), the
    images of exactly the stored functions that match name, version
    requirement, metadata and publisher, for [list] only the newest matching
    version of each name.  Every image exists: none is silently skipped. *)
Theorem list_correct self filters group req :
  registry_inv self -> parsed_requirement filters = Ok req ->
  exists sorted rs,
    list_ self filters group = Ok rs /\ NoDup sorted /\
    (forall f, f ∈ sorted <-> selected self filters req group f) /\
    StronglySorted (if ord_reverse (ordering filters)
                    then flip (cmp_le (list_cmp (ord_key (ordering filters))))
                    else cmp_le (list_cmp (ord_key (ordering filters)))) sorted /\
    Forall2 (fun f r => get_function self f = Ok r)
      (page (ord_offset (ordering filters)) (ord_limit (ordering filters)) sorted) rs.
Proof.
  intros Hinv Hreq. destruct (list_images self filters group req Hinv Hreq) as (rs & Hrs & Himg).
  exists (listing self filters req group), rs. split_and!; [done | by apply listing_nodup | | | done].
  - intros f. by apply elem_of_listing.
  - apply listing_sorted.
Qed.

(** C1: a version requirement that does not parse is refused with
    [InvalidArgument], nothing else makes a listing fail. *)
Theorem list_error self filters group e :
  registry_inv self ->
  list_ self filters group = Err e <-> parsed_requirement filters = Err e.
Proof.
  intros Hinv. destruct (parsed_requirement filters) as [req|e'] eqn:Hreq.
  - rewrite (list_unfold _ _ _ req) by done. by split.
  - unfold list_, functions_read, lock_get. rewrite (ri_functions_lock _ Hinv).
    cbn [mbind result_bind]. fold (parsed_requirement filters). rewrite Hreq. cbn. by split; intros [= ->].
Qed.

(** *** Attachments *)
Lemma check_upload_iff content a ck :
  att_checksums a = Some ck ->
  check_upload (MkUpload content (Some a) None) = Ok tt <->
  sha256 content = default [] (result_ok (hex_decode (ck_sha256 ck))).
Proof.
  intros Hck. unfold check_upload. cbn [u_attachment u_hashed mbind option_bind]. rewrite Hck.
  cbn [ok_or mbind result_bind]. rewrite <- bytes_eqb_eq.
  by destruct (bytes_eqb _ _); split; intros H.
Qed.

Lemma register_attachment_Ok now new_id os payload self self' h :
  register_attachment now new_id os payload self = (self', Ok h) ->
  let path := path_join (attachment_directory self) (uuid_to_string new_id) in
  exists ck p canonical url,
    ad_checksums payload = Some ck /\ check_publisher "attachment" (ad_publisher payload) = Ok p /\
    lk_poisoned (function_attachments self) = false /\ files self !! path = None /\
    os_canonicalize os path = Ok canonical /\ os_file_url os canonical = Some url /\
    h = MkAttachmentHandle (Some (MkAttachmentId (uuid_to_string new_id)))
          (Some (MkAttachmentUrl "grpc://" (AuthMethod_to_i32 AMNone))) /\
    self' = set_attachments (<[new_id :=
        MkAttachment (ad_name payload) (Some (MkAttachmentUrl url (AuthMethod_to_i32 AMNone)))
          (ad_metadata payload) (Some ck) now (Some p) (ad_signature payload)]>
        (lk_data (function_attachments self)))
      (set_files (<[path := []]> (files self)) self).
Proof.
  intros H path. unfold register_attachment, sem_lift, sem_ask, sem_modify in H.
  cbv [mbind sem_bind mret sem_ret] in H.
  destruct (str_is_empty _); [done|]. destruct (ad_checksums payload) as [ck|]; cbn [ok_or] in H; [|done].
  destruct (lock_get _ _) as [atts|] eqn:Hl; [|done]. apply lock_get_Ok in Hl as [Hp <-].
  destruct (check_publisher _ _) as [p|] eqn:Hpub; [|done]. fold path in H.
  destruct (files self !! path) eqn:Hfile; [done|]. destruct (os_create os _); [done|].
  destruct (os_canonicalize os _) as [c|] eqn:Hcan; cbn [map_err] in H; [|done].
  destruct (os_file_url os c) as [url|] eqn:Hurl; cbn [ok_or] in H; [|done].
  injection H as <- <-. by exists ck, p, c, url.
Qed.

(** C5: an attachment that was registered under a fresh identifier and then
    uploaded in any number of chunks, with the checksum it was registered
    with, is stored byte for byte: the upload succeeds, the file the
    attachment's url was made from holds exactly the concatenation of the
    chunks, and the attachment answers the payload's name, metadata,
    checksums, signature and publisher.  The file operations succeed and every
    single write takes the whole chunk ([whole_chunks]): the service writes a
    chunk once, and a write that takes less loses the rest. *)
Theorem attachment_upload_roundtrip now new_id os payload self self1 h id ck contents :
  register_attachment now new_id os payload self = (self1, Ok h) ->
  ah_id h = Some id -> contents <> [] ->
  ad_checksums payload = Some ck ->
  hex_decode (ck_sha256 ck) = Ok (sha256 (concat contents)) ->
  exists self2 a path canonical url,
    upload_streamed_attachment (whole_chunks id contents) self1 = (self2, Ok tt) /\
    get_attachment self2 id = Ok a /\
    att_name a = ad_name payload /\ att_metadata a = ad_metadata payload /\
    att_checksums a = Some ck /\ att_signature a = ad_signature payload /\
    att_publisher a = ad_publisher payload /\ att_created_at a = now /\
    att_url a = Some (MkAttachmentUrl url (AuthMethod_to_i32 AMNone)) /\
    os_canonicalize os path = Ok canonical /\ os_file_url os canonical = Some url /\
    files self2 = <[path := concat contents]> (files self) /\
    functions self2 = functions self.
Proof.
  intros Hreg Hid Hne Hck Hsum.
  apply register_attachment_Ok in Hreg as (ck' & p & canonical & url & Hck' & Hpub & Hp & Hfile & Hcan & Hurl & -> & ->).
  rewrite Hck in Hck'. injection Hck' as <-. injection Hid as <-.
  set (a := MkAttachment _ _ _ _ _ _ _). set (path := path_join _ _) in *.
  set (self1 := set_attachments _ _).
  assert (get_attachment self1 (MkAttachmentId (uuid_to_string new_id)) = Ok a) as Ha.
  { apply get_attachment_Ok. exists new_id. cbn.
    by rewrite uuid_parse_to_string, Hp, lookup_insert_eq. }
  rewrite (upload_whole _ a) by done. cbv zeta.
  change (path_join (attachment_directory self1) _) with path.
  assert (files self1 !! path = Some []) as -> by apply lookup_insert_eq.
  cbn [default from_option id]. rewrite drop_nil, app_nil_r.
  assert (check_upload (MkUpload (concat contents) (Some a) None) = Ok tt) as ->.
  { apply (check_upload_iff _ a ck); [done|]. by rewrite Hsum. }
  eexists _, a, path, canonical, url. split_and!; try done.
  - cbn. by destruct (check_publisher_Ok _ _ _ Hpub) as (-> & _).
  - cbn. by rewrite insert_insert_eq.
Qed.

(** An upload does not shorten the file it writes to.  When a longer
    upload was refused for its checksum, the file keeps its bytes, and the
    upload of the right content that follows is accepted although the file
    then ends in the refused bytes and no longer has the checksum's content. *)
Theorem upload_keeps_stale_tail id a self ck bad good :
  get_attachment self id = Ok a -> att_checksums a = Some ck ->
  let path := path_join (attachment_directory self) (aid_uuid id) in
  default [] (files self !! path) = [] ->
  hex_decode (ck_sha256 ck) = Ok (sha256 good) -> sha256 bad <> sha256 good ->
  length good < length bad ->
  exists self1 self2 e,
    upload_streamed_attachment (whole_chunks id [bad]) self = (self1, Err e) /\
    upload_streamed_attachment (whole_chunks id [good]) self1 = (self2, Ok tt) /\
    files self2 !! path = Some (good ++ drop (length good) bad) /\
    good ++ drop (length good) bad <> good.
Proof.
  intros Ha Hck path Hold Hsum Hbad Hlen.
  rewrite (upload_whole _ a) by done. cbv zeta. fold path. rewrite Hold, drop_nil, app_nil_r.
  cbn [concat]. rewrite !app_nil_r.
  destruct (check_upload (MkUpload bad (Some a) None)) as [[]|e] eqn:He.
  { apply (check_upload_iff _ a ck) in He; [|done]. by rewrite Hsum in He. }
  eexists _, _, e. split; [reflexivity|].
  rewrite (upload_whole _ a) by done. cbv zeta. cbn [attachment_directory set_files files]. fold path.
  rewrite lookup_insert_eq. cbn [concat from_option Datatypes.id]. rewrite app_nil_r.
  assert (check_upload (MkUpload good (Some a) None) = Ok tt) as ->.
  { apply (check_upload_iff _ a ck); [done|]. by rewrite Hsum. }
  split_and!; [reflexivity | cbn; by rewrite insert_insert_eq, lookup_insert_eq |].
  intros Heq%(f_equal length). rewrite length_app, length_drop in Heq. lia.
Qed.
End registry_props.

(** C6: the unspecified iteration order of the hash maps a listing goes
    through is not visible: two runs in any two orders answer the same. *)
Theorem list_order_irrelevant {SV : SemVer} {UL : UuidLib} {RE : RegexEngine} (HO1 HO2 : HashOrder)
    (self : RegistryService) filters group :
  registry_inv self ->
  @list_ SV UL HO1 self filters group = @list_ SV UL HO2 self filters group.
Proof.
  intros Hinv. destruct (parsed_requirement filters) as [req|e] eqn:Hreq.
  - rewrite (@list_unfold _ _ _ HO1 _ _ _ req), (@list_unfold _ _ _ HO2 _ _ _ req) by done. cbv zeta.
    unfold listing. rewrite (sort_by_proper (list_cmp (ord_key (ordering filters)))
               (@candidates SV UL HO2 self filters req group)
               (@candidates SV UL HO1 self filters req group)); [done| |].
    + intros f g Hf Hg [Hn Hv]%list_cmp_eq.
      apply elem_of_candidates in Hf as [Hf _], Hg as [Hg _]; [|done..].
      by apply (unique_lookup self).
    + apply NoDup_Permutation; [by apply candidates_nodup..|].
      intros f. by rewrite !elem_of_candidates.
  - unfold list_, functions_read, lock_get. rewrite (ri_functions_lock _ Hinv).
    cbn [mbind result_bind]. fold (parsed_requirement filters). by rewrite Hreq.
Qed.

(** ** Concrete instances of the properties *)
Module RegistryExamples.
#[local] Existing Instance Concrete.text_semver.
#[local] Existing Instance Concrete.text_uuid.
#[local] Existing Instance Concrete.text_digest.
#[local] Existing Instance derivative_engine.
#[local] Existing Instance key_order.

Definition publisher := MkPublisher "Ada" "ada@example.com".
Definition payload := MkFunctionData "sum-it" "1" {[ "kind" := "math" ]} ∅ ∅ ∅ None
  (Some (MkRuntimeSpec "wasi" EmptyString ∅)) [] (Some publisher) None.
Definition no_runtime := MkFunctionData "sum-it" "1" ∅ ∅ ∅ ∅ None None [] (Some publisher) None.
Definition start := new EmptyString "/srv".
Definition started := (register 7 payload start).1.
Definition os := MkOs (fun _ => None) (fun p => Ok p) (fun p => Some ("file://" +:+ p)).
Definition fresh_id : @uuid Concrete.text_uuid := "u1".
Definition good := bytes_of "code".
Definition bad := bytes_of "longer text".
Definition data := MkAttachmentData "blob" ∅ (Some (MkChecksums "code")) (Some publisher) None.
Definition holding := (register_attachment 8 fresh_id os data started).1.
Definition all_functions := MkFilters EmptyString (Some "*") {[ "kind" := EmptyString ]} None EmptyString.

Lemma started_inv : registry_inv started.
Proof. apply inv_register, inv_new. Qed.

Lemma reachable_registry_inv_witness : registry_inv (serve (Register 7 payload) start).
Proof.
  apply (reachable_registry_inv EmptyString "/srv").
  apply reachable_serve, reachable_new.
Defined.

Lemma register_then_get_witness :
  exists r, register 7 payload start = (started, Ok r) /\
    get started (MkFunctionId "sum-it" "1") = Ok r.
Proof.
  eexists. split; [vm_compute; reflexivity|].
  match goal with |- _ = Ok ?r =>
    pose proof (register_then_get 7 payload start started r eq_refl) as Hreg end.
  apply Hreg.
Defined.

Lemma register_refused_drops_witness :
  (register 9 no_runtime started).1 = without "sum-it" "1" started /\
  is_ok (get started (MkFunctionId "sum-it" "1")) = true /\
  is_ok (register 9 no_runtime started).2 = false /\
  get (register 9 no_runtime started).1 (MkFunctionId "sum-it" "1") <>
    get started (MkFunctionId "sum-it" "1").
Proof.
  destruct (register_refused_drops 9 no_runtime started "1") as (Hs & He & _).
  - reflexivity.
  - exists "1". split; reflexivity.
  - reflexivity.
  - left. reflexivity.
  - split; [exact Hs|]. split; [reflexivity|]. split; [exact He|]. vm_compute. discriminate.
Defined.

Lemma list_correct_witness :
  exists (sorted : list RFunction) rs, list_ started all_functions true = Ok rs /\ length rs = 1 /\
    forall f, f ∈ sorted <-> selected started all_functions (Some "*") true f.
Proof.
  destruct (list_correct started all_functions true (Some "*") started_inv eq_refl)
    as (sorted & rs & Hrs & _ & Hin & _ & _).
  exists sorted, rs. split; [exact Hrs|]. split; [|exact Hin].
  vm_compute in Hrs. injection Hrs as <-. reflexivity.
Defined.

Lemma list_error_witness :
  exists e, list_ started (MkFilters EmptyString (Some "?") ∅ None EmptyString) true = Err e.
Proof.
  eexists. apply (list_error started _ true _ started_inv). reflexivity.
Defined.

Lemma list_order_irrelevant_witness :
  @list_ _ _ key_order started all_functions true = @list_ _ _ reverse_order started all_functions true.
Proof. apply (list_order_irrelevant key_order reverse_order), started_inv. Defined.

Lemma attachment_upload_roundtrip_witness :
  exists self2, upload_streamed_attachment
      (whole_chunks (MkAttachmentId "#u1") [bytes_of "co"; bytes_of "de"]) holding = (self2, Ok tt) /\
    files self2 = {[ "/srv/#u1" := good ]}.
Proof.
  destruct (attachment_upload_roundtrip 8 fresh_id os data started holding
    (MkAttachmentHandle (Some (MkAttachmentId "#u1")) (Some (MkAttachmentUrl "grpc://" 0)))
    (MkAttachmentId "#u1") (MkChecksums "code") [bytes_of "co"; bytes_of "de"])
    as (self2 & a & path & c & url & Hup & _ & _ & _ & _ & _ & _ & _ & _ & _ & _ & _ & _);
    try reflexivity; [discriminate|].
  exists self2. split; [exact Hup|].
  vm_compute in Hup. injection Hup as <-. reflexivity.
Defined.

Lemma upload_keeps_stale_tail_witness :
  exists self1 self2 e,
    upload_streamed_attachment (whole_chunks (MkAttachmentId "#u1") [bad]) holding = (self1, Err e) /\
    upload_streamed_attachment (whole_chunks (MkAttachmentId "#u1") [good]) self1 = (self2, Ok tt) /\
    files self2 !! "/srv/#u1" = Some (bytes_of "codeer text").
Proof.
  destruct (upload_keeps_stale_tail (MkAttachmentId "#u1")
    (MkAttachment "blob" (Some (MkAttachmentUrl "file:///srv/#u1" 0)) ∅ (Some (MkChecksums "code")) 8
       (Some publisher) None) holding (MkChecksums "code") bad good)
    as (self1 & self2 & e & H1 & H2 & H3 & _); try reflexivity.
  - vm_compute. discriminate.
  - vm_compute. lia.
  - exists self1, self2, e. split; [exact H1|]. split; [exact H2 | exact H3].
Defined.
End RegistryExamples.
