(* ===== verification/ProxyRegistry.v ===== *)
(** * The forwarding registry (services/avery/src/proxy_registry.rs)

    Avery's public registry combines the internal one with configured external
    registries.  An external registry is a service behind a network connection:
    a [Connection] is its name and what it answers to each read request.  Reads
    ask every registry, externals in configuration order first, and combine the
    answers; writes go to the internal registry alone.  Connecting and the tokens
    of requests are in [ProxyConnect]. *)
From S2P Require Import Prelude Interfaces Proto Regex Registry.

(** ** State *)
Inductive ConflictResolutionMethod := ConflictError | UsePriority.

Record Connection := MkConnection {
  cn_name : string;
  cn_list : Filters -> result Status (list Function_);
  cn_list_versions : Filters -> result Status (list Function_);
  cn_get : FunctionId -> result Status Function_
}.

Inductive ListFunction := ListFunctions | ListVersions.

(** The variants that answering a request can construct. *)
Inductive ProxyRegistryError :=
| ConflictingFunctions (key registry1 registry2 : string)
| VersionParseError (e : string).
Definition display_error (e : ProxyRegistryError) : string :=
  match e with
  | ConflictingFunctions k a b =>
      "Conflicting version name pair: " +:+ quoted k +:+ " in registries " +:+ quoted a +:+ " and " +:+ quoted b
  | VersionParseError e => "Version parse error: " +:+ e
  end.

Section proxy.
Context {SV : SemVer} {UL : UuidLib} {DL : DigestLib} {RE : RegexEngine} {HO : HashOrder}.

Record ProxyRegistry := MkProxy {
  internal_registry : RegistryService;
  connections : list Connection;
  conflict_resolution : ConflictResolutionMethod
}.

Definition registry_of (f : Function_) : string := default "unknown" (fn_metadata f !! "registry").

(** ** Combining lists *)
Definition conflict (self : ProxyRegistry) (key : string) (function existing : Function_)
    (hashmap : gmap string Function_) : result ProxyRegistryError (gmap string Function_) :=
  match conflict_resolution self with
  | ConflictError => Err (ConflictingFunctions key (registry_of function) (registry_of existing))
  | UsePriority => Ok hashmap
  end.

Definition try_insert_function (self : ProxyRegistry) (hashmap : gmap string Function_) (function : Function_)
  : result ProxyRegistryError (gmap string Function_) :=
  match hashmap !! fn_name function with
  | Some existing =>
      version ← map_err VersionParseError (version_parse (fn_version function));
      match version_parse (fn_version existing) with
      | Ok existing_version =>
          if version_ltb existing_version version then Ok (<[fn_name function := function]> hashmap)
          else if version_eqb existing_version version
               then conflict self (fn_name function) function existing hashmap
               else Ok hashmap
      | Err _ => Ok hashmap
      end
  | None => Ok (<[fn_name function := function]> hashmap)
  end.

Definition version_key (function : Function_) : string := fn_name function +:+ ":" +:+ fn_version function.

Definition try_insert_version (self : ProxyRegistry) (hashmap : gmap string Function_) (function : Function_)
  : result ProxyRegistryError (gmap string Function_) :=
  match hashmap !! version_key function with
  | Some existing => conflict self (version_key function) function existing hashmap
  | None => Ok (<[version_key function := function]> hashmap)
  end.

(** [function.metadata.insert("registry", name)]. *)
Definition tag (name : string) (f : Function_) : Function_ :=
  fn_set_metadata (<["registry" := name]> (fn_metadata f)) f.

(** What every registry answers, in priority order, each function marked with
    the registry it comes from. *)
Definition ask (list_function : ListFunction) (filters : Filters) (connection : Connection)
  : result Status (string * list Function_) :=
  functions ← match list_function with
              | ListFunctions => cn_list connection filters
              | ListVersions => cn_list_versions connection filters
              end;
  Ok (cn_name connection, functions).
Definition ask_internal (self : ProxyRegistry) (filters : Filters) : result Status (string * list Function_) :=
  functions ← rpc_list (internal_registry self) filters; Ok ("internal", functions).
Definition tag_all (answer : string * list Function_) : list Function_ :=
  tag answer.1 <$> answer.2.
Definition responses (self : ProxyRegistry) (filters : Filters) (list_function : ListFunction)
  : result Status (list Function_) :=
  rs ← collect ((ask list_function filters <$> connections self) ++ [ask_internal self filters]);
  Ok (concat (tag_all <$> rs)).

Definition insert_function (self : ProxyRegistry) (list_function : ListFunction) :=
  match list_function with
  | ListFunctions => try_insert_function self
  | ListVersions => try_insert_version self
  end.

(** The version is only used for sorting. *)
Definition sort_version (f : Function_) : Version :=
  match version_parse (fn_version f) with Ok v => v | Err _ => version_invalid end.

Definition proxy_cmp (key : Z) : Version * Function_ -> Version * Function_ -> comparison :=
  match OrderingKey_from_i32 key with
  | Some NameVersion | None =>
      cmp_lex (cmp_on (fun p => fn_name p.2) str_cmp) (cmp_rev (cmp_on fst version_cmp))
  end.

(** Sorting, offset and limit are redone on the combination. *)
Definition arrange (order : Ordering) (functions : list (Version * Function_)) : list Function_ :=
  let functions := snd <$> sort_by (proxy_cmp (ord_key order)) functions in
  page (ord_offset order) (ord_limit order) (if ord_reverse order then reverse functions else functions).

Definition proxy_list (self : ProxyRegistry) (filters : Filters) (list_function : ListFunction)
  : result Status (list Function_) :=
  rs ← responses self filters list_function;
  combined ← map_err (fun e => MkStatus CAlreadyExists (display_error e))
    (try_fold (insert_function self list_function) ∅ rs);
  Ok (arrange (default default_ordering (fl_order filters))
        ((fun f => (sort_version f, f)) <$> hash_values combined)).

Definition proxy_rpc_list (self : ProxyRegistry) (filters : Filters) := proxy_list self filters ListFunctions.
Definition proxy_rpc_list_versions (self : ProxyRegistry) (filters : Filters) := proxy_list self filters ListVersions.

(** ** Getting one function *)
Definition not_found {A} (r : result Status A) : bool :=
  match r with Err e => bool_decide (st_code e = CNotFound) | Ok _ => false end.

Definition ask_get (payload : FunctionId) (connection : Connection) : result Status (string * Function_) :=
  f ← cn_get connection payload; Ok (cn_name connection, f).
Definition ask_get_internal (self : ProxyRegistry) (payload : FunctionId) : result Status (string * Function_) :=
  f ← Registry.get (internal_registry self) payload; Ok ("internal", f).

Definition proxy_get (self : ProxyRegistry) (payload : FunctionId) : result Status Function_ :=
  let answers := (ask_get payload <$> connections self) ++ [ask_get_internal self payload] in
  found ← collect (filter (fun r => negb (not_found r)) answers);
  combined ← map_err (fun e => MkStatus CAlreadyExists (display_error e))
    (try_fold (try_insert_version self) ∅ ((fun answer => tag answer.1 answer.2) <$> found));
  ok_or (MkStatus CNotFound ("Failed to find function with name: " +:+ quoted (fid_name payload) +:+
           " and version " +:+ quoted (fid_version payload)))
    (head (hash_values combined)).

(** ** Writing *)

(** A handler of the internal registry, run inside the proxy. *)
Definition on_internal {A} (h : handler A) : sem ProxyRegistry Status A :=
  fun self => let '(r, a) := h (internal_registry self) in
              (MkProxy r (connections self) (conflict_resolution self), a).

Definition proxy_register now payload : sem ProxyRegistry Status Function_ :=
  on_internal (register now payload).
Definition proxy_register_attachment now new_id os payload : sem ProxyRegistry Status AttachmentHandle :=
  on_internal (register_attachment now new_id os payload).
Definition proxy_upload_streamed_attachment stream : sem ProxyRegistry Status unit :=
  on_internal (upload_streamed_attachment stream).
End proxy.
