(* ===== verification/ProxyProps.v ===== *)
(** * Properties of the forwarding registry

    What the combined listing selects, the conflict policies, [get]'s priority
    order, and two flaws: offsets are applied twice, and the version listing
    leaves out the older versions of the internal registry. *)
From S2P Require Import Prelude Interfaces Proto Regex Registry RegistryProps ProxyRegistry.

Section proxy_props.
Context {SV : SemVer} {UL : UuidLib} {DL : DigestLib} {RE : RegexEngine} {HO : HashOrder}.
Implicit Types self : ProxyRegistry.
Implicit Types f g : Function_.

(** ** Definitions of the statements *)

(** [f] is the newest of its name in [fs], and the first of that version. *)
Definition preferred (fs : list Function_) f : Prop :=
  exists i, fs !! i = Some f /\
    forall j g, fs !! j = Some g -> fn_name g = fn_name f ->
      version_cmp (sort_version g) (sort_version f) <> Gt /\
      (version_cmp (sort_version g) (sort_version f) = Eq -> i <= j).

Definition parses f : Prop := is_ok (version_parse (fn_version f)) = true.

(** The two functions that the conflict check of a listing sees as the same. *)
Definition same_slot (lf : ListFunction) f g : Prop :=
  match lf with
  | ListFunctions => fn_name f = fn_name g /\ version_cmp (sort_version f) (sort_version g) = Eq
  | ListVersions => version_key f = version_key g
  end.

(** Names ascending, or descending when the order is reversed. *)
Definition by_name (reversed : bool) f g : Prop :=
  if reversed then cmp_le str_cmp (fn_name g) (fn_name f) else cmp_le str_cmp (fn_name f) (fn_name g).

Definition with_policy self (m : ConflictResolutionMethod) : ProxyRegistry :=
  MkProxy (internal_registry self) (connections self) m.

(** ** Lists *)
Lemma StronglySorted_fmap {A B} (R : relation A) (R' : relation B) (h : A -> B) l :
  (forall x y, R x y -> R' (h x) (h y)) -> StronglySorted R l -> StronglySorted R' (h <$> l).
Proof.
  intros HR. induction 1 as [|x l Hl IH Hx]; [constructor|]. rewrite fmap_cons.
  constructor; [done|]. apply Forall_fmap. eapply Forall_impl; [exact Hx|]. exact (HR x).
Qed.

Lemma parses_sort_version f : parses f -> version_parse (fn_version f) = Ok (sort_version f).
Proof. unfold parses, sort_version. by destruct (version_parse (fn_version f)). Qed.

(** ** The newest of each name *)
Lemma preferred_unique fs f g :
  preferred fs f -> preferred fs g -> fn_name f = fn_name g -> f = g.
Proof.
  intros (i & Hi & Hf) (j & Hj & Hg) Hn.
  destruct (Hf j g Hj (eq_sym Hn)) as [Hle1 He1], (Hg i f Hi Hn) as [Hle2 He2].
  assert (version_cmp (sort_version g) (sort_version f) = Eq) as He.
  { rewrite (cmp_flip_eq version_cmp (sort_version g)) in Hle2.
    by destruct (version_cmp (sort_version g) (sort_version f)). }
  assert (version_cmp (sort_version f) (sort_version g) = Eq) as He'
    by by rewrite (cmp_flip_eq version_cmp (sort_version g)), He.
  assert (i = j) as -> by (specialize (He1 He); specialize (He2 He'); lia). congruence.
Qed.

Lemma preferred_keep fs f g :
  preferred fs f ->
  (fn_name g = fn_name f -> version_cmp (sort_version g) (sort_version f) <> Gt) ->
  preferred (fs ++ [g]) f.
Proof.
  intros (i & Hi & Hf) Hg. exists i. pose proof (lookup_lt_Some _ _ _ Hi).
  split; [by apply lookup_app_l_Some|]. intros j h Hj Hn.
  apply lookup_app_Some in Hj as [Hj|[Hlen Hj]]; [by apply Hf|].
  apply list_lookup_singleton_Some in Hj as [Hj ->]. split; [by apply Hg | lia].
Qed.

Lemma preferred_last fs g :
  (forall f, f ∈ fs -> fn_name f = fn_name g -> version_cmp (sort_version f) (sort_version g) = Lt) ->
  preferred (fs ++ [g]) g.
Proof.
  intros Hlt. exists (length fs). split; [apply list_lookup_middle; done|]. intros j h Hj Hn.
  apply lookup_app_Some in Hj as [Hj|[Hlen Hj]].
  - apply list_elem_of_lookup_2 in Hj. by rewrite (Hlt h Hj Hn).
  - apply list_lookup_singleton_Some in Hj as [Hj <-]. rewrite (cmp_refl_eq version_cmp). split; [done|lia].
Qed.

(** The map the fold of [try_insert_function] builds. *)
Definition holds_preferred (fs : list Function_) (m : gmap string Function_) : Prop :=
  forall n, match m !! n with
            | Some f => fn_name f = n /\ preferred fs f
            | None => forall g, g ∈ fs -> fn_name g <> n
            end.

Lemma holds_preferred_iff fs m f :
  holds_preferred fs m -> m !! fn_name f = Some f <-> preferred fs f.
Proof.
  intros Hm. specialize (Hm (fn_name f)). split; [intros Hf; rewrite Hf in Hm; tauto|].
  intros Hp. destruct (m !! fn_name f) as [g|].
  - destruct Hm as [Hn Hg]. f_equal. by apply (preferred_unique fs).
  - destruct Hp as (i & Hi & _). apply list_elem_of_lookup_2 in Hi. by destruct (Hm f).
Qed.

Lemma preferred_elem fs f : preferred fs f -> f ∈ fs.
Proof. intros (i & Hi & _). by apply list_elem_of_lookup_2 in Hi. Qed.

Lemma holds_preferred_same fs m f g :
  holds_preferred fs m -> m !! fn_name g = Some f ->
  version_cmp (sort_version g) (sort_version f) <> Gt -> holds_preferred (fs ++ [g]) m.
Proof.
  intros Hm Hf Hle n. pose proof (Hm n) as Hn. pose proof (Hm (fn_name g)) as Hg. rewrite Hf in Hg.
  destruct (m !! n) as [h|] eqn:Hh.
  - destruct Hn as [<- Hh']. split; [done|]. apply preferred_keep; [done|]. intros Hgh. congruence.
  - intros h [Hh'| ->%list_elem_of_singleton]%elem_of_app; [auto|]. congruence.
Qed.

Lemma holds_preferred_insert fs m g :
  holds_preferred fs m ->
  (forall f, m !! fn_name g = Some f -> version_cmp (sort_version f) (sort_version g) = Lt) ->
  holds_preferred (fs ++ [g]) (<[fn_name g := g]> m).
Proof.
  intros Hm Hlt n. destruct (decide (fn_name g = n)) as [<-|Hne].
  - rewrite lookup_insert_eq. split; [done|]. apply preferred_last. intros f Hf Hn.
    pose proof (Hm (fn_name g)) as Hg. destruct (m !! fn_name g) as [h|] eqn:Hh; [|by destruct (Hg f)].
    destruct Hg as (Hhn & i & Hi & Hp). apply list_elem_of_lookup in Hf as [j Hj].
    destruct (Hp j f Hj) as [Hle _]; [congruence|].
    exact (cmp_trans_le_lt version_cmp _ _ _ Hle (Hlt _ eq_refl)).
  - rewrite lookup_insert_ne by done. pose proof (Hm n) as Hn. destruct (m !! n) as [h|].
    + destruct Hn as [<- Hh]. split; [done|]. apply preferred_keep; [done|]. congruence.
    + intros h [Hh| ->%list_elem_of_singleton]%elem_of_app; [auto|done].
Qed.

Lemma insert_functions_spec self fs :
  conflict_resolution self = UsePriority -> Forall parses fs ->
  exists m, try_fold (try_insert_function self) ∅ fs = Ok m /\ holds_preferred fs m.
Proof.
  intros Hpol. induction fs as [|g fs IH] using rev_ind; intros Hp.
  { exists ∅. split; [done|]. intros n. rewrite lookup_empty. set_solver. }
  apply Forall_app in Hp as [Hp Hg]. rewrite Forall_singleton in Hg. destruct (IH Hp) as (m & Hm & Hh).
  rewrite try_fold_app, Hm. cbn [mbind result_bind try_fold]. unfold try_insert_function.
  pose proof (Hh (fn_name g)) as Hgn. destruct (m !! fn_name g) as [f|] eqn:Hf.
  - assert (parses f) as Hpf.
    { rewrite Forall_forall in Hp. apply Hp, preferred_elem, Hgn. }
    rewrite (parses_sort_version g), (parses_sort_version f) by done. cbn [map_err mbind result_bind].
    unfold version_ltb, version_eqb, conflict. rewrite Hpol.
    destruct (version_cmp (sort_version f) (sort_version g)) eqn:Hc; eexists; (split; [reflexivity|]).
    + apply (holds_preferred_same _ _ f); [done..|]. by rewrite (cmp_flip_eq version_cmp (sort_version f)), Hc.
    + apply holds_preferred_insert; [done|]. congruence.
    + apply (holds_preferred_same _ _ f); [done..|]. by rewrite (cmp_flip_eq version_cmp (sort_version f)), Hc.
  - eexists. split; [reflexivity|]. apply holds_preferred_insert; [done|]. congruence.
Qed.

(** ** Sorting the combination *)
Lemma proxy_cmp_unfold key :
  proxy_cmp key = cmp_lex (cmp_on (fun p : Version * Function_ => fn_name p.2) str_cmp) (cmp_rev (cmp_on fst version_cmp)).
Proof. unfold proxy_cmp. by destruct (OrderingKey_from_i32 key) as [[]|]. Qed.

#[export] Instance proxy_cmp_order key : CmpOrder (proxy_cmp key).
Proof. rewrite proxy_cmp_unfold. exact (cmp_lex_order _ _). Qed.

Lemma proxy_cmp_name key p q :
  cmp_le (proxy_cmp key) p q -> cmp_le str_cmp (fn_name p.2) (fn_name q.2).
Proof.
  rewrite proxy_cmp_unfold. unfold cmp_le, cmp_lex, cmp_on. by destruct (str_cmp _ _).
Qed.

Definition versioned f : Version * Function_ := (sort_version f, f).

#[local] Instance by_name_trans b : Transitive (by_name b).
Proof.
  intros f g h. unfold by_name, cmp_le.
  destruct b; intros H1 H2; [exact (cmp_trans_le str_cmp _ _ _ H2 H1) | exact (cmp_trans_le str_cmp _ _ _ H1 H2)].
Qed.

(** The sequence a page is cut from: a permutation of the combined functions,
    ordered by name. *)
Lemma arrange_spec order (fs : list Function_) :
  exists sorted, arrange order (versioned <$> fs) = page (ord_offset order) (ord_limit order) sorted /\
    sorted ≡ₚ fs /\ StronglySorted (by_name (ord_reverse order)) sorted.
Proof.
  unfold arrange. cbv zeta. set (l := snd <$> sort_by _ _).
  assert (l ≡ₚ fs) as Hp.
  { unfold l. rewrite sort_by_perm, <- list_fmap_compose. by rewrite list_fmap_id. }
  assert (StronglySorted (by_name false) l) as Hs.
  { apply (StronglySorted_fmap (cmp_le (proxy_cmp (ord_key order)))), (sort_by_sorted _).
    intros p q. apply proxy_cmp_name. }
  exists (if ord_reverse order then reverse l else l). destruct (ord_reverse order).
  - split_and!; [done | by rewrite reverse_Permutation |].
    exact (StronglySorted_reverse (by_name false) _ Hs).
  - done.
Qed.

Lemma NoDup_names_values (m : gmap string Function_) :
  (forall n f, m !! n = Some f -> fn_name f = n) -> NoDup (fn_name <$> hash_values m).
Proof.
  intros Hm. unfold hash_values.
  assert (fn_name <$> (hash_iter m).*2 = (hash_iter m).*1) as ->; [|apply hash_iter_nodup].
  rewrite <- list_fmap_compose. apply list_fmap_ext. intros i [n f] Hi. simpl.
  apply list_elem_of_lookup_2, elem_of_hash_iter in Hi. auto.
Qed.

(** The newest of each name, sorted: what [try_insert_function] and [arrange]
    make of functions whose versions parse. *)
Lemma newest_sorted self order fs :
  conflict_resolution self = UsePriority -> Forall parses fs ->
  exists m sorted, try_fold (try_insert_function self) ∅ fs = Ok m /\
    arrange order (versioned <$> hash_values m) = page (ord_offset order) (ord_limit order) sorted /\
    NoDup (fn_name <$> sorted) /\
    (forall f, f ∈ sorted <-> preferred fs f) /\
    StronglySorted (by_name (ord_reverse order)) sorted /\
    (forall f, f ∈ fs -> fn_name f ∈ fn_name <$> sorted).
Proof.
  intros Hpol Hp. destruct (insert_functions_spec self fs Hpol Hp) as (m & Hfold & Hm).
  destruct (arrange_spec order (hash_values m)) as (sorted & Ha & Hperm & Hs).
  assert (forall n f, m !! n = Some f -> fn_name f = n) as Hnames.
  { intros n f Hf. specialize (Hm n). rewrite Hf in Hm. tauto. }
  exists m, sorted. split_and!; [done|done| | |done|].
  - rewrite Hperm. by apply NoDup_names_values.
  - intros f. rewrite Hperm, elem_of_hash_values, <- (holds_preferred_iff _ _ _ Hm).
    split; [|eauto]. intros [k Hk]. by rewrite (Hnames k f Hk).
  - intros f Hf. rewrite Hperm. apply list_elem_of_fmap. pose proof (Hm (fn_name f)) as Hn.
    destruct (m !! fn_name f) as [g|] eqn:Hg; [|by destruct (Hn f Hf)].
    exists g. split; [by rewrite (Hnames _ _ Hg)|]. apply elem_of_hash_values. eauto.
Qed.

(** What a proxied [list] makes of the answers it got, whatever the registries
    held back: the newest of each name among them. *)
Lemma proxy_list_of_answers self filters rs :
  conflict_resolution self = UsePriority ->
  responses self filters ListFunctions = Ok rs -> Forall parses rs ->
  let order := default default_ordering (fl_order filters) in
  exists sorted,
    proxy_rpc_list self filters = Ok (page (ord_offset order) (ord_limit order) sorted) /\
    NoDup (fn_name <$> sorted) /\
    (forall f, f ∈ sorted <-> preferred rs f) /\
    StronglySorted (by_name (ord_reverse order)) sorted.
Proof.
  intros Hpol Hrs Hp order. destruct (newest_sorted self order rs Hpol Hp) as (m & sorted & Hm & Ha & Hnd & Hin & Hs & _).
  exists sorted. split_and!; [|done..]. unfold proxy_rpc_list, proxy_list. rewrite Hrs.
  cbn [mbind result_bind insert_function]. rewrite Hm. cbn [map_err mbind result_bind]. by rewrite <- Ha.
Qed.

(** ** The error policy *)
Definition slot_key (lf : ListFunction) f : string :=
  match lf with ListFunctions => fn_name f | ListVersions => version_key f end.
Definition keyed (lf : ListFunction) (pre : list Function_) (m : gmap string Function_) : Prop :=
  forall k f, m !! k = Some f -> f ∈ pre /\ k = slot_key lf f.

Lemma insert_step self lf pre m g :
  keyed lf pre m ->
  (insert_function (with_policy self ConflictError) lf m g =
     insert_function (with_policy self UsePriority) lf m g /\
   forall m', insert_function (with_policy self UsePriority) lf m g = Ok m' -> keyed lf (pre ++ [g]) m') \/
  exists f, f ∈ pre /\ same_slot lf f g /\
    insert_function (with_policy self ConflictError) lf m g =
      Err (ConflictingFunctions (slot_key lf g) (registry_of g) (registry_of f)).
Proof.
  intros Hm.
  assert (keyed lf (pre ++ [g]) m) as Hkeep by (intros k f [? ?]%Hm; set_solver).
  assert (keyed lf (pre ++ [g]) (<[slot_key lf g := g]> m)) as Hins.
  { intros k f. rewrite lookup_insert. case_decide; [intros [= <-]; set_solver | apply Hkeep]. }
  destruct lf; simpl in *.
  - unfold try_insert_function, conflict. cbn [conflict_resolution with_policy].
    destruct (m !! fn_name g) as [f|] eqn:Hf.
    2: { left. split; [done|]. by intros m' [= <-]. }
    destruct (version_parse (fn_version g)) as [vg|e] eqn:Hvg; cbn [map_err mbind result_bind].
    2: { left. split; [done|]. by intros m' [=]. }
    destruct (version_parse (fn_version f)) as [vf|e] eqn:Hvf.
    2: { left. split; [done|]. by intros m' [= <-]. }
    destruct (version_ltb vf vg).
    { left. split; [done|]. by intros m' [= <-]. }
    destruct (version_eqb vf vg) eqn:Heq.
    2: { left. split; [done|]. by intros m' [= <-]. }
    right. apply Hm in Hf as [? Hn]. exists f. split; [done|]. split; [|done].
    split; [done|]. unfold sort_version. rewrite Hvg, Hvf. by apply version_eqb_eq.
  - unfold try_insert_version, conflict. cbn [conflict_resolution with_policy].
    destruct (m !! version_key g) as [f|] eqn:Hf.
    + right. apply Hm in Hf as [? Hn]. by exists f.
    + left. split; [done|]. by intros m' [= <-].
Qed.

Lemma insert_policy self lf fs pre m :
  keyed lf pre m ->
  try_fold (insert_function (with_policy self ConflictError) lf) m fs =
    try_fold (insert_function (with_policy self UsePriority) lf) m fs \/
  exists f g pre' rest, try_fold (insert_function (with_policy self ConflictError) lf) m fs =
      Err (ConflictingFunctions (slot_key lf g) (registry_of g) (registry_of f)) /\
    pre ++ fs = pre' ++ g :: rest /\ f ∈ pre' /\ same_slot lf f g.
Proof.
  revert pre m. induction fs as [|g fs IH]; intros pre m Hm; [by left|]. cbn [try_fold].
  destruct (insert_step self lf pre m g Hm) as [[-> Hk]|(f & Hf & Hs & ->)].
  - destruct (insert_function (with_policy self UsePriority) lf m g) as [m'|e]; [|by left].
    cbn [mbind result_bind]. rewrite cons_middle, (assoc_L (++)). apply IH. by apply Hk.
  - right. by exists f, g, pre, fs.
Qed.

(** The error policy only ever refuses.  A listing under it is what the
    priority policy answers, or it is [AlreadyExists] naming two functions that
    the registries did answer, an earlier and a later one, with the same name
    and equal versions (the same name and version text for [list_versions]). *)
Theorem proxy_conflict_policy self filters lf rs :
  responses self filters lf = Ok rs ->
  proxy_list (with_policy self ConflictError) filters lf = proxy_list (with_policy self UsePriority) filters lf \/
  exists f g pre rest, rs = pre ++ g :: rest /\ f ∈ pre /\ same_slot lf f g /\
    proxy_list (with_policy self ConflictError) filters lf =
      Err (MkStatus CAlreadyExists
        (display_error (ConflictingFunctions (slot_key lf g) (registry_of g) (registry_of f)))).
Proof.
  intros Hrs. unfold proxy_list.
  assert (forall m, responses (with_policy self m) filters lf = Ok rs) as Hrs' by by intros.
  rewrite !Hrs'.
  cbn [mbind result_bind].
  destruct (insert_policy self lf rs [] ∅) as [->|(f & g & pre & rest & -> & Heq & Hf & Hs)].
  { intros k f. by rewrite lookup_empty. }
  - by left.
  - right. by exists f, g, pre, rest.
Qed.

(** ** Getting one function *)
Definition answers self (payload : FunctionId) : list (result Status (string * Function_)) :=
  (ask_get payload <$> connections self) ++ [ask_get_internal self payload].

(** A registry answers the function it was asked for. *)
Definition honest (payload : FunctionId) (c : Connection) : Prop :=
  forall f, cn_get c payload = Ok f -> fn_name f = fid_name payload /\ fn_version f = fid_version payload.

Lemma get_honest (r : RegistryService) payload f :
  Registry.get r payload = Ok f -> fn_name f = fid_name payload /\ fn_version f = fid_version payload.
Proof.
  unfold Registry.get. intros H. inv_ok. apply fmap_Some in Hok0 as ([i g] & Hg & ->).
  apply list_find_Some in Hg as (_ & [Hn Hv] & _). unfold get_function in H. inv_ok. subst f. done.
Qed.

Lemma answers_honest self payload n f :
  Forall (honest payload) (connections self) -> Ok (n, f) ∈ answers self payload ->
  fn_name f = fid_name payload /\ fn_version f = fid_version payload.
Proof.
  intros Hc [Hin|Hin%list_elem_of_singleton]%elem_of_app.
  - apply list_elem_of_fmap in Hin as (c & Heq & Hin). unfold ask_get in Heq.
    destruct (cn_get c payload) as [f'|] eqn:Hget; [|done]. injection Heq as -> ->.
    rewrite Forall_forall in Hc. by apply (Hc c).
  - unfold ask_get_internal in Hin. destruct (Registry.get _ _) as [f'|] eqn:Hget; [|done].
    injection Hin as -> ->. by apply (get_honest _ _ _ Hget).
Qed.

Lemma registry_of_tag n f : registry_of (tag n f) = n.
Proof. unfold registry_of, tag. simpl. by rewrite lookup_insert_eq. Qed.

Lemma try_insert_version_unfold self m g :
  try_insert_version self m g =
  match m !! version_key g with
  | Some existing => conflict self (version_key g) g existing m
  | None => Ok (<[version_key g := g]> m)
  end.
Proof. done. Qed.

Lemma hash_values_singleton {V} k (v : V) : hash_values {[ k := v ]} = [v].
Proof.
  unfold hash_values. pose proof (hash_iter_perm V {[ k := v ]}) as Hp.
  by rewrite map_to_list_singleton, Permutation_singleton_r in Hp; rewrite Hp.
Qed.

Lemma hash_values_empty {V} : hash_values (∅ : gmap string V) = [].
Proof.
  unfold hash_values. pose proof (hash_iter_perm V ∅) as Hp.
  by rewrite map_to_list_empty, Permutation_nil_r in Hp; rewrite Hp.
Qed.

Lemma fold_same_key self k f fs m :
  version_key f = k -> (forall g, g ∈ fs -> version_key g = k) -> m = {[ k := f ]} ->
  try_fold (try_insert_version self) m fs =
  match fs, conflict_resolution self with
  | g :: _, ConflictError => Err (ConflictingFunctions k (registry_of g) (registry_of f))
  | _, _ => Ok m
  end.
Proof.
  intros Hf. revert m. induction fs as [|g fs IH]; intros m Hk ->; [done|]. cbn [try_fold].
  rewrite try_insert_version_unfold, (Hk g), lookup_singleton_eq by set_solver.
  unfold conflict. destruct (conflict_resolution self) eqn:Hpol; [done|]. cbn [mbind result_bind].
  rewrite IH by set_solver. by destruct fs.
Qed.

(** C10: [get] asks every registry and drops those that do not have the
    function.  Any other error of any registry is the answer; otherwise, when no
    registry has the function the answer is [NotFound], when some have it the
    first in priority order (external registries in configuration order, then
    the internal one), marked with its registry, unless several have it and the
    policy makes that an error, which names the first two. *)
Theorem proxy_get_correct self payload :
  Forall (honest payload) (connections self) ->
  proxy_get self payload =
  match collect (filter (fun r => negb (not_found r)) (answers self payload)) with
  | Err e => Err e
  | Ok [] => Err (MkStatus CNotFound ("Failed to find function with name: " +:+ quoted (fid_name payload) +:+
               " and version " +:+ quoted (fid_version payload)))
  | Ok ((n, f) :: others) =>
      match conflict_resolution self, others with
      | ConflictError, (n', _) :: _ =>
          Err (MkStatus CAlreadyExists (display_error
            (ConflictingFunctions (fid_name payload +:+ ":" +:+ fid_version payload) n' n)))
      | _, _ => Ok (tag n f)
      end
  end.
Proof.
  intros Hc. unfold proxy_get. fold (answers self payload).
  destruct (collect _) as [found|e] eqn:Hfound; [|done]. cbn [mbind result_bind].
  apply collect_Ok in Hfound.
  assert (forall n f, (n, f) ∈ found -> version_key (tag n f) = fid_name payload +:+ ":" +:+ fid_version payload) as Hkey.
  { intros n f Hin. assert (Ok (n, f) ∈ answers self payload) as [Hn Hv]%(answers_honest _ _ _ _ Hc).
    { apply (list_elem_of_fmap_2 (Ok (E := Status))) in Hin. rewrite <- Hfound in Hin.
      by apply list_elem_of_filter in Hin as [_ ?]. }
    unfold version_key, tag. simpl. by rewrite Hn, Hv. }
  destruct found as [|[n f] others].
  { cbn. by rewrite hash_values_empty. }
  rewrite fmap_cons. cbn [try_fold fst snd]. rewrite try_insert_version_unfold, lookup_empty.
  cbn [mbind result_bind].
  rewrite (fold_same_key self (version_key (tag n f)) (tag n f)); [|done| |done].
  2: { intros g ([n' g'] & -> & Hin)%list_elem_of_fmap. rewrite !Hkey; set_solver. }
  destruct others as [|[n' g] others]; rewrite ?fmap_nil, ?fmap_cons;
    destruct (conflict_resolution self); cbn [map_err mbind result_bind];
    rewrite ?insert_empty, ?hash_values_singleton; try done.
  cbn [fst snd]. rewrite !registry_of_tag, Hkey by set_solver.
  done.
Qed.

(** ** A proxy without external registries *)
Lemma responses_internal self filters lf rs :
  connections self = [] -> rpc_list (internal_registry self) filters = Ok rs ->
  responses self filters lf = Ok (tag "internal" <$> rs).
Proof.
  intros Hc Hrs. unfold responses. rewrite Hc. cbn [fmap list_fmap app]. unfold ask_internal.
  rewrite Hrs. cbn. unfold tag_all. cbn. by rewrite app_nil_r.
Qed.

Lemma images_by_name (r : RegistryService) filters hs fs :
  Forall2 (fun h f => get_function r h = Ok f) hs fs -> StronglySorted (listing_order filters) hs ->
  StronglySorted (by_name (ord_reverse (ordering filters))) fs.
Proof.
  intros Himg Hs. induction Himg as [|f r' l l' Hf Hl IH]; [constructor|].
  apply StronglySorted_inv in Hs as [Hs Hx]. constructor; [auto|]. clear IH.
  induction Hl as [|g r'' l l' Hg _ IH]; [constructor|].
  apply Forall_cons in Hx as [Hfg Hx]. apply StronglySorted_inv in Hs as [Hs _].
  constructor; [|auto]. unfold listing_order, by_name in *.
  rewrite (get_function_name _ _ _ Hf), (get_function_name _ _ _ Hg).
  destruct (ord_reverse _); revert Hfg; apply list_cmp_name.
Qed.

(** What the internal [list] answers: distinct names, in order, each the newest
    matching version of its name. *)
Lemma internal_list_names (r : RegistryService) filters rs :
  registry_inv r -> rpc_list r filters = Ok rs ->
  exists req, parsed_requirement filters = Ok req /\
  NoDup (fn_name <$> rs) /\ StronglySorted (by_name (ord_reverse (ordering filters))) rs /\
  forall f, f ∈ rs -> exists h, selected r filters req true h /\ get_function r h = Ok f.
Proof.
  intros Hinv Hrs. destruct (list_Ok_requirement _ _ _ _ Hrs) as [req Hreq]. exists req. split; [done|].
  destruct (list_images r filters true req Hinv Hreq) as (rs' & Hrs' & Himg).
  unfold rpc_list in Hrs. rewrite Hrs' in Hrs. injection Hrs as ->.
  set (pg := page _ _ _) in Himg.
  assert (fn_name <$> rs = f_name <$> pg) as Hnames.
  { clear -Himg. induction Himg as [|f r' l l' Hf _ IH]; [done|]. rewrite !fmap_cons. f_equal; [|exact IH].
    by apply (get_function_name r). }
  assert (forall h, h ∈ pg -> h ∈ listing r filters req true) as Hsub by (intros f; apply page_elem_of).
  split_and!.
  - rewrite Hnames. apply NoDup_fmap_2_strong; [|].
    + intros f g Hf Hg. apply (listing_names r filters req); auto.
    + unfold pg, page. pose proof (listing_nodup r filters req true Hinv) as Hnd.
      rewrite <- (take_drop (N.to_nat (ord_offset (ordering filters)))) in Hnd.
      apply NoDup_app in Hnd as (_ & _ & Hnd).
      rewrite <- (take_drop (N.to_nat (ord_limit (ordering filters)))) in Hnd.
      by apply NoDup_app in Hnd as (Hnd & _ & _).
  - apply (images_by_name r filters pg); [done|]. apply StronglySorted_page, listing_sorted.
  - intros f [i Hi]%list_elem_of_lookup. destruct (Forall2_lookup_r _ _ _ _ _ Himg Hi) as (g & Hg & Hf).
    exists g. split; [|done]. apply (elem_of_listing r); [done|].
    apply Hsub. by apply list_elem_of_lookup_2 in Hg.
Qed.

Lemma try_insert_function_fresh self m g :
  m !! fn_name g = None -> try_insert_function self m g = Ok (<[fn_name g := g]> m).
Proof. unfold try_insert_function. by intros ->. Qed.

(** Inserting functions of distinct names never looks at versions. *)
Lemma insert_fresh self fs m :
  (forall f, f ∈ fs -> m !! fn_name f = None) -> NoDup (fn_name <$> fs) ->
  exists m', try_fold (try_insert_function self) m fs = Ok m' /\
    forall n f, m' !! n = Some f <-> m !! n = Some f \/ (f ∈ fs /\ n = fn_name f).
Proof.
  revert m. induction fs as [|g fs IH]; intros m Hm Hnd.
  { exists m. split; [done|]. set_solver. }
  rewrite fmap_cons in Hnd. apply NoDup_cons in Hnd as [Hg Hnd].
  cbn [try_fold]. rewrite try_insert_function_fresh by (apply Hm; set_solver). cbn [mbind result_bind].
  destruct (IH (<[fn_name g := g]> m)) as (m' & Hm' & Hiff); [|done|].
  { intros f Hf. rewrite lookup_insert_ne; [apply Hm; set_solver|].
    intros Heq. apply Hg. rewrite Heq. by apply list_elem_of_fmap_2. }
  exists m'. split; [done|]. intros n f. rewrite Hiff, lookup_insert_Some, elem_of_cons.
  split; [naive_solver|]. intros [Hn|[[->|Hf] ->]]; [|by left; left|by right].
  left. right. split; [|done]. intros <-. rewrite (Hm g) in Hn; set_solver.
Qed.

(** Distinct names in order leave one way to arrange them. *)
Lemma name_sorted_cmp key fs :
  NoDup (fn_name <$> fs) -> StronglySorted (by_name false) fs ->
  StronglySorted (cmp_le (proxy_cmp key)) (versioned <$> fs).
Proof.
  intros Hnd Hs. revert Hnd. induction Hs as [|f fs Hs IH Hf]; [constructor|].
  rewrite !fmap_cons. intros Hnd. apply NoDup_cons in Hnd as [Hn Hnd].
  constructor; [auto|]. apply Forall_fmap, Forall_forall. intros g Hg.
  rewrite Forall_forall in Hf. specialize (Hf g Hg). unfold by_name, cmp_le in *. cbn.
  rewrite proxy_cmp_unfold. unfold cmp_lex, cmp_on. cbn.
  destruct (str_cmp (fn_name f) (fn_name g)) eqn:Hc; [|done|done].
  apply str_cmp_eq in Hc. destruct Hn. rewrite Hc. by apply list_elem_of_fmap_2.
Qed.

Lemma arrange_named order (fs l : list Function_) :
  NoDup (fn_name <$> fs) -> StronglySorted (by_name (ord_reverse order)) fs -> l ≡ₚ fs ->
  arrange order (versioned <$> l) = page (ord_offset order) (ord_limit order) fs.
Proof.
  intros Hnd Hs Hl. unfold arrange. cbv zeta.
  assert (forall fs', fs' ≡ₚ fs -> StronglySorted (by_name false) fs' ->
            sort_by (proxy_cmp (ord_key order)) (versioned <$> l) = versioned <$> fs') as Hsort.
  { intros fs' Hp Hs'. symmetry. apply sort_by_unique; [apply _ | | by rewrite Hp, Hl |].
    - intros p q (f & -> & Hf)%list_elem_of_fmap (g & -> & Hg)%list_elem_of_fmap Hpq.
      rewrite Hl in Hf, Hg. f_equal.
      assert (fn_name f = fn_name g) as Hn.
      { rewrite proxy_cmp_unfold in Hpq. unfold cmp_lex, cmp_on in Hpq. cbn in Hpq.
        destruct (str_cmp (fn_name f) (fn_name g)) eqn:Hc; [by apply str_cmp_eq|done|done]. }
      by apply (NoDup_fmap_inj_on fn_name fs).
    - apply name_sorted_cmp; [by rewrite Hp | done]. }
  destruct (ord_reverse order).
  - rewrite (Hsort (reverse fs)); [| by rewrite reverse_Permutation |].
    + rewrite <- list_fmap_compose, list_fmap_id. by rewrite reverse_involutive.
    + apply (StronglySorted_reverse (by_name true)), Hs.
  - rewrite (Hsort fs) by done. rewrite <- list_fmap_compose. by rewrite list_fmap_id.
Qed.

Lemma tag_names n (rs : list Function_) : fn_name <$> (tag n <$> rs) = fn_name <$> rs.
Proof. rewrite <- list_fmap_compose. by apply list_fmap_ext. Qed.

(** Offset and limit are applied twice.  A proxy without external
    registries asked for [list] cuts the requested page out of the page the
    internal registry already cut: with an offset of [k] it leaves out the
    first [2 * k] functions. *)
Theorem proxy_list_pages_twice self filters rs :
  registry_inv (internal_registry self) -> connections self = [] ->
  rpc_list (internal_registry self) filters = Ok rs ->
  let order := ordering filters in
  proxy_rpc_list self filters =
    Ok (tag "internal" <$> page (ord_offset order) (ord_limit order) rs) /\
  exists req, parsed_requirement filters = Ok req /\
    forall f, f ∈ page (ord_offset order) (ord_limit order) rs ->
      exists i h, (N.to_nat (2 * ord_offset order) <= i)%nat /\
        listing (internal_registry self) filters req true !! i = Some h /\
        get_function (internal_registry self) h = Ok f.
Proof.
  intros Hinv Hc Hrs order.
  destruct (internal_list_names _ _ _ Hinv Hrs) as (req & Hreq & Hnd & Hs & _). split.
  - unfold proxy_rpc_list, proxy_list. rewrite (responses_internal _ _ _ rs) by done.
    cbn [mbind result_bind insert_function].
    destruct (insert_fresh self (tag "internal" <$> rs) ∅) as (m & -> & Hm);
      [intros; apply lookup_empty | by rewrite tag_names |]. cbn [map_err mbind result_bind].
    f_equal. transitivity (page (ord_offset order) (ord_limit order) (tag "internal" <$> rs)).
    + apply arrange_named; [by rewrite tag_names | |].
      * apply (StronglySorted_fmap (by_name (ord_reverse order))); [by destruct (ord_reverse order)|done].
      * apply NoDup_Permutation.
        -- apply (NoDup_fmap_1 fn_name), NoDup_names_values. intros n f. rewrite Hm, lookup_empty. naive_solver.
        -- apply (NoDup_fmap_1 fn_name). by rewrite tag_names.
        -- intros f. rewrite elem_of_hash_values. setoid_rewrite Hm. setoid_rewrite lookup_empty. naive_solver.
    + unfold page. by rewrite <- fmap_drop, <- fmap_take.
  - exists req. split; [done|].
    destruct (list_images (internal_registry self) filters true req Hinv Hreq) as (rs' & Hrs' & Himg).
    unfold rpc_list in Hrs. rewrite Hrs' in Hrs. injection Hrs as ->.
    intros f [i Hi]%list_elem_of_lookup. unfold page in Hi.
    apply lookup_take_Some in Hi as [Hi _]. rewrite lookup_drop in Hi.
    destruct (Forall2_lookup_r _ _ _ _ _ Himg Hi) as (h & Hh & Hf). unfold page in Hh.
    apply lookup_take_Some in Hh as [Hh _]. rewrite lookup_drop in Hh.
    eexists _, h. split_and!; [|exact Hh|done]. fold order. lia.
Qed.

Lemma version_values self fs m k f :
  try_fold (try_insert_version self) ∅ fs = Ok m -> m !! k = Some f -> f ∈ fs.
Proof.
  intros Hm. revert k f. revert Hm.
  apply (try_fold_inv (try_insert_version self) (fun pre m => forall k f, m !! k = Some f -> f ∈ pre)).
  - intros k f. by rewrite lookup_empty.
  - intros pre g m1 m2 Hpre. rewrite try_insert_version_unfold. unfold conflict.
    destruct (m1 !! version_key g) as [h|]; [destruct (conflict_resolution self); [done|]|]; intros [= <-] k f.
    + intros Hk. apply elem_of_app. left. by apply (Hpre k).
    + intros [[_ <-]|[_ Hk]]%lookup_insert_Some; [set_solver|].
      apply elem_of_app. left. by apply (Hpre k).
Qed.

(** The version listing of a proxy asks the internal registry for the wrong
    list.  [list_versions] without external registries answers at most one
    function per name, each the newest the internal registry has among those
    whose name contains the filter, whereas [list_versions] of the registry
    itself answers every version of exactly the named function. *)
Theorem proxy_versions_only_newest self filters rs :
  registry_inv (internal_registry self) -> connections self = [] ->
  proxy_rpc_list_versions self filters = Ok rs ->
  exists req, parsed_requirement filters = Ok req /\
    (forall f, f ∈ rs -> exists h r, f = tag "internal" r /\
       selected (internal_registry self) filters req true h /\
       get_function (internal_registry self) h = Ok r) /\
    (forall f g, f ∈ rs -> g ∈ rs -> fn_name f = fn_name g -> f = g).
Proof.
  intros Hinv Hc Hrs. unfold proxy_rpc_list_versions, proxy_list in Hrs.
  apply bind_Ok_inv in Hrs as (all & Hall & Hrs). apply bind_Ok_inv in Hrs as (m & Hm & Hrs).
  apply map_err_Ok in Hm. injection Hrs as <-.
  assert (exists internal, rpc_list (internal_registry self) filters = Ok internal) as [internal Hint].
  { unfold responses in Hall. rewrite Hc in Hall. cbn in Hall. unfold ask_internal in Hall.
    destruct (rpc_list _ _); [eauto | discriminate Hall]. }
  rewrite (responses_internal _ _ _ internal) in Hall by done. injection Hall as <-.
  destruct (internal_list_names _ _ _ Hinv Hint) as (req & Hreq & Hnd & _ & Hsel).
  exists req. split; [done|].
  assert (forall f, f ∈ arrange (default default_ordering (fl_order filters))
            ((fun f => (sort_version f, f)) <$> hash_values m) -> f ∈ tag "internal" <$> internal) as Hsub.
  { intros f. unfold arrange. cbv zeta. intros Hf%page_elem_of.
    assert (f ∈ hash_values m) as Hv.
    { destruct (ord_reverse _); rewrite ?elem_of_reverse in Hf;
        apply list_elem_of_fmap in Hf as (p & -> & Hp); apply elem_of_sort_by in Hp;
        apply list_elem_of_fmap in Hp as (g & -> & Hg); exact Hg. }
    apply elem_of_hash_values in Hv as [k Hk]. by apply (version_values self _ m k). }
  split.
  - intros f (r & -> & Hr)%Hsub%list_elem_of_fmap. destruct (Hsel r Hr) as (h & ? & ?). by exists h, r.
  - intros f g Hf%Hsub Hg%Hsub Hn. rewrite <- (tag_names "internal") in Hnd.
    by apply (NoDup_fmap_inj_on fn_name (tag "internal" <$> internal)).
Qed.
(** ** The first page over everything the registries hold *)

(** Strictly before in name order: the order of a list without repeated names. *)
Definition before (reversed : bool) f g : Prop := by_name reversed f g /\ fn_name f <> fn_name g.
Definition ordered (reversed : bool) (fs : list Function_) : Prop := StronglySorted (before reversed) fs.

Lemma before_asym b f g : before b f g -> ~ before b g f.
Proof.
  intros [H1 Hn] [H2 _]. apply Hn, str_cmp_eq.
  assert (cmp_le str_cmp (fn_name f) (fn_name g) /\ cmp_le str_cmp (fn_name g) (fn_name f)) as [H H'] by by destruct b.
  unfold cmp_le in *. rewrite (cmp_flip_eq str_cmp) in H'. by destruct (str_cmp (fn_name f) (fn_name g)).
Qed.
Lemma ordered_intro b fs : NoDup (fn_name <$> fs) -> StronglySorted (by_name b) fs -> ordered b fs.
Proof.
  intros Hnd. induction 1 as [|f fs Hs IH Hf]; [constructor|].
  rewrite fmap_cons in Hnd. apply NoDup_cons in Hnd as [Hn Hnd]. constructor; [by apply IH|].
  rewrite Forall_forall in Hf |- *. intros g Hg. split; [by apply Hf|].
  intros Heq. apply Hn. rewrite Heq. by apply list_elem_of_fmap_2.
Qed.
Lemma ordered_nodup b fs : ordered b fs -> NoDup (fn_name <$> fs).
Proof.
  induction 1 as [|f fs Hs IH Hf]; [constructor|]. rewrite fmap_cons. constructor; [|done].
  intros (g & Heq & Hg)%list_elem_of_fmap. rewrite Forall_forall in Hf. by destruct (Hf g Hg).
Qed.
Lemma ordered_inj b fs f g : ordered b fs -> f ∈ fs -> g ∈ fs -> fn_name f = fn_name g -> f = g.
Proof. intros Ho%ordered_nodup. by apply NoDup_fmap_inj_on. Qed.
Lemma ordered_earlier b fs j f g : ordered b fs -> fs !! j = Some g -> f ∈ fs -> before b f g -> f ∈ take j fs.
Proof.
  intros Ho Hj Hf Hfg. rewrite <- (take_drop_middle fs j g Hj) in Ho, Hf.
  apply elem_of_app in Hf as [Hf|[->|Hf]%elem_of_cons]; [done|by destruct Hfg|].
  apply StronglySorted_app in Ho as (_ & _ & Ho). apply StronglySorted_cons in Ho as [Ho _].
  rewrite Forall_forall in Ho. by destruct (before_asym b f g Hfg (Ho f Hf)).
Qed.
Lemma ordered_take b fs i f g : ordered b fs -> fs !! i = Some f -> g ∈ take i fs -> before b g f.
Proof.
  intros Ho Hi Hg. rewrite <- (take_drop_middle fs i f Hi) in Ho.
  apply StronglySorted_app in Ho as (Ho & _). apply Ho; [done|]. by left.
Qed.
Lemma before_names b f f' g g' :
  fn_name f = fn_name f' -> fn_name g = fn_name g' -> before b f g -> before b f' g'.
Proof. unfold before, by_name. by intros -> ->. Qed.

(** Among fewer names, a name comes no later. *)
Lemma ordered_rank b fs gs i j f g :
  ordered b fs -> ordered b gs -> (fn_name <$> fs) ⊆ (fn_name <$> gs) ->
  fs !! i = Some f -> gs !! j = Some g -> fn_name f = fn_name g -> i <= j.
Proof.
  intros Hfs Hgs Hsub Hi Hj Hn.
  assert ((fn_name <$> take i fs) ⊆ (fn_name <$> take j gs)) as Htake.
  { intros n (h & -> & Hh)%list_elem_of_fmap.
    assert (fn_name h ∈ fn_name <$> gs) as (h' & Hh' & Hin)%list_elem_of_fmap.
    { apply Hsub, list_elem_of_fmap_2. rewrite <- (take_drop i fs). apply elem_of_app. by left. }
    rewrite Hh'. apply list_elem_of_fmap_2, (ordered_earlier b gs j h' g); [done..|].
    apply (before_names b h h' f g); [done..|]. by apply (ordered_take b fs i). }
  assert (NoDup (fn_name <$> take i fs)) as Hnd by by apply (ordered_nodup b), StronglySorted_take.
  pose proof (NoDup_submseteq _ _ Hnd Htake) as Hlen%submseteq_length.
  apply lookup_lt_Some in Hi. rewrite !length_fmap, !length_take in Hlen. lia.
Qed.

(** Two lists agree up to the limit when one has no other names and has what
    the other starts with. *)
Lemma ordered_take_same b k fs gs :
  ordered b fs -> ordered b gs -> (fn_name <$> gs) ⊆ (fn_name <$> fs) -> take k fs ⊆ gs -> take k fs = take k gs.
Proof.
  intros Hfs. revert k gs. induction Hfs as [|f fs Hfs IH Hf]; intros k gs Hgs Hsub Htake.
  { destruct gs as [|g gs]; [done|]. exfalso. specialize (Hsub (fn_name g)). set_solver. }
  destruct k as [|k]; [done|]. cbn [take] in Htake |- *. rewrite Forall_forall in Hf.
  assert (f ∈ gs) as Hin by (apply Htake; by left).
  destruct gs as [|g gs]; [by apply elem_of_nil in Hin|].
  apply StronglySorted_cons in Hgs as [Hg Hgs]. rewrite Forall_forall in Hg.
  apply elem_of_cons in Hin as [<-|Hin].
  - cbn [take]. f_equal. apply IH; [done| |].
    + intros n Hn. assert (n ∈ fn_name <$> f :: fs) as Hn' by (apply Hsub; rewrite fmap_cons; by right).
      rewrite fmap_cons in Hn'. apply elem_of_cons in Hn' as [->|?]; [|done].
      apply list_elem_of_fmap in Hn as (h & Hh & Hin). by destruct (Hg h Hin).
    + intros h Hh. assert (h ∈ f :: gs) as [->|?]%elem_of_cons by (apply Htake; by right); [|done].
      exfalso. destruct (Hf f) as [_ []]; [|done]. rewrite <- (take_drop k fs). apply elem_of_app. by left.
  - exfalso. assert (fn_name g ∈ fn_name <$> f :: fs) as (h & Hn & Hh)%list_elem_of_fmap
      by (apply Hsub; rewrite fmap_cons; by left).
    pose proof (Hg f Hin) as Hgf. apply elem_of_cons in Hh as [->|Hh]; [by destruct Hgf|].
    apply (before_asym b g f Hgf), (before_names b f f h g); [done..|]. by apply Hf.
Qed.

(** [preferred] only looks at the functions of that name. *)
Lemma preferred_split fs f :
  preferred fs f <-> exists l1 l2, fs = l1 ++ f :: l2 /\
    (forall g, g ∈ l1 -> fn_name g = fn_name f -> version_cmp (sort_version g) (sort_version f) = Lt) /\
    (forall g, g ∈ l2 -> fn_name g = fn_name f -> version_cmp (sort_version g) (sort_version f) <> Gt).
Proof.
  split.
  - intros (i & Hi & Hp). exists (take i fs), (drop (S i) fs). split_and!; [by rewrite take_drop_middle| |].
    + intros g [j Hj]%list_elem_of_lookup Hn. apply lookup_take_Some in Hj as [Hj Hlt].
      destruct (Hp j g Hj Hn) as [Hle He]. destruct (version_cmp (sort_version g) (sort_version f)); [|done|done].
      specialize (He eq_refl). lia.
    + intros g [j Hj]%list_elem_of_lookup Hn. rewrite lookup_drop in Hj. by apply (Hp (S i + j)).
  - intros (l1 & l2 & -> & H1 & H2). exists (length l1). split; [by apply list_lookup_middle|].
    intros j g Hj Hn. apply lookup_app_Some in Hj as [Hj|[Hlen Hj]].
    + rewrite (H1 g) by (done || by apply list_elem_of_lookup_2 in Hj). done.
    + split; [|lia]. apply lookup_cons_Some in Hj as [[_ <-]|[_ Hj]]; [by rewrite (cmp_refl_eq version_cmp)|].
      apply H2; [|done]. by apply list_elem_of_lookup_2 in Hj.
Qed.
Lemma filter_middle (P : Function_ -> Prop) `{!forall f, Decision (P f)} fs l1 f l2 :
  filter P fs = l1 ++ f :: l2 -> exists k1 k2, fs = k1 ++ f :: k2 /\ filter P k1 = l1 /\ filter P k2 = l2.
Proof.
  revert l1. induction fs as [|g fs IH]; intros l1 Hfs; [by destruct l1|].
  destruct (decide (P g)) as [Hg|Hg].
  - rewrite filter_cons_True in Hfs by done. destruct l1 as [|h l1]; injection Hfs as -> Hfs.
    + by exists [], fs.
    + destruct (IH l1 Hfs) as (k1 & k2 & -> & <- & <-). exists (h :: k1), k2. by rewrite filter_cons_True.
  - rewrite filter_cons_False in Hfs by done. destruct (IH l1 Hfs) as (k1 & k2 & -> & <- & <-).
    exists (g :: k1), k2. by rewrite filter_cons_False.
Qed.
Lemma preferred_filter fs f :
  preferred fs f <-> preferred (filter (fun g => fn_name g = fn_name f) fs) f.
Proof.
  rewrite !preferred_split. split.
  - intros (l1 & l2 & -> & H1 & H2). exists (filter (fun g => fn_name g = fn_name f) l1), (filter (fun g => fn_name g = fn_name f) l2).
    rewrite filter_app, filter_cons_True by done. split_and!; [done|..]; intros g [_ Hg]%list_elem_of_filter; auto.
  - intros (l1 & l2 & (k1 & k2 & -> & <- & <-)%filter_middle & H1 & H2). exists k1, k2.
    split_and!; [done|..]; intros g Hg Hn; [apply H1|apply H2]; try done; by apply list_elem_of_filter.
Qed.

(** A registry that holds [held] for a request, answers the first page of it. *)
Definition serves (filters : Filters) (answer : result Status (list Function_)) (held : list Function_) : Prop :=
  ordered (ord_reverse (ordering filters)) held /\ answer = Ok (page 0 (ord_limit (ordering filters)) held).
(** What all registries hold, with their names, in their priority order. *)
Definition holdings self (held : list (list Function_)) (local : list Function_) : list (string * list Function_) :=
  zip (cn_name <$> connections self) held ++ [("internal", local)].
Definition everything (parts : list (string * list Function_)) : list Function_ := concat (tag_all <$> parts).
Definition first (k : nat) (part : string * list Function_) : string * list Function_ := (part.1, take k part.2).

(** The internal registry answers the first page of its whole listing. *)
Lemma internal_serves (r : RegistryService) filters req local :
  registry_inv r -> parsed_requirement filters = Ok req -> ord_offset (ordering filters) = 0%N ->
  Forall2 (fun h f => get_function r h = Ok f) (listing r filters req true) local ->
  serves filters (rpc_list r filters) local.
Proof.
  intros Hinv Hreq Hoff Hall.
  destruct (list_images r filters true req Hinv Hreq) as (rs & Hrs & Himg). split.
  - apply ordered_intro.
    + assert (fn_name <$> local = f_name <$> listing r filters req true) as ->.
      { clear -Hall. induction Hall as [|h f l l' Hf _ IH]; [done|]. rewrite !fmap_cons. f_equal; [|exact IH].
        by apply (get_function_name r). }
      apply NoDup_fmap_2_strong; [|by apply listing_nodup].
      intros f g Hf Hg. by apply (listing_names r filters req).
    + apply (images_by_name r filters (listing r filters req true)); [done|apply listing_sorted].
  - unfold rpc_list. rewrite Hrs. f_equal. rewrite Hoff in Himg. unfold page in Himg |- *.
    change (drop (N.to_nat 0)) with (fun l : list RFunction => l) in Himg. change (drop (N.to_nat 0) local) with local.
    cbn beta in Himg.
    apply (Forall2_take _ _ _ (N.to_nat (ord_limit (ordering filters)))) in Hall.
    clear -Himg Hall. revert rs Himg. induction Hall as [|h f l l' Hf _ IH]; intros rs Himg.
    + by apply Forall2_nil_inv_l in Himg.
    + apply Forall2_cons_inv_l in Himg as (f' & rs' & Hf' & Himg & ->). f_equal; [congruence|]. by apply IH.
Qed.

(** A name among the first [k] of everything is among the first [k] of each
    registry that holds it. *)
Lemma first_of_name b (fs A : list Function_) k i f :
  ordered b fs -> ordered b A -> (fn_name <$> fs) ⊆ (fn_name <$> A) -> A !! i = Some f -> i < k ->
  filter (fun g => fn_name g = fn_name f) (take k fs) = filter (fun g => fn_name g = fn_name f) fs.
Proof.
  intros Hfs HA Hsub Hi Hlt. rewrite <- (take_drop k fs) at 2. rewrite filter_app.
  assert (filter (fun g => fn_name g = fn_name f) (drop k fs) = []) as ->; [|by rewrite app_nil_r].
  apply elem_of_nil_inv. intros g [Hn Hg]%list_elem_of_filter. apply list_elem_of_lookup in Hg as [j Hj]. rewrite lookup_drop in Hj.
  pose proof (ordered_rank b fs A _ _ _ _ Hfs HA Hsub Hj Hi Hn). lia.
Qed.
Lemma ordered_tag b p : ordered b p.2 -> ordered b (tag_all p).
Proof. apply StronglySorted_fmap. intros f g. by apply before_names. Qed.
Lemma tag_all_first k p : tag_all (first k p) = take k (tag_all p).
Proof. unfold tag_all, first. cbn. by rewrite fmap_take. Qed.
Lemma everything_of_name b parts A k i f :
  Forall (fun p => ordered b p.2) parts -> ordered b A -> (fn_name <$> everything parts) ⊆ (fn_name <$> A) ->
  A !! i = Some f -> i < k ->
  filter (fun g => fn_name g = fn_name f) (everything (first k <$> parts)) =
  filter (fun g => fn_name g = fn_name f) (everything parts).
Proof.
  intros Hp HA Hsub Hi Hlt. induction Hp as [|p parts Hp _ IH]; [done|].
  change (everything (p :: parts)) with (tag_all p ++ everything parts) in *.
  change (everything (first k <$> p :: parts)) with (tag_all (first k p) ++ everything (first k <$> parts)).
  rewrite fmap_app in Hsub. rewrite !filter_app, IH.
  2: { intros n Hn. apply Hsub, elem_of_app. by right. }
  f_equal. rewrite tag_all_first. apply (first_of_name b _ A k i); [by apply ordered_tag|done| |done|done].
  intros n Hn. apply Hsub, elem_of_app. by left.
Qed.
Lemma everything_first k parts f : f ∈ everything (first k <$> parts) -> f ∈ everything parts.
Proof.
  induction parts as [|p parts IH]; [done|].
  change (everything (p :: parts)) with (tag_all p ++ everything parts).
  change (everything (first k <$> p :: parts)) with (tag_all (first k p) ++ everything (first k <$> parts)).
  rewrite !elem_of_app, tag_all_first. intros [Hf|Hf]; [left|right; auto].
  rewrite <- (take_drop k (tag_all p)). apply elem_of_app. by left.
Qed.

(** The first pages suffice for the first page. *)
Lemma newest_of_first_pages b parts A B k :
  Forall (fun p => ordered b p.2) parts -> ordered b A -> ordered b B ->
  (forall f, f ∈ A <-> preferred (everything parts) f) -> (fn_name <$> everything parts) ⊆ (fn_name <$> A) ->
  (forall f, f ∈ B <-> preferred (everything (first k <$> parts)) f) -> take k B = take k A.
Proof.
  intros Hp HA HB HinA Hnames HinB. symmetry. apply (ordered_take_same b); [done|done| |].
  - intros n (f & -> & Hf)%list_elem_of_fmap. apply HinB, preferred_elem, everything_first in Hf.
    by apply Hnames, list_elem_of_fmap_2.
  - intros f [i Hi]%list_elem_of_lookup. apply lookup_take_Some in Hi as [Hi Hlt].
    apply HinB, preferred_filter. rewrite (everything_of_name b parts A k i f) by done.
    apply (preferred_filter (everything parts)), HinA. by apply list_elem_of_lookup_2 in Hi.
Qed.

Lemma responses_first_pages self filters held local :
  Forall2 (fun c fs => serves filters (cn_list c filters) fs) (connections self) held ->
  serves filters (rpc_list (internal_registry self) filters) local ->
  responses self filters ListFunctions =
    Ok (everything (first (N.to_nat (ord_limit (ordering filters))) <$> holdings self held local)).
Proof.
  intros Hc [_ Hl]. unfold responses, everything.
  assert (collect ((ask ListFunctions filters <$> connections self) ++ [ask_internal self filters]) =
          Ok (first (N.to_nat (ord_limit (ordering filters))) <$> holdings self held local)) as ->; [|done].
  apply collect_Ok. unfold holdings. rewrite !fmap_app. f_equal.
  - induction Hc as [|c fs cs held [_ Hc] _ IH]; [done|]. rewrite !fmap_cons. cbn [zip zip_with]. rewrite !fmap_cons.
    f_equal; [|exact IH]. unfold ask. by rewrite Hc.
  - unfold ask_internal. by rewrite Hl.
Qed.

(** C8: the first page of a proxied [list], with the priority policy.  Suppose
    every external registry answers the first page of what it holds for the
    request, in name order and each name once, as the internal registry does of
    its listing.  Then the answer is the first page, in name order, of exactly
    the newest function of each name over everything all the registries hold,
    the part they did not send included; of equal versions it is the one of the
    registry that comes first (external registries in configuration order, then
    the internal one). *)
Theorem proxy_list_correct self filters req held local :
  conflict_resolution self = UsePriority -> registry_inv (internal_registry self) ->
  parsed_requirement filters = Ok req -> ord_offset (ordering filters) = 0%N ->
  Forall2 (fun c fs => serves filters (cn_list c filters) fs) (connections self) held ->
  Forall2 (fun h f => Registry.get_function (internal_registry self) h = Ok f)
    (listing (internal_registry self) filters req true) local ->
  Forall parses (everything (holdings self held local)) ->
  exists sorted,
    proxy_rpc_list self filters = Ok (page 0 (ord_limit (ordering filters)) sorted) /\
    NoDup (fn_name <$> sorted) /\
    (forall f, f ∈ sorted <-> preferred (everything (holdings self held local)) f) /\
    StronglySorted (by_name (ord_reverse (ordering filters))) sorted.
Proof.
  intros Hpol Hinv Hreq Hoff Hheld Hlocal Hp.
  pose proof (internal_serves _ _ _ _ Hinv Hreq Hoff Hlocal) as Hint.
  set (parts := holdings self held local) in *. set (k := N.to_nat (ord_limit (ordering filters))).
  assert (Forall (fun p => ordered (ord_reverse (ordering filters)) p.2) parts) as Hparts.
  { apply Forall_app. split; [|by constructor; [apply Hint|]]. clear -Hheld.
    induction Hheld as [|c fs cs held [Hc _] _ IH]; [constructor|]. by constructor. }
  destruct (newest_sorted self (ordering filters) (everything parts) Hpol Hp) as (_ & A & _ & _ & HndA & HinA & HsA & HnA).
  assert (Forall parses (everything (first k <$> parts))) as Hp'.
  { rewrite Forall_forall in Hp |- *. intros f Hf. by apply Hp, (everything_first k). }
  destruct (proxy_list_of_answers self filters _ Hpol (responses_first_pages _ _ _ _ Hheld Hint) Hp')
    as (B & Hlist & HndB & HinB & HsB).
  exists A. split_and!; [|done..]. rewrite Hlist. fold (ordering filters). rewrite Hoff. unfold page. cbn [N.to_nat].
  rewrite !drop_0. f_equal.
  apply (newest_of_first_pages (ord_reverse (ordering filters)) parts); [done|by apply ordered_intro..|done| |done].
  intros n (f & -> & Hf)%list_elem_of_fmap. by apply HnA.
Qed.

End proxy_props.

(** ** Concrete instances of the properties *)
Module ProxyExamples.
#[local] Existing Instance Concrete.text_semver.
#[local] Existing Instance Concrete.text_uuid.
#[local] Existing Instance Concrete.text_digest.
#[local] Existing Instance derivative_engine.
#[local] Existing Instance key_order.
Import RegistryExamples.

Definition named (name version : string) := MkFunctionData name version ∅ ∅ ∅ ∅ None
  (Some (MkRuntimeSpec "wasi" EmptyString ∅)) [] (Some publisher) None.
(** Three functions, one of them in two versions. *)
Definition stocked : RegistryService :=
  (register 4 (named "sum-it" "2") (register 3 (named "cut-it" "1")
    (register 2 (named "bag-it" "1") started).1).1).1.
Definition remote_function := MkFunction "sum-it" "2" ∅ ∅ ∅ ∅ None [] None 1 None None.
Definition remote := MkConnection "upstream" (fun _ => Ok [remote_function]) (fun _ => Ok [remote_function])
  (fun fid => if bool_decide (fid_name fid = "sum-it" /\ fid_version fid = "2") then Ok remote_function
              else Err (MkStatus CNotFound EmptyString)).
Definition alone := MkProxy stocked [] UsePriority.
Definition proxied := MkProxy stocked [remote] UsePriority.
Definition every := MkFilters EmptyString None ∅ None EmptyString.
Definition second_page := MkFilters EmptyString None ∅ (Some (MkOrdering 0 false 1 10)) EmptyString.
Definition names (r : result Status (list Function_)) :=
  match r with Ok fs => Ok ((fun f => (fn_name f, fn_version f)) <$> fs) | Err e => Err e end.

Lemma stocked_inv : registry_inv stocked.
Proof. apply inv_register, inv_register, inv_register, started_inv. Qed.

(** A registry that holds three functions and answers the first page of them. *)
Definition lent (name version : string) := MkFunction name version ∅ ∅ ∅ ∅ None [] None 1 None None.
Definition shelf : list Function_ := [lent "add-it" "1"; lent "sum-it" "3"; lent "zip-it" "1"].
Definition library := MkConnection "library" (fun fl => Ok (page 0 (ord_limit (ordering fl)) shelf))
  (fun _ => Ok []) (fun _ => Err (MkStatus CNotFound EmptyString)).
Definition lending := MkProxy stocked [library] UsePriority.
Definition two := MkFilters EmptyString None ∅ (Some (MkOrdering 0 false 0 2)) EmptyString.
Definition local : list Function_ := match rpc_list stocked every with Ok fs => fs | Err _ => [] end.

Lemma shelf_ordered : ordered false shelf.
Proof. repeat constructor; discriminate. Qed.
Lemma local_answered : Forall2 (fun h f => get_function stocked h = Ok f) (listing stocked two None true) local.
Proof.
  destruct (list_images stocked every true None stocked_inv eq_refl) as (rs & Hrs & Himg).
  unfold local, rpc_list. rewrite Hrs. change (listing stocked two None true) with (listing stocked every None true).
  rewrite page_all in Himg; [exact Himg|]. apply Nat.leb_le. vm_compute. reflexivity.
Qed.
(** The third function of the internal registry and the third one of the shelf
    are cut off, and the page is right. *)
Lemma proxy_list_correct_witness :
  names (proxy_rpc_list lending two) = Ok [("add-it", "1"); ("bag-it", "1")] /\
  exists sorted, proxy_rpc_list lending two = Ok (page 0 2 sorted) /\
    (tag "library" (lent "sum-it" "3")) ∈ sorted.
Proof.
  split; [vm_compute; reflexivity|].
  destruct (proxy_list_correct lending two None [shelf] local eq_refl stocked_inv eq_refl eq_refl) as (sorted & Hl & _ & Hin & _).
  - constructor; [|constructor]. split; [exact shelf_ordered | reflexivity].
  - exact local_answered.
  - repeat (constructor; [vm_compute; reflexivity|]). constructor.
  - exists sorted. split; [exact Hl|]. apply Hin. exists 1. split; [reflexivity|]. intros j g Hj Hn.
    destruct j as [|[|[|[|[|[|j]]]]]]; vm_compute in Hj; try discriminate Hj; injection Hj as <-;
      vm_compute in Hn; try discriminate Hn; (split; [vm_compute; discriminate | intros He; vm_compute in He; first [lia | discriminate He]]).
Defined.

Lemma proxy_conflict_policy_witness :
  exists f g, proxy_list (with_policy proxied ConflictError) every ListFunctions =
    Err (MkStatus CAlreadyExists (display_error
      (ConflictingFunctions (slot_key ListFunctions g) (registry_of g) (registry_of f)))).
Proof.
  destruct (responses proxied every ListFunctions) as [rs|] eqn:Hrs; [|discriminate Hrs].
  destruct (proxy_conflict_policy proxied every ListFunctions rs Hrs)
    as [Heq|(f & g & _ & _ & _ & _ & _ & He)].
  - vm_compute in Heq. discriminate Heq.
  - exists f, g. exact He.
Defined.

Lemma proxy_get_correct_witness :
  proxy_get proxied (MkFunctionId "sum-it" "2") = Ok (tag "upstream" remote_function).
Proof.
  rewrite (proxy_get_correct proxied (MkFunctionId "sum-it" "2")); [vm_compute; reflexivity|].
  constructor; [|constructor]. intros f Hf. vm_compute in Hf. injection Hf as <-. split; reflexivity.
Defined.

Lemma proxy_list_pages_twice_witness :
  names (rpc_list stocked every) = Ok [("bag-it", "1"); ("cut-it", "1"); ("sum-it", "2")] /\
  names (rpc_list stocked second_page) = Ok [("cut-it", "1"); ("sum-it", "2")] /\
  names (proxy_rpc_list alone second_page) = Ok [("sum-it", "2")].
Proof.
  split; [vm_compute; reflexivity|]. split; [vm_compute; reflexivity|].
  destruct (rpc_list stocked second_page) as [rs|] eqn:Hrs; [|discriminate Hrs].
  destruct (proxy_list_pages_twice alone second_page rs stocked_inv eq_refl Hrs) as [Hp _].
  rewrite Hp. vm_compute in Hrs. injection Hrs as <-. reflexivity.
Defined.

Lemma proxy_versions_only_newest_witness :
  let asked := MkFilters "sum-it" None ∅ None EmptyString in
  names (rpc_list_versions stocked asked) = Ok [("sum-it", "2"); ("sum-it", "1")] /\
  exists f, proxy_rpc_list_versions alone asked = Ok [f] /\
    (forall g g', g ∈ [f] -> g' ∈ [f] -> fn_name g = fn_name g' -> g = g').
Proof.
  intros asked. split; [vm_compute; reflexivity|].
  assert (exists f, proxy_rpc_list_versions alone asked = Ok [f]) as [f Hf]
    by (eexists; vm_compute; reflexivity).
  destruct (proxy_versions_only_newest alone asked [f] stocked_inv eq_refl Hf) as (_ & _ & _ & Hu).
  exists f. split; [exact Hf | exact Hu].
Defined.
End ProxyExamples.
