(* ===== verification/Config.v ===== *)
(** * Avery's configuration (services/avery/src/config.rs)

    The configuration data, its defaults, and which files a start-up reads.
    Parsing TOML and environment variables is the [config] crate's. *)
From S2P Require Import Prelude.

(** ** Data *)
Inductive AuthConfig :=
| AuthOidc (provider : string)
| AuthSelfSigned
| AuthKeyFile (path : string) (iss sub aud kid : option string) (exp : option N).

Inductive KeyStoreConfig := KeyStoreSimple (url : string) | KeyStoreNone.
Definition default_key_store : KeyStoreConfig := KeyStoreNone.

Inductive IdentityProvider :=
| IdOidc (provider : string)
| IdUsername
| IdUsernameSuffix (suffix : string)
| IdOverride (name email : string).
Definition default_identity_provider : IdentityProvider := IdUsername.

Record AllowConfig := MkAllowConfig { users : list string }.

Record OidcProvider := MkOidcProvider {
  discovery_url : string;
  client_id : string;
  client_secret : string;
  hosted_domains : list string
}.
Record OidcProviderConfig := MkOidcProviderConfig {
  oc_discovery_url : string;
  oc_client_id : string;
  oc_client_secret : string;
  oc_hosted_domain : option string;
  oc_hosted_domains : list string
}.
Definition oidc_provider_try_from (value : OidcProviderConfig) : result string OidcProvider :=
  Ok (MkOidcProvider (oc_discovery_url value) (oc_client_id value) (oc_client_secret value)
        (option_list (oc_hosted_domain value) ++ oc_hosted_domains value)).

Definition default_version_suffix : string := "dev".

(** ** Where the configuration comes from *)
Definition DEFAULT_CFG_FILE_NAME : string := "avery.toml".
Definition ENVIRONMENT_PREFIX : string := "AVERY".

Inductive Source := SourceFile (path : string) | SourceText (toml : string) | SourceEnvironment (prefix : string).

(** The file system and the directories of the platform, as [Config::new] sees
    them. *)
Record Surroundings := MkSurroundings {
  exists_ : string -> bool;
  global_config_path : option string;
  user_config_path : option string
}.

(** [config::Config::builder()], the sources added so far, weakest first. *)
Definition builder : list Source := [].
Definition in_dir (dir : string) : string := dir +:+ "/" +:+ DEFAULT_CFG_FILE_NAME.
Definition then_source (s : Surroundings) (path : string) (b : list Source) : option (list Source) :=
  if exists_ s path then Some (b ++ [SourceFile path]) else None.

Definition config_sources (s : Surroundings) : list Source :=
  let current_folder_cfg := DEFAULT_CFG_FILE_NAME in
  default builder
    (match then_source s current_folder_cfg builder with
     | Some b => Some b
     | None =>
         let b := default builder
           (global_cfg_path ← global_config_path s; then_source s (in_dir global_cfg_path) builder) in
         user_cfg_path ← user_config_path s; then_source s (in_dir user_cfg_path) b
     end) ++ [SourceEnvironment ENVIRONMENT_PREFIX].

(** ** Properties *)

(** What the comments promise: the file of the working directory alone, or else
    the global file overridden by the user's file, where they exist. *)
Definition present (s : Surroundings) (dir : option string) : list Source :=
  match dir with
  | Some d => if exists_ s (in_dir d) then [SourceFile (in_dir d)] else []
  | None => []
  end.
Definition intended_sources (s : Surroundings) : list Source :=
  (if exists_ s DEFAULT_CFG_FILE_NAME then [SourceFile DEFAULT_CFG_FILE_NAME]
   else present s (global_config_path s) ++ present s (user_config_path s))
  ++ [SourceEnvironment ENVIRONMENT_PREFIX].

(** The sources read are the promised ones, except that the global
    configuration file is ignored whenever there is no user configuration
    file. *)
Theorem config_sources_correct s :
  config_sources s =
  if exists_ s DEFAULT_CFG_FILE_NAME then intended_sources s
  else if bool_decide (present s (user_config_path s) = [])
       then [SourceEnvironment ENVIRONMENT_PREFIX]
       else intended_sources s.
Proof.
  unfold config_sources, intended_sources, then_source, present.
  destruct (exists_ s DEFAULT_CFG_FILE_NAME); [done|].
  destruct (user_config_path s) as [u|]; cbn [mbind option_bind]; [|done].
  destruct (exists_ s (in_dir u)); [|done]. cbn.
  destruct (global_config_path s) as [g|]; [|done]. cbn. by destruct (exists_ s (in_dir g)).
Qed.
