(* ===== verification/TokenStore.v ===== *)
(** * The token store (services/avery/src/auth.rs, auth/aliasmap.rs, auth/keystore.rs)

    [TokenStore] answers [acquire_token] for a scope: from its cache, where the
    scopes of one OIDC provider share a token, or from the provider configured
    for the scope.  [SelfSignedGenerator] makes the signing key on first use and
    keeps it in files.  [SimpleKeyStore] reads and writes public keys at a user
    document service. *)
From S2P Require Import Prelude Interfaces Config Tokens.

(** ** Aliases *)
Abbreviation AliasMap := (gmap string (list string)).
Definition alias_get (m : AliasMap) (key : string) : option (list string) := m !! key.

Record Identity := MkIdentity { id_name : string; id_email : string }.

Inductive AcquireTokenError := Generic (e : string) | LoginRequired.
Definition display_acquire_error (e : AcquireTokenError) : string :=
  match e with
  | Generic e => e
  | LoginRequired => "Acquiring this token requires interactive login"
  end.
Definition status_of_acquire_error (e : AcquireTokenError) : Status :=
  match e with
  | LoginRequired => MkStatus CUnauthenticated (display_acquire_error e)
  | Generic _ => MkStatus CInternal (display_acquire_error e)
  end.

(** [Vec::dedup_by_key]: drops elements whose key equals that of the element
    kept before them. *)
Fixpoint dedup_by_key_from {A K} `{EqDecision K} (key : A -> K) (last : A) (l : list A) : list A :=
  match l with
  | [] => []
  | a :: l' => if decide (key a = key last) then dedup_by_key_from key last l'
               else a :: dedup_by_key_from key a l'
  end.
Definition dedup_by_key {A K} `{EqDecision K} (key : A -> K) (l : list A) : list A :=
  match l with [] => [] | a :: l' => a :: dedup_by_key_from key a l' end.

(** The prefix of [scope_key]; the rest is the hash of the whole value. *)
Definition provider_kind (p : IdentityProvider) : string :=
  match p with
  | IdOidc _ => "oidc" | IdUsername => "username"
  | IdUsernameSuffix _ => "username-suffix" | IdOverride _ _ => "override"
  end.

Definition GENERATED_KEY_VERSION : N := 2.
Definition GENERATED_KEY_VERSION_TEXT : string := "2".
Definition KEYSTORE_VERSION_FILENAME : string := ".version".

Section store.
Context {DL : DigestLib} {JL : JwtLib} {EL : EncodingLib} {HO : HashOrder}.

(** [From<HashMap<String, Vec<String>>>]. *)
Definition alias_map_from (map : gmap string (list string)) : AliasMap :=
  foldl (fun m vec => foldl (fun m value => <[value := vec]> m) m vec) ∅ (hash_values map).

(** The hash of an identity provider, in hexadecimal. *)
Variable identity_hash : IdentityProvider -> string.
Definition scope_key (p : IdentityProvider) : string :=
  provider_kind p +:+ "-identity-provider-" +:+ identity_hash p.

(** [create_alias_map]: the scopes of each provider. *)
Definition add_scope (m : gmap string (list string)) (scope : string * AuthConfig) : gmap string (list string) :=
  match scope.2 with
  | AuthOidc provider => <[provider := default [] (m !! provider) ++ [scope.1]]> m
  | _ => m
  end.
Definition provider_scopes (auth_scopes : gmap string AuthConfig) (identity_provider : IdentityProvider)
  : gmap string (list string) :=
  foldl add_scope
    (match identity_provider with
     | IdOidc provider => {[ provider := [scope_key identity_provider] ]}
     | _ => ∅
     end) (hash_iter auth_scopes).
Definition create_alias_map (auth_scopes : gmap string AuthConfig) (identity_provider : IdentityProvider)
  : AliasMap := alias_map_from (provider_scopes auth_scopes identity_provider).

(** ** The cache *)
Record TokenCache := MkTokenCache { tc_tokens : gmap string TypedToken; tc_scope_aliases : AliasMap }.
Definition cache_insert (scope : string) (token : TypedToken) (self : TokenCache) : TokenCache :=
  MkTokenCache (<[scope := token]> (tc_tokens self)) (tc_scope_aliases self).
Definition cache_alias (self : TokenCache) (scope : string) : option string :=
  match alias_get (tc_scope_aliases self) scope with
  | Some strings => snd <$> list_find (fun key => is_Some (tc_tokens self !! key)) strings
  | None => Some scope
  end.
Definition cache_get (self : TokenCache) (scope : string) : option TypedToken :=
  alias ← cache_alias self scope; tc_tokens self !! alias.
(** The key [entry] looks at. *)
Definition cache_entry (self : TokenCache) (scope : string) : string := default scope (cache_alias self scope).

(** ** Self-signed tokens *)
Record SelfSignedGenerator := MkSelfSigned {
  sg_inner : option TokenGenerator;
  sg_key_path : string;
  (** the files of the key directory *)
  sg_files : gmap string (list byte)
}.
Definition private_key_file : string := "id_ecdsa.pem".
Definition public_key_file : string := "id_ecdsa_pub.pem".

Definition text_of_bytes (b : list byte) : string := String.string_of_list_byte b.

Definition key_version (w : World) (files : gmap string (list byte)) : result string N :=
  version ← match files !! KEYSTORE_VERSION_FILENAME, w_fs_error w "read" KEYSTORE_VERSION_FILENAME with
            | None, _ => Ok "1"
            | Some _, Some e => Err ("Failed to read key version file: " +:+ e)
            | Some b, None => Ok (text_of_bytes b)
            end;
  ok_or ("Failed to parse key version: invalid digit found in string") (parse_usize version).

(** What the generator does to its directory: a write fails without effect or
    replaces the file. *)
Definition keys_handler := sem (gmap string (list byte)) string.
Definition write_file (w : World) (wrap : string -> string) (name : string) (content : list byte) : keys_handler unit :=
  fun files => match w_fs_error w "write" name with
               | Some e => (files, Err (wrap e))
               | None => (<[name := content]> files, Ok tt)
               end.
Definition fs_check (w : World) (wrap : string -> string) (op name : string) : keys_handler unit :=
  sem_lift (match w_fs_error w op name with Some e => Err (wrap e) | None => Ok tt end).
Definition plain (e : string) : string := e.

Definition save_keys (w : World) (self : TokenGenerator) : keys_handler unit :=
  match tg_generated_key_pair self with
  | Some keypair =>
      let pem := pem_of_der keypair in
      _ ← write_file w plain private_key_file (string_bytes (pk_private pem));
      _ ← write_file w plain public_key_file (string_bytes (pk_public pem));
      _ ← fs_check w plain "chmod" private_key_file;
      fs_check w plain "chmod" public_key_file
  | None => sem_lift (Err "invalid data")
  end.

(** Reading the key directory goes through the files the model keeps. *)
Definition reading (w : World) (files : gmap string (list byte)) : World :=
  MkWorld (w_now w) (w_hostname w) (w_post_refresh w) (w_get_jwks w) (w_user w)
    (fun path => match files !! path, w_fs_error w "read" path with
                 | Some b, None => Ok b
                 | Some _, Some e => Err e
                 | None, _ => Err "not found"
                 end)
    (w_generate_key w) (w_fs_error w) (w_authenticate w).

Definition create_self_signed_generator (w : World) (keystore_path : string)
  : keys_handler (bool * TokenGenerator) :=
  _ ← fs_check w (fun e => "Failed to create keystore directory at " +:+ quoted keystore_path +:+ ": " +:+ e)
        "create_dir" keystore_path;
  _ ← fs_check w (fun e => "Failed to set permissions on keystore directory: " +:+ e) "chmod" keystore_path;
  use_existing ← sem_ask (fun files =>
      if bool_decide (is_Some (files !! private_key_file))
      then version ← key_version w files; Ok (GENERATED_KEY_VERSION <=? version)%N
      else Ok false);
  if (use_existing : bool) then
    sem_ask (fun files =>
      tg ← map_err display_self_signed_error
             (build (reading w files) (with_private_key (EcdsaFile private_key_file) builder_new));
      Ok (false, tg))
  else
    tg ← sem_lift (map_err display_self_signed_error (build w builder_new));
    _ ← save_keys w tg;
    _ ← write_file w (fun e => "Failed to write key version: " +:+ e) KEYSTORE_VERSION_FILENAME
          (string_bytes GENERATED_KEY_VERSION_TEXT);
    mret (true, tg).

Definition self_signed_generate (w : World) (subject audience : string)
  : sem SelfSignedGenerator SelfSignedTokenError (JwtToken * option (list byte * string)) :=
  fun self =>
    let '(files, made) :=
      match sg_inner self with
      | Some inner => (sg_files self, Ok (false, inner))
      | None =>
          let '(files, r) := create_self_signed_generator w (sg_key_path self) (sg_files self) in
          (files, map_err GenericTokenGenerationError r)
      end in
    match made with
    | Err e => (MkSelfSigned None (sg_key_path self) files, Err e)
    | Ok (upload, inner) =>
        let res :=
          t ← generate w inner subject audience;
          Ok (t, (if (upload : bool) then (fun key => (key, key_id inner subject)) <$> public_key inner else None)) in
        (MkSelfSigned (Some inner) (sg_key_path self) files, res)
    end.

(** ** Providers *)
Record TokenProviders := MkProviders {
  tp_oidc : gmap string OidcProvider;
  tp_self_signed : SelfSignedGenerator;
  tp_self_signed_with_file : gmap string TokenGenerator;
  tp_scope_mappings : gmap string AuthConfig
}.

(** One login per element of the list, in order, stopping at the first error. *)
Definition login_scopes (self : TokenProviders) (additional_scopes : list (string * string)) : list (string * string) :=
  dedup_by_key snd
    (omap (fun '(scope, c) => match c with AuthOidc provider => Some (scope, provider) | _ => None end)
       (hash_iter (tp_scope_mappings self)) ++ additional_scopes).
Definition login_one (w : World) (self : TokenProviders) (s : string * string)
  : result AcquireTokenError (string * TypedToken) :=
  oidc ← ok_or (Generic ("Failed to find OIDC provider " +:+ quoted s.2)) (tp_oidc self !! s.2);
  t ← map_err (fun e => Generic ("OIDC login failed: " +:+ display_oidc_error e)) (w_authenticate w oidc);
  Ok (s.1, TOidc t).
Definition providers_login (w : World) (self : TokenProviders) (additional_scopes : list (string * string))
  : result AcquireTokenError (gmap string TypedToken) :=
  tokens ← collect (login_one w self <$> login_scopes self additional_scopes);
  Ok (foldl (fun m st => <[st.1 := st.2]> m) ∅ tokens).

Definition get_token (w : World) (identity : Identity) (scope : string)
  : sem TokenProviders AcquireTokenError TypedToken :=
  fun self =>
    match tp_scope_mappings self !! scope with
    | Some (AuthOidc _) => (self, Err LoginRequired)
    | Some AuthSelfSigned | None =>
        let '(sg, r) := self_signed_generate w (id_email identity) scope (tp_self_signed self) in
        (MkProviders (tp_oidc self) sg (tp_self_signed_with_file self) (tp_scope_mappings self),
         '(token, key_to_upload) ← map_err (fun e => Generic (display_self_signed_error e)) r;
         Ok (TInternalWithPublicKey token key_to_upload))
    | Some (AuthKeyFile path _ _ _ _ _) =>
        (self,
         generator ← ok_or (Generic ("Failed to find self signed generator for keyfile at " +:+ quoted path))
                       (tp_self_signed_with_file self !! path);
         t ← map_err (fun e => Generic (display_self_signed_error e)) (generate w generator (id_email identity) scope);
         Ok (TInternal t))
    end.

(** ** The store *)
Record TokenStore := MkTokenStore {
  ts_cache : TokenCache;
  ts_providers : TokenProviders;
  ts_identity : option Identity;
  ts_identity_provider : IdentityProvider
}.
Definition set_cache (c : TokenCache) (s : TokenStore) : TokenStore :=
  MkTokenStore c (ts_providers s) (ts_identity s) (ts_identity_provider s).
Definition set_providers (p : TokenProviders) (s : TokenStore) : TokenStore :=
  MkTokenStore (ts_cache s) p (ts_identity s) (ts_identity_provider s).
Definition set_identity (i : option Identity) (s : TokenStore) : TokenStore :=
  MkTokenStore (ts_cache s) (ts_providers s) i (ts_identity_provider s).

Definition store_login (w : World) : sem TokenStore AcquireTokenError unit :=
  tokens ← sem_ask (fun self =>
    providers_login w (ts_providers self)
      (match ts_identity_provider self with
       | IdOidc provider => [(scope_key (ts_identity_provider self), provider)]
       | _ => []
       end));
  sem_modify (fun self =>
    set_cache (foldl (fun c '(n, t) => cache_insert n t c) (ts_cache self) (hash_iter tokens)) self).

Definition username_identity (suffix : string) (user : option string) : result AcquireTokenError Identity :=
  name ← ok_or (Generic "Failed to determine username for identity") user;
  Ok (MkIdentity name (name +:+ suffix)).
Definition find_identity (w : World) (self : TokenStore) : result AcquireTokenError Identity :=
  match ts_identity_provider self with
  | IdOidc provider =>
      token ← match cache_get (ts_cache self) (scope_key (ts_identity_provider self)) with
              | Some token =>
                  if bool_decide (is_Some (token_claim token "email") /\ is_Some (token_claim token "name"))
                  then Ok token else Err LoginRequired
              | None => Err LoginRequired
              end;
      match token_claim token "name" ≫= value_as_str, token_claim token "email" ≫= value_as_str with
      | Some name, Some email => Ok (MkIdentity name email)
      | _, _ => Err (Generic "Token is missing name or email claim")
      end
  | IdUsername => username_identity "@unknown" (w_user w)
  | IdUsernameSuffix suffix => username_identity suffix (w_user w)
  | IdOverride name email => Ok (MkIdentity name email)
  end.
(** [self.identity.take()] leaves nothing behind when finding one fails. *)
Definition get_identity (w : World) : sem TokenStore AcquireTokenError Identity :=
  identity ← (fun self =>
    (set_identity None self, match ts_identity self with Some i => Ok i | None => find_identity w self end));
  _ ← sem_modify (set_identity (Some identity));
  mret identity.

Definition lift_providers {A} (h : sem TokenProviders AcquireTokenError A) : sem TokenStore AcquireTokenError A :=
  fun self => let '(p, r) := h (ts_providers self) in (set_providers p self, r).

(** Returns the key of the entry, which is what the returned reference points
    at, with the token. *)
Definition acquire_token (w : World) (scope : string) : sem TokenStore AcquireTokenError (string * TypedToken) :=
  identity ← get_identity w;
  entry ← sem_ask (fun self => Ok (cache_entry (ts_cache self) scope));
  cached ← sem_ask (fun self => Ok (tc_tokens (ts_cache self) !! entry));
  typed_token ← match cached with
    | Some token => mret token
    | None =>
        token ← lift_providers (get_token w identity scope);
        _ ← sem_modify (fun self => set_cache (cache_insert entry token (ts_cache self)) self);
        mret token
    end;
  refreshed ← sem_lift (map_err (fun err =>
      Generic ("Failed to refresh token for scope " +:+ quoted scope +:+ ": " +:+ err)) (token_refresh w typed_token));
  _ ← sem_modify (fun self => set_cache (cache_insert entry refreshed (ts_cache self)) self);
  mret (entry, refreshed).
End store.
