(* ===== verification/TokenProps.v ===== *)
(** * Properties of the token store

    Which scopes share a token, when a login is required, that returned tokens
    have not expired, and that the generated signing key survives a restart. *)
From S2P Require Import Prelude Interfaces Config Tokens TokenStore.

Section token_props.
Context {DL : DigestLib} {JL : JwtLib} {EL : EncodingLib} {HO : HashOrder}.
Variable identity_hash : IdentityProvider -> string.
Abbreviation scope_key := (scope_key identity_hash).
Abbreviation acquire_token := (acquire_token identity_hash).
Abbreviation get_identity := (get_identity identity_hash).
Implicit Types w : World.

(** ** Scopes of one provider *)

(** [k] is served by the OIDC provider [p]: it is mapped to it, or it is the key
    of the identity provider and that is [p]. *)
Definition served_by (auth_scopes : gmap string AuthConfig) (idp : IdentityProvider) (p k : string) : Prop :=
  auth_scopes !! k = Some (AuthOidc p) \/ (idp = IdOidc p /\ k = scope_key idp).

Lemma insert_all_lookup (vec l : list string) (m : AliasMap) k :
  foldl (fun m value => <[value := vec]> m) m l !! k = if decide (k ∈ l) then Some vec else m !! k.
Proof.
  induction l as [|v l IH] using rev_ind; [done|]. rewrite foldl_snoc. cbv beta. rewrite lookup_insert, IH.
  destruct (decide (v = k)) as [->|Hne].
  - rewrite decide_True by set_solver. done.
  - destruct (decide (k ∈ l)); [rewrite decide_True by set_solver | rewrite decide_False by set_solver]; done.
Qed.

Lemma alias_map_lookup (map : gmap string (list string)) k :
  match alias_map_from map !! k with
  | Some l => k ∈ l /\ exists p, map !! p = Some l
  | None => forall p l, map !! p = Some l -> k ∉ l
  end.
Proof.
  unfold alias_map_from.
  assert (forall vecs, match foldl (fun m vec => foldl (fun m value => <[value := vec]> m) m vec) (∅ : AliasMap) vecs !! k with
                       | Some l => k ∈ l /\ l ∈ vecs
                       | None => forall l, l ∈ vecs -> k ∉ l
                       end) as Hv.
  { induction vecs as [|vec vecs IH] using rev_ind; [set_solver|].
    rewrite foldl_snoc. cbv beta. rewrite insert_all_lookup. case_decide; [set_solver|].
    destruct (foldl _ _ vecs !! k); set_solver. }
  specialize (Hv (hash_values map)). destruct (foldl _ _ _ !! k) as [l|].
  - rewrite elem_of_hash_values in Hv. tauto.
  - intros p l Hp. apply Hv, elem_of_hash_values. eauto.
Qed.

Lemma provider_scopes_lookup auth_scopes idp p k :
  k ∈ default [] (provider_scopes identity_hash auth_scopes idp !! p) <-> served_by auth_scopes idp p k.
Proof.
  unfold provider_scopes, served_by. rewrite <- elem_of_hash_iter.
  set (m0 := match idp with IdOidc provider => _ | _ => _ end).
  assert (k ∈ default [] (m0 !! p) <-> idp = IdOidc p /\ k = scope_key idp) as H0.
  { unfold m0. destruct idp as [p'| | |]; try (rewrite lookup_empty; cbn; set_solver).
    destruct (decide (p' = p)) as [->|Hne].
    - rewrite lookup_singleton_eq. cbn. set_solver.
    - rewrite lookup_singleton_ne by done. cbn. set_solver. }
  assert (forall l, k ∈ default [] (foldl add_scope m0 l !! p) <-> (k, AuthOidc p) ∈ l \/ k ∈ default [] (m0 !! p)) as Hl.
  { induction l as [|[k' c] l IH] using rev_ind; [set_solver|].
    rewrite foldl_snoc, elem_of_app, list_elem_of_singleton. unfold add_scope. cbn [fst snd].
    destruct c as [p'| |]; [|rewrite IH; naive_solver..].
    destruct (decide (p' = p)) as [->|Hne].
    - rewrite lookup_insert_eq. cbn. rewrite elem_of_app, IH, list_elem_of_singleton. naive_solver.
    - rewrite lookup_insert_ne, IH by done. naive_solver. }
  rewrite Hl, H0. done.
Qed.

Lemma served_unique auth_scopes idp p p' k :
  auth_scopes !! scope_key idp = None ->
  served_by auth_scopes idp p k -> served_by auth_scopes idp p' k -> p = p'.
Proof. unfold served_by. naive_solver. Qed.

Lemma alias_lookup auth_scopes idp k :
  auth_scopes !! scope_key idp = None ->
  match create_alias_map identity_hash auth_scopes idp !! k with
  | Some l => exists p, served_by auth_scopes idp p k /\ forall k', k' ∈ l <-> served_by auth_scopes idp p k'
  | None => forall p, ~ served_by auth_scopes idp p k
  end.
Proof.
  intros Hfresh. unfold create_alias_map.
  pose proof (alias_map_lookup (provider_scopes identity_hash auth_scopes idp) k) as Hk.
  destruct (alias_map_from _ !! k) as [l|].
  - destruct Hk as [Hin [p Hp]]. exists p.
    assert (forall k', k' ∈ l <-> served_by auth_scopes idp p k') as Hl.
    { intros k'. rewrite <- provider_scopes_lookup, Hp. done. }
    split; [by apply Hl|done].
  - intros p Hs. apply provider_scopes_lookup in Hs.
    destruct (provider_scopes _ _ _ !! p) as [l|] eqn:Hp; [|set_solver]. by apply (Hk p l).
Qed.

(** C1: the alias map puts every scope into one group with exactly the scopes
    served by the same OIDC provider, the identity provider's own key included,
    and scopes of other kinds into none. *)
Theorem create_alias_map_correct auth_scopes idp k :
  auth_scopes !! scope_key idp = None ->
  (forall p, served_by auth_scopes idp p k ->
     exists l, alias_get (create_alias_map identity_hash auth_scopes idp) k = Some l /\
       forall k', k' ∈ l <-> served_by auth_scopes idp p k') /\
  ((forall p, ~ served_by auth_scopes idp p k) ->
     alias_get (create_alias_map identity_hash auth_scopes idp) k = None).
Proof.
  intros Hfresh. pose proof (alias_lookup auth_scopes idp k Hfresh) as Hk. unfold alias_get.
  destruct (create_alias_map _ _ _ !! k) as [l|]; split.
  - intros p Hp. destruct Hk as (p' & Hp' & Hl). exists l. split; [done|].
    by rewrite (served_unique auth_scopes idp p p' k).
  - intros Hno. destruct Hk as (p & Hp & _). by destruct (Hno p).
  - intros p Hp. by destruct (Hk p).
  - done.
Qed.

(** ** Acquiring a token *)
Definition configured (s : TokenStore) : Prop :=
  tc_scope_aliases (ts_cache s) =
    create_alias_map identity_hash (tp_scope_mappings (ts_providers s)) (ts_identity_provider s) /\
  tp_scope_mappings (ts_providers s) !! scope_key (ts_identity_provider s) = None.

Lemma configured_intro tokens oidc sg files scopes id idp :
  scopes !! scope_key idp = None ->
  configured (MkTokenStore (MkTokenCache tokens (create_alias_map identity_hash scopes idp))
                (MkProviders oidc sg files scopes) id idp).
Proof. done. Qed.

Lemma get_identity_Ok w s s1 i :
  get_identity w s = (s1, Ok i) -> s1 = set_identity (Some i) s.
Proof.
  unfold TokenStore.get_identity, sem_modify. cbv [mbind sem_bind mret sem_ret].
  destruct (ts_identity s) as [j|]; [by intros [= <- <-]|].
  destruct (find_identity _ w s); [by intros [= <- <-] | done].
Qed.

(** What [acquire_token] does once the identity is known. *)
Lemma acquire_token_unfold w scope s s1 i :
  get_identity w s = (s1, Ok i) ->
  let entry := cache_entry (ts_cache s) scope in
  let finish s2 token :=
    match token_refresh w token with
    | Ok t => (set_cache (cache_insert entry t (ts_cache s2)) s2, Ok (entry, t))
    | Err e => (s2, Err (Generic ("Failed to refresh token for scope " +:+ quoted scope +:+ ": " +:+ e)))
    end in
  acquire_token w scope s =
  match tc_tokens (ts_cache s) !! entry with
  | Some token => finish s1 token
  | None =>
      match get_token w i scope (ts_providers s) with
      | (p, Ok token) => finish (set_cache (cache_insert entry token (ts_cache s)) (set_providers p s1)) token
      | (p, Err e) => (set_providers p s1, Err e)
      end
  end.
Proof.
  intros Hi entry finish. unfold TokenStore.acquire_token.
  unfold mbind at 1, sem_bind at 1. fold get_identity. rewrite Hi.
  apply get_identity_Ok in Hi as ->.
  unfold sem_ask, sem_lift, sem_modify, lift_providers. cbv [mbind sem_bind mret sem_ret].
  cbn [ts_cache ts_providers set_identity]. fold entry.
  destruct (tc_tokens (ts_cache s) !! entry) as [token|].
  - unfold finish. by destruct (token_refresh w token).
  - change (ts_providers (set_identity (Some i) s)) with (ts_providers s).
    destruct (get_token w i scope (ts_providers s)) as [p [token|e]]; [|done].
    unfold finish. by destruct (token_refresh w token).
Qed.

(** Scopes of one OIDC provider share one login.  Acquiring a token for such
    a scope returns the cached token of a scope of the same provider, refreshed,
    whenever there is one under any of them, and otherwise asks for an
    interactive login without touching the store. *)
Theorem oidc_scopes_share_token w s s1 i scope p :
  configured s -> get_identity w s = (s1, Ok i) ->
  tp_scope_mappings (ts_providers s) !! scope = Some (AuthOidc p) ->
  let served := served_by (tp_scope_mappings (ts_providers s)) (ts_identity_provider s) p in
  (exists k t, served k /\ tc_tokens (ts_cache s) !! k = Some t /\
     acquire_token w scope s =
       match token_refresh w t with
       | Ok t' => (set_cache (cache_insert k t' (ts_cache s1)) s1, Ok (k, t'))
       | Err e => (s1, Err (Generic ("Failed to refresh token for scope " +:+ quoted scope +:+ ": " +:+ e)))
       end) \/
  ((forall k, served k -> tc_tokens (ts_cache s) !! k = None) /\
   acquire_token w scope s = (s1, Err LoginRequired)).
Proof.
  intros [Hal Hfresh] Hi Hscope served. rewrite (acquire_token_unfold _ _ _ s1 i Hi). cbv zeta.
  pose proof (get_identity_Ok _ _ _ _ Hi) as Hs1.
  assert (served scope) as Hserved by by left.
  pose proof (alias_lookup _ _ scope Hfresh) as Hk.
  unfold cache_entry, cache_alias, alias_get. rewrite Hal.
  destruct (create_alias_map _ _ _ !! scope) as [l|]; [|by destruct (Hk p)].
  destruct Hk as (p' & Hp' & Hl). rewrite (served_unique _ _ p' p scope) in Hl by done. fold served in Hl.
  destruct (list_find _ l) as [[j k]|] eqn:Hfind; cbn [fmap option_fmap option_map snd default from_option].
  - apply list_find_Some in Hfind as (Hj & [t Ht] & _). left. exists k, t.
    apply list_elem_of_lookup_2 in Hj. split; [by apply Hl|]. split; [done|].
    cbn. rewrite Ht. by subst s1.
  - apply list_find_None in Hfind. rewrite Forall_forall in Hfind. right.
    assert (forall k, served k -> tc_tokens (ts_cache s) !! k = None) as Hnone.
    { intros k Hks. apply Hl, Hfind in Hks. by apply eq_None_not_Some. }
    split; [done|]. rewrite (Hnone scope) by done.
    unfold get_token. rewrite Hscope. subst s1. by destruct s.
Qed.

(** ** Expiry *)
Definition internal_generator (t : TypedToken) : option TokenGenerator :=
  match t with
  | TOidc _ => None
  | TInternal t | TInternalWithPublicKey t _ => Some (jt_generator t)
  end.
(** Tokens of the generator live for a while, and the clock is not at its end. *)
Definition lives w (g : TokenGenerator) : Prop :=
  (0 < default 3600 (tg_exp g) /\ w_now w + default 3600 (tg_exp g) < u64_modulus)%N.

Lemma generate_Ok w g subject audience t :
  generate w g subject audience = Ok t ->
  jt_generator t = g /\ jt_subject t = subject /\ jt_audience t = audience /\
  sc_iat (jt_claims t) = w_now w /\ sc_exp (jt_claims t) = jt_expires_at t /\
  sc_sub (jt_claims t) = default subject (tg_sub g) /\ sc_aud (jt_claims t) = default audience (tg_aud g) /\
  jt_expires_at t = u64_add (w_now w) (default 3600 (tg_exp g))%N.
Proof.
  unfold generate, generate_impl. intros H. inv_ok. subst t. cbn. split_and!; try done.
  by destruct (tg_exp g).
Qed.

Lemma jwt_refresh_fresh w t t' :
  jwt_refresh w t = Ok t' ->
  jt_generator t' = jt_generator t /\ (lives w (jt_generator t') -> (w_now w < jt_expires_at t')%N).
Proof.
  unfold jwt_refresh. destruct (jt_expires_at t <=? w_now w)%N eqn:Hexp.
  - intros H. inv_ok. subst t'. apply generate_Ok in Hok as (Hg & _ & _ & _ & _ & _ & _ & He).
    cbn. split; [done|]. intros [Hpos Hsmall]. rewrite He, u64_add_small by done. lia.
  - intros [= <-]. split; [done|]. intros _. by apply N.leb_gt.
Qed.

Lemma token_refresh_fresh w t t' g :
  token_refresh w t = Ok t' -> internal_generator t' = Some g -> lives w g ->
  (w_now w < token_expires_at t')%N.
Proof.
  destruct t as [t|t|t k]; cbn [token_refresh]; intros H Hg Hl; inv_ok; subst t'; [done|..];
    apply jwt_refresh_fresh in Hok as [_ Hf]; cbn in *; injection Hg as <-; auto.
Qed.

(** A token [acquire_token] returns is the one the cache now holds, and a
    self-signed one has not expired, however old the cached token was; what is
    cached under other keys is as before. *)
Theorem acquire_token_fresh w scope s s' entry t :
  acquire_token w scope s = (s', Ok (entry, t)) ->
  entry = cache_entry (ts_cache s) scope /\
  tc_tokens (ts_cache s') !! entry = Some t /\
  (forall g, internal_generator t = Some g -> lives w g -> (w_now w < token_expires_at t)%N) /\
  forall k, k <> entry -> tc_tokens (ts_cache s') !! k = tc_tokens (ts_cache s) !! k.
Proof.
  intros H. destruct (get_identity w s) as [s1 [i|e]] eqn:Hi.
  2: { unfold TokenStore.acquire_token in H. unfold mbind at 1, sem_bind at 1 in H.
       fold get_identity in H. by rewrite Hi in H. }
  rewrite (acquire_token_unfold _ _ _ s1 i Hi) in H. cbv zeta in H.
  apply get_identity_Ok in Hi as ->.
  destruct (tc_tokens (ts_cache s) !! _) as [token|].
  - destruct (token_refresh w token) as [t'|e] eqn:Hr; [|done]. injection H as <- <- <-.
    split_and!; [done | apply lookup_insert_eq | intros g; by apply (token_refresh_fresh _ token) |].
    intros k Hk. by apply lookup_insert_ne.
  - destruct (get_token w i scope _) as [p [token|e]]; [|done].
    destruct (token_refresh w token) as [t'|e] eqn:Hr; [|done]. injection H as <- <- <-.
    split_and!; [done | apply lookup_insert_eq | intros g; by apply (token_refresh_fresh _ token) |].
    intros k Hk. cbn. by rewrite !lookup_insert_ne.
Qed.

(** The entry a token was put under is the one found the next time. *)
Lemma cache_entry_stable (c : TokenCache) scope t :
  cache_entry (cache_insert (cache_entry c scope) t c) scope = cache_entry c scope.
Proof.
  unfold cache_entry at 1 3, cache_alias. cbn [tc_scope_aliases cache_insert].
  destruct (alias_get (tc_scope_aliases c) scope) as [l|] eqn:Hal; [|done].
  assert (cache_entry c scope = default scope (snd <$> list_find (fun key => is_Some (tc_tokens c !! key)) l)) as He
    by (unfold cache_entry, cache_alias; by rewrite Hal).
  rewrite He. destruct (list_find _ l) as [[i k]|] eqn:Hf; cbn [fmap option_fmap option_map snd from_option].
  - rewrite (list_find_ext _ (fun key => is_Some (tc_tokens c !! key))), Hf; [done|].
    intros k'. cbn. rewrite lookup_insert. apply list_find_Some in Hf as (_ & Hk & _). case_decide; naive_solver.
  - destruct (list_find (fun key => is_Some (tc_tokens (cache_insert _ _ _) !! key)) l) as [[j k']|] eqn:Hf'; [|done].
    apply list_find_Some in Hf' as (Hj & [v Hv] & _). cbn in *.
    apply lookup_insert_Some in Hv as [[<- _]|[_ Hv]]; [done|].
    apply list_find_None in Hf. rewrite Forall_forall in Hf. apply list_elem_of_lookup_2 in Hj.
    destruct (Hf _ Hj). eauto.
Qed.

Lemma token_refresh_alive w t :
  (w_now w < token_expires_at t)%N -> token_refresh w t = Ok t.
Proof.
  intros Hnow%N.leb_gt. destruct t as [t|t|t k]; cbn in *; unfold oidc_refresh, jwt_refresh; by rewrite Hnow.
Qed.

(** Asking again while the token lives returns it and changes nothing. *)
Lemma acquire_token_again w scope store i t :
  ts_identity store = Some i ->
  tc_tokens (ts_cache store) !! cache_entry (ts_cache store) scope = Some t ->
  (w_now w < token_expires_at t)%N ->
  acquire_token w scope store = (store, Ok (cache_entry (ts_cache store) scope, t)).
Proof.
  intros Hi Ht Hnow.
  assert (get_identity w store = (store, Ok i)) as Hid.
  { unfold TokenStore.get_identity, sem_modify. cbv [mbind sem_bind mret sem_ret]. rewrite Hi.
    destruct store. cbn in *. by subst. }
  rewrite (acquire_token_unfold _ _ _ store i Hid). cbv zeta. rewrite Ht, token_refresh_alive by done.
  unfold cache_insert. rewrite insert_id by done. by destruct store as [[] ? ? ?].
Qed.

Lemma acquire_token_entry w scope s s' entry t :
  acquire_token w scope s = (s', Ok (entry, t)) ->
  cache_entry (ts_cache s') scope = entry /\ tc_tokens (ts_cache s') !! entry = Some t /\
  exists i, ts_identity s' = Some i.
Proof.
  intros H. destruct (get_identity w s) as [s1 [i|e]] eqn:Hi.
  2: { unfold TokenStore.acquire_token in H. unfold mbind at 1, sem_bind at 1 in H.
       fold get_identity in H. by rewrite Hi in H. }
  rewrite (acquire_token_unfold _ _ _ s1 i Hi) in H. cbv zeta in H.
  apply get_identity_Ok in Hi as ->.
  pose proof (cache_entry_stable (ts_cache s) scope) as Hst.
  destruct (tc_tokens (ts_cache s) !! _) as [token|].
  - destruct (token_refresh w token) as [t'|e] eqn:Hr; [|done]. injection H as <- <- <-.
    cbn. split_and!; [apply Hst | apply lookup_insert_eq | eauto].
  - destruct (get_token w i scope _) as [p [token|e]]; [|done].
    destruct (token_refresh w token) as [t'|e] eqn:Hr; [|done]. injection H as <- <- <-.
    cbn. split_and!; [| apply lookup_insert_eq | eauto].
    set (c1 := cache_insert (cache_entry (ts_cache s) scope) token (ts_cache s)).
    assert (cache_entry c1 scope = cache_entry (ts_cache s) scope) as He by apply Hst.
    rewrite <- He at 1. rewrite (cache_entry_stable c1 scope). exact He.
Qed.

(** ** The signing key *)
Lemma generated_files w path files files1 tg :
  create_self_signed_generator w path files = (files1, Ok (true, tg)) ->
  exists keypair, build w builder_new = Ok tg /\ tg_generated_key_pair tg = Some keypair /\
    files1 = <[KEYSTORE_VERSION_FILENAME := string_bytes GENERATED_KEY_VERSION_TEXT]>
      (<[public_key_file := string_bytes (pk_public (pem_of_der keypair))]>
        (<[private_key_file := string_bytes (pk_private (pem_of_der keypair))]> files)).
Proof.
  unfold create_self_signed_generator, fs_check, sem_lift, sem_ask, save_keys, write_file, plain.
  cbv [mbind sem_bind mret sem_ret]. intros H.
  destruct (w_fs_error w "create_dir" path); [done|]. destruct (w_fs_error w "chmod" path); [done|].
  destruct (if bool_decide _ then _ else _) as [[]|e]; [destruct (map_err _ _); by inversion H| |done].
  destruct (build w builder_new) as [tg'|e]; cbn [map_err] in H; [|done].
  destruct (tg_generated_key_pair tg') as [keypair|] eqn:Hpair; [|done].
  destruct (w_fs_error w "write" private_key_file); [done|].
  destruct (w_fs_error w "write" public_key_file); [done|]. unfold fs_check, sem_lift in H.
  destruct (w_fs_error w "chmod" private_key_file); [done|].
  destruct (w_fs_error w "chmod" public_key_file); [done|].
  destruct (w_fs_error w "write" KEYSTORE_VERSION_FILENAME); [done|].
  injection H as <- <-. by exists keypair.
Qed.

Lemma key_version_saved w (files : gmap string (list byte)) :
  files !! KEYSTORE_VERSION_FILENAME = Some (string_bytes GENERATED_KEY_VERSION_TEXT) ->
  (forall op name, w_fs_error w op name = None) -> key_version w files = Ok 2%N.
Proof. intros Hv Hfs. unfold key_version. by rewrite Hv, Hfs. Qed.

(** The generated signing key survives a restart.  When a start-up has
    generated a key and saved it, the next start-up on the same directory reads
    it back without generating one: the same signing key under the same
    identifiers, nothing written and nothing to upload. *)
Theorem signing_key_reused w w' path files files1 tg :
  (forall d, encoding_key_from_ec_pem (string_bytes (pk_private (pem_of_der d))) =
             Ok (encoding_key_from_ec_der (dk_private d))) ->
  create_self_signed_generator w path files = (files1, Ok (true, tg)) ->
  (forall op name, w_fs_error w' op name = None) ->
  exists tg', create_self_signed_generator w' path files1 = (files1, Ok (false, tg')) /\
    tg_private_key tg' = tg_private_key tg /\
    (forall subject, key_id tg' subject = key_id tg subject) /\
    public_key tg' = None.
Proof.
  intros Hpem Hgen Hfs. apply generated_files in Hgen as (keypair & Hbuild & Hpair & Hfiles).
  assert (files1 !! private_key_file = Some (string_bytes (pk_private (pem_of_der keypair)))) as Hkey.
  { rewrite Hfiles. do 2 rewrite lookup_insert_ne by done. apply lookup_insert_eq. }
  assert (files1 !! KEYSTORE_VERSION_FILENAME = Some (string_bytes GENERATED_KEY_VERSION_TEXT)) as Hver.
  { rewrite Hfiles. apply lookup_insert_eq. }
  unfold create_self_signed_generator, fs_check, sem_lift, sem_ask.
  cbv [mbind sem_bind]. rewrite !Hfs, Hkey, bool_decide_true by eauto.
  rewrite (key_version_saved w' files1) by done. cbn [result_bind].
  assert ((GENERATED_KEY_VERSION <=? 2)%N = true) as -> by done.
  assert (build (reading w' files1) (with_private_key (EcdsaFile private_key_file) builder_new) =
    Ok (MkGenerator (encoding_key_from_ec_der (dk_private keypair))
          (generate_fingerprint (string_bytes (pk_private (pem_of_der keypair)))) None None None None None None)) as ->.
  { unfold build. cbn [tb_private_key with_private_key w_read_file reading]. rewrite Hkey, Hfs.
    cbn [map_err mbind result_bind]. by rewrite Hpem. }
  eexists. split; [done|]. unfold build in Hbuild. cbn in Hbuild.
  destruct (w_generate_key w) as [kp|e]; [|done]. cbn in Hbuild. injection Hbuild as <-.
  injection Hpair as ->. done.
Qed.
End token_props.

(** ** Concrete instances of the properties *)
Module TokenExamples.
#[local] Existing Instance Concrete.text_digest.
#[local] Existing Instance Concrete.text_jwt.
#[local] Existing Instance Concrete.plain_encoding.
#[local] Existing Instance key_order.

Definition hash (_ : IdentityProvider) : string := "0".
Definition keypair := MkDerKeyPair [] [].
Definition world := MkWorld 100 (Ok "host") (fun _ _ => Err StateMismatch) (fun _ => Err StateMismatch)
  (Some "ada") (fun _ => Err "no file") (Ok keypair) (fun _ _ => None) (fun _ => Err StateMismatch).
Definition scopes : gmap string AuthConfig :=
  {[ "mail" := AuthOidc "corp"; "docs" := AuthOidc "corp"; "own" := AuthSelfSigned ]}.
Definition oidc_token := MkOidcToken (MkAuthToken "a" 900 "mail-token" "r" "s" "t")
  (MkAuthContext 900 "id" "secret" "https://corp/token" "https://corp/keys" [] [] (MkClaims "i" "ada" "id" 1000 100 ∅)).
Definition store := MkTokenStore
  (MkTokenCache {[ "mail" := TOidc oidc_token ]} (create_alias_map hash scopes IdUsername))
  (MkProviders ∅ (MkSelfSigned None "/keys" ∅) ∅ scopes) None IdUsername.
Definition logged_out := MkTokenStore
  (MkTokenCache ∅ (create_alias_map hash scopes IdUsername))
  (MkProviders ∅ (MkSelfSigned None "/keys" ∅) ∅ scopes) None IdUsername.

Lemma key_files (d : DerKeyPair) :
  encoding_key_from_ec_pem (string_bytes (pk_private (pem_of_der d))) = Ok (encoding_key_from_ec_der (dk_private d)).
Proof. reflexivity. Qed.

Lemma identity_ada c p :
  get_identity hash world (MkTokenStore c p None IdUsername) =
  (set_identity (Some (MkIdentity "ada" "ada@unknown")) (MkTokenStore c p None IdUsername),
   Ok (MkIdentity "ada" "ada@unknown")).
Proof. reflexivity. Qed.

Lemma oidc_scopes_share_token_witness :
  (acquire_token hash world "docs" store).2 = Ok ("mail", TOidc oidc_token) /\
  (acquire_token hash world "docs" logged_out).2 = Err LoginRequired.
Proof.
  split.
  - destruct (oidc_scopes_share_token hash world store (set_identity (Some (MkIdentity "ada" "ada@unknown")) store)
      (MkIdentity "ada" "ada@unknown") "docs" "corp") as [(k & t & _ & Ht & ->)|[Hno _]].
    + apply configured_intro. vm_compute. reflexivity.
    + exact (identity_ada _ _).
    + vm_compute; reflexivity.
    + change (({[ "mail" := TOidc oidc_token ]} : gmap string TypedToken) !! k = Some t) in Ht.
      apply lookup_singleton_Some in Ht as [<- <-]. reflexivity.
    + assert (tc_tokens (ts_cache store) !! "mail" = None) as Hn; [|discriminate Hn].
      apply Hno. left. reflexivity.
  - destruct (oidc_scopes_share_token hash world logged_out (set_identity (Some (MkIdentity "ada" "ada@unknown")) logged_out)
      (MkIdentity "ada" "ada@unknown") "docs" "corp") as [(k & t & _ & Ht & _)|[_ ->]].
    + apply configured_intro. vm_compute. reflexivity.
    + exact (identity_ada _ _).
    + vm_compute; reflexivity.
    + vm_compute in Ht. discriminate Ht.
    + vm_compute; reflexivity.
Defined.

Definition succeeded {E A} (r : result E A) : bool := match r with Ok _ => true | Err _ => false end.
Lemma succeeded_Ok {S E A} (p : S * result E A) : succeeded p.2 = true -> exists s a, p = (s, Ok a).
Proof. destruct p as [s [a|e]]; [eauto | done]. Qed.

Lemma acquire_token_fresh_witness :
  exists s' entry t, acquire_token hash world "own" store = (s', Ok (entry, t)) /\
    entry = cache_entry (ts_cache store) "own" /\ tc_tokens (ts_cache s') !! entry = Some t.
Proof.
  assert (succeeded (acquire_token hash world "own" store).2 = true) as H by (vm_compute; exact eq_refl).
  destruct (succeeded_Ok _ H) as (s' & [entry t] & Hacq). exists s', entry, t. split; [exact Hacq|].
  destruct (acquire_token_fresh hash world "own" store s' entry t Hacq) as (He & Hp & _).
  exact (conj He Hp).
Defined.

Lemma signing_key_reused_witness :
  exists files tg tg', create_self_signed_generator world "/keys" ∅ = (files, Ok (true, tg)) /\
    create_self_signed_generator world "/keys" files = (files, Ok (false, tg')) /\
    key_id tg' "ada" = key_id tg "ada".
Proof.
  assert ((fst <$> result_ok (create_self_signed_generator world "/keys" ∅).2) = Some true) as H
    by (vm_compute; exact eq_refl).
  destruct (create_self_signed_generator world "/keys" ∅) as [files [[b tg]|e]] eqn:Hgen; [|discriminate H].
  injection H as ->.
  destruct (signing_key_reused world world "/keys" ∅ files tg key_files Hgen) as (tg' & H' & _ & Hid & _).
  - intros op name. exact eq_refl.
  - exists files, tg, tg'. split; [exact eq_refl|]. split; [exact H' | exact (Hid "ada")].
Defined.
End TokenExamples.
