(* ===== verification/KeyStore.v ===== *)
(** * Key stores (services/avery/src/auth/keystore.rs)

    Where public keys of other users are looked up and the own one is uploaded.
    [SimpleKeyStore] talks to a service of user documents with a token of the
    token store; [NullKeyStore] has no keys.  Both implement the trait, here the
    record [KeyStore] of its two operations. *)
From S2P Require Import Prelude Interfaces Config Tokens TokenStore.
From Stdlib Require Import Ascii.

Inductive KeyStoreError := KSError (e : string) | KSRemoteError (e : string) | KSAuthenticationError (e : string).
Definition display_key_store_error (e : KeyStoreError) : string :=
  match e with
  | KSError e => "Error: " +:+ e
  | KSRemoteError e => "Remote error: " +:+ e
  | KSAuthenticationError e => "Failed to authenticate key store request: " +:+ e
  end.

Record UserDocument := MkUserDocument {
  ud_public_key : option string;
  ud_public_keys : option (gmap string string)
}.

Record KeyId := MkKeyId { kid_user_id : string; kid_key_id : option string }.
Definition key_id_new (s : string) : KeyId :=
  match split_once ":"%char s with
  | Some (userid, keyid) => MkKeyId userid (Some keyid)
  | None => MkKeyId s None
  end.

(** One operation of a JSON patch, its value being text or an empty object. *)
Inductive PatchOp := PatchAdd (path : string) (value : Value).
Definition key_patch (user_document : UserDocument) (key_id key_string : string) : list PatchOp :=
  let add_key := PatchAdd ("/public_keys/" +:+ key_id) (VString key_string) in
  match ud_public_keys user_document with
  | Some _ => [add_key]
  | None => [PatchAdd "/public_keys" (VObject []); add_key]
  end.

(** The document service: reading a document and patching one. *)
Record DocumentService := MkDocumentService {
  ds_get : string -> string -> result KeyStoreError UserDocument;
  ds_patch : string -> string -> list PatchOp -> result KeyStoreError unit
}.

Section key_store.
Context {DL : DigestLib} {JL : JwtLib} {EL : EncodingLib} {HO : HashOrder} {UR : UrlLib}.
Variable identity_hash : IdentityProvider -> string.
Variable from_utf8 : list byte -> result string string.

(** The trait. *)
Record KeyStore := MkKeyStore {
  ks_get : World -> string -> sem TokenStore KeyStoreError (list byte);
  ks_set : World -> string -> list byte -> sem TokenStore KeyStoreError unit
}.

Definition NullKeyStore : KeyStore :=
  MkKeyStore
    (fun _ _ => sem_lift (Err (KSError
       "Failed to find public key (which is expected since this is a null key store)!")))
    (fun _ _ _ => mret tt).

Definition host_of (url : Url) : result KeyStoreError string :=
  ok_or (KSAuthenticationError ("Url " +:+ quoted (url_to_string url) +:+ " is missing hostname.")) (url_host url).
Definition parse_url (e : string) : KeyStoreError := KSError ("Failed to parse url: " +:+ e).

(** The text of a token for [scope], the store's own errors wrapped. *)
Definition bearer (w : World) (wrap : string -> string) (scope : string) : sem TokenStore KeyStoreError string :=
  fun store =>
    let '(store', r) := acquire_token identity_hash w scope store in
    (store', match r with
             | Ok (_, t) => Ok (token_text t)
             | Err e => Err (KSAuthenticationError (wrap (display_acquire_error e)))
             end).

Definition get_user_document (service : DocumentService) (w : World) (base : string) (key_id : KeyId)
  : sem TokenStore KeyStoreError UserDocument :=
  url ← sem_lift (map_err parse_url (base ← url_parse base; url_join base (kid_user_id key_id)));
  scope ← sem_lift (host_of url);
  token ← bearer w (fun e => "Failed to acquire token for scope " +:+ quoted scope +:+
                             " when downloading key: " +:+ e) scope;
  sem_lift (ds_get service (url_to_string url) token).

Definition simple_get (service : DocumentService) (url : string) (w : World) (id : string)
  : sem TokenStore KeyStoreError (list byte) :=
  let key_id := key_id_new id in
  json ← get_user_document service w url key_id;
  sem_lift match kid_key_id key_id with
    | Some key_id =>
        keys ← ok_or (KSError "Failed to find key in keystore.") (ud_public_keys json);
        string_bytes <$> ok_or (KSError "Failed to find the specified key for the user.")
                           ((keys : gmap string string) !! key_id)
    | None =>
        string_bytes <$> ok_or (KSError "Key id only has a user id but user has no default public key (`public_key`)")
                           (ud_public_key json)
    end.

Definition simple_set (service : DocumentService) (url : string) (w : World) (id : string) (key_data : list byte)
  : sem TokenStore KeyStoreError unit :=
  key_id ← sem_lift (ok_or (KSError "Key id is required for uploading keys") (kid_key_id (key_id_new id)));
  base ← sem_lift (map_err parse_url (url_parse url));
  scope ← sem_lift (host_of base);
  token ← bearer w (fun e => "Failed to acquire token for scope " +:+ scope +:+
                             " when uploading key: " +:+ e) scope;
  user_document ← get_user_document service w url (key_id_new id);
  key_string ← sem_lift (map_err (fun e => KSError ("Non utf-8 characters in key: " +:+ e)) (from_utf8 key_data));
  sem_lift (ds_patch service (url_to_string base) token (key_patch user_document key_id key_string)).

Definition SimpleKeyStore (service : DocumentService) (url : string) : KeyStore :=
  MkKeyStore (simple_get service url) (simple_set service url).
End key_store.

(** ** Key identifiers *)
Lemma split_once_cons sep c s :
  split_once sep (String c s) =
  if Ascii.eqb c sep then Some (EmptyString, s) else '(a, b) ← split_once sep s; Some (String c a, b).
Proof. done. Qed.

Lemma split_once_first c a b :
  ~ (c ∈ String.list_ascii_of_string a) -> split_once c (a +:+ String c b) = Some (a, b).
Proof.
  induction a as [|d a IH]; intros Hc.
  - change (EmptyString +:+ String c b) with (String c b). by rewrite split_once_cons, Ascii.eqb_refl.
  - change (String d a +:+ String c b) with (String d (a +:+ String c b)). rewrite split_once_cons.
    cbn [String.list_ascii_of_string] in Hc.
    destruct (Ascii.eqb_spec d c) as [->|Hne]; [set_solver|]. rewrite IH by set_solver. done.
Qed.

(** The identifier a generator gives its key is read back by the key store
    as the user and the key's fingerprint, for every user name without a
    colon. *)
Theorem key_id_roundtrip `{DigestLib, JwtLib, EncodingLib} (tg : TokenGenerator) (subject : string) :
  ~ (":"%char ∈ String.list_ascii_of_string subject) ->
  key_id_new (key_id tg subject) = MkKeyId subject (Some (tg_private_key_fingerprint tg)).
Proof.
  intros Hs. unfold key_id_new, key_id.
  change (subject +:+ ":" +:+ tg_private_key_fingerprint tg)
    with (subject +:+ String ":" (tg_private_key_fingerprint tg)).
  by rewrite split_once_first.
Qed.

Lemma key_id_roundtrip_witness :
  key_id_new (key_id (JL := Concrete.text_jwt)
      (@MkGenerator Concrete.text_jwt tt "0123456789abcdef" None None None None None None) "ada") =
    MkKeyId "ada" (Some "0123456789abcdef").
Proof.
  apply (@key_id_roundtrip Concrete.text_digest Concrete.text_jwt Concrete.plain_encoding).
  apply (bool_decide_unpack _). vm_compute. exact I.
Defined.
