(* ===== verification/ExpireMap.v ===== *)
(** * Maps with expiring entries (services/avery/src/auth/expiremap.rs)

    [ExpireMap::insert] with an expiry starts a task that sleeps until then and
    removes the key.  The model keeps the sleeping tasks next to the map;
    [elapse now] lets every task that is due run.  Instants are seconds of the
    monotonic clock. *)
From S2P Require Import Prelude.

Section expire_map.
Context {K V : Type} `{Countable K}.

Record ExpireMap := MkExpireMap {
  em_map : gmap K V;
  (** the sleeping tasks: when they wake and the key they remove *)
  em_timers : list (N * K)
}.

Definition em_empty : ExpireMap := MkExpireMap ∅ [].

Definition em_insert (key : K) (value : V) (expiry : option N) (m : ExpireMap) : ExpireMap :=
  MkExpireMap (<[key := value]> (em_map m))
    (match expiry with Some t => (t, key) :: em_timers m | None => em_timers m end).

Definition em_contains (key : K) (m : ExpireMap) : bool := bool_decide (is_Some (em_map m !! key)).
Definition em_remove (key : K) (m : ExpireMap) : ExpireMap := MkExpireMap (delete key (em_map m)) (em_timers m).

(** [snapshot_mut().get_mut(key)]. *)
Definition em_update (key : K) (f : V -> V) (m : ExpireMap) : ExpireMap :=
  MkExpireMap (alter f key (em_map m)) (em_timers m).

Definition em_of_list (l : list (K * V)) : ExpireMap :=
  MkExpireMap (foldl (fun m '(k, v) => <[k := v]> m) ∅ l) [].

(** The sleeping tasks that are due run: each removes its key. *)
Definition due (now : N) (t : N * K) : bool := (t.1 <=? now)%N.
Definition elapse (now : N) (m : ExpireMap) : ExpireMap :=
  MkExpireMap (foldr (fun t map => delete t.2 map) (em_map m) (filter (fun t => due now t) (em_timers m)))
    (filter (fun t => negb (due now t)) (em_timers m)).

(** ** Lemmas *)
Lemma lookup_delete_all (l : list (N * K)) (m : gmap K V) k :
  foldr (fun t map => delete t.2 map) m l !! k =
  if decide (k ∈ l.*2) then None else m !! k.
Proof.
  induction l as [|[t k'] l IH]; [done|]. cbn [foldr snd]. rewrite fmap_cons. cbn [snd].
  destruct (decide (k' = k)) as [->|Hne].
  - rewrite lookup_delete_eq, decide_True by set_solver. done.
  - rewrite lookup_delete_ne, IH by done. destruct (decide (k ∈ l.*2)); case_decide; set_solver.
Qed.

Lemma lookup_elapse now m k v :
  em_map (elapse now m) !! k = Some v <->
  em_map m !! k = Some v /\ forall t, (t, k) ∈ em_timers m -> (now < t)%N.
Proof.
  unfold elapse. cbn [em_map]. rewrite lookup_delete_all.
  assert (k ∈ (filter (fun t => due now t) (em_timers m)).*2 <->
          exists t, (t, k) ∈ em_timers m /\ (t <= now)%N) as Hiff.
  { rewrite list_elem_of_fmap. unfold due. split.
    - intros ([t k'] & -> & Ht). apply list_elem_of_filter in Ht as [Hd Ht].
      apply Is_true_true, N.leb_le in Hd. eauto.
    - intros (t & Ht & Hd). exists (t, k). split; [done|]. apply list_elem_of_filter.
      split; [|done]. by apply Is_true_true, N.leb_le. }
  case_decide as Hin; rewrite Hiff in Hin.
  - split; [done|]. intros [_ Hall]. destruct Hin as (t & Ht & Hle). specialize (Hall t Ht). lia.
  - split; [|tauto]. intros Hv. split; [done|]. intros t Ht.
    destruct (N.lt_ge_cases now t); [done|]. destruct Hin. eauto.
Qed.

Lemma elem_elapse_timers now m t k :
  (t, k) ∈ em_timers (elapse now m) <-> (t, k) ∈ em_timers m /\ (now < t)%N.
Proof.
  cbn. rewrite list_elem_of_filter, Is_true_true, negb_true_iff. unfold due. cbn.
  rewrite N.leb_gt. tauto.
Qed.
End expire_map.
