(* ===== verification/Json.v ===== *)
(** * JSON as serde derives it

    What [#[derive(Serialize, Deserialize)]] means for the data of the
    authentication code: a type is written to a JSON value and read back from
    one ([Serde]).  Reading a struct takes its fields by name, ignores the
    others, and refuses a field that is missing or that occurs twice; a
    [HashMap] keeps the last entry of a key.  serde also reads a struct from an
    array of its fields; that form is not accepted here.

    [json_ok] singles out the values that writing and reading returns
    unchanged. *)
From S2P Require Import Prelude Interfaces.

(** ** Reading objects *)
Definition object_of (v : Value) : option (list (string * Value)) :=
  match v with VObject m => Some m | _ => None end.
Definition array_of (v : Value) : option (list Value) :=
  match v with VArray l => Some l | _ => None end.
Definition occurrences (m : list (string * Value)) (k : string) : list Value :=
  (filter (fun kv => kv.1 = k) m).*2.
(** The field of a derived struct. *)
Definition json_field (m : list (string * Value)) (k : string) : option Value :=
  match occurrences m k with [v] => Some v | _ => None end.
(** An [Option<T>] field may be missing or null. *)
Definition json_opt_field (m : list (string * Value)) (k : string) : option (option Value) :=
  match occurrences m k with
  | [] | [VNull] => Some None
  | [v] => Some (Some v)
  | _ => None
  end.
(** [HashMap<String, V>]: entries are inserted in order. *)
Definition object_map {V} (m : list (string * V)) : gmap string V :=
  foldl (fun acc kv => <[kv.1 := kv.2]> acc) ∅ m.

Class Serde (A : Type) := {
  to_json : A -> Value;
  from_json : Value -> option A;
  json_ok : A -> Prop;
  from_to_json : forall a, json_ok a -> from_json (to_json a) = Some a
}.

#[export] Hint Mode Serde ! : typeclass_instances.

(** Reading a list of parts, all or nothing. *)
Fixpoint all_some {A} (l : list (option A)) : option (list A) :=
  match l with
  | [] => Some []
  | o :: l' => a ← o; as_ ← all_some l'; Some (a :: as_)
  end.

Lemma all_some_fmap {A B} (f : A -> option B) (g : B -> A) (l : list B) :
  (forall b, b ∈ l -> f (g b) = Some b) -> all_some (f <$> (g <$> l)) = Some l.
Proof.
  induction l as [|b l IH]; intros H; [done|]. rewrite !fmap_cons. cbn [all_some].
  rewrite H by set_solver. cbn. rewrite IH; [done|]. intros b' Hb'. apply H. set_solver.
Qed.

#[export] Program Instance string_serde : Serde string := {|
  to_json := VString; from_json := value_as_str; json_ok := fun _ => True |}.
Next Obligation. done. Qed.
(** [u64] *)
#[export] Program Instance u64_serde : Serde N := {|
  to_json := fun n => VNumber (Some n); from_json := value_as_u64; json_ok := fun _ => True |}.
Next Obligation. done. Qed.
#[export] Program Instance value_serde : Serde Value := {|
  to_json := fun v => v; from_json := Some; json_ok := fun _ => True |}.
Next Obligation. done. Qed.
#[export] Program Instance list_serde {A} `{Serde A} : Serde (list A) := {|
  to_json := fun l => VArray (to_json <$> l);
  from_json := fun v => l ← array_of v; all_some (from_json <$> l);
  json_ok := fun l => forall a, a ∈ l -> json_ok a |}.
Next Obligation. intros A SA l Hl. cbn. apply all_some_fmap. intros a Ha. by apply from_to_json, Hl. Qed.

(** ** Objects and maps *)
Lemma object_map_app {V} (m : list (string * V)) k v : object_map (m ++ [(k, v)]) = <[k := v]> (object_map m).
Proof. unfold object_map. by rewrite foldl_snoc. Qed.

Lemma object_map_lookup {V} (m : list (string * V)) k :
  NoDup m.*1 -> forall v, object_map m !! k = Some v <-> (k, v) ∈ m.
Proof.
  induction m as [|[k' v'] m IH] using rev_ind; intros Hnd v.
  - cbn. rewrite lookup_empty. set_solver.
  - rewrite object_map_app. rewrite fmap_app, NoDup_app in Hnd. destruct Hnd as (Hnd & Hdis & _).
    rewrite lookup_insert, elem_of_app, list_elem_of_singleton. case_decide as Heq.
    + subst k'. split; [intros [= ->]; auto|]. intros [Hin|[= ->]]; [|done].
      destruct (Hdis k); [|set_solver]. apply list_elem_of_fmap. by exists (k, v).
    + rewrite IH by done. split; [auto|]. intros [|[= -> ->]]; done.
Qed.

Section maps.
Context {HO : HashOrder} {V : Type}.

Lemma object_map_hash_iter (m : gmap string V) : object_map (hash_iter m) = m.
Proof.
  apply map_eq. intros k. apply option_eq. intros v.
  rewrite object_map_lookup by apply hash_iter_nodup. apply elem_of_hash_iter.
Qed.
End maps.

(** [HashMap<String, V>] *)
#[export] Program Instance map_serde {HO : HashOrder} {V} `{Serde V} : Serde (gmap string V) := {|
  to_json := fun m => VObject (prod_map id to_json <$> hash_iter m);
  from_json := fun v =>
    m ← object_of v;
    l ← all_some ((fun kv => v ← from_json kv.2; Some (kv.1, v)) <$> m);
    Some (object_map l);
  json_ok := fun m => map_Forall (fun _ v => json_ok v) m |}.
Next Obligation.
  intros HO V SV m Hm. cbn.
  rewrite (all_some_fmap (fun kv => v ← from_json kv.2; Some (kv.1, v)) (prod_map id to_json)).
  - cbn. by rewrite object_map_hash_iter.
  - intros [k v] Hkv. cbn. rewrite from_to_json; [done|]. apply elem_of_hash_iter in Hkv. by apply (Hm k).
Qed.
