(* ===== verification/OidcLogin.v ===== *)
(** * Interactive login at an OIDC provider (services/avery/src/auth/oidc.rs)

    [authenticate] reads the configuration of the provider, sends the user's
    browser to its authorization page, waits at a local listener for the answer,
    exchanges the code it carries for a token and validates the claims of the
    token.

    What the outside answers is a [LoginAnswers]: the HTTP responses, the port of
    the listener, whether the command reaches the client, and the requests that
    reach the listener before it is shut down.  A login keeps the random number
    generator, the commands sent to the client and the listeners running in the
    background ([LoginState]). *)
From stdpp Require Import pretty.
From S2P Require Import Prelude Interfaces Json Config Tokens.

(** ** Random text and requests *)

(** [rand]: [gen_index r n] is an index below [n]. *)
Class RngLib := {
  rng : Type;
  gen_index : rng -> nat -> nat * rng;
  gen_index_lt : forall r n, 0 < n -> (gen_index r n).1 < n
}.
(** [base64::encode_config(_, URL_SAFE_NO_PAD)] and reqwest's URL of a GET
    request with query pairs. *)
Class RequestLib := {
  base64_url_encode : list byte -> string;
  request_url : string -> list (string * string) -> result string string
}.

(** A response: what [error_for_status_ref] says, the body as text and the body
    parsed as JSON. *)
Record Response := MkResponse {
  rs_status_error : option string;
  rs_text : result string string;
  rs_json : result string Value
}.
Record Http := MkHttp {
  http_get : string -> result string Response;
  http_post : string -> list (string * string) -> result string Response;
  (** serde's message for a value that does not have the type asked for *)
  http_type_error : Value -> string
}.

(** ** The provider's documents *)
Definition algorithm_names : list string :=
  ["HS256"; "HS384"; "HS512"; "ES256"; "ES384"; "RS256"; "RS384"; "RS512"; "PS256"; "PS384"; "PS512"].
Definition algorithm_name (a : Algorithm) : string :=
  match a with ES256 => "ES256" | RS256 => "RS256" | OtherAlgorithm n => n end.
Definition algorithm_of_name (n : string) : option Algorithm :=
  if bool_decide (n = "ES256") then Some ES256
  else if bool_decide (n = "RS256") then Some RS256
  else if bool_decide (n ∈ algorithm_names) then Some (OtherAlgorithm n) else None.
#[export] Program Instance algorithm_serde : Serde Algorithm := {|
  to_json := fun a => VString (algorithm_name a);
  from_json := fun v => value_as_str v ≫= algorithm_of_name;
  json_ok := fun a => algorithm_of_name (algorithm_name a) = Some a |}.
Next Obligation. done. Qed.

Definition opt_field {A} `{Serde A} (m : list (string * Value)) (k : string) : option (option A) :=
  o ← json_opt_field m k;
  match o with None => Some None | Some v => Some <$> from_json v end.
Definition field {A} `{Serde A} (m : list (string * Value)) (k : string) : option A :=
  json_field m k ≫= from_json.

Record OidcConfig := MkOidcConfig {
  cg_issuer : string;
  cg_authorization_endpoint : string;
  cg_device_authorization_endpoint : option string;
  cg_token_endpoint : string;
  cg_userinfo_endpoint : option string;
  cg_revocation_endpoint : option string;
  cg_jwks_uri : string;
  cg_response_types_supported : list string;
  cg_subject_types_supported : list string;
  cg_id_token_signing_alg_values_supported : list Algorithm;
  cg_scopes_supported : option (list string);
  cg_token_endpoint_auth_methods_supported : option (list string);
  cg_claims_supported : option (list string);
  cg_code_challenge_methods_supported : option (list string)
}.
Definition oidc_config_of_json (v : Value) : option OidcConfig :=
  m ← object_of v;
  issuer ← field m "issuer";
  authorization ← field m "authorization_endpoint";
  device ← opt_field m "device_authorization_endpoint";
  token ← field m "token_endpoint";
  userinfo ← opt_field m "userinfo_endpoint";
  revocation ← opt_field m "revocation_endpoint";
  jwks ← field m "jwks_uri";
  responses ← field m "response_types_supported";
  subjects ← field m "subject_types_supported";
  algs ← field m "id_token_signing_alg_values_supported";
  scopes ← opt_field m "scopes_supported";
  auths ← opt_field m "token_endpoint_auth_methods_supported";
  claims ← opt_field m "claims_supported";
  challenges ← opt_field m "code_challenge_methods_supported";
  Some (MkOidcConfig issuer authorization device token userinfo revocation jwks responses subjects algs
          scopes auths claims challenges).

#[export] Program Instance auth_token_serde : Serde AuthToken := {|
  to_json := fun t => VObject
    [("access_token", to_json (at_access_token t)); ("expires_in", to_json (at_expires_in t));
     ("id_token", to_json (at_id_token t)); ("refresh_token", to_json (at_refresh_token t));
     ("scope", to_json (at_scope t)); ("token_type", to_json (at_token_type t))];
  from_json := fun v =>
    m ← object_of v;
    access ← field m "access_token"; expires ← field m "expires_in"; id ← field m "id_token";
    refresh ← field m "refresh_token"; scope ← field m "scope"; type ← field m "token_type";
    Some (MkAuthToken access expires id refresh scope type);
  json_ok := fun _ => True |}.
Next Obligation. by intros []. Qed.

Definition refreshed_token_of_json (v : Value) : option RefreshedToken :=
  m ← object_of v;
  access ← field m "access_token"; expires ← field m "expires_in"; id ← field m "id_token";
  scope ← field m "scope"; type ← field m "token_type";
  Some (MkRefreshedToken access expires id scope type).

Definition jwks_of_json {HO : HashOrder} (v : Value) : option (list (gmap string string)) :=
  m ← object_of v; field m "keys".

(** ** Decoding responses *)
Definition decode_response {A} (h : Http) (decode : Value -> option A) (r : result string Response)
  : result OidcError A :=
  response ← map_err TransportError r;
  match rs_status_error response with
  | Some e => Err (HttpError e (match rs_text response with
                                | Ok text => text
                                | Err e => "Failed to get body of error response: " +:+ e
                                end))
  | None =>
      v ← map_err JsonError (rs_json response);
      ok_or (JsonError (http_type_error h v)) (decode v)
  end.

(** ** The local listener *)
Inductive AuthResponseResult := RError (e : string) | RCode (code : string).
Record AuthResponse := MkAuthResponse { ar_state : string; ar_result : AuthResponseResult }.

(** A query string as its pairs.  The flattened enum is the first pair named like
    one of its variants. *)
Definition response_variant (kv : string * string) : option AuthResponseResult :=
  if bool_decide (kv.1 = "error") then Some (RError kv.2)
  else if bool_decide (kv.1 = "code") then Some (RCode kv.2) else None.
Definition parse_auth_response (query : list (string * string)) : option AuthResponse :=
  match filter (fun kv => kv.1 = "state") query with
  | [(_, state)] => r ← head (omap response_variant query); Some (MkAuthResponse state r)
  | _ => None
  end.

(** The sender is taken by the first request; the others only get a page. *)
Record Listener := MkListener {
  li_sender : bool;
  li_sent : option (result string AuthResponse);
  li_replies : list N
}.
Definition listener_new : Listener := MkListener true None [].
Definition listener_request (l : Listener) (query : list (string * string)) : Listener :=
  let '(msg, status) :=
    match parse_auth_response query with
    | Some auth_response => (Ok auth_response, 200%N)
    | None => (Err "Failed to parse query string.", 400%N)
    end in
  MkListener false (if li_sender l then Some msg else li_sent l) (li_replies l ++ [status]).
Definition listen (requests : list (list (string * string))) : Listener := foldl listener_request listener_new requests.

Section login.
Context {DL : DigestLib} {JL : JwtLib} {EL : EncodingLib} {HO : HashOrder} {RL : RngLib} {QL : RequestLib}.

Record LoginAnswers := MkLoginAnswers {
  la_http : Http;
  la_port : N;
  (** the error of sending a command to the client *)
  la_send_error : option string;
  (** the requests that reach the listener once the browser has the URL *)
  la_requests : string -> list (list (string * string))
}.
Record LoginState := MkLoginState {
  ls_rng : rng;
  (** the URLs sent to the client *)
  ls_commands : list string;
  (** ports of the listeners still running *)
  ls_listening : list N
}.
Definition login_step := sem LoginState OidcError.
Definition set_rng (r : rng) (s : LoginState) : LoginState := MkLoginState r (ls_commands s) (ls_listening s).
Definition send_command (url : string) (s : LoginState) : LoginState :=
  MkLoginState (ls_rng s) (ls_commands s ++ [url]) (ls_listening s).
Definition spawn_listener (port : N) (s : LoginState) : LoginState :=
  MkLoginState (ls_rng s) (ls_commands s) (port :: ls_listening s).
(** [JoinHandle::abort] of the listener spawned last. *)
Definition abort_listener (s : LoginState) : LoginState :=
  MkLoginState (ls_rng s) (ls_commands s) (tail (ls_listening s)).

(** ** The challenge *)
Definition CHARS : list byte :=
  string_bytes "ABCDEFGHIJKLMNOPQRSTUVWXYZabcdefghijklmnopqrstuvwxyz0123456789-.~_".
Definition SIZE : nat := 128.
(** [CHARS.choose(&mut rng).unwrap()]: the index is in range ([choose_in_range]). *)
Definition choose (r : rng) : byte * rng :=
  let '(i, r) := gen_index r (length CHARS) in (nth i CHARS Byte.x41, r).
Fixpoint choose_n (n : nat) (r : rng) : list byte * rng :=
  match n with
  | 0 => ([], r)
  | S n => let '(b, r) := choose r in let '(bs, r) := choose_n n r in (b :: bs, r)
  end.
Definition create_challenge (r : rng) : (string * string) * rng :=
  let '(code_verifier, r) := choose_n SIZE r in
  let code_challenge := base64_url_encode (sha256 code_verifier) in
  ((String.string_of_list_byte code_verifier, code_challenge), r).
Definition challenge : login_step (string * string) :=
  fun s => let '(c, r) := create_challenge (ls_rng s) in (set_rng r s, Ok c).

(** ** Authorization *)
Definition hosted_domain_query (hosted_domains : list string) : list (string * string) :=
  match hosted_domains with
  | [] => []
  | [hd] => [("hd", hd)]
  | _ => [("hd", "*")]
  end.
Definition authorize_query (p : OidcProvider) (redirect_uri code_challenge state_string : string)
  : list (string * string) :=
  [("client_id", client_id p); ("redirect_uri", redirect_uri); ("response_type", "code");
   ("scope", "openid profile email"); ("code_challenge", code_challenge);
   ("code_challenge_method", "S256"); ("state", state_string); ("access_type", "offline")]
  ++ hosted_domain_query (hosted_domains p).
Definition redirect_uri_of (port : N) : string := "http://[::1]:" +:+ pretty port.

Definition build_authorize_url (p : OidcProvider) (endpoint code_challenge : string) (port : N)
  : login_step (string * string * string) :=
  verifier ← challenge;
  let state_string := "security_token=" +:+ verifier.1 in
  let redirect_uri := redirect_uri_of port in
  url ← sem_lift (map_err (fun e => HttpError e "Failed to build URL.")
                    (request_url endpoint (authorize_query p redirect_uri code_challenge state_string)));
  mret (url, state_string, redirect_uri).

Definition callback_result (sent : option (result string AuthResponse)) : result OidcError AuthResponse :=
  match sent with
  | None => Err (FailedToReadCallbackResult "channel closed")
  | Some r => map_err FailedToHandleCallbackResult r
  end.
Definition check_response (auth_response : AuthResponse) (state_string redirect_uri : string)
  : result OidcError (string * string) :=
  if bool_decide (ar_state auth_response = state_string) then
    match ar_result auth_response with
    | RError e => Err (AuthError e)
    | RCode code => Ok (code, redirect_uri)
    end
  else Err StateMismatch.

Definition authorize (la : LoginAnswers) (p : OidcProvider) (endpoint code_challenge : string)
  : login_step (string * string) :=
  _ ← sem_modify (spawn_listener (la_port la));
  '(url, state_string, redirect_uri) ← build_authorize_url p endpoint code_challenge (la_port la);
  _ ← sem_lift (match la_send_error la with
                | Some e => Err (AuthError ("Failed to send open browser command: " +:+ e))
                | None => Ok tt
                end);
  _ ← sem_modify (send_command url);
  auth_response ← sem_lift (callback_result (li_sent (listen (la_requests la url))));
  _ ← sem_modify abort_listener;
  sem_lift (check_response auth_response state_string redirect_uri).

(** ** Requests to the provider *)
Definition get_config (h : Http) (p : OidcProvider) : result OidcError OidcConfig :=
  decode_response h oidc_config_of_json (http_get h (discovery_url p)).
Definition exchange_form (p : OidcProvider) (auth_token code_verifier redirect_uri : string) : list (string * string) :=
  [("client_id", client_id p); ("client_secret", client_secret p); ("code", auth_token);
   ("code_verifier", code_verifier); ("grant_type", "authorization_code"); ("redirect_uri", redirect_uri)].
Definition exchange_authorization (h : Http) (p : OidcProvider)
    (token_endpoint auth_token code_verifier redirect_uri : string) : result OidcError AuthToken :=
  decode_response h from_json (http_post h token_endpoint (exchange_form p auth_token code_verifier redirect_uri)).
(** The requests of [refresh] and [validate_claims]. *)
Definition post_refresh (h : Http) (token_endpoint : string) (form : list (string * string))
  : result OidcError RefreshedToken :=
  decode_response h refreshed_token_of_json (http_post h token_endpoint form).
Definition get_jwks (h : Http) (jwks_uri : string) : result OidcError (list (gmap string string)) :=
  decode_response h jwks_of_json (http_get h jwks_uri).
Definition with_http (h : Http) (w : World) : World :=
  MkWorld (w_now w) (w_hostname w) (post_refresh h) (get_jwks h) (w_user w) (w_read_file w)
    (w_generate_key w) (w_fs_error w) (w_authenticate w).

(** ** The login *)
Definition login_context (p : OidcProvider) (cfg : OidcConfig) (c : Claims) : AuthContext :=
  MkAuthContext (calculate_expires_at (cl_exp c) (cl_iat c) 10) (client_id p) (client_secret p)
    (cg_token_endpoint cfg) (cg_jwks_uri cfg) (hosted_domains p)
    (cg_id_token_signing_alg_values_supported cfg) c.
Definition authenticate (w : World) (la : LoginAnswers) (p : OidcProvider) : login_step OidcToken :=
  cfg ← sem_lift (get_config (la_http la) p);
  '(code_verifier, code_challenge) ← challenge;
  '(auth_token, redirect_uri) ← authorize la p (cg_authorization_endpoint cfg) code_challenge;
  auth_token ← sem_lift (exchange_authorization (la_http la) p (cg_token_endpoint cfg)
                           auth_token code_verifier redirect_uri);
  c ← sem_lift (validate_claims (with_http (la_http la) w) (client_id p) (hosted_domains p) (cg_jwks_uri cfg)
                  (at_id_token auth_token) (cg_id_token_signing_alg_values_supported cfg));
  mret (MkOidcToken auth_token (login_context p cfg c)).
End login.
