(* ===== verification/OidcLoginProps.v ===== *)
(** * Properties of the interactive login

    What a login that gives a token has checked, what the code verifier of a
    login looks like, and how the answer of the browser decides a login. *)
From S2P Require Import Prelude Interfaces Json Config Tokens OidcLogin.

Section login_props.
Context {DL : DigestLib} {JL : JwtLib} {EL : EncodingLib} {HO : HashOrder} {RL : RngLib} {QL : RequestLib}.

(** ** Challenges *)
Lemma choose_in_range (r : rng) : CHARS !! (gen_index r (length CHARS)).1 = Some (choose r).1.
Proof.
  unfold choose. pose proof (gen_index_lt r (length CHARS)) as Hlt.
  destruct (gen_index r (length CHARS)) as [i r']. cbn [fst] in *.
  destruct (lookup_lt_is_Some_2 CHARS i) as [b Hb]; [apply Hlt; vm_compute; lia|].
  rewrite Hb. f_equal. symmetry. by apply nth_lookup_Some.
Qed.

Lemma choose_n_spec n (r : rng) : length (choose_n n r).1 = n /\ Forall (.∈ CHARS) (choose_n n r).1.
Proof.
  revert r. induction n as [|n IH]; intros r; cbn [choose_n]; [done|].
  pose proof (choose_in_range r) as Hb. destruct (choose r) as [b r1].
  specialize (IH r1). destruct (choose_n n r1) as [bs r2]. cbn in *. destruct IH as [Hlen Hall].
  split; [by rewrite Hlen|]. constructor; [|done]. by eapply list_elem_of_lookup_2.
Qed.

(** The characters RFC 7636 reserves for a code verifier. *)
Definition unreserved (b : byte) : bool :=
  let n := Byte.to_N b in
  (65 <=? n)%N && (n <=? 90)%N || (97 <=? n)%N && (n <=? 122)%N || (48 <=? n)%N && (n <=? 57)%N
  || (n =? 45)%N || (n =? 46)%N || (n =? 126)%N || (n =? 95)%N.

Lemma CHARS_unreserved : Forall unreserved CHARS.
Proof. by vm_compute; repeat constructor. Qed.
Lemma unreserved_CHARS b : unreserved b -> b ∈ CHARS.
Proof.
  intros Hb. assert (existsb (Byte.eqb b) CHARS = true) as H by (destruct b; vm_compute in Hb |- *; done).
  apply existsb_exists in H as (b' & Hin & Heq). apply Byte.byte_dec_bl in Heq as ->. by apply list_elem_of_In.
Qed.

(** A code verifier has 128 characters, within the 43 to 128 that RFC 7636
    asks for and all of them unreserved, every unreserved character can occur
    in it, and the challenge is the URL-safe base 64 of its SHA-256 digest. *)
Theorem create_challenge_correct (r : rng) :
  exists code_verifier : list byte,
    (create_challenge r).1 = (String.string_of_list_byte code_verifier, base64_url_encode (sha256 code_verifier)) /\
    length code_verifier = 128 /\ Forall unreserved code_verifier /\
    (forall b, unreserved b -> b ∈ CHARS).
Proof.
  unfold create_challenge. pose proof (choose_n_spec SIZE r) as [Hlen Hall].
  destruct (choose_n SIZE r) as [bs r']. exists bs. repeat split; [done| |by apply unreserved_CHARS].
  eapply Forall_impl; [exact Hall|]. intros b Hb. by apply (proj1 (Forall_forall _ _) CHARS_unreserved).
Qed.

(** ** The callback *)

Lemma listen_first query requests :
  li_sent (listen (query :: requests)) = li_sent (listener_request listener_new query).
Proof.
  unfold listen. cbn [foldl].
  assert (forall l, li_sender l = false -> li_sent (foldl listener_request l requests) = li_sent l) as H.
  { induction requests as [|q requests IH]; intros l Hl; [done|]. cbn [foldl].
    rewrite IH; unfold listener_request; destruct (parse_auth_response q); cbn; by rewrite ?Hl. }
  apply H. unfold listener_request. by destruct (parse_auth_response query).
Qed.

(** Either a message or the value the callback carries. *)
Definition first_answer (requests : list (list (string * string))) : option (result string AuthResponse) :=
  (fun query => ok_or "Failed to parse query string." (parse_auth_response query)) <$> head requests.
Lemma listen_answer requests : li_sent (listen requests) = first_answer requests.
Proof.
  destruct requests as [|q requests]; [done|]. rewrite listen_first. unfold listener_request, first_answer.
  cbn. by destruct (parse_auth_response q).
Qed.

(** The authorization page that a login in the state [s] leads to: the address,
    and the state value it has to come back with. *)
Definition redirect_state (s : LoginState) : string :=
  "security_token=" +:+ (create_challenge (ls_rng s)).1.1.
Definition authorization_page (la : LoginAnswers) (p : OidcProvider) (endpoint code_challenge : string)
    (s : LoginState) : result string string :=
  request_url endpoint
    (authorize_query p (redirect_uri_of (la_port la)) code_challenge (redirect_state s)).

Lemma build_authorize_url_eq p endpoint code_challenge (la : LoginAnswers) s :
  build_authorize_url p endpoint code_challenge (la_port la) s =
  (set_rng (create_challenge (ls_rng s)).2 s,
   map_err (fun e => HttpError e "Failed to build URL.")
     (url ← authorization_page la p endpoint code_challenge s;
      Ok (url, redirect_state s, redirect_uri_of (la_port la)))).
Proof.
  unfold build_authorize_url, challenge, mbind, sem_bind, authorization_page, redirect_state.
  destruct (create_challenge (ls_rng s)) as [[v c] r]. cbn. unfold mbind, sem_bind, sem_lift.
  cbn. by destruct (request_url _ _).
Qed.

(** Once the authorization page is built and the command reaches the client,
    the first request to the listener alone decides: without one the login
    fails, a request without a state or a result fails it, a foreign state
    fails it, and an error or a code is handed on; later requests change
    nothing.  The listener is stopped whenever the request could be read, but
    it keeps running after a login that ends before. *)
Theorem authorize_by_first_request la p endpoint code_challenge s url :
  authorization_page la p endpoint code_challenge s = Ok url -> la_send_error la = None ->
  authorize la p endpoint code_challenge s =
  (let sent := MkLoginState (create_challenge (ls_rng s)).2 (ls_commands s ++ [url])
                 (la_port la :: ls_listening s) in
   match parse_auth_response <$> head (la_requests la url) with
   | None => (sent, Err (FailedToReadCallbackResult "channel closed"))
   | Some None => (sent, Err (FailedToHandleCallbackResult "Failed to parse query string."))
   | Some (Some response) =>
       (abort_listener sent,
        if bool_decide (ar_state response = redirect_state s)
        then match ar_result response with
             | RError e => Err (AuthError e)
             | RCode code => Ok (code, redirect_uri_of (la_port la))
             end
        else Err StateMismatch)
   end).
Proof.
  intros Hurl Hsend. unfold authorize, mbind, sem_bind, sem_modify, sem_lift.
  change (authorization_page la p endpoint code_challenge (spawn_listener (la_port la) s) = Ok url) in Hurl.
  rewrite build_authorize_url_eq, Hurl, Hsend. cbn -[create_challenge listen]. rewrite listen_answer.
  unfold first_answer. destruct (la_requests la url) as [|query rest]; [done|]. cbn -[create_challenge].
  by destruct (parse_auth_response query).
Qed.

Lemma authorize_Ok la p endpoint code_challenge s s' code redirect_uri :
  authorize la p endpoint code_challenge s = (s', Ok (code, redirect_uri)) ->
  exists url query rest,
    authorization_page la p endpoint code_challenge s = Ok url /\
    la_requests la url = query :: rest /\
    parse_auth_response query = Some (MkAuthResponse (redirect_state s) (RCode code)) /\
    redirect_uri = redirect_uri_of (la_port la) /\ ls_commands s' = ls_commands s ++ [url] /\
    ls_listening s' = ls_listening s.
Proof.
  intros H. unfold authorize in H. apply sem_bind_Ok in H as (s1 & ? & [= <- <-] & H).
  apply sem_bind_Ok in H as (s2 & [[url state] redirect] & Hurl & H).
  rewrite build_authorize_url_eq in Hurl. injection Hurl as <- Hurl. apply map_err_Ok in Hurl.
  change (authorization_page la p endpoint code_challenge (spawn_listener (la_port la) s))
    with (authorization_page la p endpoint code_challenge s) in Hurl.
  apply bind_Ok_inv in Hurl as (url' & Hpage & [= -> <- <-]).
  apply sem_bind_Ok in H as (s3 & ? & Hsend & H). injection Hsend as <- _.
  apply sem_bind_Ok in H as (s4 & ? & [= <- <-] & H).
  apply sem_bind_Ok in H as (s5 & response & Hr & H). injection Hr as <- Hr.
  apply sem_bind_Ok in H as (s6 & ? & [= <- <-] & H). injection H as <- H.
  rewrite listen_answer in Hr. unfold first_answer in Hr.
  destruct (la_requests la url) as [|query rest] eqn:Hreq; [done|]. cbn in Hr. apply map_err_Ok, ok_or_Ok in Hr.
  destruct response as [state res]. unfold check_response in H. cbn in H. case_bool_decide as Hst; [|done].
  destruct res as [e|code']; [done|]. injection H as -> <-. subst state.
  exists url, query, rest. done.
Qed.

(** A login that succeeds sends the client one command. *)
Lemma authenticate_commands w la p s s' t :
  authenticate w la p s = (s', Ok t) -> exists url, ls_commands s' = ls_commands s ++ [url].
Proof.
  intros H. unfold authenticate in H. apply sem_bind_Ok in H as (s1 & cfg & Hcfg & H). injection Hcfg as <- _.
  apply sem_bind_Ok in H as (s2 & [v c] & Hch & H). unfold challenge in Hch.
  destruct (create_challenge (ls_rng s)) as [[v' c'] r]. injection Hch as <- _ _.
  apply sem_bind_Ok in H as (s3 & [code redirect] & Hauth & H).
  apply authorize_Ok in Hauth as (url & _ & _ & _ & _ & _ & _ & Hcmd & _).
  apply sem_bind_Ok in H as (s4 & token & Hex & H). injection Hex as <- _.
  apply sem_bind_Ok in H as (s5 & claims & Hcl & H). injection Hcl as <- _. injection H as <- _.
  by exists url.
Qed.

(** ** The claims of the token *)

(** [token] is signed for the client by a key the provider publishes, with an
    algorithm it supports, has not expired, and is of an accepted domain. *)
Definition validated (w : World) (p : OidcProvider) (keys : list (gmap string string)) (algs : list Algorithm)
    (token : string) (c : Claims) : Prop :=
  exists key n e claims,
    key ∈ keys /\ key !! "n" = Some n /\ key !! "e" = Some e /\
    jwt_decode (w_now w) token (decoding_key_from_rsa_components n e)
      (MkValidation 10 true (Some (client_id p)) algs) = Ok claims /\
    claims_of_json claims = Some c /\ (w_now w <= cl_exp c + 10)%N /\
    (hosted_domains p <> [] -> exists hd, cl_extra c !! "hd" = Some (VString hd) /\ hd ∈ hosted_domains p).

Lemma claims_of_json_exp m c : claims_of_json m = Some c -> m !! "exp" = Some (VNumber (Some (cl_exp c))).
Proof.
  unfold claims_of_json. intros H.
  destruct (m !! "exp") as [v|]; repeat (apply bind_Some in H as (? & ? & H)); [|done].
  injection H as <-. destruct v; try done. cbn in *. congruence.
Qed.

Lemma claims_with_key_validated w p token algs keys key c :
  key ∈ keys -> claims_with_key w (client_id p) (hosted_domains p) token algs key = Some c ->
  validated w p keys algs token c.
Proof.
  intros Hin H. unfold claims_with_key in H.
  apply bind_Some in H as (n & Hn & H). apply bind_Some in H as (e & He & H).
  apply bind_Some in H as (c' & Hc & H). apply bind_Some in Hc as (claims & Hdec & Hc).
  apply result_ok_Some in Hdec.
  assert (c' = c /\ (hosted_domains p <> [] -> exists hd, cl_extra c !! "hd" = Some (VString hd) /\
                                              hd ∈ hosted_domains p)) as [-> Hhd].
  { case_bool_decide as Hnil; [by injection H as ->|].
    destruct (cl_extra c' !! "hd") as [v|] eqn:Hv; [|done]. cbn in H. destruct v; try done. cbn in H.
    case_bool_decide; [|done]. injection H as ->. eauto. }
  exists key, n, e, claims. repeat split; try done.
  exact (jwt_decode_exp _ _ _ (MkValidation 10 true (Some (client_id p)) algs) _ _ Hdec eq_refl
           (claims_of_json_exp _ _ Hc)).
Qed.

Lemma head_omap_Some {A B} (f : A -> option B) (l : list A) b :
  head (omap f l) = Some b -> exists a, a ∈ l /\ f a = Some b.
Proof. intros H. apply head_Some in H as [l' H]. apply list_elem_of_omap. rewrite H. set_solver. Qed.

Lemma validate_claims_Ok w p jwks_uri token algs c :
  validate_claims w (client_id p) (hosted_domains p) jwks_uri token algs = Ok c ->
  exists keys, w_get_jwks w jwks_uri = Ok keys /\ validated w p keys algs token c.
Proof.
  unfold validate_claims. intros H. apply bind_Ok_inv in H as (keys & Hk & H).
  apply bind_Ok_inv in H as (kid & _ & H). exists keys. split; [done|].
  apply ok_or_Ok, head_omap_Some in H as (key & Hin & Hc). eapply claims_with_key_validated; [|done].
  destruct kid as [kid|]; cbn in Hin; [|done].
  destruct (list_find _ keys) as [[i k]|] eqn:Hf; cbn in Hin; [|done].
  apply list_elem_of_singleton in Hin as ->. apply list_find_Some in Hf as (Hf & _).
  by eapply list_elem_of_lookup_2.
Qed.

(** C13: A login gives a token only if the first request that reached its
    listener came back with the state it had put in the URL and carried a code,
    the provider exchanged that code, presented with the verifier of the
    challenge in the same URL, for the token, and the token is signed by a key
    of the provider's key set for this client, not expired, and of an accepted
    domain where domains are configured.  The client is sent to that URL only,
    and no listener is left behind. *)
Theorem login_bound_to_callback w la p s s' t :
  authenticate w la p s = (s', Ok t) ->
  let '((code_verifier, code_challenge), r) := create_challenge (ls_rng s) in
  exists cfg url query rest code keys,
    get_config (la_http la) p = Ok cfg /\
    authorization_page la p (cg_authorization_endpoint cfg) code_challenge (set_rng r s) = Ok url /\
    la_requests la url = query :: rest /\
    parse_auth_response query = Some (MkAuthResponse (redirect_state (set_rng r s)) (RCode code)) /\
    exchange_authorization (la_http la) p (cg_token_endpoint cfg) code code_verifier
      (redirect_uri_of (la_port la)) = Ok (ot_auth_token t) /\
    get_jwks (la_http la) (cg_jwks_uri cfg) = Ok keys /\
    validated w p keys (cg_id_token_signing_alg_values_supported cfg) (at_id_token (ot_auth_token t))
      (ac_claims (ot_context t)) /\
    ls_commands s' = ls_commands s ++ [url] /\ ls_listening s' = ls_listening s.
Proof.
  intros H. unfold authenticate in H. apply sem_bind_Ok in H as (s1 & cfg & Hcfg & H). injection Hcfg as <- Hcfg.
  apply sem_bind_Ok in H as (s2 & [v c] & Hch & H). unfold challenge in Hch.
  destruct (create_challenge (ls_rng s)) as [[v' c'] r]. injection Hch as <- -> ->.
  apply sem_bind_Ok in H as (s3 & [code redirect] & Hauth & H).
  apply authorize_Ok in Hauth as (url & query & rest & Hpage & Hreq & Hq & -> & Hcmd & Hlis).
  apply sem_bind_Ok in H as (s4 & token & Hex & H). injection Hex as <- Hex.
  apply sem_bind_Ok in H as (s5 & claims & Hcl & H). injection Hcl as <- Hcl. injection H as <- <-.
  apply validate_claims_Ok in Hcl as (keys & Hkeys & Hval).
  exists cfg, url, query, rest, code, keys. done.
Qed.
End login_props.

(** ** Witnesses *)
Module Login.
Import Concrete.
Local Existing Instance key_order.

#[local] Program Instance counter_rng : RngLib := {|
  rng := nat; gen_index := fun r n => (Nat.modulo r n, r + 1) |}.
Next Obligation. intros r n Hn. by apply Nat.mod_upper_bound; lia. Qed.
#[local] Instance plain_requests : RequestLib := {|
  base64_url_encode := String.string_of_list_byte;
  request_url := fun endpoint query =>
    Ok (endpoint +:+ "?" +:+ str_join "&" ((fun kv => kv.1 +:+ "=" +:+ kv.2) <$> query)) |}.

(** Tokens name their expiry only; every token is for the client "firm". *)
Definition claims_1000 : gmap string Value :=
  {[ "iss" := VString "op"; "sub" := VString "ada"; "aud" := VString "firm";
     "exp" := VNumber (Some 1000%N); "iat" := VNumber (Some 500%N); "hd" := VString "example.com" ]}.
#[local] Program Instance provider_jwt : JwtLib := {|
  EncodingKey := unit;
  DecodingKey := string;
  encoding_key_from_rsa_pem := fun b => Ok tt;
  encoding_key_from_ec_pem := fun b => Ok tt;
  encoding_key_from_ec_der := fun b => tt;
  decoding_key_from_ec_pem := fun b => Err "no key";
  decoding_key_from_rsa_components := fun n e => n +:+ e;
  jwt_encode := fun alg kid claims key => Err "no key";
  jwt_decode_header := fun token => Ok (Some "k2");
  jwt_decode := fun now token key v =>
    if bool_decide (va_aud v = Some "firm") && bool_decide (key = "NE")
       && ((now <=? 1000 + va_leeway v)%N || negb (va_validate_exp v))
    then Ok claims_1000 else Err "invalid"
|}.
Next Obligation.
  intros now token key v claims exp H Hv. cbv beta in H. rewrite Hv, orb_false_r in H.
  destruct (now <=? 1000 + va_leeway v)%N eqn:Hle; [|by rewrite andb_false_r in H].
  destruct (_ && _); [|discriminate].
  injection H as <-. intros He. assert (exp = 1000%N) as ->; [|by apply N.leb_le].
  change (claims_1000 !! "exp") with (Some (VNumber (Some 1000%N))) in He. congruence.
Qed.

Definition str_list (l : list string) : Value := VArray (VString <$> l).
Definition provider_config : Value := VObject
  [("issuer", VString "op"); ("authorization_endpoint", VString "https://op/auth");
   ("token_endpoint", VString "https://op/token"); ("jwks_uri", VString "https://op/keys");
   ("response_types_supported", str_list ["code"]); ("subject_types_supported", str_list ["public"]);
   ("id_token_signing_alg_values_supported", str_list ["RS256"])].
Definition provider_keys : Value := VObject
  [("keys", VArray [VObject [("kid", VString "k1"); ("n", VString "X"); ("e", VString "Y")];
                    VObject [("kid", VString "k2"); ("n", VString "N"); ("e", VString "E")]])].
Definition provider_token : Value := VObject
  [("access_token", VString "a"); ("expires_in", VNumber (Some 500%N)); ("id_token", VString "id");
   ("refresh_token", VString "r"); ("scope", VString "openid"); ("token_type", VString "Bearer")].
Definition json_response (v : Value) : result string Response := Ok (MkResponse None (Err "read") (Ok v)).
Definition provider_http : Http := MkHttp
  (fun url => if bool_decide (url = "https://op/keys") then json_response provider_keys
              else json_response provider_config)
  (fun _ form => if bool_decide (("code", "the code") ∈ form) then json_response provider_token
                 else Ok (MkResponse (Some "400 Bad Request") (Ok "invalid_grant") (Err "json")))
  (fun _ => "type").

(** The answer the browser brings back from the page it was sent to: the text
    between "state=" and the next pair. *)
Definition provider : OidcProvider := MkOidcProvider "https://op/.well-known" "firm" "secret" ["example.com"].
Definition start : LoginState := MkLoginState 0 [] [].
Definition answer (state : string) : list (list (string * string)) :=
  [[("code", "the code"); ("state", state)]; [("error", "late")]].
Definition answers (state : string) : LoginAnswers := MkLoginAnswers provider_http 4711 None (fun _ => answer state).
Definition world : World := MkWorld 600 (Ok "host") (fun _ _ => Err StateMismatch) (fun _ => Err StateMismatch)
  None (fun _ => Err "none") (Err FailedToGenerateKeyPair) (fun _ _ => None) (fun _ => Err StateMismatch).
Definition state_value : string := redirect_state (set_rng (create_challenge (ls_rng start)).2 start).

Definition logged_in (state : string) : bool := is_ok (authenticate world (answers state) provider start).2.

Definition guessed : LoginAnswers := answers "security_token=guess".
Definition page_url : string := default EmptyString (result_ok (authorization_page guessed provider "https://op/auth" "ch" start)).
Lemma authorize_by_first_request_witness :
  authorize guessed provider "https://op/auth" "ch" start
  = (MkLoginState (create_challenge (ls_rng start)).2 [page_url] [], Err StateMismatch).
Proof.
  rewrite (authorize_by_first_request guessed provider "https://op/auth" "ch" start page_url) by reflexivity.
  vm_compute. reflexivity.
Defined.

(** A login that succeeds, and the same login answered with another state. *)
Lemma login_bound_to_callback_witness :
  logged_in state_value = true /\ logged_in "security_token=guess" = false /\
  exists t, at_id_token (ot_auth_token t) = "id" /\
    validated world provider
      [{["kid" := "k1"; "n" := "X"; "e" := "Y"]}; {["kid" := "k2"; "n" := "N"; "e" := "E"]}] [RS256] "id"
      (ac_claims (ot_context t)).
Proof.
  split; [vm_compute; reflexivity|]. split; [vm_compute; reflexivity|].
  destruct (authenticate world (answers state_value) provider start) as [s' [t|e]] eqn:Heq;
    [|exfalso; assert (logged_in state_value = true) as H by (vm_compute; reflexivity);
      unfold logged_in in H; rewrite Heq in H; discriminate].
  pose proof (login_bound_to_callback _ _ _ _ _ _ Heq) as H.
  destruct (create_challenge (ls_rng start)) as [[v c] r].
  destruct H as (cfg & url & query & rest & code & keys & Hcfg & _ & _ & _ & Hex & Hkeys & Hval & _).
  assert (cg_id_token_signing_alg_values_supported cfg = [RS256]) as Halg
    by (vm_compute in Hcfg; injection Hcfg as <-; reflexivity).
  assert (get_jwks provider_http (cg_jwks_uri cfg) =
    Ok [{["kid" := "k1"; "n" := "X"; "e" := "Y"]}; {["kid" := "k2"; "n" := "N"; "e" := "E"]}]) as Hk
    by (vm_compute in Hcfg; injection Hcfg as <-; vm_compute; reflexivity).
  assert (at_id_token (ot_auth_token t) = "id") as Hid.
  { unfold exchange_authorization, decode_response in Hex. cbn [answers la_http provider_http http_post] in Hex.
    case_bool_decide; [|discriminate].
    change (Ok (MkAuthToken "a" 500 "id" "r" "openid" "Bearer") = Ok (ot_auth_token t)
            :> result OidcError AuthToken) in Hex.
    by injection Hex as <-. }
  exists t. split; [exact Hid|]. rewrite Halg, Hid in Hval.
  assert (keys = [{["kid" := "k1"; "n" := "X"; "e" := "Y"]}; {["kid" := "k2"; "n" := "N"; "e" := "E"]}]) as <-
    by (change (la_http (answers state_value)) with provider_http in Hkeys; congruence).
  exact Hval.
Defined.
End Login.
