(* ===== verification/Access.v ===== *)
(** * The authentication service (services/avery/src/auth.rs)

    [AuthService] authenticates incoming tokens against the access list, keeps
    requests for access until somebody approves them, lets clients wait for the
    approval, and hands out tokens for outgoing calls, uploading the signing key
    when it is new.

    A waiting client polls a state that the pending request shares with it; the
    states live in a heap ([wait_states]) and both sides hold the location.
    Expired entries disappear through the tasks of [ExpireMap]. *)
From S2P Require Import Prelude Interfaces Config Tokens TokenStore KeyStore ExpireMap.

(** ** Messages (auth.proto) *)
Record AuthenticationParameters := MkAuthenticationParameters {
  ap_expected_audience : string; ap_token : string; ap_create_remote_access_request : bool }.
Record RemoteAccessRequest := MkRemoteAccessRequest {
  rar_id : option string; rar_subject : string; rar_expires_at : N; rar_approved : bool }.
Record RemoteAccessApproval := MkRemoteAccessApproval { ra_approved : bool; ra_id : option string }.
Inductive AuthOrderingKey := OKSubject | OKExpiresAt.
Definition AuthOrderingKey_to_i32 (k : AuthOrderingKey) : Z := match k with OKSubject => 0 | OKExpiresAt => 1 end.
Record AuthOrdering := MkAuthOrdering { ao_key : Z; ao_reverse : bool; ao_offset : N; ao_limit : N }.
Record RemoteAccessListParameters := MkListParameters {
  lp_subject_filter : string; lp_include_approved : bool; lp_order : option AuthOrdering }.
Record ProtoToken := MkProtoToken { pt_token : string; pt_expires_at : N; pt_scope : string }.

(** ** State *)
Record WaitState := MkWaitState { ws_approved : bool; ws_waker : option N }.
Record PendingAccessRequest := MkPending {
  par_subject : string;
  par_expires_at : N;
  par_approved : bool;
  (** location of the shared state *)
  par_wait_state : N
}.

(** The two clocks: seconds of [Instant] and of UTC. *)
Record Clock := MkClock { ck_instant : N; ck_utc : N }.
(** [Instant::checked_add]: instants are signed 64-bit seconds. *)
Definition instant_checked_add (i d : N) : option N :=
  if (i + d <? 9223372036854775808)%N then Some (i + d)%N else None.

Section access.
Context {DL : DigestLib} {JL : JwtLib} {EL : EncodingLib} {HO : HashOrder} {UL : UuidLib}.
Variable identity_hash : IdentityProvider -> string.

Record AuthService := MkAuthService {
  as_token_store : TokenStore;
  as_key_store : KeyStore;
  as_access_list : ExpireMap (K := string) (V := unit);
  as_pending : ExpireMap (K := uuid) (V := PendingAccessRequest);
  (** the shared wait states and the next free location *)
  as_wait_states : gmap N (lock WaitState);
  as_next : N;
  (** the tasks woken so far *)
  as_woken : list N
}.

Definition set_token_store (t : TokenStore) (s : AuthService) : AuthService :=
  MkAuthService t (as_key_store s) (as_access_list s) (as_pending s) (as_wait_states s) (as_next s) (as_woken s).
Definition set_access_list (a : ExpireMap) (s : AuthService) : AuthService :=
  MkAuthService (as_token_store s) (as_key_store s) a (as_pending s) (as_wait_states s) (as_next s) (as_woken s).
Definition set_pending (p : ExpireMap) (s : AuthService) : AuthService :=
  MkAuthService (as_token_store s) (as_key_store s) (as_access_list s) p (as_wait_states s) (as_next s) (as_woken s).
Definition set_wait_states (h : gmap N (lock WaitState)) (s : AuthService) : AuthService :=
  MkAuthService (as_token_store s) (as_key_store s) (as_access_list s) (as_pending s) h (as_next s) (as_woken s).
Definition wake (ws : list N) (s : AuthService) : AuthService :=
  MkAuthService (as_token_store s) (as_key_store s) (as_access_list s) (as_pending s) (as_wait_states s)
    (as_next s) (as_woken s ++ ws).
(** [Arc::new(Mutex::new(..))] *)
Definition new_wait_state (w : WaitState) (s : AuthService) : AuthService :=
  MkAuthService (as_token_store s) (as_key_store s) (as_access_list s) (as_pending s)
    (<[as_next s := lock_new w]> (as_wait_states s)) (as_next s + 1) (as_woken s).

Definition service := sem AuthService Status.

Definition on_token_store {A} (h : sem TokenStore Status A) : service A :=
  fun s => let '(t, r) := h (as_token_store s) in (set_token_store t s, r).

(** Time passes: the tasks that are due remove their entries. *)
Definition tick (now : N) (s : AuthService) : AuthService :=
  set_access_list (elapse now (as_access_list s)) (set_pending (elapse now (as_pending s)) s).

(** ** Outgoing tokens *)

(** [public_key.take()] on the token the cache holds. *)
Definition take_public_key (entry : string) (t : TypedToken) (store : TokenStore)
  : TokenStore * option (list byte * string) :=
  match t with
  | TInternalWithPublicKey token public_key =>
      (set_cache (cache_insert entry (TInternalWithPublicKey token None) (ts_cache store)) store, public_key)
  | _ => (store, None)
  end.

(** What the block under the store's write lock returns. *)
Definition acquire_locked (w : World) (scope : string) (store : TokenStore)
  : TokenStore * result Status (ProtoToken * option (list byte * string)) :=
  match acquire_token identity_hash w scope store with
  | (store', Err e) => (store', Err (status_of_acquire_error e))
  | (store', Ok (entry, t)) =>
      let '(store'', public_key) := take_public_key entry t store' in
      (store'', Ok (MkProtoToken (token_text t) (token_expires_at t) scope, public_key))
  end.
Definition upload_key (w : World) (public_key : option (list byte * string)) : service unit :=
  fun s =>
    match public_key with
    | Some (key_content, keyid) =>
        on_token_store (fun store =>
          let '(store', r) := ks_set (as_key_store s) w keyid key_content store in
          (store', map_err (fun e => MkStatus CInternal (display_key_store_error e)) r)) s
    | None => (s, Ok tt)
    end.
Definition auth_acquire_token (w : World) (scope : string) : service ProtoToken :=
  '(proto_token, public_key) ← on_token_store (acquire_locked w scope);
  _ ← upload_key w public_key;
  mret proto_token.

Definition auth_get_identity (w : World) : service Identity :=
  on_token_store (fun store =>
    let '(store', r) := get_identity identity_hash w store in (store', map_err status_of_acquire_error r)).

(** ** Incoming tokens *)
Definition decode_validation (aud : string) : Validation := MkValidation 0 true (Some aud) [ES256].

(** The checks on the token: its signer's key, the signature, audience and
    expiry, subject and expiry claims. *)
Definition token_subject (w : World) (payload : AuthenticationParameters) : service (string * N) :=
  kid ← sem_lift (map_err (fun e => MkStatus CInvalidArgument ("Failed decode token header: " +:+ e))
                    (jwt_decode_header (ap_token payload)));
  key_id ← sem_lift (ok_or (MkStatus CInvalidArgument "Header is missing key id") kid);
  key ← (fun s => on_token_store (fun store =>
           let '(store', r) := ks_get (as_key_store s) w key_id store in
           (store', map_err (fun e => MkStatus CInvalidArgument
              ("Failed to get public key for key id " +:+ quoted key_id +:+ ": " +:+ display_key_store_error e)) r)) s);
  decoding_key ← sem_lift (map_err (fun e => MkStatus CInternal ("Failed to parse public key: " +:+ e))
                             (decoding_key_from_ec_pem key));
  claims ← sem_lift (map_err (fun e => MkStatus CInvalidArgument ("JWT Validation failed: " +:+ e))
             (jwt_decode (w_now w) (ap_token payload) decoding_key (decode_validation (ap_expected_audience payload))));
  sem_lift (ok_or (MkStatus CInvalidArgument "JWT claims do not contain sub and exp")
    (sub ← (claims : gmap string Value) !! "sub" ≫= value_as_str;
     exp ← (claims : gmap string Value) !! "exp" ≫= value_as_u64;
     Some (sub, exp))).

(** [Instant::now().checked_add(Duration::from_secs(exp - now))]. *)
Definition expiry_instant (clock : Clock) (exp : N) : result Status N :=
  ok_or (MkStatus CInternal "Failed to calculate expiry date for pending access request.")
    (instant_checked_add (ck_instant clock) (u64_sub exp (ck_utc clock))).

(** Nobody's request when the subject has access, a new one when asked for. *)
Definition request_id (new_id : uuid) (payload : AuthenticationParameters) (sub : string) (s : AuthService)
  : result Status (option uuid) :=
  if em_contains sub (as_access_list s) then Ok None
  else if ap_create_remote_access_request payload then Ok (Some new_id)
  else Err (MkStatus CPermissionDenied EmptyString).
Definition insert_request (clock : Clock) (sub : string) (exp : N) (maybe_request_id : option uuid)
  : service (option string) :=
  match maybe_request_id with
  | None => mret None
  | Some uuid =>
      expiry ← sem_lift (expiry_instant clock exp);
      _ ← sem_modify (fun s =>
        set_pending (em_insert uuid (MkPending sub exp false (as_next s)) (Some expiry) (as_pending s))
          (new_wait_state (MkWaitState false None) s));
      mret (Some (uuid_to_string uuid))
  end.
Definition authenticate (w : World) (clock : Clock) (new_id : uuid) (payload : AuthenticationParameters)
  : service (option string) :=
  '(sub, exp) ← token_subject w payload;
  maybe_request_id ← sem_ask (request_id new_id payload sub);
  insert_request clock sub exp maybe_request_id.

(** ** Access requests *)
Definition request_message (id : uuid) (req : PendingAccessRequest) : RemoteAccessRequest :=
  MkRemoteAccessRequest (Some (uuid_to_string id)) (par_subject req) (par_expires_at req) (par_approved req).

Definition parse_request_id (id : string) : result Status uuid :=
  map_err (fun e => MkStatus CInvalidArgument ("Invalid UUID: " +:+ e)) (uuid_parse id).
Definition no_such_request (id : uuid) : Status :=
  MkStatus CNotFound ("Failed to find pending access request with id: " +:+ uuid_to_string id).

Definition request_cmp (order : option AuthOrdering) : RemoteAccessRequest -> RemoteAccessRequest -> comparison :=
  match order with
  | Some o =>
      let ascending :=
        if (ao_key o =? AuthOrderingKey_to_i32 OKExpiresAt)%Z
        then cmp_on rar_expires_at N.compare else cmp_on rar_subject str_cmp in
      if ao_reverse o then cmp_rev ascending else ascending
  | None => cmp_on rar_subject str_cmp
  end.
Definition page_of_requests (order : option AuthOrdering) (results : list RemoteAccessRequest)
  : list RemoteAccessRequest :=
  match order with
  | Some o => page (ao_offset o) (if (ao_limit o =? 0)%N then 100 else N.min (ao_limit o) 100) results
  | None => page 0 100 results
  end.
(** The order a [HashMap<Uuid, _>] iterates in. *)
Variable uuid_iter : gmap uuid PendingAccessRequest -> list (uuid * PendingAccessRequest).
Definition list_remote_access_requests (params : RemoteAccessListParameters) (s : AuthService)
  : list RemoteAccessRequest :=
  let results := (fun kv => request_message kv.1 kv.2) <$>
    filter (fun kv : uuid * PendingAccessRequest =>
              (str_is_empty (lp_subject_filter params) || str_contains (lp_subject_filter params) (par_subject kv.2)) &&
              (lp_include_approved params || negb (par_approved kv.2)))
      (uuid_iter (em_map (as_pending s))) in
  page_of_requests (lp_order params) (sort_by (request_cmp (lp_order params)) results).

Definition set_approved (b : bool) (req : PendingAccessRequest) : PendingAccessRequest :=
  MkPending (par_subject req) (par_expires_at req) b (par_wait_state req).

(** [wait_state.lock()] then setting [approved] and waking the stored waker. *)
Definition approve_wait_state (loc : N) (s : AuthService) : AuthService :=
  match as_wait_states s !! loc with
  | Some (Lock false w) =>
      wake (option_list (ws_waker w)) (set_wait_states (<[loc := Lock false (MkWaitState true None)]> (as_wait_states s)) s)
  | _ => s
  end.

Definition approve_remote_access_request (clock : Clock) (request : RemoteAccessApproval)
  : service RemoteAccessRequest :=
  id ← sem_lift (ok_or (MkStatus CInvalidArgument "No Id on remote access approval request") (ra_id request));
  uuid ← sem_lift (parse_request_id id);
  req ← sem_ask (fun s => ok_or (no_such_request uuid) (em_map (as_pending s) !! uuid));
  _ ← sem_modify (fun s => set_pending (em_update uuid (set_approved (ra_approved request)) (as_pending s)) s);
  expiry ← sem_lift (expiry_instant clock (par_expires_at req));
  _ ← sem_modify (fun s => set_access_list (em_insert (par_subject req) tt (Some expiry) (as_access_list s)) s);
  _ ← sem_modify (approve_wait_state (par_wait_state req));
  mret (request_message uuid (set_approved (ra_approved request) req)).

Definition get_remote_access_request (id : string) : service RemoteAccessRequest :=
  uuid ← sem_lift (parse_request_id id);
  sem_ask (fun s => request_message uuid <$> ok_or (no_such_request uuid) (em_map (as_pending s) !! uuid)).

Definition cancel_remote_access_request (id : string) : service RemoteAccessRequest :=
  uuid ← sem_lift (parse_request_id id);
  req ← sem_ask (fun s => ok_or (no_such_request uuid) (em_map (as_pending s) !! uuid));
  _ ← sem_modify (fun s => set_pending (em_remove uuid (as_pending s)) s);
  mret (request_message uuid req).

(** *** Waiting

    [wait_for_remote_access_request] finds the shared state once and then polls
    it; when the poll is ready it answers the request as it is then. *)
Definition wait_start (id : string) : service N :=
  uuid ← sem_lift (parse_request_id id);
  sem_ask (fun s => par_wait_state <$> ok_or (no_such_request uuid) (em_map (as_pending s) !! uuid)).

Definition approval_poll (loc waker : N) (s : AuthService) : AuthService * Poll (result string unit) :=
  match as_wait_states s !! loc with
  | Some (Lock false w) =>
      if ws_approved w then (s, Ready (Ok tt))
      else (set_wait_states (<[loc := Lock false (MkWaitState false (Some waker))]> (as_wait_states s)) s, Pending)
  | _ => (s, Ready (Err poison_msg))
  end.
Definition wait_poll (id : string) (loc waker : N) (s : AuthService)
  : AuthService * Poll (result Status RemoteAccessRequest) :=
  match approval_poll loc waker s with
  | (s', Pending) => (s', Pending)
  | (s', Ready (Err e)) => (s', Ready (Err (MkStatus CInternal e)))
  | (s', Ready (Ok tt)) => let '(s'', r) := get_remote_access_request id s' in (s'', Ready r)
  end.
End access.
