(* ===== verification/AuthStart.v ===== *)
(** * Starting the authentication service, and logging in (services/avery/src/auth.rs)

    [from_config] builds the service from the configuration: a token cache read
    back from the file of the previous run, a generator for every key file, the
    key store and the access list.  Dropping the cache writes its OIDC tokens to
    that file.  [login] runs the interactive logins in the background and
    answers with the stream of commands for the client. *)
From S2P Require Import Prelude Interfaces Json Config Tokens TokenStore KeyStore ExpireMap OidcLogin Access.

(** ** The cache file *)

(** [serde_json]: a text holds the value written to it. *)
Class JsonText := {
  json_text : Type;
  json_to_text : Value -> json_text;
  json_from_text : json_text -> result string Value;
  json_from_to_text : forall v, json_from_text (json_to_text v) = Ok v
}.

Section auth_start.
Context {DL : DigestLib} {JL : JwtLib} {EL : EncodingLib} {HO : HashOrder} {UL : UuidLib} {UR : UrlLib}.
Context {RL : RngLib} {QL : RequestLib} {JT : JsonText}.

(** [Claims] with its flattened members. *)
Definition claim_names : list string := ["iss"; "sub"; "aud"; "exp"; "iat"].
Definition claims_fields (c : Claims) : list (string * Value) :=
  [("iss", VString (cl_iss c)); ("sub", VString (cl_sub c)); ("aud", VString (cl_aud c));
   ("exp", VNumber (Some (cl_exp c))); ("iat", VNumber (Some (cl_iat c)))] ++ hash_iter (cl_extra c).
Definition claims_from_fields (m : list (string * Value)) : option Claims :=
  if bool_decide (Forall (fun k => length (occurrences m k) <= 1) claim_names)
  then claims_of_json (object_map m) else None.
Definition auth_context_fields (c : AuthContext) : list (string * Value) :=
  [("expires_at", to_json (ac_expires_at c)); ("client_id", to_json (ac_client_id c));
   ("client_secret", to_json (ac_client_secret c)); ("token_endpoint", to_json (ac_token_endpoint c));
   ("jwks_uri", to_json (ac_jwks_uri c)); ("hosted_domain", to_json (ac_hosted_domain c));
   ("id_token_signing_alg_values_supported", to_json (ac_algs c));
   ("claims", VObject (claims_fields (ac_claims c)))].
Definition auth_context_from_fields (m : list (string * Value)) : option AuthContext :=
  expires ← field m "expires_at"; id ← field m "client_id"; secret ← field m "client_secret";
  token ← field m "token_endpoint"; jwks ← field m "jwks_uri"; domain ← field m "hosted_domain";
  algs ← field m "id_token_signing_alg_values_supported";
  claims ← (json_field m "claims" ≫= object_of) ≫= claims_from_fields;
  Some (MkAuthContext expires id secret token jwks domain algs claims).

(** The enum is tagged with its kebab-case variant name inside the object; the
    self-signed variants are skipped. *)
Definition typed_token_to_json (t : TypedToken) : option Value :=
  match t with
  | TOidc t => Some (VObject
      [("type", VString "oidc"); ("auth_token", to_json (ot_auth_token t));
       ("context", VObject (auth_context_fields (ot_context t)))])
  | TInternal _ | TInternalWithPublicKey _ _ => None
  end.
Definition typed_token_from_json (v : Value) : option TypedToken :=
  m ← object_of v;
  tag ← json_field m "type" ≫= value_as_str;
  if bool_decide (tag = "oidc") then
    auth_token ← field m "auth_token";
    context ← (json_field m "context" ≫= object_of) ≫= auth_context_from_fields;
    Some (TOidc (MkOidcToken auth_token context))
  else None.

Definition is_oidc (t : TypedToken) : bool := match t with TOidc _ => true | _ => false end.
Definition saved_tokens (tokens : gmap string TypedToken) : gmap string TypedToken :=
  filter (fun kt => is_oidc kt.2 = true) tokens.
Definition tokens_to_json (tokens : gmap string TypedToken) : option Value :=
  VObject <$> all_some ((fun kt => v ← typed_token_to_json kt.2; Some (kt.1, v)) <$> hash_iter (saved_tokens tokens)).
Definition tokens_from_json (v : Value) : option (gmap string TypedToken) :=
  m ← object_of v;
  l ← all_some ((fun kv => t ← typed_token_from_json kv.2; Some (kv.1, t)) <$> m);
  Some (object_map l).

(** The directory of the file, the errors of the operating system, and what the
    file holds. *)
Record CacheFile := MkCacheFile {
  cf_directory : option string;
  cf_create_dir_error : option string;
  cf_open_error : option string;
  (** an error while writing, with what had been written *)
  cf_write_error : option json_text;
  cf_content : option json_text
}.
Definition set_content (c : option json_text) (f : CacheFile) : CacheFile :=
  MkCacheFile (cf_directory f) (cf_create_dir_error f) (cf_open_error f) (cf_write_error f) c.
Definition token_cache_path (f : CacheFile) : option string :=
  (fun p => p +:+ "/token-cache.json") <$> cf_directory f.

(** [drop]: opening the file truncates it. *)
Definition cache_drop (self : TokenCache) (f : CacheFile) : CacheFile :=
  match token_cache_path f, cf_create_dir_error f, cf_open_error f with
  | Some _, None, None =>
      match cf_write_error f with
      | Some written => set_content (Some written) f
      | None => set_content (json_to_text <$> tokens_to_json (tc_tokens self)) f
      end
  | _, _, _ => f
  end.
Definition cache_read (f : CacheFile) : option (gmap string TypedToken) :=
  _ ← token_cache_path f;
  text ← cf_content f;
  match cf_open_error f with
  | Some _ => None
  | None => result_ok (json_from_text text) ≫= tokens_from_json
  end.
Definition cache_new (scope_aliases : AliasMap) (f : CacheFile) : TokenCache :=
  MkTokenCache (default ∅ (cache_read f)) scope_aliases.

(** ** The service *)
Variable identity_hash : IdentityProvider -> string.
Variable from_utf8 : list byte -> result string string.
(** the document service behind the key store *)
Variable documents : DocumentService.

Definition self_signed_new (key_path : string) (files : gmap string (list byte)) : SelfSignedGenerator :=
  MkSelfSigned None (key_path +:+ "/keys") files.

Definition key_file_builder (path : string) (iss sub aud kid : option string) (exp : option N) : TokenGeneratorBuilder :=
  with_exp exp (with_aud aud (with_sub sub (with_iss iss (with_kid kid
    (with_private_key (RsaFile path) builder_new))))).
Definition key_file_generator (w : World) (scope : string * AuthConfig)
  : option (result SelfSignedTokenError (string * TokenGenerator)) :=
  match scope.2 with
  | AuthKeyFile path iss sub aud kid exp =>
      Some ((fun token_generator => (path, token_generator)) <$> build w (key_file_builder path iss sub aud kid exp))
  | _ => None
  end.
Definition self_signed_with_file (w : World) (auth_scopes : gmap string AuthConfig)
  : result SelfSignedTokenError (gmap string TokenGenerator) :=
  object_map <$> collect (omap (key_file_generator w) (hash_iter auth_scopes)).

Definition key_store_of (config : KeyStoreConfig) : KeyStore :=
  match config with
  | KeyStoreSimple url => SimpleKeyStore identity_hash from_utf8 documents url
  | KeyStoreNone => NullKeyStore
  end.

Definition from_config (w : World) (oidc_providers : gmap string OidcProvider) (auth_scopes : gmap string AuthConfig)
    (identity_provider : IdentityProvider) (key_store_config : KeyStoreConfig) (access_config : AllowConfig)
    (keystore_path : string) (files : gmap string (list byte)) (f : CacheFile) : result string AuthService :=
  with_file ← map_err display_self_signed_error (self_signed_with_file w auth_scopes);
  let token_store := MkTokenStore
    (cache_new (create_alias_map identity_hash auth_scopes identity_provider) f)
    (MkProviders oidc_providers (self_signed_new keystore_path files) with_file auth_scopes)
    None identity_provider in
  Ok (MkAuthService token_store (key_store_of key_store_config)
        (em_of_list ((fun user => (user, tt)) <$> users access_config)) em_empty ∅ 0 []).

(** ** Logging in *)

(** The answers and the generator each provider's login meets. *)
Variable answers : OidcProvider -> LoginAnswers.
Variable start : OidcProvider -> LoginState.
Definition with_login (w : World) : World :=
  MkWorld (w_now w) (w_hostname w) (w_post_refresh w) (w_get_jwks w) (w_user w) (w_read_file w)
    (w_generate_key w) (w_fs_error w) (fun p => (OidcLogin.authenticate w (answers p) p (start p)).2).

(** What the logins send to the stream, until the first that fails. *)
Fixpoint login_commands (w : World) (self : TokenProviders) (scopes : list (string * string)) : list string :=
  match scopes with
  | [] => []
  | (_, provider) :: rest =>
      match tp_oidc self !! provider with
      | None => []
      | Some oidc =>
          let '(s, r) := OidcLogin.authenticate w (answers oidc) oidc (start oidc) in
          ls_commands s ++ (if is_ok r then login_commands w self rest else [])
      end
  end.
(** What [store_login] passes for the identity provider. *)
Definition identity_scopes (store : TokenStore) : list (string * string) :=
  match ts_identity_provider store with
  | IdOidc provider => [(scope_key identity_hash (ts_identity_provider store), provider)]
  | _ => []
  end.
(** The background task: the stream it leaves is the commands followed by the
    error, if the login failed. *)
Definition login (w : World) (s : AuthService) : AuthService * list (result Status string) :=
  let store := as_token_store s in
  let '(store', r) := store_login identity_hash (with_login w) store in
  (set_token_store store' s,
   (Ok <$> login_commands w (ts_providers store) (login_scopes (ts_providers store) (identity_scopes store)))
   ++ match r with Ok _ => [] | Err e => [Err (status_of_acquire_error e)] end).
End auth_start.
