(* ===== verification/AuthStartProps.v ===== *)
(** * Properties of the start of the authentication service

    What a restart keeps of the token cache, which generators the key files of
    the configuration give, and which token a scope has after a login. *)
From S2P Require Import Prelude Interfaces Json Config Tokens TokenStore TokenProps KeyStore ExpireMap OidcLogin OidcLoginProps Access AuthStart.

(** ** The cache file *)
Section cache_file.
Context {DL : DigestLib} {JL : JwtLib} {EL : EncodingLib} {HO : HashOrder} {JT : JsonText}.

(** What deserializing leaves in a claim set and an algorithm list. *)
Definition claims_ok (c : Claims) : Prop := forall k, k ∈ claim_names -> cl_extra c !! k = None.
Definition oidc_token_ok (t : OidcToken) : Prop :=
  claims_ok (ac_claims (ot_context t)) /\ json_ok (ac_algs (ot_context t)).
Definition typed_token_ok (t : TypedToken) : Prop :=
  match t with TOidc t => oidc_token_ok t | _ => True end.

Lemma occurrences_absent (m : list (string * Value)) k : k ∉ m.*1 -> occurrences m k = [].
Proof.
  intros Hk. unfold occurrences. induction m as [|[k' v] m IH]; [done|]. rewrite filter_cons_False.
  - apply IH. set_solver.
  - cbn. set_solver.
Qed.
Lemma occurrences_app (m1 m2 : list (string * Value)) k : occurrences (m1 ++ m2) k = occurrences m1 k ++ occurrences m2 k.
Proof. unfold occurrences. by rewrite filter_app, fmap_app. Qed.

Lemma extra_absent (c : Claims) k : claims_ok c -> k ∈ claim_names -> k ∉ (hash_iter (cl_extra c)).*1.
Proof. intros Hc Hk Hin. apply elem_of_hash_keys in Hin as [v Hv]. by rewrite Hc in Hv. Qed.

Lemma claims_fields_nodup c : claims_ok c -> NoDup (claims_fields c).*1.
Proof.
  intros Hc. unfold claims_fields. rewrite fmap_app. apply NoDup_app. repeat split.
  - apply (bool_decide_unpack _). by vm_compute.
  - intros k Hk. by apply extra_absent.
  - apply hash_iter_nodup.
Qed.

Lemma claims_named c k v : claims_ok c -> (k, v) ∈ take 5 (claims_fields c) ->
  object_map (claims_fields c) !! k = Some v.
Proof.
  intros Hc Hin. apply object_map_lookup; [by apply claims_fields_nodup|].
  rewrite <- (take_drop 5 (claims_fields c)). apply elem_of_app. by left.
Qed.

Lemma claims_extra c : claims_ok c ->
  delete "iss" (delete "sub" (delete "aud" (delete "exp" (delete "iat" (object_map (claims_fields c)))))) = cl_extra c.
Proof.
  intros Hc. apply map_eq. intros k. destruct (decide (k ∈ claim_names)) as [Hk|Hk].
  - rewrite Hc by done. unfold claim_names in Hk. rewrite !lookup_delete. set_unfold in Hk.
    repeat case_decide; [done..|]. by destruct_or!; subst.
  - assert (k <> "iss" /\ k <> "sub" /\ k <> "aud" /\ k <> "exp" /\ k <> "iat") as (H1 & H2 & H3 & H4 & H5).
    { unfold claim_names in Hk. repeat split; intros ->; apply Hk; set_solver. }
    rewrite !lookup_delete_ne by done. apply option_eq. intros v.
    rewrite object_map_lookup by by apply claims_fields_nodup. unfold claims_fields.
    rewrite elem_of_app, elem_of_hash_iter. split; [|by right].
    intros [Hin|]; [|done]. apply (list_elem_of_fmap_2 fst) in Hin. by destruct Hk.
Qed.

Lemma claims_roundtrip c : claims_ok c -> claims_from_fields (claims_fields c) = Some c.
Proof.
  intros Hc. unfold claims_from_fields. rewrite bool_decide_true.
  - unfold claims_of_json. rewrite claims_extra by done.
    rewrite !(claims_named c _ _ Hc) by (cbn; repeat constructor).
    by destruct c.
  - apply Forall_forall. intros k Hk. unfold claims_fields.
    rewrite occurrences_app, (occurrences_absent (hash_iter _)) by by apply extra_absent.
    unfold claim_names in Hk. rewrite app_nil_r. set_unfold in Hk. destruct_or!; try done; subst k; reflexivity.
Qed.

Lemma field_present {A} `{Serde A} (m : list (string * Value)) k (a : A) :
  occurrences m k = [to_json a] -> json_ok a -> field m k = Some a.
Proof. intros Hm Ha. unfold field, json_field. rewrite Hm. by apply from_to_json. Qed.

Lemma auth_context_roundtrip c :
  claims_ok (ac_claims c) -> json_ok (ac_algs c) -> auth_context_from_fields (auth_context_fields c) = Some c.
Proof.
  intros Hc Ha. unfold auth_context_from_fields.
  rewrite (field_present _ "expires_at" (ac_expires_at c)) by done.
  rewrite (field_present _ "client_id" (ac_client_id c)) by done.
  rewrite (field_present _ "client_secret" (ac_client_secret c)) by done.
  rewrite (field_present _ "token_endpoint" (ac_token_endpoint c)) by done.
  rewrite (field_present _ "jwks_uri" (ac_jwks_uri c)) by done.
  rewrite (field_present _ "hosted_domain" (ac_hosted_domain c)) by done.
  rewrite (field_present _ "id_token_signing_alg_values_supported" (ac_algs c)) by done.
  assert (json_field (auth_context_fields c) "claims" = Some (VObject (claims_fields (ac_claims c)))) as -> by done.
  cbn [mbind option_bind object_of]. rewrite claims_roundtrip by done. by destruct c.
Qed.

Lemma typed_token_roundtrip t v :
  typed_token_ok t -> typed_token_to_json t = Some v -> typed_token_from_json v = Some t.
Proof.
  intros Hok Hv. destruct t as [t| |]; try done. destruct Hok as [Hc Ha].
  injection Hv as <-. unfold typed_token_from_json. cbn [mbind option_bind object_of].
  rewrite (field_present _ "auth_token" (ot_auth_token t)) by done.
  match goal with |- context [json_field ?m "context"] =>
    assert (json_field m "context" = Some (VObject (auth_context_fields (ot_context t)))) as -> by done;
    assert (json_field m "type" = Some (VString "oidc")) as -> by done end.
  cbn [mbind option_bind object_of value_as_str]. rewrite auth_context_roundtrip by done.
  by destruct t.
Qed.

Lemma saved_json (tokens : gmap string TypedToken) :
  map_Forall (fun _ => typed_token_ok) tokens ->
  exists v, tokens_to_json tokens = Some v /\ tokens_from_json v = Some (saved_tokens tokens).
Proof.
  intros Hok. unfold tokens_to_json, tokens_from_json.
  assert (forall k t, (k, t) ∈ hash_iter (saved_tokens tokens) -> is_oidc t = true /\ typed_token_ok t) as Hin.
  { intros k t Hk. apply elem_of_hash_iter in Hk. apply map_lookup_filter_Some in Hk as [Hk Ho].
    split; [done|]. by apply (Hok k). }
  set (json := fun t => default VNull (typed_token_to_json t)).
  assert (forall k t, (k, t) ∈ hash_iter (saved_tokens tokens) ->
    typed_token_to_json t = Some (json t) /\ typed_token_from_json (json t) = Some t) as Hjson.
  { intros k t Hk. destruct (Hin k t Hk) as [Ho Ht]. destruct t as [t| |]; try done.
    split; [done|]. by apply typed_token_roundtrip. }
  exists (VObject (prod_map id json <$> hash_iter (saved_tokens tokens))). split.
  - match goal with |- VObject <$> ?o = _ => enough (o = Some (prod_map id json <$> hash_iter (saved_tokens tokens))) as -> end; [done|].
    induction (hash_iter (saved_tokens tokens)) as [|[k t] l IH]; [done|]. rewrite !fmap_cons. cbn [all_some fst snd].
    destruct (Hjson k t) as [-> _]; [set_solver|]. cbn.
    rewrite IH; [done|..]; intros k' t' Hk'; [apply (Hin k')|apply (Hjson k')]; set_solver.
  - cbn [object_of mbind option_bind].
    rewrite (all_some_fmap (fun kv => t ← typed_token_from_json kv.2; Some (kv.1, t)) (prod_map id json)).
    + cbn. by rewrite object_map_hash_iter.
    + intros [k t] Hk. cbn. by destruct (Hjson k t Hk) as [_ ->].
Qed.

(** C15: Where the cache file can be written and read, the cache of the next run
    holds the OIDC tokens of the last one and nothing else; without a data
    directory, or when the file cannot be opened, the next run starts with no
    token and the file is left as it was. *)
Theorem token_cache_survives_restart (self : TokenCache) aliases (f : CacheFile) :
  map_Forall (fun _ => typed_token_ok) (tc_tokens self) ->
  cf_create_dir_error f = None -> cf_write_error f = None ->
  if bool_decide (is_Some (cf_directory f)) && bool_decide (cf_open_error f = None)
  then cache_new aliases (cache_drop self f) = MkTokenCache (saved_tokens (tc_tokens self)) aliases
  else cache_drop self f = f /\ cache_new aliases f = MkTokenCache ∅ aliases.
Proof.
  intros Hok Hdir Hwrite. unfold cache_new, cache_drop, cache_read, token_cache_path. rewrite Hdir, Hwrite.
  destruct (cf_directory f) as [d|] eqn:Hd, (cf_open_error f) as [e|] eqn:Ho; cbn; try done.
  - by destruct (cf_content f).
  - destruct (saved_json (tc_tokens self) Hok) as (v & -> & Hv). cbn. rewrite Hd, Ho. cbn.
    rewrite json_from_to_text. cbn. by rewrite Hv.
Qed.

(** Tokens of a login, and refreshed ones, are of this kind. *)
Lemma decoded_claims_ok m c : claims_of_json m = Some c -> claims_ok c.
Proof.
  unfold claims_of_json. intros H. repeat (apply bind_Some in H as (? & _ & H)). injection H as <-.
  intros k Hk. cbn. rewrite !lookup_delete. unfold claim_names in Hk. set_unfold in Hk.
  repeat case_decide; [done..|]. by destruct_or!; subst.
Qed.
Lemma algorithm_decoded n a : algorithm_of_name n = Some a -> algorithm_of_name (algorithm_name a) = Some a.
Proof.
  unfold algorithm_of_name at 1. intros H. case_bool_decide; [by injection H as <-|].
  case_bool_decide; [by injection H as <-|]. case_bool_decide; [|done]. injection H as <-. cbn.
  unfold algorithm_of_name. by rewrite !bool_decide_false, bool_decide_true by done.
Qed.
Lemma refreshed_token_ok w t t' : oidc_token_ok t -> oidc_refresh w t = Ok t' -> oidc_token_ok t'.
Proof.
  intros Hok H. unfold oidc_refresh in H. destruct (_ <=? _)%N; [|by injection H as <-].
  apply map_err_Ok in H. apply bind_Ok_inv in H as (? & _ & H). apply bind_Ok_inv in H as (? & _ & H).
  by injection H as <-.
Qed.

Lemma algorithms_decoded l algs : all_some (from_json (A := Algorithm) <$> l) = Some algs -> json_ok algs.
Proof.
  revert algs. induction l as [|v l IH]; intros algs H; [injection H as <-; intros a Ha; set_solver|].
  rewrite fmap_cons in H. cbn [all_some] in H. apply bind_Some in H as (a & Ha & H).
  apply bind_Some in H as (algs' & Halgs & [= <-]). cbn in Ha. apply bind_Some in Ha as (n & _ & Ha).
  intros a' [->|Hin]%elem_of_cons; [by eapply algorithm_decoded|]. by apply (IH algs').
Qed.

Lemma provider_algorithms_ok v cfg :
  oidc_config_of_json v = Some cfg -> json_ok (cg_id_token_signing_alg_values_supported cfg).
Proof.
  unfold oidc_config_of_json. intros H. do 11 apply bind_Some in H as (? & ? & H).
  match goal with Ha : field _ "id_token_signing_alg_values_supported" = Some _ |- _ => rename Ha into Halg end.
  repeat (apply bind_Some in H as (? & _ & H)). injection H as <-. cbn [cg_id_token_signing_alg_values_supported].
  unfold field in Halg. apply bind_Some in Halg as (v' & _ & Halg). cbn in Halg.
  apply bind_Some in Halg as (l & _ & Halg). by eapply algorithms_decoded.
Qed.

Context {RL : RngLib} {QL : RequestLib}.
(** So is the token of a login. *)
Lemma login_token_ok w la p s s' t : OidcLogin.authenticate w la p s = (s', Ok t) -> oidc_token_ok t.
Proof.
  intros H. unfold OidcLogin.authenticate in H. apply sem_bind_Ok in H as (s1 & cfg & Hcfg & H).
  injection Hcfg as <- Hcfg. apply sem_bind_Ok in H as (s2 & [v c] & _ & H).
  apply sem_bind_Ok in H as (s3 & [code redirect] & _ & H). apply sem_bind_Ok in H as (s4 & token & _ & H).
  apply sem_bind_Ok in H as (s5 & claims & Hcl & H). injection Hcl as _ Hcl. injection H as _ <-.
  apply validate_claims_Ok in Hcl as (keys & _ & key & n & e & m & _ & _ & _ & _ & Hc & _).
  split; cbn [ot_context login_context ac_claims ac_algs]; [by eapply decoded_claims_ok|].
  unfold get_config, decode_response in Hcfg. apply bind_Ok_inv in Hcfg as (response & _ & Hcfg).
  destruct (rs_status_error response); [done|]. apply bind_Ok_inv in Hcfg as (j & _ & Hcfg).
  apply ok_or_Ok in Hcfg. by eapply provider_algorithms_ok.
Qed.
End cache_file.

(** ** Key files *)
Section key_files.
Context {DL : DigestLib} {JL : JwtLib} {EL : EncodingLib} {HO : HashOrder} {UL : UuidLib} {UR : UrlLib} {JT : JsonText}.
Variable identity_hash : IdentityProvider -> string.
Variable from_utf8 : list byte -> result string string.
Variable documents : DocumentService.

Lemma object_map_find {V} (l : list (string * V)) k v : object_map l !! k = Some v -> (k, v) ∈ l.
Proof.
  induction l as [|[k' v'] l IH] using rev_ind; [done|]. rewrite object_map_app, lookup_insert, elem_of_app.
  case_decide; [|auto]. intros [= ->]. subst. right. set_solver.
Qed.
Lemma object_map_some {V} (l : list (string * V)) k v : (k, v) ∈ l -> is_Some (object_map l !! k).
Proof.
  induction l as [|[k' v'] l IH] using rev_ind; [set_solver|]. rewrite object_map_app, lookup_insert, elem_of_app.
  case_decide; [done|]. intros [|Hin]; [auto|]. by apply list_elem_of_singleton in Hin as [= <- <-].
Qed.

(** The generator under a path was built from some scope with that key file. *)
Lemma configured_generator w auth_scopes gens scope path iss sub aud kid exp :
  self_signed_with_file w auth_scopes = Ok gens ->
  auth_scopes !! scope = Some (AuthKeyFile path iss sub aud kid exp) ->
  exists tg, gens !! path = Some tg /\ exists scope' iss' sub' aud' kid' exp',
    auth_scopes !! scope' = Some (AuthKeyFile path iss' sub' aud' kid' exp') /\
    build w (key_file_builder path iss' sub' aud' kid' exp') = Ok tg.
Proof.
  unfold self_signed_with_file. intros H Hscope. apply fmap_Ok_inv in H as (l & Hl & ->).
  apply collect_Ok in Hl.
  assert (forall x : result SelfSignedTokenError (string * TokenGenerator), x ∈ omap (key_file_generator w) (hash_iter auth_scopes) <-> x ∈ Ok <$> l) as Hin
    by (intros x; by rewrite Hl).
  assert (exists tg, (path, tg) ∈ l) as [tg0 Htg0].
  { assert ((fun tg => (path, tg)) <$> build w (key_file_builder path iss sub aud kid exp) ∈ (Ok <$> l)) as Hx.
    { apply Hin, list_elem_of_omap. exists (scope, AuthKeyFile path iss sub aud kid exp).
      split; [by apply elem_of_hash_iter|done]. }
    apply list_elem_of_fmap in Hx as ([p tg] & Heq & Hx). apply fmap_Ok_inv in Heq as (tg' & _ & [= -> ->]). eauto. }
  destruct (object_map_some l path tg0 Htg0) as [tg Htg]. exists tg. split; [done|].
  apply object_map_find in Htg. assert (Ok (path, tg) ∈ (Ok <$> l : list (result SelfSignedTokenError _))) as Hx
    by by apply list_elem_of_fmap_2.
  apply Hin, list_elem_of_omap in Hx as ([scope' c] & Hs & Hc). apply elem_of_hash_iter in Hs.
  unfold key_file_generator in Hc. cbn in Hc. destruct c as [| |p iss' sub' aud' kid' exp']; try done.
  injection Hc as Hc. apply fmap_Ok_inv in Hc as (tg' & Hb & [= <- ->]). eauto 10.
Qed.

(** A key made for RSA does not sign with ES256: the family of the key has to be
    that of the algorithm. *)
Definition refuses_rsa : Prop :=
  forall bytes key kid claims, encoding_key_from_rsa_pem bytes = Ok key ->
    is_ok (jwt_encode ES256 kid claims key) = false.

Lemma key_file_build w path iss sub aud kid exp tg :
  build w (key_file_builder path iss sub aud kid exp) = Ok tg ->
  exists bytes key, w_read_file w path = Ok bytes /\ encoding_key_from_rsa_pem bytes = Ok key /\
    tg = MkGenerator key (generate_fingerprint bytes) None kid iss sub aud exp.
Proof.
  unfold build. cbn. intros H. apply bind_Ok_inv in H as (bytes & Hr & H). apply map_err_Ok in Hr.
  apply bind_Ok_inv in H as (key & Hk & H). apply map_err_Ok in Hk. injection H as <-. eauto 6.
Qed.

Lemma rsa_generate_fails w tg subject audience bytes :
  refuses_rsa -> encoding_key_from_rsa_pem bytes = Ok (tg_private_key tg) ->
  exists e, generate w tg subject audience = Err e.
Proof.
  intros Hrsa Hkey. unfold generate. destruct (w_hostname w) as [h|e]; cbn [map_err mbind result_bind]; [|eauto].
  unfold generate_impl. match goal with |- context [jwt_encode ES256 ?kid ?c ?k] =>
    pose proof (Hrsa bytes k kid c Hkey) as Hf; destruct (jwt_encode ES256 kid c k) end; [done|]. cbn. eauto.
Qed.

(** A service that starts has a generator for every scope configured with a
    key file, made from that file; but as it signs with ES256 whatever the key,
    and a key file is read as an RSA key, asking for a token of such a scope
    that is not cached always fails. *)
Theorem key_file_scopes_never_signed w oidc auth_scopes idp ks access path0 files f s scope path iss sub aud kid exp w' identity :
  refuses_rsa ->
  from_config identity_hash from_utf8 documents w oidc auth_scopes idp ks access path0 files f = Ok s ->
  auth_scopes !! scope = Some (AuthKeyFile path iss sub aud kid exp) ->
  (exists tg bytes, tp_self_signed_with_file (ts_providers (as_token_store s)) !! path = Some tg /\
     w_read_file w path = Ok bytes /\ tg_private_key_fingerprint tg = generate_fingerprint bytes) /\
  exists e, (get_token w' identity scope (ts_providers (as_token_store s))).2 = Err (Generic e).
Proof.
  intros Hrsa H Hscope. unfold from_config in H. apply bind_Ok_inv in H as (gens & Hg & H).
  apply map_err_Ok in Hg. injection H as <-.
  destruct (configured_generator w auth_scopes gens scope path iss sub aud kid exp Hg Hscope)
    as (tg & Htg & scope' & iss' & sub' & aud' & kid' & exp' & _ & Hb).
  apply key_file_build in Hb as (bytes & key & Hr & Hk & ->). split; [by eauto|].
  unfold get_token. cbn [as_token_store ts_providers tp_scope_mappings]. rewrite Hscope.
  cbn [tp_self_signed_with_file snd]. rewrite Htg. cbn [ok_or mbind result_bind].
  destruct (rsa_generate_fails w' (MkGenerator key (generate_fingerprint bytes) None kid' iss' sub' aud' exp')
    (id_email identity) scope bytes Hrsa Hk) as [e ->]. cbn. eauto.
Qed.
End key_files.

(** ** Witnesses *)
Module Start.
Import Concrete.
Local Existing Instance key_order.
#[local] Instance value_text : JsonText := {|
  json_text := option Value; json_to_text := Some;
  json_from_text := ok_or "EOF"; json_from_to_text := fun v => eq_refl |}.

Definition claims : Claims := MkClaims "op" "ada" "firm" 1000 500 {[ "hd" := VString "example.com" ]}.
Definition mail_token : OidcToken := MkOidcToken (MkAuthToken "a" 500 "id" "r" "openid" "Bearer")
  (MkAuthContext 950 "firm" "secret" "https://op/token" "https://op/keys" ["example.com"; "example.org"]
     [RS256; OtherAlgorithm "PS256"] claims).
Definition own_token : JwtToken := MkJwtToken "jwt" "build"
  (MkGenerator tt "f" None None None None None None) 900 (MkStandardClaims "ada" 900 "firm" "build" 500) "ada".
Definition cache : TokenCache :=
  MkTokenCache {[ "mail" := TOidc mail_token; "build" := TInternal own_token ]} ∅.
Definition cache_file : CacheFile := MkCacheFile (Some "/data") None None None None.

Lemma token_cache_survives_restart_witness :
  cache_new ∅ (cache_drop cache cache_file) = MkTokenCache {[ "mail" := TOidc mail_token ]} ∅ /\
  cache_get (cache_new ∅ (cache_drop cache cache_file)) "mail" = Some (TOidc mail_token).
Proof.
  assert (map_Forall (fun _ => typed_token_ok) (tc_tokens cache)) as Hok.
  { apply map_Forall_insert_2; [|by apply map_Forall_singleton].
    split; [intros k Hk; unfold claim_names in Hk; set_unfold in Hk; destruct_or!; by subst|].
    intros a Ha. set_unfold in Ha. destruct_or!; by subst. }
  pose proof (token_cache_survives_restart cache ∅ cache_file Hok eq_refl eq_refl) as H.
  change (cache_new ∅ (cache_drop cache cache_file) = MkTokenCache (saved_tokens (tc_tokens cache)) ∅) in H.
  rewrite H. split; reflexivity.
Defined.

(** Keys know whether they are for RSA. *)
#[local] Program Instance family_jwt : JwtLib := {|
  EncodingKey := bool;
  DecodingKey := unit;
  encoding_key_from_rsa_pem := fun b => Ok true;
  encoding_key_from_ec_pem := fun b => Ok false;
  encoding_key_from_ec_der := fun b => false;
  decoding_key_from_ec_pem := fun b => Ok tt;
  decoding_key_from_rsa_components := fun n e => tt;
  jwt_encode := fun alg kid claims (key : bool) => if key then Err "InvalidAlgorithm" else Ok "token";
  jwt_decode_header := fun token => Ok None;
  jwt_decode := fun now token key v => Err "InvalidToken"
|}.
Next Obligation. done. Qed.

Definition world : World := MkWorld 600 (Ok "host") (fun _ _ => Err StateMismatch) (fun _ => Err StateMismatch)
  None (fun _ => Ok []) (Err FailedToGenerateKeyPair) (fun _ _ => None) (fun _ => Err StateMismatch).
Definition documents : DocumentService := MkDocumentService (fun _ _ => Err (KSError "none")) (fun _ _ _ => Err (KSError "none")).
Definition scopes : gmap string AuthConfig := {[ "deploy" := AuthKeyFile "/key.pem" None None None None None ]}.
Definition started : result string AuthService :=
  from_config (fun _ => "0") (fun _ => Err "utf8") documents world ∅ scopes IdUsername KeyStoreNone (MkAllowConfig [])
    "/store" ∅ cache_file.
Definition deploy_token (s : AuthService) : result AcquireTokenError TypedToken :=
  (get_token world (MkIdentity "ada" "ada@example.com") "deploy" (ts_providers (as_token_store s))).2.

Lemma key_file_scopes_never_signed_witness :
  is_ok started = true /\ forallb (fun s => negb (is_ok (deploy_token s))) (option_list (result_ok started)) = true.
Proof.
  split; [reflexivity|]. destruct started as [s|e] eqn:Hs; [|reflexivity]. change (negb (is_ok (deploy_token s)) && true = true).
  assert (refuses_rsa) as Hrsa by (intros bytes key kid c [= <-]; reflexivity).
  destruct (key_file_scopes_never_signed (fun _ => "0") (fun _ => Err "utf8") documents world ∅ scopes IdUsername
    KeyStoreNone (MkAllowConfig []) "/store" ∅ cache_file s "deploy" "/key.pem" None None None None None world
    (MkIdentity "ada" "ada@example.com") Hrsa Hs eq_refl) as [_ [e He]].
  unfold deploy_token. rewrite He. reflexivity.
Defined.
End Start.
