(* ===== verification/LoginProps.v ===== *)
(** * Which token a scope has after a login

    A login asks each OIDC provider once and stores the token under one scope of
    the provider; the cache finds it for the other scopes through the alias map.
    Both go through the scopes in the order of the same hash map. *)
From S2P Require Import Prelude Interfaces Json Config Tokens TokenStore TokenProps KeyStore ExpireMap OidcLogin OidcLoginProps Access AuthStart AuthStartProps.

(** ** Dropping adjacent duplicates *)
Section dedup.
Context {A K : Type} `{EqDecision K} (key : A -> K).
Implicit Types l : list A.

Lemma dedup_from_sublist (a : A) l : dedup_by_key_from key a l `sublist_of` l.
Proof.
  revert a. induction l as [|b l IH]; intros a; cbn; [constructor|]. case_decide; by constructor.
Qed.
Lemma dedup_sublist l : dedup_by_key key l `sublist_of` l.
Proof. destruct l as [|a l]; cbn; [constructor|]. constructor. apply dedup_from_sublist. Qed.

Lemma dedup_sub l (x : A) : x ∈ dedup_by_key key l -> x ∈ l.
Proof. intros H. eapply elem_of_submseteq; [exact H|]. apply sublist_submseteq, dedup_sublist. Qed.

Lemma dedup_from_first (a : A) l1 (x : A) l2 :
  key a <> key x -> (forall y, y ∈ l1 -> key y <> key x) -> x ∈ dedup_by_key_from key a (l1 ++ x :: l2).
Proof.
  revert a. induction l1 as [|b l1 IH]; intros a Ha Hl; cbn.
  - rewrite decide_False by congruence. set_solver.
  - case_decide; [|right]; apply IH; set_solver.
Qed.
(** The first element with a key is kept. *)
Lemma dedup_first l1 (x : A) l2 :
  (forall y, y ∈ l1 -> key y <> key x) -> x ∈ dedup_by_key key (l1 ++ x :: l2).
Proof.
  destruct l1 as [|a l1]; intros Hl; cbn; [set_solver|]. right. apply dedup_from_first; set_solver.
Qed.

Lemma dedup_from_last (a : A) l (x : A) :
  dedup_by_key_from key a (l ++ [x]) = dedup_by_key_from key a l ++
    (if decide (key x = key (default a (last l))) then [] else [x]).
Proof.
  revert a. induction l as [|b l IH]; intros a; [cbn; by case_decide|].
  rewrite last_cons. cbn [app dedup_by_key_from default]. case_decide as Hd; rewrite IH.
  - destruct (last l); cbn; [done|]. by rewrite Hd.
  - by destruct (last l).
Qed.
(** The last element is dropped only when the one before has its key. *)
Lemma dedup_last l (x : A) : x ∈ dedup_by_key key (l ++ [x]) \/ exists y, last l = Some y /\ key y = key x.
Proof.
  destruct l as [|a l]; cbn [app dedup_by_key]; [left; set_solver|].
  rewrite dedup_from_last, last_cons. case_decide as Hd; [|left; set_solver]. right.
  destruct (last l) as [y|]; cbn in Hd; [exists y|exists a]; done.
Qed.
End dedup.

#[local] Instance identity_provider_eq_dec : EqDecision IdentityProvider.
Proof. solve_decision. Defined.

Section login_scopes.
Context {DL : DigestLib} {JL : JwtLib} {EL : EncodingLib} {HO : HashOrder}.
Variable identity_hash : IdentityProvider -> string.
Abbreviation scope_key := (scope_key identity_hash).
Abbreviation served_by := (served_by identity_hash).

(** The OIDC scopes in the order of the map, with their providers. *)
Definition oidc_scopes (auth_scopes : gmap string AuthConfig) : list (string * string) :=
  omap (fun '(scope, c) => match c with AuthOidc provider => Some (scope, provider) | _ => None end)
    (hash_iter auth_scopes).
Definition of_provider (p : string) (l : list (string * string)) : list string :=
  (filter (fun kp => kp.2 = p) l).*1.

Lemma elem_of_oidc_scopes auth_scopes k p :
  (k, p) ∈ oidc_scopes auth_scopes <-> auth_scopes !! k = Some (AuthOidc p).
Proof.
  unfold oidc_scopes. rewrite list_elem_of_omap, <- elem_of_hash_iter. split.
  - intros ([k' c] & Hin & Hc). destruct c; try done. by injection Hc as -> ->.
  - intros H. exists (k, AuthOidc p). done.
Qed.
Lemma oidc_scopes_nodup auth_scopes : NoDup (oidc_scopes auth_scopes).*1.
Proof.
  eapply sublist_NoDup; [apply (hash_iter_nodup auth_scopes)|]. unfold oidc_scopes.
  induction (hash_iter auth_scopes) as [|[k c] l IH]; [done|]. cbn. destruct c; cbn; by constructor.
Qed.

(** The group of a provider: the identity provider's key, then its scopes. *)
Definition identity_group (idp : IdentityProvider) (p : string) : list string :=
  match idp with IdOidc p' => if decide (p' = p) then [scope_key idp] else [] | _ => [] end.
Lemma provider_group auth_scopes idp p :
  default [] (provider_scopes identity_hash auth_scopes idp !! p) =
  identity_group idp p ++ of_provider p (oidc_scopes auth_scopes).
Proof.
  unfold provider_scopes, oidc_scopes.
  induction (hash_iter auth_scopes) as [|[k c] l IH] using rev_ind.
  - cbn. rewrite app_nil_r. unfold identity_group. destruct idp as [p'| | |]; [|by rewrite lookup_empty..].
    destruct (decide (p' = p)) as [->|Hne]; [by rewrite lookup_singleton_eq|by rewrite lookup_singleton_ne].
  - rewrite foldl_snoc, omap_app. set (m0 := foldl add_scope _ l) in *. unfold add_scope. cbn [fst snd].
    destruct c as [p'| |]; cbn [omap list_omap]; [|by rewrite app_nil_r..].
    unfold of_provider in *. rewrite filter_app, fmap_app. destruct (decide (p' = p)) as [->|Hne].
    + rewrite lookup_insert_eq. transitivity (default [] (m0 !! p) ++ [k]); [done|]. rewrite IH, filter_cons_True, <- app_assoc by done. done.
    + rewrite lookup_insert_ne, IH, filter_cons_False by done. by rewrite !app_nil_r.
Qed.

Lemma group_lookup auth_scopes idp k p :
  auth_scopes !! scope_key idp = None -> served_by auth_scopes idp p k ->
  alias_get (create_alias_map identity_hash auth_scopes idp) k =
  Some (identity_group idp p ++ of_provider p (oidc_scopes auth_scopes)).
Proof.
  intros Hfresh Hs. unfold alias_get, create_alias_map. rewrite <- provider_group.
  pose proof (alias_map_lookup (provider_scopes identity_hash auth_scopes idp) k) as Hk.
  destruct (alias_map_from _ !! k) as [l|].
  - destruct Hk as [Hin [p' Hp']]. assert (p' = p) as ->; [|by rewrite Hp'].
    eapply served_unique; [done| |done]. apply provider_scopes_lookup. by rewrite Hp'.
  - apply provider_scopes_lookup in Hs. destruct (provider_scopes _ _ _ !! p) as [l|] eqn:Hp; [|set_solver].
    by destruct (Hk p l Hp).
Qed.
Lemma of_provider_first p l k0 r :
  of_provider p l = k0 :: r -> exists l1 l2, l = l1 ++ (k0, p) :: l2 /\ forall y, y ∈ l1 -> y.2 <> p.
Proof.
  unfold of_provider. induction l as [|[k q] l IH]; [done|].
  destruct (decide (q = p)) as [->|Hne].
  - rewrite filter_cons_True by done. intros [= -> _]. exists [], l. split; [done|]. set_solver.
  - rewrite filter_cons_False by done. intros (l1 & l2 & -> & Hl)%IH. exists ((k, q) :: l1), l2.
    split; [done|]. intros y [->|Hy]%elem_of_cons; [done|]. by apply Hl.
Qed.

(** ** What a login stores *)

Definition login_pairs (s : TokenStore) : list (string * string) :=
  oidc_scopes (tp_scope_mappings (ts_providers s)) ++ identity_scopes identity_hash s.
(** The scopes a token is asked for, with their providers. *)
Definition asked (s : TokenStore) : list (string * string) := dedup_by_key snd (login_pairs s).
(** A token the provider [p] gave at this login. *)
Definition new_token (w : World) (s : TokenStore) (p : string) (t : TypedToken) : Prop :=
  exists oidc t', tp_oidc (ts_providers s) !! p = Some oidc /\ w_authenticate w oidc = Ok t' /\ t = TOidc t'.

Lemma login_pairs_nodup s : configured identity_hash s -> NoDup (login_pairs s).*1.
Proof.
  intros [_ Hfresh]. unfold login_pairs, identity_scopes. rewrite fmap_app. apply NoDup_app.
  split; [apply oidc_scopes_nodup|]. split.
  - intros k Hk Hin. assert (k = scope_key (ts_identity_provider s)) as ->.
    { destruct (ts_identity_provider s); cbn in Hin; set_solver. }
    apply list_elem_of_fmap in Hk as ([k' q] & Heq & Hk). cbn in Heq. subst k'.
    apply elem_of_oidc_scopes in Hk. congruence.
  - destruct (ts_identity_provider s); cbn; repeat constructor; set_solver.
Qed.

Lemma inserted_tokens (tokens : list (string * TypedToken)) c k :
  NoDup tokens.*1 ->
  tc_tokens (foldl (fun c '(n, t) => cache_insert n t c) c tokens) !! k =
    match object_map tokens !! k with Some t => Some t | None => tc_tokens c !! k end /\
  tc_scope_aliases (foldl (fun c '(n, t) => cache_insert n t c) c tokens) = tc_scope_aliases c.
Proof.
  induction tokens as [|[n t] l IH] using rev_ind; [done|]. rewrite fmap_app, NoDup_app. intros (Hl & _ & _).
  rewrite foldl_snoc, object_map_app. cbn. rewrite !lookup_insert. destruct (IH Hl) as [-> ->].
  by case_decide.
Qed.

Lemma store_login_tokens w s s' :
  configured identity_hash s -> store_login identity_hash w s = (s', Ok tt) ->
  tc_scope_aliases (ts_cache s') = tc_scope_aliases (ts_cache s) /\
  forall k, match tc_tokens (ts_cache s') !! k with
            | Some t => (exists p, (k, p) ∈ asked s /\ new_token w s p t) \/
                        ((k ∉ (asked s).*1) /\ tc_tokens (ts_cache s) !! k = Some t)
            | None => k ∉ (asked s).*1
            end.
Proof.
  intros Hcf H. unfold store_login in H. apply sem_bind_Ok in H as (s1 & tokens & Ht & H).
  injection Ht as <- Ht. injection H as <-. cbn [ts_cache set_cache].
  unfold providers_login in Ht. apply bind_Ok_inv in Ht as (l & Hl & Ht). injection Ht as <-.
  change (foldl _ ∅ l) with (object_map l).
  apply collect_Ok in Hl. change (login_scopes _ _) with (asked s) in Hl.
  assert (NoDup (asked s).*1) as Hnd.
  { eapply sublist_NoDup; [apply (login_pairs_nodup s Hcf)|]. apply fmap_sublist, dedup_sublist. }
  assert ((l.*1 = (asked s).*1) /\ Forall (fun kt => exists p, (kt.1, p) ∈ asked s /\ new_token w s p kt.2) l) as [Hkeys Hnew].
  { clear -Hl. revert l Hl. induction (asked s) as [|[k p] S IH]; intros [|[k' t] l] Hl; try done.
    rewrite !fmap_cons in Hl. injection Hl as Ho Hl. destruct (IH l Hl) as [Hk Hall].
    unfold login_one in Ho. cbn in Ho.
    apply bind_Ok_inv in Ho as (oidc & Ho & Hr). apply ok_or_Ok in Ho.
    apply bind_Ok_inv in Hr as (t' & Ha & [= <- <-]). apply map_err_Ok in Ha.
    split; [by rewrite !fmap_cons, Hk|]. constructor.
    - exists p. cbn. split; [set_solver|]. by exists oidc, t'.
    - eapply Forall_impl; [exact Hall|]. intros [k1 t1] (p1 & Hin & Hn). exists p1. cbn in *. set_solver. }
  rewrite <- Hkeys in Hnd. destruct (inserted_tokens (hash_iter (object_map l)) (ts_cache s) EmptyString) as [_ Hal];
    [apply hash_iter_nodup|]. split; [exact Hal|]. intros k.
  destruct (inserted_tokens (hash_iter (object_map l)) (ts_cache s) k) as [-> _]; [apply hash_iter_nodup|].
  rewrite object_map_hash_iter. destruct (object_map l !! k) as [t|] eqn:Hk.
  - apply object_map_lookup in Hk; [|done]. left. by apply (proj1 (Forall_forall _ _) Hnew (k, t)).
  - assert (k ∉ (asked s).*1) as Hno; [|by destruct (tc_tokens (ts_cache s) !! k); auto].
    rewrite <- Hkeys. intros ([k' t] & -> & Hin)%list_elem_of_fmap.
    by apply object_map_some in Hin as [? Hin]; cbn in *; rewrite Hk in Hin.
Qed.

Lemma cache_get_head (c : TokenCache) k k0 r t :
  alias_get (tc_scope_aliases c) k = Some (k0 :: r) -> tc_tokens c !! k0 = Some t -> cache_get c k = Some t.
Proof.
  intros Hal Ht. unfold cache_get, cache_alias. rewrite Hal. cbn.
  rewrite decide_True by by rewrite Ht. cbn. done.
Qed.
Lemma cache_get_tail (c : TokenCache) k k0 k1 r t :
  alias_get (tc_scope_aliases c) k = Some (k0 :: k1 :: r) -> tc_tokens c !! k0 = None ->
  tc_tokens c !! k1 = Some t -> cache_get c k = Some t.
Proof.
  intros Hal Ht0 Ht1. unfold cache_get, cache_alias. rewrite Hal. cbn.
  rewrite decide_False by (rewrite Ht0; by intros []). rewrite decide_True by by rewrite Ht1. cbn. done.
Qed.

(** The first scope of a provider is asked for, so it has a new token. *)
Lemma first_scope_new w s s' p k0 r :
  configured identity_hash s -> store_login identity_hash w s = (s', Ok tt) ->
  of_provider p (oidc_scopes (tp_scope_mappings (ts_providers s))) = k0 :: r ->
  exists t, tc_tokens (ts_cache s') !! k0 = Some t /\ new_token w s p t.
Proof.
  intros Hcf H Hof. destruct (store_login_tokens w s s' Hcf H) as [_ Htok]. specialize (Htok k0).
  apply of_provider_first in Hof as (l1 & l2 & Hl & Hfirst).
  assert ((k0, p) ∈ asked s) as Hin.
  { unfold asked, login_pairs. rewrite Hl, <- app_assoc. cbn [app]. apply dedup_first. by intros y Hy%Hfirst. }
  assert (k0 ∈ (asked s).*1) as Hk by by apply (list_elem_of_fmap_2 fst) in Hin.
  destruct (tc_tokens (ts_cache s') !! k0) as [t|]; [|done].
  destruct Htok as [(q & Hq & Hn)|[Hno _]]; [|done]. exists t. split; [done|].
  assert (q = p) as ->; [|done]. apply dedup_sub in Hin, Hq.
  apply (NoDup_fmap_inj_on fst (login_pairs s) (k0, q) (k0, p)) in Hq; [congruence|..]; try done.
  by apply login_pairs_nodup.
Qed.

Lemma of_provider_elem k p l : (k, p) ∈ l -> k ∈ of_provider p l.
Proof. intros H. apply (list_elem_of_fmap_2' fst _ (k, p)); [|done]. by apply list_elem_of_filter. Qed.
Lemma identity_group_other idp p : idp <> IdOidc p -> identity_group idp p = [].
Proof. intros H. unfold identity_group. destruct idp; try done. rewrite decide_False; congruence. Qed.

(** The key of an identity provider of OIDC: it is skipped only after a scope of
    the same provider. *)
Lemma identity_key_cases w s s' p :
  configured identity_hash s -> store_login identity_hash w s = (s', Ok tt) ->
  ts_identity_provider s = IdOidc p ->
  let L := oidc_scopes (tp_scope_mappings (ts_providers s)) in
  match tc_tokens (ts_cache s') !! scope_key (ts_identity_provider s) with
  | Some t => new_token w s p t \/
      (tc_tokens (ts_cache s) !! scope_key (ts_identity_provider s) = Some t /\ snd <$> last L = Some p)
  | None => of_provider p L <> []
  end.
Proof.
  intros Hcf H Hidp L. pose proof Hcf as [_ Hfresh].
  destruct (store_login_tokens w s s' Hcf H) as [_ Htok].
  specialize (Htok (scope_key (ts_identity_provider s))). set (key := scope_key _) in *.
  assert (asked s = dedup_by_key snd (L ++ [(key, p)])) as Hasked.
  { unfold asked, login_pairs, identity_scopes. subst key. by rewrite Hidp. }
  assert (key ∉ (asked s).*1 -> exists y, last L = Some y /\ y.2 = p) as Hskip.
  { intros Hno. destruct (dedup_last snd L (key, p)) as [Hin|Hy]; [|done].
    destruct Hno. rewrite Hasked. by apply (list_elem_of_fmap_2 fst) in Hin. }
  destruct (tc_tokens (ts_cache s') !! key) as [t|].
  - destruct Htok as [(q & Hq & Hn)|[Hno Hold]].
    + left. assert (q = p) as ->; [|done]. rewrite Hasked in Hq. apply dedup_sub, elem_of_app in Hq as [Hq|Hq].
      * apply elem_of_oidc_scopes in Hq. congruence.
      * set_solver.
    + right. split; [done|]. destruct (Hskip Hno) as (y & -> & <-). done.
  - destruct (Hskip Htok) as ([k q] & Hy & [= ->]). apply last_Some_elem_of in Hy.
    apply of_provider_elem in Hy. intros Hnil. rewrite Hnil in Hy. set_solver.
Qed.

(** The token a scope has after a login. *)
Lemma store_login_serves w s s' k p :
  configured identity_hash s ->
  served_by (tp_scope_mappings (ts_providers s)) (ts_identity_provider s) p k ->
  store_login identity_hash w s = (s', Ok tt) ->
  exists t, cache_get (ts_cache s') k = Some t /\
    (new_token w s p t \/
     (ts_identity_provider s = IdOidc p /\
      tc_tokens (ts_cache s) !! scope_key (ts_identity_provider s) = Some t /\
      snd <$> last (oidc_scopes (tp_scope_mappings (ts_providers s))) = Some p)).
Proof.
  intros Hcf Hs H. pose proof Hcf as [Hal Hfresh].
  destruct (store_login_tokens w s s' Hcf H) as [Hal' _].
  pose proof (group_lookup _ _ k p Hfresh Hs) as Hg. rewrite <- Hal, <- Hal' in Hg.
  pose proof (identity_key_cases w s s' p Hcf H) as Hkey. cbv zeta in Hkey.
  set (idp := ts_identity_provider s) in *. set (L := oidc_scopes _) in *.
  assert (forall k0 r, of_provider p L = k0 :: r -> exists t, tc_tokens (ts_cache s') !! k0 = Some t /\ new_token w s p t)
    as Hfirst by (intros k0 r; by apply first_scope_new).
  destruct (decide (idp = IdOidc p)) as [Hidp|Hidp].
  - assert (identity_group idp p = [scope_key idp]) as Hig by (rewrite Hidp; cbn; by rewrite decide_True).
    rewrite Hig in Hg. cbn [app] in Hg. specialize (Hkey Hidp).
    destruct (tc_tokens (ts_cache s') !! scope_key idp) as [t|] eqn:Ht.
    + exists t. split; [by eapply cache_get_head|]. destruct Hkey; [by left|right; tauto].
    + destruct (of_provider p L) as [|k1 r]; [done|].
      destruct (Hfirst k1 r eq_refl) as (t & Ht1 & Hn). exists t. split; [by eapply cache_get_tail|by left].
  - rewrite (identity_group_other _ _ Hidp) in Hg. cbn [app] in Hg.
    destruct (of_provider p L) as [|k0 r] eqn:Hof.
    + destruct Hs as [Hs|[? _]]; [|done]. apply elem_of_oidc_scopes, of_provider_elem in Hs.
      fold L in Hs. rewrite Hof in Hs. set_solver.
    + destruct (Hfirst k0 r eq_refl) as (t & Ht & Hn). exists t. split; [by eapply cache_get_head|by left].
Qed.
End login_scopes.

(** ** The login handler *)
Section login_handler.
Context {DL : DigestLib} {JL : JwtLib} {EL : EncodingLib} {HO : HashOrder} {UL : UuidLib}.
Context {RL : RngLib} {QL : RequestLib}.
Variable identity_hash : IdentityProvider -> string.
Variable answers : OidcProvider -> LoginAnswers.
Variable start : OidcProvider -> LoginState.
Hypothesis start_commands : forall p, ls_commands (start p) = [].

Lemma commands_sent w self scopes l :
  collect (login_one (with_login answers start w) self <$> scopes) = Ok l ->
  length (login_commands answers start w self scopes) = length scopes.
Proof.
  revert l. induction scopes as [|[k p] scopes IH]; intros l Hl; [done|].
  rewrite fmap_cons in Hl. cbn [collect] in Hl. apply bind_Ok_inv in Hl as ([k' t] & Ho & Hl).
  apply bind_Ok_inv in Hl as (l' & Hl & _). specialize (IH l' Hl).
  unfold login_one in Ho. cbn in Ho. apply bind_Ok_inv in Ho as (oidc & Ho & Ha). apply ok_or_Ok in Ho.
  apply bind_Ok_inv in Ha as (t' & Ha & _). apply map_err_Ok in Ha.
  cbn [login_commands]. rewrite Ho.
  destruct (OidcLogin.authenticate w (answers oidc) oidc (start oidc)) as [st r] eqn:Hau. cbn in Ha. subst r.
  apply authenticate_commands in Hau as [url Hurl]. rewrite start_commands in Hurl. cbn [is_ok].
  rewrite Hurl. cbn. by rewrite IH.
Qed.

(** C14: When the stream of a login ends without an error, it held one command
    per scope a token was asked for, and afterwards every scope of an OIDC
    provider has a token that the provider gave at this login -- with one
    exception: when the provider is also the identity provider, and the last
    OIDC scope in the order of the map is one of its scopes, an older token kept
    under the key of the identity stays in use for all of them. *)
Theorem login_serves_scopes w (s s' : AuthService) stream k p :
  configured identity_hash (as_token_store s) ->
  login identity_hash answers start w s = (s', stream) -> Forall (fun r => is_ok r = true) stream ->
  let store := as_token_store s in
  served_by identity_hash (tp_scope_mappings (ts_providers store)) (ts_identity_provider store) p k ->
  length stream = length (asked identity_hash store) /\
  exists t, cache_get (ts_cache (as_token_store s')) k = Some t /\
    (new_token (with_login answers start w) store p t \/
     (ts_identity_provider store = IdOidc p /\
      tc_tokens (ts_cache store) !! scope_key identity_hash (ts_identity_provider store) = Some t /\
      snd <$> last (oidc_scopes (tp_scope_mappings (ts_providers store))) = Some p)).
Proof.
  intros Hcf H Hok store Hs. unfold login in H. fold store in H.
  destruct (store_login identity_hash (with_login answers start w) store) as [store' [[]|e]] eqn:Hst.
  - injection H as <- <-. rewrite app_nil_r, length_fmap. split; [|by apply store_login_serves].
    unfold store_login in Hst. apply sem_bind_Ok in Hst as (s1 & tokens & Ht & _). injection Ht as _ Ht.
    unfold providers_login in Ht. apply bind_Ok_inv in Ht as (l & Hl & _). by apply (commands_sent w _ _ l).
  - injection H as <- <-. apply Forall_app in Hok as [_ Hok]. by inversion Hok.
Qed.
End login_handler.

(** ** Witness *)
Module Again.
Import Concrete.
#[local] Existing Instance key_order.
#[local] Existing Instance Login.counter_rng.
#[local] Existing Instance Login.plain_requests.
#[local] Existing Instance Login.provider_jwt.

Definition hash (_ : IdentityProvider) : string := "0".
Definition idp : IdentityProvider := IdOidc "op".
Definition scopes : gmap string AuthConfig := {[ "mail" := AuthOidc "op" ]}.
(** A token of an earlier login, kept under the key of the identity. *)
Definition old_token : TypedToken := TOidc (MkOidcToken (MkAuthToken "a" 500 "old" "revoked" "openid" "Bearer")
  (MkAuthContext 500 "firm" "secret" "https://op/token" "https://op/keys" [] [RS256] (MkClaims "op" "ada" "firm" 500 0 ∅))).
Definition store (tokens : gmap string TypedToken) : TokenStore := MkTokenStore
  (MkTokenCache tokens (create_alias_map hash scopes idp))
  (MkProviders {[ "op" := Login.provider ]} (MkSelfSigned None "keys" ∅) ∅ scopes) None idp.
Definition service (tokens : gmap string TypedToken) : AuthService :=
  MkAuthService (store tokens) NullKeyStore (em_of_list []) em_empty ∅ 0 [].
Definition logged_in (tokens : gmap string TypedToken) : AuthService * list (result Status string) :=
  login hash (fun _ => Login.answers Login.state_value) (fun _ => Login.start) Login.world (service tokens).
Definition mail_token (tokens : gmap string TypedToken) : option string :=
  token_text <$> cache_get (ts_cache (as_token_store (logged_in tokens).1)) "mail".

(** Without an old token the new one is found; with one, the old one is. *)
Lemma login_serves_scopes_witness :
  mail_token ∅ = Some "id" /\
  mail_token {[ TokenStore.scope_key hash idp := old_token ]} = Some "old" /\
  length (logged_in ∅).2 = 1 /\
  exists t, cache_get (ts_cache (as_token_store (logged_in ∅).1)) "mail" = Some t.
Proof.
  split; [vm_compute; reflexivity|]. split; [vm_compute; reflexivity|].
  assert (forallb is_ok (logged_in ∅).2 = true) as Hok by (vm_compute; reflexivity).
  destruct (logged_in ∅) as [s' stream] eqn:Hl. unfold logged_in in Hl.
  assert (configured hash (as_token_store (service ∅))) as Hcf by (split; reflexivity).
  assert (Forall (fun r => is_ok r = true) stream) as Hall.
  { apply Forall_forall. intros r Hr. apply (proj1 (forallb_forall _ _) Hok). by apply list_elem_of_In. }
  destruct (login_serves_scopes hash (fun _ => Login.answers Login.state_value) (fun _ => Login.start) (fun _ => eq_refl)
    Login.world (service ∅) s' stream "mail" "op" Hcf Hl Hall (or_introl eq_refl))
    as (Hlen & t & Ht & _).
  split; [change (length stream = 1); rewrite Hlen; vm_compute; reflexivity|]. exists t. exact Ht.
Defined.
End Again.
