(* ===== verification/AccessProps.v ===== *)
(** * Properties of the authentication service

    Who has access and why, what authenticating answers, and three flaws: a
    denial grants, only the last waiting client is woken, and a key whose upload
    failed is never uploaded again. *)
From S2P Require Import Prelude Interfaces Config Tokens TokenStore KeyStore TokenProps ExpireMap Access.

(** ** Expiring entries *)
Section expiry.
Context {K V : Type} `{Countable K}.

(** An entry inserted with an expiry is there until then and gone from then
    on, unless an expiry task of an earlier insertion of the same key is still
    asleep: then the earliest of all of them removes the entry, whichever
    insertion it belongs to. *)
Theorem em_lifetime (m : ExpireMap (K := K) (V := V)) k v expiry now :
  em_map (elapse now (em_insert k v (Some expiry) m)) !! k = Some v <->
  (now < expiry)%N /\ forall t, (t, k) ∈ em_timers m -> (now < t)%N.
Proof.
  rewrite lookup_elapse. cbn. rewrite lookup_insert_eq. setoid_rewrite elem_of_cons. split.
  - intros [_ Hall]. split; [apply Hall; by left | intros t Ht; apply Hall; by right].
  - intros [Hnow Hall]. split; [done|]. intros t [[= ->]|Ht]; auto.
Qed.
End expiry.

Section access_props.
Context {DL : DigestLib} {JL : JwtLib} {EL : EncodingLib} {HO : HashOrder} {UL : UuidLib}.
Variable identity_hash : IdentityProvider -> string.
Implicit Types s : AuthService.

Lemma em_contains_iff {K V} `{Countable K} k (m : ExpireMap (K := K) (V := V)) :
  em_contains k m = true <-> is_Some (em_map m !! k).
Proof. unfold em_contains. by rewrite bool_decide_eq_true. Qed.

(** ** Statements that leave the lists alone *)
Definition same_lists s s' : Prop :=
  as_access_list s' = as_access_list s /\ as_pending s' = as_pending s /\
  as_wait_states s' = as_wait_states s /\ as_next s' = as_next s /\ as_woken s' = as_woken s /\
  as_key_store s' = as_key_store s.

#[local] Instance same_lists_preorder : PreOrder same_lists.
Proof. split; [done|]. intros a b c (?&?&?&?&?&?) (?&?&?&?&?&?). unfold same_lists. split_and!; congruence. Qed.

Lemma on_token_store_lists {A} (h : sem TokenStore Status A) s : same_lists s (on_token_store h s).1.
Proof. unfold on_token_store. by destruct (h (as_token_store s)). Qed.

Lemma sem_bind_rel {A B} (R : relation AuthService) `{!Transitive R}
    (m : service A) (f : A -> service B) s :
  R s (m s).1 -> (forall a s', R s' (f a s').1) -> R s ((m ≫= f) s).1.
Proof.
  intros Hm Hf. unfold mbind, sem_bind. destruct (m s) as [s1 [a|e]]; [|done].
  transitivity s1; [done|apply Hf].
Qed.

Lemma token_subject_lists w payload s : same_lists s (token_subject w payload s).1.
Proof.
  unfold token_subject. apply sem_bind_rel; [apply _|done|]. intros kid s1.
  apply sem_bind_rel; [apply _|done|]. intros key_id s2.
  apply sem_bind_rel; [apply _|apply on_token_store_lists|]. intros key s3.
  apply sem_bind_rel; [apply _|done|]. intros dk s4.
  apply sem_bind_rel; [apply _|done|]. intros claims s5. done.
Qed.

Lemma auth_acquire_lists w scope s : same_lists s (auth_acquire_token identity_hash w scope s).1.
Proof.
  unfold auth_acquire_token. apply sem_bind_rel; [apply _|apply on_token_store_lists|]. intros [t k] s1.
  apply sem_bind_rel; [apply _| |done]. unfold upload_key. destruct k as [[c i]|]; [apply on_token_store_lists|done].
Qed.

(** ** What authenticating answers *)



Lemma authenticate_shape w clock new_id payload s s1 sub exp :
  token_subject w payload s = (s1, Ok (sub, exp)) ->
  authenticate w clock new_id payload s =
  if em_contains sub (as_access_list s) then (s1, Ok None)
  else if ap_create_remote_access_request payload then
    match expiry_instant clock exp with
    | Ok expiry =>
        (set_pending (em_insert new_id (MkPending sub exp false (as_next s)) (Some expiry) (as_pending s))
           (new_wait_state (MkWaitState false None) s1), Ok (Some (uuid_to_string new_id)))
    | Err e => (s1, Err e)
    end
  else (s1, Err (MkStatus CPermissionDenied EmptyString)).
Proof.
  intros Hsub.
  pose proof (token_subject_lists w payload s) as Hl. rewrite Hsub in Hl.
  destruct Hl as (Ha & Hp & Hw & Hn & _). cbn [fst] in Ha, Hp, Hw, Hn.
  unfold authenticate. unfold mbind at 1, sem_bind at 1. rewrite Hsub.
  unfold mbind, sem_bind, sem_ask, request_id. rewrite Ha.
  destruct (em_contains sub (as_access_list s)); [done|].
  destruct (ap_create_remote_access_request payload); [|done].
  unfold insert_request, sem_lift, sem_modify. cbv [mbind sem_bind mret sem_ret].
  destruct (expiry_instant clock exp) as [expiry|e]; [|done].
  cbn [as_pending new_wait_state]. by rewrite Hp, Hn.
Qed.

(** ** Access is granted by answers only *)
Inductive call :=
| CallAuthenticate (w : World) (clock : Clock) (new_id : uuid) (payload : AuthenticationParameters)
| CallApprove (clock : Clock) (request : RemoteAccessApproval)
| CallCancel (id : string)
| CallWaitPoll (id : string) (loc waker : N)
| CallAcquireToken (w : World) (scope : string)
| CallGetIdentity (w : World)
| Tick (now : N).
Definition perform (c : call) s : AuthService :=
  match c with
  | CallAuthenticate w clock new_id payload => (authenticate w clock new_id payload s).1
  | CallApprove clock request => (approve_remote_access_request clock request s).1
  | CallCancel id => (cancel_remote_access_request id s).1
  | CallWaitPoll id loc waker => (wait_poll id loc waker s).1
  | CallAcquireToken w scope => (auth_acquire_token identity_hash w scope s).1
  | CallGetIdentity w => (auth_get_identity identity_hash w s).1
  | Tick now => tick now s
  end.
Definition run (calls : list call) s : AuthService := foldl (fun s c => perform c s) s calls.

Lemma run_snoc calls c s : run (calls ++ [c]) s = perform c (run calls s).
Proof. unfold run. by rewrite foldl_snoc. Qed.

(** The call answers a pending request of [sub], with approval or denial, while
    its expiry can be represented. *)
Definition answers (approved : bool) (c : call) s (sub : string) : Prop :=
  exists clock request id uuid req expiry, c = CallApprove clock request /\ ra_approved request = approved /\
    ra_id request = Some id /\ uuid_parse id = Ok uuid /\ em_map (as_pending s) !! uuid = Some req /\
    par_subject req = sub /\ expiry_instant clock (par_expires_at req) = Ok expiry.
Definition denial (c : call) : Prop :=
  match c with CallApprove _ request => ra_approved request = false | _ => False end.
(** The call creates the pending request [req] from a token that passed the
    checks. *)
Definition requests_access (c : call) s (req : PendingAccessRequest) : Prop :=
  exists w clock new_id payload, c = CallAuthenticate w clock new_id payload /\
    ap_create_remote_access_request payload = true /\
    (token_subject w payload s).2 = Ok (par_subject req, par_expires_at req).

Lemma approve_shape clock request s :
  let r := approve_remote_access_request clock request s in
  (r.1 = s) \/
  exists id uuid req, ra_id request = Some id /\ uuid_parse id = Ok uuid /\
    em_map (as_pending s) !! uuid = Some req /\
    let s1 := set_pending (em_update uuid (set_approved (ra_approved request)) (as_pending s)) s in
    match expiry_instant clock (par_expires_at req) with
    | Ok expiry =>
        r = (approve_wait_state (par_wait_state req)
               (set_access_list (em_insert (par_subject req) tt (Some expiry) (as_access_list s)) s1),
             Ok (request_message uuid (set_approved (ra_approved request) req)))
    | Err e => r = (s1, Err e)
    end.
Proof.
  unfold approve_remote_access_request, sem_lift, sem_ask, sem_modify, parse_request_id.
  cbv [mbind sem_bind mret sem_ret].
  destruct (ra_id request) as [id|]; [|by left]. cbn [ok_or].
  destruct (uuid_parse id) as [uuid|e] eqn:Hu; [|by left]. cbn [map_err].
  destruct (em_map (as_pending s) !! uuid) as [req|] eqn:Hreq; [|by left]. cbn [ok_or].
  right. exists id, uuid, req. split_and!; [done..|]. cbv zeta.
  by destruct (expiry_instant clock (par_expires_at req)).
Qed.

Lemma approve_wait_state_lists loc s :
  as_access_list (approve_wait_state loc s) = as_access_list s /\
  as_pending (approve_wait_state loc s) = as_pending s.
Proof. unfold approve_wait_state. by destruct (as_wait_states s !! loc) as [[[] ?]|]. Qed.

Lemma wait_poll_lists id loc waker s :
  as_access_list (wait_poll id loc waker s).1 = as_access_list s /\
  as_pending (wait_poll id loc waker s).1 = as_pending s.
Proof.
  unfold wait_poll, approval_poll. destruct (as_wait_states s !! loc) as [[[] st]|]; cbn; [done| |done].
  destruct (ws_approved st); [|done].
  unfold get_remote_access_request, sem_lift, sem_ask, parse_request_id. cbv [mbind sem_bind].
  by destruct (uuid_parse id).
Qed.

Lemma authenticate_lists w clock new_id payload s :
  as_access_list (authenticate w clock new_id payload s).1 = as_access_list s /\
  forall uuid req, em_map (as_pending (authenticate w clock new_id payload s).1) !! uuid = Some req ->
    em_map (as_pending s) !! uuid = Some req \/
    requests_access (CallAuthenticate w clock new_id payload) s req.
Proof.
  pose proof (token_subject_lists w payload s) as Hl.
  destruct (token_subject w payload s) as [s1 [[sub exp]|e]] eqn:Hs; destruct Hl as (Ha & Hp & _); cbn in Ha, Hp.
  - rewrite (authenticate_shape _ _ _ _ _ _ _ _ Hs).
    destruct (em_contains sub (as_access_list s)); [cbn; rewrite Ha, Hp; auto|].
    destruct (ap_create_remote_access_request payload) eqn:Hcreate; [|cbn; rewrite Ha, Hp; auto].
    destruct (expiry_instant clock exp); [|cbn; rewrite Ha, Hp; auto]. cbn. split; [done|].
    intros uuid req [[_ <-]|[_ Hreq]]%lookup_insert_Some; [right|by left].
    exists w, clock, new_id, payload. split_and!; [done..|]. by rewrite Hs.
  - unfold authenticate. unfold mbind at 1, sem_bind at 1. rewrite Hs.
    unfold mbind, sem_bind. rewrite Hs. cbn. rewrite Ha, Hp. auto.
Qed.

Lemma cancel_lists id s :
  as_access_list (cancel_remote_access_request id s).1 = as_access_list s /\
  forall uuid req, em_map (as_pending (cancel_remote_access_request id s).1) !! uuid = Some req ->
    em_map (as_pending s) !! uuid = Some req.
Proof.
  unfold cancel_remote_access_request, sem_lift, sem_ask, sem_modify, parse_request_id.
  cbv [mbind sem_bind mret sem_ret]. destruct (uuid_parse id) as [u|]; [|done]. cbn [map_err].
  destruct (em_map (as_pending s) !! u); [|done]. cbn. split; [done|].
  intros uuid req. rewrite lookup_delete_Some. tauto.
Qed.

Lemma identity_lists w s : same_lists s (auth_get_identity identity_hash w s).1.
Proof. apply on_token_store_lists. Qed.

Lemma perform_access c s sub :
  em_contains sub (as_access_list (perform c s)) = true ->
  em_contains sub (as_access_list s) = true \/ exists approved, answers approved c s sub.
Proof.
  destruct c as [w clock new_id payload|clock request|id|id loc waker|w scope|w|now]; cbn [perform].
  - rewrite (proj1 (authenticate_lists _ _ _ _ _)). auto.
  - destruct (approve_shape clock request s) as [->|(id & uuid & req & Hid & Hu & Hreq & Hr)]; [auto|].
    destruct (expiry_instant clock (par_expires_at req)) as [expiry|] eqn:Hexp; rewrite Hr; cbn [fst]; [|auto].
    rewrite (proj1 (approve_wait_state_lists _ _)), em_contains_iff. cbn.
    intros [v [[<- _]|[_ Hv]]%lookup_insert_Some]; [right | left; rewrite em_contains_iff; eauto].
    by exists (ra_approved request), clock, request, id, uuid, req, expiry.
  - rewrite (proj1 (cancel_lists _ _)). auto.
  - rewrite (proj1 (wait_poll_lists _ _ _ _)). auto.
  - rewrite (proj1 (auth_acquire_lists _ _ _)). auto.
  - rewrite (proj1 (identity_lists _ _)). auto.
  - rewrite !em_contains_iff. intros [v [Hv _]%lookup_elapse]. eauto.
Qed.

Lemma perform_pending c s uuid req :
  em_map (as_pending (perform c s)) !! uuid = Some req ->
  requests_access c s req \/
  exists req0, em_map (as_pending s) !! uuid = Some req0 /\
    par_subject req0 = par_subject req /\ par_expires_at req0 = par_expires_at req.
Proof.
  destruct c as [w clock new_id payload|clock request|id|id loc waker|w scope|w|now]; cbn [perform].
  - intros [Hr|Hr]%(proj2 (authenticate_lists _ _ _ _ _)); eauto.
  - destruct (approve_shape clock request s) as [->|(id & u & req' & Hid & Hu & Hreq & Hr)]; [eauto|].
    intros Hp. right.
    assert (em_map (em_update u (set_approved (ra_approved request)) (as_pending s)) !! uuid = Some req) as Hup.
    { destruct (expiry_instant clock (par_expires_at req')); rewrite Hr in Hp; cbn [fst] in Hp; [|done].
      by rewrite (proj2 (approve_wait_state_lists _ _)) in Hp. }
    cbn in Hup. rewrite lookup_alter in Hup. case_decide; [|eauto]. subst u. rewrite Hreq in Hup.
    injection Hup as <-. by exists req'.
  - intros Hr%(proj2 (cancel_lists _ _)). eauto.
  - rewrite (proj2 (wait_poll_lists _ _ _ _)). eauto.
  - rewrite (proj1 (proj2 (auth_acquire_lists _ _ _))). eauto.
  - rewrite (proj1 (proj2 (identity_lists _ _))). eauto.
  - intros [Hr _]%lookup_elapse. eauto.
Qed.

Lemma run_pending calls s uuid req :
  em_map (as_pending (run calls s)) !! uuid = Some req ->
  (exists req0, em_map (as_pending s) !! uuid = Some req0 /\ par_subject req0 = par_subject req) \/
  exists pre c post req0, calls = pre ++ c :: post /\ requests_access c (run pre s) req0 /\
    par_subject req0 = par_subject req.
Proof.
  revert req. induction calls as [|c calls IH] using rev_ind; [eauto|]. intros req.
  rewrite run_snoc. intros [Hr|(req0 & Hr & Hsub & _)]%perform_pending.
  - right. by exists calls, c, [], req.
  - destruct (IH _ Hr) as [(r & ? & ?)|(pre & c' & post & r & -> & Hc & ?)].
    + left. exists r. split; [done|congruence].
    + right. exists pre, c', (post ++ [c]), r. rewrite <- (assoc_L (++)). split_and!; [done..|congruence].
Qed.

Lemma answer_gives_access approved c s sub :
  answers approved c s sub -> em_contains sub (as_access_list (perform c s)) = true.
Proof.
  intros (clock & request & id & uuid & req & expiry & -> & _ & Hid & Hu & Hreq & <- & Hexp). cbn [perform].
  unfold approve_remote_access_request, sem_lift, sem_ask, sem_modify, parse_request_id.
  cbv [mbind sem_bind mret sem_ret]. rewrite Hid. cbn [ok_or]. rewrite Hu. cbn [map_err]. rewrite Hreq. cbn [ok_or].
  rewrite Hexp. cbn [fst]. rewrite (proj1 (approve_wait_state_lists _ _)), em_contains_iff. cbn.
  rewrite lookup_insert_eq. eauto.
Qed.

(** C11: access comes from the configuration or from an answer to an
    authenticated request.  A call gives access to a subject that has none
    exactly when it answers a request pending for the subject (and the expiry
    can be represented).  So in whatever order clients call the service and time
    passes, a subject on the access list that was not configured there got there
    by such an answer, and the request, unless it was there from the start, was
    created by a call to [authenticate] with a token of that subject that passed
    all checks.  The answer is an approval when nobody denied any request; a
    denial gives access as well, see [denial_grants]. *)
Theorem access_only_by_answer calls s sub :
  (forall c s', em_contains sub (as_access_list s') = false ->
     (em_contains sub (as_access_list (perform c s')) = true <-> exists approved, answers approved c s' sub)) /\
  (em_contains sub (as_access_list (run calls s)) = true ->
   em_contains sub (as_access_list s) = true \/
   exists pre c post approved, calls = pre ++ c :: post /\ answers approved c (run pre s) sub /\
     (Forall (fun c => ~ denial c) calls -> approved = true) /\
     ((exists uuid req, em_map (as_pending s) !! uuid = Some req /\ par_subject req = sub) \/
      exists pre' c' post' req, pre = pre' ++ c' :: post' /\ requests_access c' (run pre' s) req /\
        par_subject req = sub)).
Proof.
  split.
  { intros c s' Hno. split; [|by intros [approved Ha]; apply (answer_gives_access approved)].
    intros [Hs|Ha]%perform_access; [congruence|done]. }
  induction calls as [|c calls IH] using rev_ind; [auto|]. rewrite run_snoc.
  intros [H|[approved Ha]]%perform_access.
  - destruct (IH H) as [?|(pre & c' & post & approved & -> & Hc & Hd & Hr)]; [by left|].
    right. exists pre, c', (post ++ [c]), approved. rewrite <- (assoc_L (++)). split_and!; [done..| |done].
    intros Hall. apply Hd. revert Hall. rewrite !Forall_app, !Forall_cons, ?Forall_app. tauto.
  - right. exists calls, c, [], approved. split_and!; [done..| |].
    + intros [_ Hc]%Forall_app. rewrite Forall_singleton in Hc. destruct Ha as (? & ? & _ & _ & _ & _ & -> & <- & _).
      cbn in Hc. by destruct (ra_approved _).
    + destruct Ha as (_ & _ & _ & uuid & req & _ & _ & _ & _ & _ & Hreq & Hsub & _).
      destruct (run_pending _ _ _ _ Hreq) as [(r & ? & ?)|(pre & c' & post & r & -> & Hc & ?)].
      * left. exists uuid, r. split; [done|congruence].
      * right. exists pre, c', post, r. split_and!; [done..|congruence].
Qed.

(** ** A denial *)

(** Denying a request grants it.  An answer with [approved = false] to a
    pending request, whose expiry can be represented, puts its subject on the
    access list and makes the clients waiting for it ready, exactly as an
    approval does. *)
Theorem denial_grants clock id uuid req expiry st s :
  uuid_parse id = Ok uuid -> em_map (as_pending s) !! uuid = Some req ->
  expiry_instant clock (par_expires_at req) = Ok expiry ->
  as_wait_states s !! par_wait_state req = Some (Lock false st) ->
  let s' := (approve_remote_access_request clock (MkRemoteAccessApproval false (Some id)) s).1 in
  (approve_remote_access_request clock (MkRemoteAccessApproval false (Some id)) s).2 =
    Ok (MkRemoteAccessRequest (Some (uuid_to_string uuid)) (par_subject req) (par_expires_at req) false) /\
  em_contains (par_subject req) (as_access_list s') = true /\
  forall waker, (wait_poll id (par_wait_state req) waker s').2 =
    Ready (Ok (MkRemoteAccessRequest (Some (uuid_to_string uuid)) (par_subject req) (par_expires_at req) false)).
Proof.
  intros Hu Hreq Hexp Hst s'. subst s'.
  unfold approve_remote_access_request, sem_lift, sem_ask, sem_modify, parse_request_id.
  cbv [mbind sem_bind mret sem_ret ra_id ra_approved]. cbn [ok_or]. rewrite Hu. cbn [map_err].
  rewrite Hreq. cbn [ok_or]. rewrite Hexp.
  unfold approve_wait_state. cbn [as_wait_states set_access_list set_pending]. rewrite Hst.
  split_and!; [done | |].
  - apply em_contains_iff. cbn. rewrite lookup_insert_eq. eauto.
  - intros waker. unfold wait_poll, approval_poll. cbn [fst as_wait_states wake set_wait_states].
    rewrite lookup_insert_eq. cbn [ws_approved].
    unfold get_remote_access_request, sem_lift, sem_ask, parse_request_id. cbv [mbind sem_bind].
    rewrite Hu. cbn. rewrite lookup_alter_eq, Hreq. done.
Qed.



(** ** Waiting *)

(** An approval wakes at most the client that polled last.  Of two clients
    waiting for the same request, the first is not woken when the request is
    approved (the second one's waker replaced its own), although its next poll
    would be ready. *)
Theorem first_waiter_not_woken clock id uuid req expiry w1 w2 s s1 s2 :
  uuid_parse id = Ok uuid -> em_map (as_pending s) !! uuid = Some req ->
  expiry_instant clock (par_expires_at req) = Ok expiry -> w1 <> w2 -> ~ (w1 ∈ as_woken s) ->
  wait_poll id (par_wait_state req) w1 s = (s1, Pending) ->
  wait_poll id (par_wait_state req) w2 s1 = (s2, Pending) ->
  let s3 := (approve_remote_access_request clock (MkRemoteAccessApproval true (Some id)) s2).1 in
  as_woken s3 = as_woken s ++ [w2] /\ ~ (w1 ∈ as_woken s3) /\
  (wait_poll id (par_wait_state req) w1 s3).2 =
    Ready (Ok (MkRemoteAccessRequest (Some (uuid_to_string uuid)) (par_subject req) (par_expires_at req) true)).
Proof.
  intros Hu Hreq Hexp Hne Hw H1 H2 s3. subst s3.
  assert (forall t loc w t', wait_poll id loc w t = (t', Pending) -> exists st,
    as_wait_states t !! loc = Some (Lock false st) /\
    t' = set_wait_states (<[loc := Lock false (MkWaitState false (Some w))]> (as_wait_states t)) t) as Hpoll.
  { intros t loc w t'. unfold wait_poll, approval_poll.
    destruct (as_wait_states t !! loc) as [[[] st]|]; [done| |done].
    destruct (ws_approved st); [|intros [= <-]; eauto].
    by destruct (get_remote_access_request id t). }
  apply Hpoll in H1 as (st1 & Hst1 & ->). apply Hpoll in H2 as (st2 & Hst2 & ->).
  unfold approve_remote_access_request, sem_lift, sem_ask, sem_modify, parse_request_id.
  cbv [mbind sem_bind mret sem_ret ra_id ra_approved]. cbn [ok_or]. rewrite Hu. cbn [map_err].
  cbn [as_pending set_wait_states]. rewrite Hreq. cbn [ok_or]. rewrite Hexp.
  unfold approve_wait_state. cbn [as_wait_states set_access_list set_pending set_wait_states].
  rewrite lookup_insert_eq. cbn [fst as_woken wake set_wait_states set_access_list set_pending ws_waker option_list].
  split_and!; [done | set_solver |].
  unfold wait_poll, approval_poll. cbn [as_wait_states wake set_wait_states].
  rewrite lookup_insert_eq. cbn [ws_approved].
  unfold get_remote_access_request, sem_lift, sem_ask, parse_request_id. cbv [mbind sem_bind].
  rewrite Hu. cbn. rewrite lookup_alter_eq, Hreq. done.
Qed.

(** ** Uploading the signing key *)

(** A signing key whose upload failed is never uploaded.  When acquiring a
    token made a new key and the key store refused it, the call fails; but
    asking again while the token lives succeeds with the same token, without
    trying the upload and without any change. *)
Theorem failed_upload_not_retried w scope s store1 token content keyid e :
  acquire_locked identity_hash w scope (as_token_store s) = (store1, Ok (token, Some (content, keyid))) ->
  ks_set (as_key_store s) w keyid content store1 = (store1, Err e) ->
  (w_now w < pt_expires_at token)%N ->
  let s1 := (auth_acquire_token identity_hash w scope s).1 in
  (auth_acquire_token identity_hash w scope s).2 = Err (MkStatus CInternal (display_key_store_error e)) /\
  auth_acquire_token identity_hash w scope s1 = (s1, Ok token) /\
  acquire_locked identity_hash w scope (as_token_store s1) = (as_token_store s1, Ok (token, None)).
Proof.
  intros Hlock Hset Hnow s1. subst s1.
  assert (auth_acquire_token identity_hash w scope s =
          (set_token_store store1 s, Err (MkStatus CInternal (display_key_store_error e)))) as ->.
  { unfold auth_acquire_token, upload_key, on_token_store. cbv [mbind sem_bind]. rewrite Hlock.
    cbn [as_key_store as_token_store set_token_store]. by rewrite Hset. }
  cbn [fst snd]. split; [done|].
  assert (acquire_locked identity_hash w scope store1 = (store1, Ok (token, None))) as Hagain.
  { revert Hlock. unfold acquire_locked at 1.
    destruct (acquire_token identity_hash w scope (as_token_store s)) as [store' [[entry t]|e']] eqn:Hacq; [|done].
    destruct (acquire_token_entry identity_hash w scope _ _ _ _ Hacq) as (Hentry & _ & i & Hi).
    destruct t as [t|t|t k]; [done|done|]. cbn [take_public_key]. intros [= <- <- ->].
    unfold acquire_locked. set (store1 := set_cache _ _).
    assert (cache_entry (ts_cache store1) scope = entry) as He.
    { unfold store1. cbn [ts_cache set_cache]. rewrite <- Hentry. apply cache_entry_stable. }
    rewrite (acquire_token_again identity_hash w scope store1 i (TInternalWithPublicKey t None)); [|done| |done].
    - rewrite He. cbn. unfold store1, set_cache, cache_insert. cbn. by rewrite insert_insert_eq.
    - rewrite He. cbn. apply lookup_insert_eq. }
  split.
  - unfold auth_acquire_token, upload_key, on_token_store. cbv [mbind sem_bind mret sem_ret].
    cbn [as_token_store set_token_store]. by rewrite Hagain.
  - exact Hagain.
Qed.
End access_props.

(** ** Concrete instances of the properties *)
Module AccessExamples.
#[local] Existing Instance Concrete.text_digest.
#[local] Existing Instance Concrete.text_jwt.
#[local] Existing Instance Concrete.plain_encoding.
#[local] Existing Instance Concrete.text_uuid.
#[local] Existing Instance key_order.
Import TokenExamples.

(** Knows every key and refuses every upload. *)
Definition key_store : KeyStore :=
  MkKeyStore (fun _ _ => mret []) (fun _ _ _ => sem_lift (Err (KSRemoteError "unreachable"))).
Definition service_with (access : list (string * unit)) (pending : list (uuid * PendingAccessRequest)) : AuthService :=
  MkAuthService store key_store (em_of_list access) (em_of_list pending) {[ 0%N := lock_new (MkWaitState false None) ]}
    1 [].
Definition seven : @uuid Concrete.text_uuid := "7".
Definition payload := MkAuthenticationParameters "avery" "ada" true.
Definition clock := MkClock 50 100.
Definition pending_ada := MkPending "ada" 1000 false 0.
Definition waiting := service_with [] [(seven, pending_ada)].

Lemma pair_snd {A B} (p : A * B) b : p.2 = b -> p = (p.1, b).
Proof. destruct p; intros [= ->]; reflexivity. Qed.


Definition approval : call := CallApprove clock (MkRemoteAccessApproval true (Some "#7")).
Lemma access_only_by_answer_witness :
  exists pre c post, [approval] = pre ++ c :: post /\ answers true c (run hash pre waiting) "ada".
Proof.
  destruct (proj2 (access_only_by_answer hash [approval] waiting "ada")) as [H|(pre & c & post & approved & Hc & Ha & Hd & _)].
  - vm_compute. exact eq_refl.
  - vm_compute in H. discriminate H.
  - exists pre, c, post. rewrite Hd in Ha; [exact (conj Hc Ha)|]. constructor; [discriminate|constructor].
Defined.

Lemma denial_grants_witness :
  let s' := (approve_remote_access_request clock (MkRemoteAccessApproval false (Some "#7")) waiting).1 in
  em_contains "ada" (as_access_list s') = true.
Proof.
  destruct (denial_grants clock "#7" seven pending_ada 950 (MkWaitState false None) waiting) as (_ & H & _).
  - exact eq_refl.
  - exact eq_refl.
  - exact eq_refl.
  - exact eq_refl.
  - exact H.
Defined.

Definition polled1 := (wait_poll "#7" 0 1 waiting).1.
Definition polled2 := (wait_poll "#7" 0 2 polled1).1.
Lemma first_waiter_not_woken_witness :
  as_woken (approve_remote_access_request clock (MkRemoteAccessApproval true (Some "#7")) polled2).1 = [2%N].
Proof.
  destruct (first_waiter_not_woken clock "#7" seven pending_ada 950 1 2 waiting polled1 polled2) as (H & _).
  - exact eq_refl.
  - exact eq_refl.
  - exact eq_refl.
  - discriminate.
  - inversion 1.
  - apply pair_snd. exact eq_refl.
  - apply pair_snd. exact eq_refl.
  - exact H.
Defined.

Lemma failed_upload_not_retried_witness :
  exists token, let s1 := (auth_acquire_token hash world "own" waiting).1 in
    (auth_acquire_token hash world "own" waiting).2 = Err (MkStatus CInternal "Remote error: unreachable") /\
    auth_acquire_token hash world "own" s1 = (s1, Ok token).
Proof.
  assert (match (acquire_locked hash world "own" store).2 with
          | Ok (token, Some _) => (100 <? pt_expires_at token)%N
          | _ => false
          end = true) as H by (vm_compute; exact eq_refl).
  destruct (acquire_locked hash world "own" store) as [store1 r] eqn:Hlock. cbn [snd] in H.
  destruct r as [[token [[content keyid]|]]|]; [|discriminate H|discriminate H].
  exists token.
  destruct (failed_upload_not_retried hash world "own" waiting store1 token content keyid (KSRemoteError "unreachable"))
    as (Hfail & Hagain & _).
  - exact Hlock.
  - exact eq_refl.
  - apply N.ltb_lt. exact H.
  - exact (conj Hfail Hagain).
Defined.
End AccessExamples.
