(* ===== verification/ProxyConnect.v ===== *)
(** * Requests to external registries (services/avery/src/proxy_registry.rs)

    A connection to an external registry is its endpoint with an interceptor that
    puts a token for the host of the endpoint into every request
    ([interceptor_call]).  Clones of the authentication service share its state, so
    one [Traffic] holds that state together with the requests sent so far.

    Listing asks the registries one after the other and stops at the first that
    fails ([ask_registries]); getting a function asks all of them ([get_everywhere]).
    What is made of the answers is in [ProxyRegistry].  Endpoints, header values and
    the registries themselves are classes; a handler that panics on its thread is
    not modelled.

    The theorem follows what an authentication service made from a configuration can
    hold as a token for a host through any sequence of requests
    ([tokens_to_their_hosts]). *)
From S2P Require Import Prelude Interfaces Proto ProxyRegistry Config Tokens TokenStore TokenProps KeyStore ExpireMap Json OidcLogin Access.
From S2P Require Import AuthStart AuthStartProps AccessProps.
From Stdlib Require Import Ascii.

(** tonic and http: what is known of an endpoint, and the texts that can be values
    of a header. *)
Class EndpointLib := {
  Endpoint : Type;
  endpoint_from_shared : string -> result string Endpoint;
  endpoint_host : Endpoint -> option string;
  endpoint_scheme : Endpoint -> option string;
  endpoint_tls_config : Endpoint -> result string Endpoint;
  metadata_parse : string -> result string string
}.
Abbreviation Metadata := (gmap string string).
Inductive ProxyConnectError := ConnectionError (e : string) | InvalidUri (e : string).
Definition display_connect_error (e : ProxyConnectError) : string :=
  match e with ConnectionError e => "Connection Error: " +:+ e | InvalidUri e => "Invalid URI: " +:+ e end.

Section connect.
Context {DL : DigestLib} {JL : JwtLib} {EL : EncodingLib} {HO : HashOrder} {UL : UuidLib} {UR : UrlLib} {PL : EndpointLib}.
Variable identity_hash : IdentityProvider -> string.

Record ExternalRegistry := MkExternal { er_name : string; er_url : Url }.
Record RegistryConnection := MkRegistryConnection { cx_name : string; cx_endpoint : Endpoint }.
Definition create_connection (registry : ExternalRegistry) : result ProxyConnectError Endpoint :=
  endpoint ← map_err InvalidUri (endpoint_from_shared (url_to_string (er_url registry)));
  if bool_decide (endpoint_scheme endpoint = Some "https")
  then map_err ConnectionError (endpoint_tls_config endpoint) else Ok endpoint.
Definition connect_registries (external_registries : list ExternalRegistry) : result ProxyConnectError (list RegistryConnection) :=
  collect ((fun er => MkRegistryConnection (er_name er) <$> create_connection er) <$> external_registries).

(** ** Tokens *)
Definition internal (message : string) : Status := MkStatus CInternal message.
Definition bearer (token : ProtoToken) : string := "bearer " +:+ pt_token token.
Definition interceptor_call (w : World) (endpoint : Endpoint) (request : Metadata) : service Metadata :=
  host ← sem_lift (ok_or (internal "No host for registry endpoint, cannot acquire token") (endpoint_host endpoint));
  token ← auth_acquire_token identity_hash w host;
  token ← sem_lift (map_err (fun e => internal ("Invalid metadata value for bearer token: " +:+ e)) (metadata_parse (bearer token)));
  mret (<["authorization" := token]> request).

(** ** Requests *)
Inductive RegistryRequest := RequestList (f : Filters) | RequestListVersions (f : Filters) | RequestGet (id : FunctionId).
(** A registry behind its endpoint, told the metadata of a request. *)
Record RemoteRegistry := MkRemote {
  rr_list : Metadata -> Filters -> result Status (list Function_);
  rr_list_versions : Metadata -> Filters -> result Status (list Function_);
  rr_get : Metadata -> FunctionId -> result Status Function_
}.
Variable remote : Endpoint -> RemoteRegistry.
Record Sent := MkSent { se_endpoint : Endpoint; se_metadata : Metadata; se_request : RegistryRequest }.
Record Traffic := MkTraffic { tr_auth : AuthService; tr_sent : list Sent }.
Definition traffic := sem Traffic Status.
Definition on_auth {A} (h : service A) : traffic A :=
  fun t => let '(s, r) := h (tr_auth t) in (MkTraffic s (tr_sent t), r).
(** A request goes through the interceptor, and out if that lets it. *)
Definition client_call {A} (w : World) (endpoint : Endpoint) (request : RegistryRequest)
    (answer : RemoteRegistry -> Metadata -> result Status A) : traffic A :=
  metadata ← on_auth (interceptor_call w endpoint ∅);
  _ ← sem_modify (fun t => MkTraffic (tr_auth t) (tr_sent t ++ [MkSent endpoint metadata request]));
  sem_lift (answer (remote endpoint) metadata).
Definition client_list (w : World) (list_function : ListFunction) (filters : Filters) (c : RegistryConnection)
  : traffic (string * list Function_) :=
  functions ← match list_function with
              | ListFunctions => client_call w (cx_endpoint c) (RequestList filters) (fun r m => rr_list r m filters)
              | ListVersions => client_call w (cx_endpoint c) (RequestListVersions filters) (fun r m => rr_list_versions r m filters)
              end;
  mret (cx_name c, functions).
Definition client_get (w : World) (payload : FunctionId) (c : RegistryConnection) : traffic (string * Function_) :=
  f ← client_call w (cx_endpoint c) (RequestGet payload) (fun r m => rr_get r m payload);
  mret (cx_name c, f).

(** [stream::iter(..).then(..).try_collect()] *)
Fixpoint ask_registries (w : World) (list_function : ListFunction) (filters : Filters) (connections : list RegistryConnection)
  : traffic (list (string * list Function_)) :=
  match connections with
  | [] => mret []
  | c :: connections =>
      functions ← client_list w list_function filters c;
      rest ← ask_registries w list_function filters connections;
      mret (functions :: rest)
  end.
(** [.collect::<Vec<Result<_, _>>>()] *)
Fixpoint get_everywhere (w : World) (payload : FunctionId) (connections : list RegistryConnection) (t : Traffic)
  : Traffic * list (result Status (string * Function_)) :=
  match connections with
  | [] => (t, [])
  | c :: connections =>
      let '(t, r) := client_get w payload c t in
      let '(t, rest) := get_everywhere w payload connections t in (t, r :: rest)
  end.
End connect.

(** ** Tokens of the cache *)
#[local] Create HintDb own.
Section own.
Context {DL : DigestLib} {JL : JwtLib} {EL : EncodingLib} {HO : HashOrder} {UL : UuidLib} {UR : UrlLib}.
Variable identity_hash : IdentityProvider -> string.

Definition internal_token (t : TypedToken) : option JwtToken :=
  match t with TOidc _ => None | TInternal t | TInternalWithPublicKey t _ => Some t end.
(** A self-signed token for a scope: its audience, but where the generator is told
    to claim another one. *)
Definition own_token (scope : string) (t : JwtToken) : Prop :=
  jt_audience t = scope /\ sc_aud (jt_claims t) = default scope (tg_aud (jt_generator t)).
Definition own_entry (scope : string) (t : TypedToken) : Prop := forall j, internal_token t = Some j -> own_token scope j.
Definition own_inv (aliases : AliasMap) (s : TokenStore) : Prop :=
  tc_scope_aliases (ts_cache s) = aliases /\ map_Forall own_entry (tc_tokens (ts_cache s)).

Lemma generate_own w g subject scope t : generate w g subject scope = Ok t -> own_token scope t.
Proof. intros (Hg & _ & Ha & _ & _ & _ & Hc & _)%generate_Ok. split; [done|]. by rewrite Hc, Hg. Qed.
Lemma jwt_refresh_own w scope t t' : own_token scope t -> jwt_refresh w t = Ok t' -> own_token scope t'.
Proof.
  intros [Ha Hc]. unfold jwt_refresh. destruct (jt_expires_at t <=? w_now w)%N; [|intros [= <-]; by split]. intros H. inv_ok. subst t'.
  apply generate_Ok in Hok as (_ & _ & _ & _ & _ & _ & Hc' & _). split; cbn; [done|]. by rewrite Hc', Ha.
Qed.
Lemma token_refresh_own w scope t t' : own_entry scope t -> token_refresh w t = Ok t' -> own_entry scope t'.
Proof.
  intros Ho. destruct t as [t|t|t k]; cbn [token_refresh]; intros H j Hj; inv_ok; subst t'; [done|..];
    injection Hj as <-; (eapply jwt_refresh_own; [|exact Hok]; by apply Ho).
Qed.
Lemma self_signed_own w subject scope sg sg' t key : self_signed_generate w subject scope sg = (sg', Ok (t, key)) -> own_token scope t.
Proof.
  unfold self_signed_generate.
  destruct (match sg_inner sg with Some _ => _ | None => _ end) as [files [[upload inner]|e]]; [|done].
  intros [= _ H]. inv_ok. simplify_eq. by eapply generate_own.
Qed.
Lemma get_token_own w i scope p p' t : get_token w i scope p = (p', Ok t) -> own_entry scope t.
Proof.
  unfold get_token. intros H j Hj.
  destruct (tp_scope_mappings p !! scope) as [[| |path ? ? ? ? ?]|]; [done| | |].
  2: { injection H as _ H. inv_ok. subst t. injection Hj as <-. by eapply generate_own. }
  all: destruct (self_signed_generate w (id_email i) scope (tp_self_signed p)) as [sg [[token key]|e]] eqn:Hs; [|done];
    injection H as _ <-; injection Hj as <-; by eapply self_signed_own.
Qed.

Lemma own_insert aliases scope t s : own_inv aliases s -> own_entry scope t ->
  own_inv aliases (set_cache (cache_insert scope t (ts_cache s)) s).
Proof. intros [Ha Hs] Ht. split; [done|]. by apply map_Forall_insert_2. Qed.

(** A token that is not there yet is put under its own scope. *)
Lemma absent_entry (c : TokenCache) scope : tc_tokens c !! cache_entry c scope = None -> cache_entry c scope = scope.
Proof.
  unfold cache_entry, cache_alias. destruct (alias_get (tc_scope_aliases c) scope) as [l|]; [|done].
  destruct (list_find (fun key => is_Some (tc_tokens c !! key)) l) as [[i k]|] eqn:Hf; [|done].
  apply list_find_Some in Hf as (_ & [t Ht] & _). cbn. by rewrite Ht.
Qed.

Lemma get_identity_own aliases w s : own_inv aliases s -> own_inv aliases (get_identity identity_hash w s).1.
Proof.
  intros Hs. unfold get_identity, sem_modify. cbv [mbind sem_bind mret sem_ret].
  destruct (ts_identity s); [done|]. by destruct (find_identity identity_hash w s).
Qed.
Lemma acquire_own aliases w scope s : own_inv aliases s ->
  own_inv aliases (acquire_token identity_hash w scope s).1 /\
  forall entry t, (acquire_token identity_hash w scope s).2 = Ok (entry, t) ->
    own_entry entry t /\ tc_tokens (ts_cache (acquire_token identity_hash w scope s).1) !! entry = Some t /\
    (alias_get aliases scope = None -> entry = scope).
Proof.
  intros Hs. pose proof (get_identity_own aliases w s Hs) as Hid.
  destruct (get_identity identity_hash w s) as [s1 [i|e]] eqn:Hi.
  2: { assert (acquire_token identity_hash w scope s = (s1, Err e)) as -> by by unfold TokenStore.acquire_token; rewrite (sem_bind_stop _ _ _ _ _ Hi).
       by split. }
  rewrite (acquire_token_unfold identity_hash _ _ _ s1 i Hi). cbv zeta. apply get_identity_Ok in Hi as ->.
  assert (alias_get aliases scope = None -> cache_entry (ts_cache s) scope = scope) as Hal.
  { intros Hn. unfold cache_entry, cache_alias. destruct Hs as [-> _]. by rewrite Hn. }
  destruct (tc_tokens (ts_cache s) !! cache_entry (ts_cache s) scope) as [token|] eqn:Ht.
  - pose proof (map_Forall_lookup_1 _ _ _ _ (proj2 Hs) Ht) as Ho.
    destruct (token_refresh w token) as [t'|e] eqn:Hr; [|by split].
    pose proof (token_refresh_own w _ _ _ Ho Hr) as Ho'. split; [by apply (own_insert aliases _ _ (set_identity (Some i) s))|].
    intros entry t [= <- <-]. split; [done|]. split; [apply lookup_insert_eq|done].
  - pose proof (absent_entry _ _ Ht) as He. rewrite He in *.
    destruct (get_token w i scope (ts_providers s)) as [p [token|e]] eqn:Hg; [|by split].
    apply get_token_own in Hg.
    assert (own_inv aliases (set_cache (cache_insert scope token (ts_cache s)) (set_providers p (set_identity (Some i) s)))) as H1
      by by apply (own_insert aliases _ _ (set_providers p (set_identity (Some i) s))).
    destruct (token_refresh w token) as [t'|e] eqn:Hr; [|by split].
    pose proof (token_refresh_own w _ _ _ Hg Hr) as Ho'. split; [by apply (own_insert aliases _ _ _ H1)|].
    intros entry t [= <- <-]. split; [done|]. split; [apply lookup_insert_eq|done].
Qed.

(** ** Key stores *)
Definition keeps_own {E A} (aliases : AliasMap) (h : sem TokenStore E A) : Prop :=
  forall s, own_inv aliases s -> own_inv aliases (h s).1.
Lemma start_keeps_bind {E A B} aliases (m : sem TokenStore E A) (f : A -> sem TokenStore E B) :
  keeps_own aliases m -> (forall a, keeps_own aliases (f a)) -> keeps_own aliases (m ≫= f).
Proof. intros Hm Hf s Hs. apply (sem_bind_inv (own_inv aliases)); [done| |done]. intros a. apply Hf. Qed.
Lemma start_keeps_lift {E A} aliases (r : result E A) : keeps_own aliases (sem_lift r).
Proof. by intros s. Qed.
Lemma keeps_bearer aliases w wrap scope : keeps_own aliases (KeyStore.bearer identity_hash w wrap scope).
Proof.
  intros s Hs. unfold KeyStore.bearer. pose proof (proj1 (acquire_own aliases w scope s Hs)) as H.
  by destruct (acquire_token identity_hash w scope s).
Qed.
#[local] Hint Resolve start_keeps_lift keeps_bearer : own.
#[local] Hint Extern 1 (keeps_own _ (_ ≫= _)) => (apply start_keeps_bind; [|intros ?]) : own.
Variable from_utf8 : list byte -> result string string.
Variable documents : DocumentService.
Lemma start_keeps_set aliases config w id content : keeps_own aliases (ks_set (key_store_of identity_hash from_utf8 documents config) w id content).
Proof.
  destruct config as [url|]; [|by intros s]. cbn [key_store_of ks_set SimpleKeyStore]. unfold simple_set, get_user_document.
  auto 20 with own.
Qed.

(** ** Tokens handed out *)
Definition service_inv (aliases : AliasMap) (config : KeyStoreConfig) (s : AuthService) : Prop :=
  own_inv aliases (as_token_store s) /\ as_key_store s = key_store_of identity_hash from_utf8 documents config.
Definition token_for (aliases : AliasMap) (scope : string) (t : TypedToken) : Prop :=
  alias_get aliases scope = None -> own_entry scope t.
Lemma auth_acquire_own aliases config w scope s : service_inv aliases config s ->
  service_inv aliases config (auth_acquire_token identity_hash w scope s).1 /\
  forall p, (auth_acquire_token identity_hash w scope s).2 = Ok p -> exists t, pt_token p = token_text t /\ token_for aliases scope t.
Proof.
  intros [Hs Hk]. unfold auth_acquire_token, on_token_store, acquire_locked. cbv [mbind sem_bind mret sem_ret].
  destruct (acquire_own aliases w scope _ Hs) as [H1 H2].
  destruct (acquire_token identity_hash w scope (as_token_store s)) as [store [[entry t]|e]]; [|by split].
  destruct (H2 entry t eq_refl) as (Ho & Ht & He). cbn [fst] in *.
  assert (exists store' key, take_public_key entry t store = (store', key) /\ own_inv aliases store') as (store' & key & Htake & Hs').
  { unfold take_public_key. destruct t as [o|j|j k]; eauto. eexists _, _. split; [done|]. apply own_insert; [done|].
    intros j' [= <-]. by apply Ho. }
  rewrite Htake. unfold upload_key, on_token_store.
  assert (token_for aliases scope t) as Hfor by (intros Hn; by rewrite <- (He Hn)).
  destruct key as [[content keyid]|]; cbn.
  - pose proof (start_keeps_set aliases config w keyid content store' Hs') as Hset.
    rewrite Hk. destruct (ks_set _ w keyid content store') as [store2 [[]|e]]; cbn; (split; [by split|]); [|done].
    intros p [= <-]. by exists t.
  - split; [by split|]. intros p [= <-]. by exists t.
Qed.
End own.

(** ** What a service starts with *)
Section started.
Context {DL : DigestLib} {JL : JwtLib} {EL : EncodingLib} {HO : HashOrder} {UL : UuidLib} {UR : UrlLib} {JT : JsonText}.
Variable identity_hash : IdentityProvider -> string.
Variable from_utf8 : list byte -> result string string.
Variable documents : DocumentService.

Lemma all_some_elem {A} (l : list (option A)) l' a : all_some l = Some l' -> a ∈ l' -> Some a ∈ l.
Proof.
  revert l'. induction l as [|o l IH]; intros l' H Ha; [injection H as <-; set_solver|].
  cbn [all_some] in H. apply bind_Some in H as (b & -> & H). apply bind_Some in H as (l1 & Hl & [= <-]).
  apply elem_of_cons in Ha as [->|Ha]; [by left|]. right. by apply (IH l1).
Qed.
Lemma saved_are_oidc v m k t : tokens_from_json v = Some m -> m !! k = Some t -> is_oidc t = true.
Proof.
  unfold tokens_from_json. intros (fields & _ & (l & Hl & [= <-])%bind_Some)%bind_Some Hk.
  apply object_map_find, (all_some_elem _ _ _ Hl), list_elem_of_fmap in Hk as ([k' v'] & Ht & _). cbn in Ht. symmetry in Ht.
  apply bind_Some in Ht as (t' & Ht & [= -> ->]). unfold typed_token_from_json in Ht.
  repeat (apply bind_Some in Ht as (? & _ & Ht)). case_bool_decide; [|done].
  repeat (apply bind_Some in Ht as (? & _ & Ht)). by injection Ht as <-.
Qed.
Lemma cache_new_own aliases f : map_Forall own_entry (tc_tokens (cache_new aliases f)).
Proof.
  intros k t Hk. cbn in Hk. destruct (cache_read f) as [m|] eqn:Hm; [|done]. cbn in Hk.
  apply bind_Some in Hm as (? & _ & (? & _ & Hm)%bind_Some). destruct (cf_open_error f); [done|].
  apply bind_Some in Hm as (v & _ & Hm). pose proof (saved_are_oidc _ _ _ _ Hm Hk) as Ho. intros j Hj. by destruct t.
Qed.
Lemma from_config_inv w oidc scopes idp config allow path files f s :
  from_config identity_hash from_utf8 documents w oidc scopes idp config allow path files f = Ok s ->
  service_inv identity_hash from_utf8 documents (create_alias_map identity_hash scopes idp) config s.
Proof.
  unfold from_config. intros (with_file & _ & [= <-])%bind_Ok_inv. split; [|done]. split; [done|]. apply cache_new_own.
Qed.
Lemma no_alias scopes idp host :
  (forall p, scopes !! host <> Some (AuthOidc p)) -> host <> scope_key identity_hash idp ->
  alias_get (create_alias_map identity_hash scopes idp) host = None.
Proof.
  intros Hs Hk. unfold alias_get, create_alias_map.
  pose proof (alias_map_lookup (provider_scopes identity_hash scopes idp) host) as H.
  destruct (alias_map_from _ !! host) as [l|]; [|done]. destruct H as [Hin [p Hp]]. exfalso.
  assert (host ∈ default [] (provider_scopes identity_hash scopes idp !! p)) as H by by rewrite Hp.
  apply provider_scopes_lookup in H as [H|[_ H]]; [by apply (Hs p)|done].
Qed.

(** ** Requests *)
Context {PL : EndpointLib}.
Variable remote : Endpoint -> RemoteRegistry.
Variable connections : list RegistryConnection.
Inductive RegistryCall := CallList (list_function : ListFunction) (filters : Filters) | CallGet (payload : FunctionId).
Definition registry_call (w : World) (c : RegistryCall) (t : Traffic) : Traffic :=
  match c with
  | CallList list_function filters => (ask_registries identity_hash remote w list_function filters connections t).1
  | CallGet payload => (get_everywhere identity_hash remote w payload connections t).1
  end.
(** Requests one after the other, each at its time. *)
Definition registry_calls (calls : list (World * RegistryCall)) (t : Traffic) : Traffic :=
  foldl (fun t c => registry_call c.1 c.2 t) t calls.

Definition sent_well (aliases : AliasMap) (s : Sent) : Prop :=
  se_endpoint s ∈ cx_endpoint <$> connections /\
  exists host t value, endpoint_host (se_endpoint s) = Some host /\ metadata_parse ("bearer " +:+ token_text t) = Ok value /\
    se_metadata s = {[ "authorization" := value ]} /\ token_for aliases host t.
Definition traffic_inv aliases config (t : Traffic) : Prop :=
  service_inv identity_hash from_utf8 documents aliases config (tr_auth t) /\ Forall (sent_well aliases) (tr_sent t).
Section inv.
Context (aliases : AliasMap) (config : KeyStoreConfig).
#[local] Abbreviation keeps m := (forall t, traffic_inv aliases config t -> traffic_inv aliases config (m t).1).

Lemma interceptor_keeps w endpoint t : traffic_inv aliases config t ->
  traffic_inv aliases config (on_auth (interceptor_call identity_hash w endpoint ∅) t).1 /\
  forall metadata request, (on_auth (interceptor_call identity_hash w endpoint ∅) t).2 = Ok metadata ->
    endpoint ∈ cx_endpoint <$> connections -> sent_well aliases (MkSent endpoint metadata request).
Proof.
  intros [Hs Hf]. unfold on_auth, interceptor_call, sem_lift. cbv [mbind sem_bind mret sem_ret].
  destruct (endpoint_host endpoint) as [host|] eqn:Hh; [|by split]. cbn [ok_or].
  destruct (auth_acquire_own identity_hash from_utf8 documents aliases config w host _ Hs) as [Hs' Ht].
  destruct (auth_acquire_token identity_hash w host (tr_auth t)) as [s' [token|e]]; [|by split].
  destruct (Ht token eq_refl) as (tt & Htext & Hfor). unfold bearer. rewrite Htext.
  destruct (metadata_parse ("bearer " +:+ token_text tt)) as [value|e] eqn:Hv; [|by split].
  split; [by split|]. intros metadata request [= <-] Hin. split; [done|]. by exists host, tt, value.
Qed.
Lemma client_call_keeps {A} w endpoint request (answer : RemoteRegistry -> Metadata -> result Status A) :
  endpoint ∈ cx_endpoint <$> connections -> keeps (client_call identity_hash remote w endpoint request answer).
Proof.
  intros Hin t Ht. destruct (interceptor_keeps w endpoint t Ht) as [H1 H2].
  unfold client_call. destruct (on_auth _ t) as [t1 [metadata|e]] eqn:Ho; cbn [fst snd] in H1, H2.
  - rewrite (sem_bind_run _ _ t t1 metadata Ho). destruct H1 as [H1 Hf]. split; [done|]. apply Forall_app. split; [done|].
    apply Forall_singleton. by apply H2.
  - by rewrite (sem_bind_stop _ _ t t1 e Ho).
Qed.
Lemma registry_call_keeps w c : keeps (fun t => (registry_call w c t, tt)).
Proof.
  assert (forall l, l ⊆ connections -> forall lf filters, keeps (ask_registries identity_hash remote w lf filters l)) as Hask.
  { induction l as [|c' l IH]; intros Hl lf filters t Ht; [done|]. cbn [ask_registries].
    revert t Ht. apply sem_bind_inv; [|intros a; apply sem_bind_inv; [apply IH; set_solver|done]].
    unfold client_list. apply sem_bind_inv; [|done]. destruct lf; apply client_call_keeps; set_solver. }
  assert (forall l, l ⊆ connections -> forall payload, keeps (get_everywhere identity_hash remote w payload l)) as Hget.
  { induction l as [|c' l IH]; intros Hl payload t Ht; [done|]. cbn [get_everywhere].
    assert (traffic_inv aliases config (client_get identity_hash remote w payload c' t).1) as H1.
    { unfold client_get. revert t Ht. apply sem_bind_inv; [|done]. apply client_call_keeps. set_solver. }
    destruct (client_get _ _ _ _ _ t) as [t1 r]. specialize (IH ltac:(set_solver) payload t1 H1).
    by destruct (get_everywhere _ _ _ _ l t1). }
  intros t Ht. destruct c; cbn; [by apply Hask|by apply Hget].
Qed.
Lemma registry_calls_keep calls t : traffic_inv aliases config t -> traffic_inv aliases config (registry_calls calls t).
Proof. revert t. induction calls as [|c calls IH]; intros t Ht; [done|]. apply IH. by apply (registry_call_keeps c.1 c.2). Qed.
End inv.

(** C9: what leaves Avery for external registries.  Whatever is listed and fetched
    through a service made from a configuration, each request goes to the endpoint
    of a configured registry and carries a bearer token and no other metadata.  If
    Avery signed the token itself, and the configuration leaves no OIDC provider to
    the host of the endpoint, then the audience of the token is that host, or the one
    its key file is configured with: a token made for one registry is never shown to
    another one. *)
Theorem tokens_to_their_hosts w oidc scopes idp config allow path files f external service calls :
  from_config identity_hash from_utf8 documents w oidc scopes idp config allow path files f = Ok service ->
  connect_registries external = Ok connections ->
  Forall (fun s =>
    (exists er, er ∈ external /\ create_connection er = Ok (se_endpoint s)) /\
    exists host t value, endpoint_host (se_endpoint s) = Some host /\ metadata_parse ("bearer " +:+ token_text t) = Ok value /\
      se_metadata s = {[ "authorization" := value ]} /\
      ((forall p, scopes !! host <> Some (AuthOidc p)) -> host <> scope_key identity_hash idp ->
       forall j, internal_token t = Some j -> own_token host j))
    (tr_sent (registry_calls calls (MkTraffic service []))).
Proof.
  intros Hs Hc. apply from_config_inv in Hs. apply collect_Ok in Hc.
  destruct (registry_calls_keep (create_alias_map identity_hash scopes idp) config calls (MkTraffic service [])) as [_ Hf];
    [by split; [|constructor]|].
  eapply Forall_impl; [exact Hf|]. intros s [Hin (host & t & value & Hh & Hv & Hm & Hfor)]. split.
  - apply list_elem_of_fmap in Hin as (c & -> & Hin). apply (list_elem_of_fmap_2 (Ok (E := ProxyConnectError))) in Hin. rewrite <- Hc in Hin.
    apply list_elem_of_fmap in Hin as (er & Her & Hin). exists er. split; [done|]. by destruct (create_connection er); [injection Her as ->|].
  - exists host, t, value. split_and!; [done..|]. intros Hno Hk. apply Hfor. by apply no_alias.
Qed.
End started.

(** ** Two registries *)
Module ConnectExamples.
Import Concrete.
#[local] Existing Instance key_order.
#[local] Instance value_text : JsonText := {|
  json_text := option Value; json_to_text := Some;
  json_from_text := ok_or "EOF"; json_from_to_text := fun v => eq_refl |}.
(** A token is the audience it claims. *)
#[local] Program Instance audience_jwt : JwtLib := {|
  EncodingKey := unit;
  DecodingKey := unit;
  encoding_key_from_rsa_pem := fun b => Ok tt;
  encoding_key_from_ec_pem := fun b => Ok tt;
  encoding_key_from_ec_der := fun b => tt;
  decoding_key_from_ec_pem := fun b => Ok tt;
  decoding_key_from_rsa_components := fun n e => tt;
  jwt_encode := fun alg kid claims key =>
    ok_or "no audience" (kv ← find (fun kv => bool_decide (kv.1 = "aud")) claims; value_as_str kv.2);
  jwt_decode_header := fun token => Ok None;
  jwt_decode := fun now token key v => Err "InvalidToken"
|}.
Next Obligation. done. Qed.
(** An endpoint is its url: what is before a colon and what is after it. *)
#[local] Instance url_endpoint : EndpointLib := {|
  Endpoint := string * string;
  endpoint_from_shared := fun s => ok_or "invalid uri" (split_once ":"%char s);
  endpoint_host := fun e => Some e.2;
  endpoint_scheme := fun e => Some e.1;
  endpoint_tls_config := Ok;
  metadata_parse := Ok
|}.
Definition world : World := MkWorld 600 (Ok "host") (fun _ _ => Err StateMismatch) (fun _ => Err StateMismatch)
  (Some "ada") (fun _ => Ok []) (Ok (MkDerKeyPair [] [])) (fun _ _ => None) (fun _ => Err StateMismatch).
Definition documents : DocumentService := MkDocumentService (fun _ _ => Err (KSError "none")) (fun _ _ _ => Err (KSError "none")).
Definition started : result string AuthService :=
  from_config (fun _ => "0") (fun _ => Err "utf8") documents world ∅ ∅ IdUsername KeyStoreNone (MkAllowConfig [])
    "/store" ∅ (MkCacheFile None None None None None).
Definition external : list ExternalRegistry := [MkExternal "one" "https:one.example"; MkExternal "two" "https:two.example"].
Definition connections : list RegistryConnection :=
  [MkRegistryConnection "one" ("https", "one.example"); MkRegistryConnection "two" ("https", "two.example")].
Definition empty : RemoteRegistry := MkRemote (fun _ _ => Ok []) (fun _ _ => Ok []) (fun _ _ => Err (MkStatus CNotFound "none")).
Definition calls : list (World * RegistryCall) :=
  [(world, CallList ListFunctions (MkFilters "f" None ∅ None EmptyString)); (world, CallGet (MkFunctionId "f" "1.0.0"))].
Definition sent (s : AuthService) : list Sent :=
  tr_sent (registry_calls (fun _ => "0") (fun _ => empty) connections calls (MkTraffic s [])).
Definition asked (s : AuthService) : list (option string) := (fun m => endpoint_host (se_endpoint m)) <$> sent s.
Definition shown (s : AuthService) : list (option string) := (fun m => se_metadata m !! "authorization") <$> sent s.
Lemma tokens_to_their_hosts_witness :
  asked <$> result_ok started = Some (Some <$> ["one.example"; "two.example"; "one.example"; "two.example"]) /\
  forall s, started = Ok s -> Forall (fun m => exists er, er ∈ external /\ create_connection er = Ok (se_endpoint m)) (sent s).
Proof.
  split; [vm_compute; reflexivity|]. intros s Hs.
  pose proof (tokens_to_their_hosts (fun _ => "0") (fun _ => Err "utf8") documents (fun _ => empty) connections world ∅ ∅
    IdUsername KeyStoreNone (MkAllowConfig []) "/store" ∅ (MkCacheFile None None None None None) external s calls Hs
    ltac:(vm_compute; reflexivity)) as H.
  eapply Forall_impl; [exact H|]. intros m [Her _]. exact Her.
Defined.
(** Each registry is shown the token for it. *)
Example tokens_shown :
  shown <$> result_ok started =
    Some (Some <$> ["bearer one.example"; "bearer two.example"; "bearer one.example"; "bearer two.example"]).
Proof. vm_compute. reflexivity. Qed.
End ConnectExamples.
