(* ===== verification/Lomax.v ===== *)
(** * Lomax, the proxy in front of the servers of users (services/lomax/src/run.rs)

    A request to Lomax names a user in the audience of its token.  Lomax asks the
    server of this user, behind the user's socket, whether the token may be used,
    waits for an approval when the server says that it needs one, and passes the
    request and later ones with the same token on to this server.

    What [authenticate] makes is kept per token in a cache behind one lock, which
    it holds from looking the token up until the answer of the server is in, so
    requests are handled one after the other from there on.  The user's server is
    the class [UserServers] on a state of the world [W], tokens are read by
    [InsecureJwt] without checking their signature.  Header values are texts of
    ASCII characters ([HeaderValue::to_str]). *)
From S2P Require Import Prelude Interfaces Config Tokens TokenStore KeyStore ExpireMap Access.
From stdpp Require Import pretty.
From Stdlib Require Import Ascii.

(** ** The world *)
Class UriLib := {
  Uri : Type;
  uri_parse : string -> result string Uri;
  uri_scheme : Uri -> option string;
  uri_path : Uri -> string
}.
Record Claims := MkClaims { cl_aud : string; cl_sub : string; cl_exp : Z }.
(** [dangerous_insecure_decode_with_validation] with the default validation for
    ES256, at a time: no signature is checked, but the expiry is. *)
Class InsecureJwt := {
  insecure_decode : N -> string -> result string Claims;
  insecure_decode_exp : forall now token c, insecure_decode now token = Ok c -> (Z.of_N now <= cl_exp c)%Z;
  (** the claims are in the token, whatever the time *)
  insecure_decode_claims : forall now now' token c c',
    insecure_decode now token = Ok c -> insecure_decode now' token = Ok c' -> c = c'
}.

(** A request and its answer: the header that is read, and the rest. *)
Record HttpRequest := MkHttpRequest {
  hr_authorization : option (result string string);
  hr_rest : string
}.
Class UserServers {UL : UriLib} (W : Type) := {
  (** connecting to a socket, and the calls of the authentication service there *)
  us_connect : Uri -> sem W string unit;
  us_authenticate : Uri -> AuthenticationParameters -> sem W Status (option string);
  us_wait : Uri -> string -> N -> sem W Status unit;
  us_cancel : Uri -> string -> sem W Status unit;
  (** passing a request on *)
  us_request : Uri -> HttpRequest -> sem W string string;
  status_text : Status -> string
}.

(** ** Tokens and users *)
Definition ascii_space (c : ascii) : bool := let n := N_of_ascii c in ((9 <=? n) && (n <=? 13) || (n =? 32))%N.
(** [split_whitespace] *)
Fixpoint split_space (s : string) : list string :=
  match s with
  | EmptyString => [EmptyString]
  | String c s' =>
      if ascii_space c then EmptyString :: split_space s'
      else match split_space s' with
           | w :: l => String c w :: l
           | [] => [String c EmptyString]
           end
  end.
Definition split_whitespace (s : string) : list string := filter (fun w => w <> EmptyString) (split_space s).
Definition token_from_str (s : string) : result string string :=
  let lowercase_header := lowercase s in
  if String.prefix "bearer " lowercase_header then Ok (default EmptyString (last (split_whitespace s)))
  else Err "Invalid authorization format".

Record UserHostPair := MkUserHostPair { username : string; hostname : string }.
Definition user_host_from_str (s : string) : result string UserHostPair :=
  match str_split "@"%char s with
  | [u; h] => Ok (MkUserHostPair u h)
  | _ => Err "Invalid audience format"
  end.
Definition get_user_socket (template username : string) : string := str_replace "{username}" username template.

Section lomax.
Context {UL : UriLib} {IJ : InsecureJwt} {W : Type} {US : UserServers W}.
(** [cfg(unix)] or [cfg(windows)], and the setting of the sockets. *)
Variable local_scheme : string.
Variable user_socket_url : string.

(** ** Connections *)
Record LocalAveryConnector := MkConnector { cn_uri : Uri }.
Definition get_connector (uri : Uri) : option LocalAveryConnector :=
  if bool_decide (uri_scheme uri = Some local_scheme) then Some (MkConnector uri) else None.
Definition unsupported (uri : Uri) : Status :=
  MkStatus CAborted ("Unsupported uri scheme, expected windows or unix, got " +:+ quoted (default EmptyString (uri_scheme uri))).
Definition with_status {E A} (f : E -> Status) (c : sem W E A) : sem W Status A :=
  fun w => let '(w, r) := c w in (w, map_err f r).
Definition grpc_connect (endpoint : Uri) : sem W Status unit :=
  _ ← sem_lift (ok_or (unsupported endpoint) (get_connector endpoint));
  with_status (fun e => MkStatus CUnavailable ("Failed to make local connection  @ " +:+ quoted (uri_path endpoint) +:+ ": " +:+ e))
    (us_connect endpoint).

(** ** Asking the user's server *)
Definition approval_timeout : N := 120.
Definition wait_for_approval (endpoint : Uri) (id : string) : sem W Status unit :=
  fun w =>
    match us_wait endpoint id approval_timeout w with
    | (w, Ok _) => (w, Ok tt)
    | (w, Err e) =>
        if bool_decide (st_code e = CCancelled) then
          let '(w, _) := us_cancel endpoint id w in
          (w, Err (MkStatus CDeadlineExceeded
             ("Remote access request with id " +:+ quoted id +:+ " was not approved after waiting for " +:+
              pretty approval_timeout +:+ " seconds")))
        else (w, Err (MkStatus CInternal
             ("Failed to wait for access request with id " +:+ quoted id +:+ ": " +:+ status_text e)))
    end.
Definition parameters (user_host_pair : UserHostPair) (token : string) : AuthenticationParameters :=
  MkAuthenticationParameters (username user_host_pair +:+ "@" +:+ hostname user_host_pair) token true.
Definition user_connector (user : string) : result Status LocalAveryConnector :=
  let uri := get_user_socket user_socket_url user in
  sock ← map_err (fun e => MkStatus CInternal ("Invalid local socket URI " +:+ quoted uri +:+ ": " +:+ e)) (uri_parse uri);
  ok_or (unsupported sock) (get_connector sock).
Definition auth_against_avery (endpoint : Uri) (user_host_pair : UserHostPair) (token : string)
  : sem W Status LocalAveryConnector :=
  _ ← grpc_connect endpoint;
  remote_access_request_id ← us_authenticate endpoint (parameters user_host_pair token);
  _ ← (match remote_access_request_id with
       | Some id => wait_for_approval endpoint id
       | None => mret tt
       end : sem W Status unit);
  sem_lift (user_connector (username user_host_pair)).

(** ** Requests *)
#[local] Abbreviation TokenCache := (gmap string (Z * LocalAveryConnector)).
Record LomaxState := MkLomax { lx_cache : TokenCache; lx_world : W }.
(** The two clocks that are read: that of the token library and [Utc::now]. *)
Record LomaxClock := MkLomaxClock { lc_token : N; lc_utc : Z }.

(** What the header of a request says: the socket of its user, the user, the expiry
    of the token and the token. *)
Definition identify (clock : LomaxClock) (request : HttpRequest) : option (Uri * UserHostPair * Z * string) :=
  header ← hr_authorization request ≫= result_ok;
  token ← result_ok (token_from_str header);
  claims ← result_ok (insecure_decode (lc_token clock) token);
  user_host_pair ← result_ok (user_host_from_str (cl_aud claims));
  endpoint ← result_ok (uri_parse (get_user_socket user_socket_url (username user_host_pair)));
  Some (endpoint, user_host_pair, cl_exp claims, token).
(** A new entry of the cache for a token whose server lets it in. *)
Definition ask_and_cache (endpoint : Uri) (user_host_pair : UserHostPair) (exp : Z) (token : string) (s : LomaxState)
  : LomaxState * option LocalAveryConnector :=
  match auth_against_avery endpoint user_host_pair token (lx_world s) with
  | (w, Ok c) => (MkLomax (<[token := (exp, c)]> (lx_cache s)) w, Some c)
  | (w, Err _) => (MkLomax (lx_cache s) w, None)
  end.
Definition lomax_authenticate (clock : LomaxClock) (request : HttpRequest) (s : LomaxState)
  : LomaxState * option LocalAveryConnector :=
  match identify clock request with
  | None => (s, None)
  | Some (endpoint, user_host_pair, exp, token) =>
      match lx_cache s !! token with
      | Some (cached_exp, client) =>
          if (cached_exp <=? lc_utc clock)%Z then ask_and_cache endpoint user_host_pair exp token s else (s, Some client)
      | None => ask_and_cache endpoint user_host_pair exp token s
      end
  end.

(** The answer to a request: a status as a response, or what the user's server
    answers, or the failure of passing the request on. *)
Inductive ProxyAnswer :=
| RefusedWith (s : Status)
| PassedOn (c : LocalAveryConnector) (response : result string string).
Definition proxy (clock : LomaxClock) (request : HttpRequest) (s : LomaxState) : LomaxState * ProxyAnswer :=
  match lomax_authenticate clock request s with
  | (s, None) => (s, RefusedWith (MkStatus CPermissionDenied "Failed to authenticate."))
  | (s, Some client) =>
      let '(w, r) := us_request (cn_uri client) request (lx_world s) in
      (MkLomax (lx_cache s) w, PassedOn client r)
  end.

(** The life of a proxy: requests, and changes of the world between them. *)
Inductive lomax_event :=
| Incoming (clock : LomaxClock) (request : HttpRequest)
| Elsewhere (f : W -> W).
Definition handle_event (e : lomax_event) (s : LomaxState) : LomaxState * option ProxyAnswer :=
  match e with
  | Incoming clock request => let '(s, a) := proxy clock request s in (s, Some a)
  | Elsewhere f => (MkLomax (lx_cache s) (f (lx_world s)), None)
  end.
Definition run_events (events : list lomax_event) (s : LomaxState) : LomaxState :=
  foldl (fun s e => (handle_event e s).1) s events.
End lomax.
Arguments MkLomax {UL W} _ _.
Arguments lx_cache {UL W} _.
Arguments lx_world {UL W} _.
Arguments MkConnector {UL} _.
Arguments cn_uri {UL} _.
