(* ===== verification/LomaxProps.v ===== *)
(** * Properties of the proxy

    A request reaches the server of a user only with a token that this very server
    has let in, and not after the token's expiry ([passed_on_by_consent]). *)
From S2P Require Import Prelude Interfaces Config Tokens TokenStore KeyStore ExpireMap Access Lomax.

Section lomax_props.
Context {UL : UriLib} {IJ : InsecureJwt} {W : Type} {US : UserServers W}.
Variable local_scheme : string.
Variable user_socket_url : string.
#[local] Abbreviation identify := (identify user_socket_url).
#[local] Abbreviation user_connector := (user_connector local_scheme user_socket_url).
#[local] Abbreviation proxy := (proxy local_scheme user_socket_url).
#[local] Abbreviation run_events := (run_events local_scheme user_socket_url).
Implicit Types s : LomaxState (W := W).

(** The server behind a socket lets a token of a user in: it accepts it, or asks
    for an approval and says that it came. *)
Definition lets_in (w : W) (endpoint : Uri) (user : UserHostPair) (token : string) : Prop :=
  exists w1, us_connect endpoint w = (w1, Ok tt) /\
    ((exists w2, us_authenticate endpoint (parameters user token) w1 = (w2, Ok None)) \/
     exists w2 id w3, us_authenticate endpoint (parameters user token) w1 = (w2, Ok (Some id)) /\
       us_wait endpoint id approval_timeout w2 = (w3, Ok tt)).

Lemma wait_for_approval_ok endpoint id w w' :
  wait_for_approval endpoint id w = (w', Ok tt) -> us_wait endpoint id approval_timeout w = (w', Ok tt).
Proof.
  unfold wait_for_approval. destruct (us_wait endpoint id approval_timeout w) as [w1 [[]|e]]; [done|].
  destruct (bool_decide _); [|done]. by destruct (us_cancel endpoint id w1).
Qed.
Lemma let_in endpoint user token w w' c :
  auth_against_avery local_scheme user_socket_url endpoint user token w = (w', Ok c) ->
  lets_in w endpoint user token /\ user_connector (username user) = Ok c.
Proof.
  unfold auth_against_avery. intros (w1 & [] & H1 & (w2 & o & H2 & (w3 & [] & H3 & H4)%sem_bind_Ok)%sem_bind_Ok)%sem_bind_Ok.
  injection H4 as -> H4. split; [|done].
  unfold grpc_connect, with_status, sem_lift in H1. cbv [mbind sem_bind] in H1.
  destruct (ok_or _ _) as [[]|]; [|done]. destruct (us_connect endpoint w) as [w1' [[]|]] eqn:Hc; [|done]. injection H1 as ->.
  exists w1. split; [done|]. destruct o as [id|].
  - right. exists w2, id, w'. split; [done|]. by apply wait_for_approval_ok.
  - left. by exists w2.
Qed.

(** ** The cache *)

(** A request that its server let in, at some point of a life of the proxy. *)
Definition let_in_before (events : list (lomax_event (W := W))) s (token : string) (exp : Z) (c : LocalAveryConnector) : Prop :=
  exists pre clock request post endpoint user, events = pre ++ Incoming clock request :: post /\
    identify clock request = Some (endpoint, user, exp, token) /\
    lets_in (lx_world (run_events pre s)) endpoint user token /\ user_connector (username user) = Ok c.

Lemma run_events_snoc events e s : run_events (events ++ [e]) s = (handle_event local_scheme user_socket_url e (run_events events s)).1.
Proof. unfold Lomax.run_events. by rewrite foldl_app. Qed.
Lemma let_in_later events e s token exp c : let_in_before events s token exp c -> let_in_before (events ++ [e]) s token exp c.
Proof.
  intros (pre & clock & request & post & endpoint & user & -> & H). exists pre, clock, request, (post ++ [e]), endpoint, user.
  by rewrite <- app_assoc.
Qed.
Lemma ask_and_cache_run endpoint user exp token s s' o :
  ask_and_cache local_scheme user_socket_url endpoint user exp token s = (s', o) ->
  (o = None /\ lx_cache s' = lx_cache s) \/
  exists c, o = Some c /\ lx_cache s' = <[token := (exp, c)]> (lx_cache s) /\
    lets_in (lx_world s) endpoint user token /\ user_connector (username user) = Ok c.
Proof.
  unfold ask_and_cache. destruct (auth_against_avery _ _ _ _ _ _) as [w [c|e]] eqn:H; intros [= <- <-]; [|by left].
  right. exists c. destruct (let_in _ _ _ _ _ _ H). done.
Qed.
(** What a request makes of the cache, and what it is passed on to. *)
Lemma authenticate_run clock request s s' o :
  lomax_authenticate local_scheme user_socket_url clock request s = (s', o) ->
  (o = None /\ lx_cache s' = lx_cache s) \/
  exists endpoint user exp token c, identify clock request = Some (endpoint, user, exp, token) /\ o = Some c /\
    ((lx_cache s' = <[token := (exp, c)]> (lx_cache s) /\ lets_in (lx_world s) endpoint user token /\
        user_connector (username user) = Ok c) \/
     exists cached, lx_cache s' = lx_cache s /\ lx_cache s !! token = Some (cached, c) /\ (lc_utc clock < cached)%Z).
Proof.
  unfold lomax_authenticate. destruct (identify clock request) as [[[[endpoint user] exp] token]|]; [|intros [= <- <-]; by left].
  assert (forall s' o, ask_and_cache local_scheme user_socket_url endpoint user exp token s = (s', o) ->
    (o = None /\ lx_cache s' = lx_cache s) \/ exists c, o = Some c /\ lx_cache s' = <[token := (exp, c)]> (lx_cache s) /\
      lets_in (lx_world s) endpoint user token /\ user_connector (username user) = Ok c) as Hask
    by (intros; by apply ask_and_cache_run).
  destruct (lx_cache s !! token) as [[cached client]|] eqn:Hc.
  - destruct (Z.leb_spec cached (lc_utc clock)) as [Hle|Hlt].
    + intros [|(c & -> & ? & ? & ?)]%Hask; [by left|right]. exists endpoint, user, exp, token, c. auto 10.
    + intros [= <- <-]. right. exists endpoint, user, exp, token, client. split_and!; [done..|]. right. exists cached. auto.
  - intros [|(c & -> & ? & ? & ?)]%Hask; [by left|right]. exists endpoint, user, exp, token, c. auto 10.
Qed.
Lemma proxy_cache clock request s :
  lx_cache (proxy clock request s).1 = lx_cache (lomax_authenticate local_scheme user_socket_url clock request s).1.
Proof.
  unfold Lomax.proxy. destruct (lomax_authenticate _ _ _ _ _) as [s1 [c|]]; [|done]. by destruct (us_request _ _ _).
Qed.
Lemma cache_let_in events s token exp c :
  lx_cache s = ∅ -> lx_cache (run_events events s) !! token = Some (exp, c) -> let_in_before events s token exp c.
Proof.
  intros He. revert token exp c. induction events as [|e events IH] using rev_ind; intros token exp c.
  { change (lx_cache (run_events [] s)) with (lx_cache s). by rewrite He, lookup_empty. }
  rewrite run_events_snoc. destruct e as [clock request|f]; cbn [handle_event]; [|intros H; by apply let_in_later, IH].
  destruct (proxy clock request (run_events events s)) as [s1 a] eqn:Hp. cbn [fst].
  replace (lx_cache s1) with (lx_cache (proxy clock request (run_events events s)).1) by (by rewrite Hp).
  rewrite proxy_cache. destruct (lomax_authenticate _ _ _ _ _) as [s2 o] eqn:Ha. cbn [fst].
  destruct (authenticate_run _ _ _ _ _ Ha) as [[_ ->]|(endpoint & user & exp' & token' & c' & Hid & -> & [(-> & Hin & Hc)|(cached & -> & _)])];
    [intros H; by apply let_in_later, IH| |intros H; by apply let_in_later, IH].
  destruct (decide (token = token')) as [->|Hne].
  - rewrite lookup_insert_eq. intros [= <- <-]. exists events, clock, request, [], endpoint, user. done.
  - rewrite lookup_insert_ne by done. intros H. by apply let_in_later, IH.
Qed.

(** The user of a token does not change. *)
Lemma identify_token clock clock' request request' endpoint user exp endpoint' user' exp' token :
  identify clock request = Some (endpoint, user, exp, token) -> identify clock' request' = Some (endpoint', user', exp', token) ->
  endpoint = endpoint' /\ user = user' /\ exp = exp'.
Proof.
  assert (forall k r e u x, identify k r = Some (e, u, x, token) -> exists claims, insecure_decode (lc_token k) token = Ok claims /\
    x = cl_exp claims /\ user_host_from_str (cl_aud claims) = Ok u /\ uri_parse (get_user_socket user_socket_url (username u)) = Ok e) as Hinv.
  { intros k r e u x. unfold Lomax.identify. destruct (hr_authorization r ≫= result_ok) as [header|]; [|done]. cbn.
    destruct (token_from_str header) as [t|]; [|done]. cbn. destruct (insecure_decode (lc_token k) t) as [claims|] eqn:Hd; [|done]. cbn.
    destruct (user_host_from_str (cl_aud claims)) as [p|] eqn:Hu; [|done]. cbn. destruct (uri_parse _) as [e'|] eqn:Hp; [|done]. cbn.
    intros [= <- <- <- <-]. eauto 10. }
  intros (cl & Hd & -> & Hu & He)%Hinv (cl' & Hd' & -> & Hu' & He')%Hinv.
  pose proof (insecure_decode_claims _ _ _ _ _ Hd Hd') as <-. rewrite Hu in Hu'. injection Hu' as <-. rewrite He in He'. by injection He' as <-.
Qed.

(** C40: a request reaches a user's server only by the server's consent.  In any life of a proxy
    that starts with nothing remembered, a request that is passed on carries a token,
    its audience names a user, and it is passed on to this user's socket;
    this token was let in by the server at this socket, now or at an
    earlier request with the same token, and then its expiry has not come yet. *)
Theorem passed_on_by_consent events s clock request s' c response :
  lx_cache s = ∅ ->
  proxy clock request (run_events events s) = (s', PassedOn c response) ->
  exists endpoint user exp token, identify clock request = Some (endpoint, user, exp, token) /\
    user_connector (username user) = Ok c /\
    (lets_in (lx_world (run_events events s)) endpoint user token \/
     (lc_utc clock < exp)%Z /\
     exists pre clock' request' post, events = pre ++ Incoming clock' request' :: post /\
       identify clock' request' = Some (endpoint, user, exp, token) /\ lets_in (lx_world (run_events pre s)) endpoint user token).
Proof.
  intros He. unfold Lomax.proxy. destruct (lomax_authenticate _ _ _ _ _) as [s1 [c'|]] eqn:Ha; [|done].
  destruct (us_request _ _ _) as [w r]. intros [= _ -> _].
  destruct (authenticate_run _ _ _ _ _ Ha) as [[? _]|(endpoint & user & exp & token & c'' & Hid & [= ->] & [(_ & Hin & Hc)|(cached & _ & Hl & Ht)])];
    [done| |]; exists endpoint, user, exp, token; (split; [done|]).
  - split; [done|by left].
  - destruct (cache_let_in events s token cached c'' He Hl) as (pre & clock' & request' & post & e' & u' & -> & Hid' & Hin & Hc).
    destruct (identify_token _ _ _ _ _ _ _ _ _ _ _ Hid Hid') as (<- & <- & ->). split; [done|]. right. split; [done|].
    exists pre, clock', request', post. done.
Qed.
End lomax_props.

(** ** A concrete proxy *)
Module ProxyExamples.
#[local] Instance text_uri : UriLib := {|
  Uri := string; uri_parse := Ok;
  uri_scheme u := if String.prefix "unix:" u then Some "unix" else None; uri_path u := u |}.
(** A token is its audience, and expires at 100. *)
#[local] Program Instance text_jwt : InsecureJwt := {|
  insecure_decode now token := if (now <=? 100)%N then Ok (MkClaims token "ada" 100) else Err "ExpiredSignature" |}.
Next Obligation. intros now token c. cbn. destruct (N.leb_spec now 100); [intros [= <-]; cbn; lia|done]. Qed.
Next Obligation. intros now now' token c c'. cbn. destruct (now <=? 100)%N, (now' <=? 100)%N; congruence. Qed.
(** The tokens that the server of the user lets in; it never approves others. *)
#[local] Instance servers : UserServers (list string) := {|
  us_connect _ w := (w, Ok tt);
  us_authenticate _ p w := (w, Ok (if bool_decide (ap_token p ∈ w) then None else Some "1"));
  us_wait _ _ _ w := (w, Err (MkStatus CCancelled "timeout"));
  us_cancel _ _ w := (w, Ok tt);
  us_request _ r w := (w, Ok (hr_rest r));
  status_text := st_message |}.
Definition sockets : string := "unix://localhost/tmp/avery-{username}.sock".
Definition from_ada : HttpRequest := MkHttpRequest (Some (Ok "Bearer ada@host")) "hello".
Definition at_ (n : N) : LomaxClock := MkLomaxClock n (Z.of_N n).
Definition start : LomaxState (W := list string) := MkLomax ∅ ["ada@host"].
Definition outcome (clock : LomaxClock) (s : LomaxState) : option (string * bool) :=
  match (proxy "unix" sockets clock from_ada s).2 with
  | PassedOn c r => Some (cn_uri c, is_ok r)
  | RefusedWith _ => None
  end.

(** Ada's server lets the token in and then no more: it still serves until it
    expires, and at the moment it expires the server is asked again. *)
Definition a_life : list (lomax_event (W := list string)) := [Incoming (at_ 1) from_ada; Elsewhere (fun _ => [])].
Lemma passed_on_by_consent_witness :
  outcome (at_ 99) (run_events "unix" sockets a_life start) = Some ("unix://localhost/tmp/avery-ada.sock", true) /\
  exists pre post clock request, a_life = pre ++ Incoming clock request :: post /\
    lets_in (lx_world (run_events "unix" sockets pre start)) "unix://localhost/tmp/avery-ada.sock" (MkUserHostPair "ada" "host") "ada@host".
Proof.
  split; [vm_compute; reflexivity|].
  destruct (proxy "unix" sockets (at_ 99) from_ada (run_events "unix" sockets a_life start)) as [s' [st|c r]] eqn:E.
  - exfalso. assert (outcome (at_ 99) (run_events "unix" sockets a_life start) = None) as H by (unfold outcome; rewrite E; reflexivity).
    vm_compute in H. discriminate H.
  - destruct (passed_on_by_consent "unix" sockets a_life start (at_ 99) from_ada s' c r eq_refl E)
      as (endpoint & user & exp & token & Hid & Hc & Hin).
    assert ((endpoint, user, exp, token) = ("unix://localhost/tmp/avery-ada.sock", MkUserHostPair "ada" "host", 100%Z, "ada@host")) as Heq.
    { assert (Some (endpoint, user, exp, token) = Some ("unix://localhost/tmp/avery-ada.sock", MkUserHostPair "ada" "host", 100%Z, "ada@host")) as Hs
        by (rewrite <- Hid; vm_compute; reflexivity). injection Hs as -> -> -> ->. reflexivity. }
    injection Heq as -> -> -> ->. destruct Hin as [(w1 & Hw & [(w2 & H)|(w2 & id & w3 & _ & H)])|(_ & pre & clock' & request' & post & Hpre & _ & H)].
    + vm_compute in Hw. injection Hw as <-. vm_compute in H. discriminate H.
    + vm_compute in H. discriminate H.
    + exists pre, post, clock', request'. split; [exact Hpre|exact H].
Defined.
Example asked_again : outcome (at_ 100) (run_events "unix" sockets a_life start) = None.
Proof. vm_compute. reflexivity. Qed.
(** The name of a user comes from a token nobody has checked, and becomes a part of
    a path. *)
Example user_names_are_paths :
  get_user_socket sockets "x/../../home/eve/s" = "unix://localhost/tmp/avery-x/../../home/eve/s.sock".
Proof. vm_compute. reflexivity. Qed.
(** A header without a token is read as the token [bearer]. *)
Example no_token : token_from_str "bearer " = Ok "bearer".
Proof. reflexivity. Qed.
End ProxyExamples.
