(* ===== verification/LomaxUnix.v ===== *)
(** * Privileges and sockets of Lomax on Unix (services/lomax/src/unix.rs)

    Lomax starts as root and lowers its effective user and group
    ([drop_privileges]).  To use the socket of a user it becomes root for a moment
    and gives the socket to its own group ([set_group]), which it does while other
    requests run on other threads: [group_step] is one system call of it, and
    [run_threads] interleaves the calls of several threads.  The effective user and
    group belong to the process, not to a thread.

    The guard of [SOCKET_GROUP_LOCK] is bound to [_] and dropped at once, so it
    excludes nobody: taking it is no step here.  Which system calls succeed is up
    to the system ([UnixOs]).

    The theorems say what [set_group] leaves behind when nothing else runs
    ([set_group_alone]), and that two of them at once can leave the process running as
    root ([lock_excludes_nobody]). *)
From S2P Require Import Prelude.

(** ** The process *)

(** The effective user and group, and the groups of files. *)
Record Unix := MkUnix { ux_euid : N; ux_egid : N; ux_groups : gmap string N }.
Record UnixOs := MkUnixOs {
  uo_setegid : Unix -> N -> bool;
  uo_seteuid : Unix -> N -> bool;
  uo_chown : Unix -> string -> N -> bool;
  (** [getpwnam] and [getgrnam], and connecting to a socket *)
  uo_user : string -> option N;
  uo_group : string -> option N;
  uo_connect : Unix -> string -> option string
}.
Definition setegid (gid : N) (u : Unix) : Unix := MkUnix (ux_euid u) gid (ux_groups u).
Definition seteuid (uid : N) (u : Unix) : Unix := MkUnix uid (ux_egid u) (ux_groups u).
Definition chown_group (path : string) (gid : N) (u : Unix) : Unix :=
  MkUnix (ux_euid u) (ux_egid u) (<[path := gid]> (ux_groups u)).
Definition get_process_owner (u : Unix) : N * N := (ux_euid u, ux_egid u).
Definition no_nul (s : string) : bool := forallb (fun c => negb (Ascii.eqb c Ascii.zero)) (String.list_ascii_of_string s).

Section unix.
Variable os : UnixOs.

Definition syscall (allowed : Unix -> bool) (effect : Unix -> Unix) (message : string) : sem Unix string unit :=
  fun u => if allowed u then (effect u, Ok tt) else (u, Err message).
Definition set_privileges (uid gid : N) : sem Unix string unit :=
  _ ← syscall (fun u => uo_setegid os u gid) (setegid gid) "Failed to set group id";
  syscall (fun u => uo_seteuid os u uid) (seteuid uid) "Failed to set user id".
Definition drop_privileges (username groupname : string) : sem Unix string unit :=
  _ ← sem_lift (if no_nul username then Ok tt else Err "Failed to create C-string for username");
  uid ← sem_lift (ok_or ("Failed to determine unix user id for username " +:+ quoted username) (uo_user os username));
  _ ← sem_lift (if no_nul groupname then Ok tt else Err "Failed to create C-string for group name");
  gid ← sem_lift (ok_or ("Failed to determine unix group id for groupname " +:+ quoted groupname) (uo_group os groupname));
  set_privileges uid gid.

(** ** [set_group] *)
Definition chown_failed (path : string) : string := "Failed to set group id for file " +:+ path.
Definition set_group (group_id : N) (path : string) : sem Unix string unit :=
  '(uid, gid) ← sem_ask (fun u => Ok (get_process_owner u));
  _ ← set_privileges 0 0;
  _ ← syscall (fun u => uo_chown os u path group_id) (chown_group path group_id) (chown_failed path);
  set_privileges uid gid.

(** Where a thread is in it: before its next system call. *)
Inductive group_pc :=
| AtGetEuid
| AtGetEgid (uid : N)
| AtRootGroup (uid gid : N)
| AtRootUser (uid gid : N)
| AtChown (uid gid : N)
| AtOldGroup (uid gid : N)
| AtOldUser (uid : N)
| Finished (r : result string unit).
Record group_thread := MkThread { gt_group : N; gt_path : string; gt_pc : group_pc }.
Definition move (call : sem Unix string unit) (next : group_pc) (u : Unix) : Unix * group_pc :=
  let '(u, r) := call u in (u, match r with Ok _ => next | Err e => Finished (Err e) end).
Definition group_step (t : group_thread) (u : Unix) : Unix * group_thread :=
  let '(u, pc) :=
    match gt_pc t with
    | AtGetEuid => (u, AtGetEgid (ux_euid u))
    | AtGetEgid uid => (u, AtRootGroup uid (ux_egid u))
    | AtRootGroup uid gid => move (syscall (fun u => uo_setegid os u 0) (setegid 0) "Failed to set group id") (AtRootUser uid gid) u
    | AtRootUser uid gid => move (syscall (fun u => uo_seteuid os u 0) (seteuid 0) "Failed to set user id") (AtChown uid gid) u
    | AtChown uid gid =>
        move (syscall (fun u => uo_chown os u (gt_path t) (gt_group t)) (chown_group (gt_path t) (gt_group t)) (chown_failed (gt_path t)))
          (AtOldGroup uid gid) u
    | AtOldGroup uid gid => move (syscall (fun u => uo_setegid os u gid) (setegid gid) "Failed to set group id") (AtOldUser uid) u
    | AtOldUser uid => move (syscall (fun u => uo_seteuid os u uid) (seteuid uid) "Failed to set user id") (Finished (Ok tt)) u
    | Finished r => (u, Finished r)
    end in
  (u, MkThread (gt_group t) (gt_path t) pc).
(** Threads that take turns: each entry of the schedule lets one make its next call. *)
Definition turn (i : nat) (s : Unix * list group_thread) : Unix * list group_thread :=
  match s.2 !! i with
  | Some t => let '(u, t) := group_step t s.1 in (u, <[i := t]> s.2)
  | None => s
  end.
Definition run_threads (schedule : list nat) (s : Unix * list group_thread) : Unix * list group_thread :=
  foldl (fun s i => turn i s) s schedule.
Definition starting (jobs : list (N * string)) : list group_thread := (fun j => MkThread j.1 j.2 AtGetEuid) <$> jobs.

(** ** [Service::call] of the connector *)
Definition connector_call (path : string) : sem Unix string unit :=
  st_gid ← sem_ask (fun u => ok_or "No such file or directory" (ux_groups u !! path));
  egid ← sem_ask (fun u => Ok (ux_egid u));
  _ ← (if negb (N.eqb st_gid egid) && negb (N.eqb egid 0) then set_group egid path else mret tt);
  sem_ask (fun u => match uo_connect os u path with Some e => Err e | None => Ok tt end).
End unix.

Section unix_props.
Variable os : UnixOs.

Lemma syscall_run allowed effect message u :
  syscall allowed effect message u = if allowed u then (effect u, Ok tt) else (u, Err message).
Proof. done. Qed.

Lemma run_turn i schedule u threads t u' t' :
  threads !! i = Some t -> group_step os t u = (u', t') ->
  run_threads os (i :: schedule) (u, threads) = run_threads os schedule (u', <[i := t']> threads).
Proof.
  intros Ht Hs. change (run_threads os schedule (turn os i (u, threads)) = run_threads os schedule (u', <[i := t']> threads)).
  unfold turn. cbn [fst snd]. by rewrite Ht, Hs.
Qed.
Lemma finished_alone n g p r u :
  run_threads os (replicate n 0) (u, [MkThread g p (Finished r)]) = (u, [MkThread g p (Finished r)]).
Proof. induction n as [|n IH]; [done|]. cbn [replicate]. by erewrite run_turn; [|reflexivity..]. Qed.
(** The next call of a thread, when it is known whether the system allows it. *)
#[local] Ltac next_call known :=
  erewrite run_turn;
  [|reflexivity|unfold group_step, move, syscall; cbn [gt_pc gt_path gt_group]; known tt; reflexivity];
  cbn [list_insert insert gt_group gt_path].

(** A thread that is not interrupted does what the function does. *)
Lemma thread_alone g p u :
  let '(u', r) := set_group os g p u in
  run_threads os (replicate 7 0) (u, starting [(g, p)]) = (u', [MkThread g p (Finished r)]).
Proof.
  unfold set_group, set_privileges, sem_ask, get_process_owner. cbv [mbind sem_bind]. rewrite syscall_run.
  unfold starting. cbn [fmap list_fmap fst snd].
  do 2 (cbn [replicate]; erewrite run_turn; [|reflexivity|reflexivity]; cbn [list_insert insert gt_group gt_path]).
  cbn [replicate]. destruct (uo_setegid os u 0) eqn:H1;
    next_call ltac:(fun _ => rewrite H1); [|apply (finished_alone 4)].
  rewrite syscall_run. destruct (uo_seteuid os (setegid 0 u) 0) eqn:H2;
    next_call ltac:(fun _ => rewrite H2); [|apply (finished_alone 3)].
  rewrite syscall_run. destruct (uo_chown os (seteuid 0 (setegid 0 u)) p g) eqn:H3;
    next_call ltac:(fun _ => rewrite H3); [|apply (finished_alone 2)].
  rewrite syscall_run. destruct (uo_setegid os _ (ux_egid u)) eqn:H4;
    next_call ltac:(fun _ => rewrite H4); [|apply (finished_alone 1)].
  rewrite syscall_run. destruct (uo_seteuid os _ (ux_euid u)) eqn:H5;
    next_call ltac:(fun _ => rewrite H5);
    reflexivity.
Qed.

(** Giving a socket to the group.  A successful [set_group] that nothing
    interrupts gives the file to the group and leaves the process with the effective
    user and group it had; but where the system refuses to change the file, the
    error leaves the process running as root. *)
Theorem set_group_alone g p u :
  (forall u', set_group os g p u = (u', Ok tt) -> u' = MkUnix (ux_euid u) (ux_egid u) (<[p := g]> (ux_groups u))) /\
  let root := MkUnix 0 0 (ux_groups u) in
  (uo_setegid os u 0 = true -> uo_seteuid os (setegid 0 u) 0 = true -> uo_chown os root p g = false ->
   set_group os g p u = (root, Err (chown_failed p))).
Proof.
  unfold set_group, set_privileges, sem_ask, syscall, get_process_owner. cbv [mbind sem_bind]. split.
  - intros u'. destruct (uo_setegid os u 0); [|done]. destruct (uo_seteuid os _ 0); [|done].
    destruct (uo_chown os _ p g); [|done]. destruct (uo_setegid os _ (ux_egid u)); [|done].
    destruct (uo_seteuid os _ (ux_euid u)); [|done]. by intros [= <-].
  - intros H1 H2 H3. rewrite H1, H2. change (seteuid 0 (setegid 0 u)) with (MkUnix 0 0 (ux_groups u)). by rewrite H3.
Qed.

(** Jobs one after the other. *)
Fixpoint one_by_one (jobs : list (N * string)) : sem Unix string unit :=
  match jobs with
  | [] => mret tt
  | (g, p) :: jobs => _ ← set_group os g p; one_by_one jobs
  end.
(** The lock around the privileges excludes nobody.  One after the other, jobs
    that succeed leave the process with the user and group it had; but in a system
    that allows every call, two jobs at once can both succeed, the files given to
    the group, and leave the process running as root. *)
Theorem lock_excludes_nobody u :
  (forall jobs u', one_by_one jobs u = (u', Ok tt) -> ux_euid u' = ux_euid u /\ ux_egid u' = ux_egid u) /\
  ((forall v gid, uo_setegid os v gid = true) -> (forall v uid, uo_seteuid os v uid = true) ->
   (forall v p gid, uo_chown os v p gid = true) ->
   forall g p q, exists schedule,
     run_threads os schedule (u, starting [(g, p); (g, q)]) =
       (MkUnix 0 0 (<[q := g]> (<[p := g]> (ux_groups u))),
        [MkThread g p (Finished (Ok tt)); MkThread g q (Finished (Ok tt))])).
Proof.
  split.
  - intros jobs. revert u. induction jobs as [|[g p] jobs IH]; intros u u'; cbn [one_by_one]; [by intros [= <-]|].
    intros (u1 & [] & H1 & H2)%sem_bind_Ok. apply (proj1 (set_group_alone g p u)) in H1 as ->. by apply IH in H2.
  - intros Hg Hu Hc g p q. exists [0; 0; 0; 0; 1; 1; 0; 0; 0; 1; 1; 1; 1; 1].
    unfold starting. cbn [fmap list_fmap fst snd].
    do 14 next_call ltac:(fun _ => rewrite ?Hg, ?Hu, ?Hc). reflexivity.
Qed.
End unix_props.

(** ** A concrete system *)
Module UnixExamples.
(** Everything is allowed, but no file of this name can be changed. *)
Definition permissive (fixed : option string) : UnixOs :=
  MkUnixOs (fun _ _ => true) (fun _ _ => true) (fun _ p _ => negb (bool_decide (Some p = fixed)))
    (fun _ => Some 1000%N) (fun _ => Some 100%N) (fun _ _ => None).
Definition firm : Unix := MkUnix 1000 100 {[ "/tmp/avery-ada.sock" := 7%N; "/tmp/avery-bo.sock" := 8%N ]}.
Lemma set_group_alone_witness :
  (set_group (permissive (Some "/tmp/avery-ada.sock")) 100 "/tmp/avery-ada.sock" firm).1 = MkUnix 0 0 (ux_groups firm).
Proof.
  destruct (set_group_alone (permissive (Some "/tmp/avery-ada.sock")) 100 "/tmp/avery-ada.sock" firm) as [_ H].
  rewrite H; reflexivity.
Defined.
Lemma lock_excludes_nobody_witness :
  exists schedule, ux_euid (run_threads (permissive None) schedule (firm, starting [(100%N, "/tmp/avery-ada.sock"); (100%N, "/tmp/avery-bo.sock")])).1 = 0%N.
Proof.
  destruct (lock_excludes_nobody (permissive None) firm) as [_ H].
  destruct (H (fun _ _ => eq_refl) (fun _ _ => eq_refl) (fun _ _ _ => eq_refl) 100%N "/tmp/avery-ada.sock" "/tmp/avery-bo.sock") as [schedule Hs].
  exists schedule. rewrite Hs. reflexivity.
Defined.
(** The call of the connector after that error runs as root, too, and leaves the
    group of the socket alone. *)
Example stays_root :
  (connector_call (permissive (Some "/tmp/avery-ada.sock")) "/tmp/avery-bo.sock"
     (connector_call (permissive (Some "/tmp/avery-ada.sock")) "/tmp/avery-ada.sock" firm).1).1 = MkUnix 0 0 (ux_groups firm).
Proof. reflexivity. Qed.
End UnixExamples.
