(* ===== verification/LomaxStart.v ===== *)
(** * How Lomax starts (services/lomax/src/config.rs, tls.rs and [run] of run.rs)

    The configuration, the certificate that Lomax makes for itself when it has
    none or the names in it have changed, what TLS is set up with, and the start up
    to the point where requests are served, with the privileges of [LomaxUnix].

    The sources and types of the [config] crate, PEM, the maker of certificates and
    TLS are classes; paths are those of Unix without trailing separators and dot
    components; what the file system refuses is up to [StartOs].

    Module [LomaxWindows] (windows.rs): the pipe of a user's server and how a connection
    to it is opened ([open_pipe]): while the pipe is busy it is tried again every 50 milliseconds.  There is no time
    after which this is given up.  Privileges are not changed; the service is that of
    [HostServices], with the run of Lomax as a parameter.  Reading and writing of a
    pipe are the operating system's. *)
From S2P Require Import Prelude LomaxUnix Regex Text HostServices Registry Config.
From stdpp Require Import pretty.
From Stdlib Require Import Ascii.

(** ** Paths *)
Definition path_parent (p : string) : option string :=
  match reverse (str_split "/"%char p) with
  | EmptyString :: _ | [] => None
  | _ :: rest => Some (match reverse rest with [EmptyString] => "/" | l => str_join "/" l end)
  end.
Definition with_extension (extension name : string) : string :=
  match reverse (str_split "."%char name) with
  | _ :: (_ :: _) as before =>
      let stem := str_join "." (reverse before) in
      (if str_is_empty stem then name else stem) +:+ "." +:+ extension
  | _ => name +:+ "." +:+ extension
  end.
Definition set_extension (extension p : string) : string :=
  match reverse (str_split "/"%char p) with
  | name :: rest => str_join "/" (reverse (with_extension extension name :: rest))
  | [] => p
  end.

(** ** config.rs *)
Record CertificateLocations := MkLocations { cl_cert : string; cl_key : string }.
Definition certificate_locations (cfg_dir certificate_location certificate_key_location : option string)
  : result string CertificateLocations :=
  let or_else (o : option string) (file : string) :=
    ok_or "Failed to determine lomax config directory."
      (match o with Some p => Some p | None => (fun p => path_join p file) <$> cfg_dir end) in
  cert ← or_else certificate_location "cert.pem";
  key ← or_else certificate_key_location "key.pem";
  Ok (MkLocations cert key).

Record LomaxConfig := MkLomaxConfig {
  lo_port : N;
  lo_certificate_locations : CertificateLocations;
  lo_create_self_signed_certificate : bool;
  lo_user : string;
  lo_group : string;
  lo_certificate_alt_names : list string;
  lo_user_socket_url : string
}.
(** The fields as the sources give them, already of their types. *)
Record RawLomaxConfig := MkRawLomax {
  rl_port : option N;
  rl_certificate_location : option string;
  rl_certificate_key_location : option string;
  rl_create_self_signed_certificate : option bool;
  rl_user : option string;
  rl_group : option string;
  rl_certificate_alt_names : option (list string);
  rl_user_socket_url : option string
}.
Definition lomax_default_port : N := 1939.
Definition create_self_signed_certificate_default : bool := true.
Definition default_user_and_group : string := "firm".
Definition DEFAULT_SOCKET_URL : string := "unix://localhost/tmp/avery-{username}.sock".
Definition get_lomax_cfg_dir : option string := Some "/etc/lomax".
Definition lomax_try_into (raw : RawLomaxConfig) : result string LomaxConfig :=
  locations ← certificate_locations get_lomax_cfg_dir (rl_certificate_location raw) (rl_certificate_key_location raw);
  Ok (MkLomaxConfig (default lomax_default_port (rl_port raw)) locations
        (default create_self_signed_certificate_default (rl_create_self_signed_certificate raw))
        (default default_user_and_group (rl_user raw)) (default default_user_and_group (rl_group raw))
        (default [] (rl_certificate_alt_names raw)) (default DEFAULT_SOCKET_URL (rl_user_socket_url raw))).

Definition LOMAX_CFG_FILE_NAME : string := "lomax.toml".
Definition LOMAX_PREFIX : string := "LOMAX".
(** The sources that are merged, in order; [exists_] is [Path::exists]. *)
Definition lomax_sources (exists_ : string -> bool) : list Source :=
  (if exists_ LOMAX_CFG_FILE_NAME then [SourceFile LOMAX_CFG_FILE_NAME]
   else match (fun p => path_join p LOMAX_CFG_FILE_NAME) <$> get_lomax_cfg_dir with
        | Some etc_path => if exists_ etc_path then [SourceFile etc_path] else []
        | None => []
        end) ++ [SourceEnvironment LOMAX_PREFIX].
Definition lomax_sources_with_file (path : string) : list Source := [SourceFile path; SourceEnvironment LOMAX_PREFIX].

(** ** What the start is given *)
Class StartLibs := {
  (** the [config] crate: the merged sources *)
  sl_merge : list Source -> result string RawLomaxConfig;
  (** rcgen: a certificate for names, as PEM, and its key *)
  Certificate : Type;
  generate_self_signed : list string -> result string Certificate;
  serialize_pem : Certificate -> result string string;
  serialize_private_key_pem : Certificate -> string;
  (** pem: the contents of the blocks of a text *)
  pem_parse_many : string -> list string;
  pem_parse : string -> result string string;
  (** rustls: a configuration for certificates and their key *)
  ServerConfig : Type;
  set_single_cert : list string -> string -> result string ServerConfig
}.
(** [so_write files path]: the error of a write and what it leaves in the file. *)
Record StartOs := MkStartOs {
  so_mkdir : string -> option string;
  so_write : gmap string string -> string -> option (string * option string);
  so_read : string -> option string;
  so_hostname : result string string;
  so_bind : Unix -> N -> option string;
  so_pid : Z;
  so_unix : UnixOs
}.
Abbreviation Files := (gmap string string).

Section start.
Context {UT : UnicodeTables} {SL : StartLibs}.
Variable os : StartOs.
#[local] Abbreviation files := (sem Files string).

Definition path_exists (p : string) (f : Files) : bool := bool_decide (is_Some (f !! p)).
Definition read_to_string (p : string) (f : Files) : result string string :=
  match so_read os p with
  | Some e => Err e
  | None => ok_or "No such file or directory (os error 2)" (f !! p)
  end.
(** [std::fs::write] *)
Definition fs_write (p content : string) : files unit :=
  fun f => match so_write os f p with
           | None => (<[p := content]> f, Ok tt)
           | Some (e, Some left_) => (<[p := left_]> f, Err e)
           | Some (e, None) => (f, Err e)
           end.
Definition because {A} (message : string) (r : result string A) : result string A := map_err (fun e => message +:+ e) r.
Definition because_of {A} (message : string) (c : files A) : files A := fun f => let '(f, r) := c f in (f, because message r).

(** ** Certificates *)
Definition version_file (locations : CertificateLocations) : string := set_extension "version" (cl_key locations).
Definition parse_u32 : string -> result string Z := parse_int 0 4294967295.
Definition get_certificate_version (config : LomaxConfig) (f : Files) : result string N :=
  let version_file := version_file (lo_certificate_locations config) in
  if negb (path_exists version_file f) then Ok 5381%N
  else
    s ← because "Failed to read certificate version file: " (read_to_string version_file f);
    Z.to_N <$> because "Failed to parse certificate version: " (parse_u32 s).
(** djb2 on 32 bits; the shift loses the upper bits. *)
Definition u32 (n : N) : N := n mod 4294967296.
Definition djb2_step (hash c : N) : N := u32 (u32 (u32 (N.shiftl hash 5) + hash) + c).
Definition create_cert_version (config : LomaxConfig) : N :=
  foldl djb2_step 5381%N (char_code <$> str_chars (str_join " " (lo_certificate_alt_names config))).
Definition alt_names_of (config : LomaxConfig) (hostname : string) : list string :=
  str_replace "{hostname}" hostname <$> lo_certificate_alt_names config ++ ["{hostname}"; "localhost"].
Definition make_parent (path missing failed : string) : files unit :=
  sem_lift (parent ← ok_or missing (path_parent path);
            because failed (match so_mkdir os parent with Some e => Err e | None => Ok tt end)).
Definition create_certificate (config : LomaxConfig) : files unit :=
  let locations := lo_certificate_locations config in
  _ ← make_parent (cl_key locations) "Failed to get certificate key parent directory" "Failed to create certificate key directory: ";
  _ ← make_parent (cl_cert locations) "Failed to get certificate parent directory" "Failed to create certificate directory: ";
  hostname ← sem_lift (because "Failed to get host name: " (so_hostname os));
  cert ← sem_lift (because "Failed to generate self signed certificate: " (generate_self_signed (alt_names_of config hostname)));
  pem_cert ← sem_lift (because "Failed to serialize certificate: " (serialize_pem cert));
  _ ← because_of "Failed to write certificate key: " (fs_write (cl_key locations) (serialize_private_key_pem cert));
  _ ← because_of "Failed to write certificate key version: "
        (fs_write (version_file locations) (pretty (create_cert_version config)));
  because_of "Failed to write certificate: " (fs_write (cl_cert locations) pem_cert).

Definition get_tls_config (cert_file key_file : string) (f : Files) : result string ServerConfig :=
  data ← because ("Failed to open certificates file " +:+ quoted cert_file +:+ ": ") (read_to_string cert_file f);
  let certs := pem_parse_many data in
  if bool_decide (certs = []) then Err ("Certificates file " +:+ quoted cert_file +:+ " contained zero valid certificates.")
  else
    data ← because ("Failed to open private key file " +:+ quoted key_file +:+ ": ") (read_to_string key_file f);
    private_key ← because ("Failed to parse private key file " +:+ quoted key_file +:+ ": ") (pem_parse data);
    because "Failed to set server certificates: " (set_single_cert certs private_key).

(** ** Listening *)

Inductive Listener := SystemdSocket (fd : Z) | BoundTo (port : N).
Definition listen (port : N) (env : Environment) (u : Unix) : Environment * result string Listener :=
  let '(env, sockets) := get_systemd_sockets (so_pid os) env in
  (env, match sockets with
        | sock :: _ => Ok (SystemdSocket sock)
        | [] => because "Failed to bind TCP listener: "
                  (match so_bind os u port with Some e => Err e | None => Ok (BoundTo port) end)
        end).

(** ** [run] up to serving *)
Record LomaxArgs := MkLomaxArgs { la_config : option string; la_port : option N }.
Record LomaxWorld := MkLomaxWorld { lw_files : Files; lw_env : Environment; lw_unix : Unix }.
Record Serving := MkServing { sv_config : LomaxConfig; sv_tls : ServerConfig; sv_listener : Listener }.
Definition on_files {A} (c : files A) : sem LomaxWorld string A :=
  fun w => let '(f, r) := c (lw_files w) in (MkLomaxWorld f (lw_env w) (lw_unix w), r).
Definition on_socket (c : Environment -> Unix -> Environment * result string Listener) : sem LomaxWorld string Listener :=
  fun w => let '(env, r) := c (lw_env w) (lw_unix w) in (MkLomaxWorld (lw_files w) env (lw_unix w), r).
Definition on_privileges (c : sem Unix string unit) : sem LomaxWorld string unit :=
  fun w => let '(u, r) := c (lw_unix w) in (MkLomaxWorld (lw_files w) (lw_env w) u, r).
Definition read_config (args : LomaxArgs) (f : Files) : result string LomaxConfig :=
  raw ← sl_merge (match la_config args with
                  | Some path => lomax_sources_with_file path
                  | None => lomax_sources (fun p => path_exists p f)
                  end);
  lomax_try_into raw.
(** The certificate is made anew when there is no key and it may be made, or when
    its version is another one. *)
Definition prepare_certificate (config : LomaxConfig) : files unit :=
  expected_cert_version ← sem_ask (get_certificate_version config);
  let cert_version := create_cert_version config in
  key_exists ← sem_ask (fun f => Ok (path_exists (cl_key (lo_certificate_locations config)) f));
  if (negb key_exists && lo_create_self_signed_certificate config) || negb (N.eqb cert_version expected_cert_version)
  then create_certificate config else mret tt.
Definition lomax_run (args : LomaxArgs) : sem LomaxWorld string Serving :=
  config ← on_files (sem_ask (read_config args));
  _ ← on_files (prepare_certificate config);
  let locations := lo_certificate_locations config in
  tls ← on_files (sem_ask (get_tls_config (cl_cert locations) (cl_key locations)));
  listener ← on_socket (listen (default (lo_port config) (la_port args)));
  _ ← on_privileges (drop_privileges (so_unix os) (lo_user config) (lo_group config));
  mret (MkServing config tls listener).
End start.

Module LomaxWindows.
Definition DEFAULT_SOCKET_URL : string := "windows://./pipe/avery-{username}".
(** [Path::join] with a name: the folder of the variable has no separator at its end. *)
Definition get_lomax_cfg_dir (env : Environment) : option string := (fun appdata => appdata +:+ "\Firm") <$> ((env !! "PROGRAMDATA") ≫= id).
Definition drop_privileges (user group : string) : result string unit := Ok tt.

(** ** Connecting *)
Definition pipe_name (host : option string) (path : string) : string := "\\" +:+ default "." host +:+ str_replace "/" "\" path.
Inductive OpenAnswer := Opened | PipeBusy | OpenFailed (e : string).
(** The tries from number [i] on, at most [fuel] of them: the answer and the number of
    the last one, nothing while the pipe is busy. *)
Fixpoint open_pipe (answers : nat -> OpenAnswer) (fuel i : nat) : option (result string nat) :=
  match fuel with
  | O => None
  | S fuel =>
      match answers i with
      | Opened => Some (Ok i)
      | OpenFailed e => Some (Err e)
      | PipeBusy => open_pipe answers fuel (S i)
      end
  end.
Definition wait_milliseconds (tries : nat) : nat := 50 * tries.

(** The answer is that of the first try that does not find the pipe busy. *)
Lemma open_pipe_first answers i k : (forall j, i <= j < i + k -> answers j = PipeBusy) -> answers (i + k) <> PipeBusy ->
  forall fuel, open_pipe answers fuel i =
    if decide (k < fuel) then match answers (i + k) with Opened => Some (Ok (i + k)) | OpenFailed e => Some (Err e) | PipeBusy => None end
    else None.
Proof.
  revert i. induction k as [|k IH]; intros i Hbusy Hk [|fuel]; try done.
  - cbn [open_pipe]. rewrite Nat.add_0_r in *. rewrite decide_True by lia. by destruct (answers i).
  - cbn [open_pipe]. rewrite Hbusy by lia. rewrite (IH (S i)).
    + replace (S i + k) with (i + S k) by lia. by repeat case_decide; try lia.
    + intros j Hj. apply Hbusy. lia.
    + by replace (S i + k) with (i + S k) by lia.
Qed.
(** A pipe that stays busy keeps the request waiting for ever. *)
Lemma busy_for_ever answers i : (forall j, i <= j -> answers j = PipeBusy) -> forall fuel, open_pipe answers fuel i = None.
Proof.
  intros Hbusy fuel. revert i Hbusy. induction fuel as [|fuel IH]; intros i Hbusy; [done|]. cbn [open_pipe].
  rewrite Hbusy by lia. apply IH. intros j Hj. apply Hbusy. lia.
Qed.
Example pipe_of_ada : pipe_name (Some ".") "/pipe/avery-ada" = "\\.\pipe\avery-ada".
Proof. reflexivity. Qed.

(** ** The service *)
Section service.
Context {W : Type} {RW : Reporting W}.
Variable os : ServiceOs.
Variable run : sem W string unit -> sem W string unit.
Variable run_with_tokio : sem W Z unit.
Definition lomax_event_handler : ServiceControl -> bool -> bool * HandlerResult := event_handler.
Definition lomax_shutdown_signal : option nat -> list ServiceControl -> option nat := shutdown_signal.
Definition lomax_started_callback : sem W string unit := started_callback os.
Definition lomax_service_main : sem W ProcessEnd unit := service_main "Lomax" os run.
Definition lomax_bootstrap (service : bool) : sem W ProcessEnd unit := bootstrap "Lomax" os service run run_with_tokio.
End service.
End LomaxWindows.
