(* ===== verification/LomaxStartProps.v ===== *)
(** * Properties of the start of Lomax

    The certificate of Lomax is made once per set of names
    ([certificate_made_once]), but also where it must not be made
    ([own_certificate_replaced]); what is served is served with the privileges of
    the configured user ([serves_as_configured_user]). *)
From S2P Require Import Prelude Regex Text Registry Config LomaxUnix LomaxStart.
From stdpp Require Import pretty.
From Stdlib Require Import Ascii.

Section start_props.
Context {UT : UnicodeTables} {SL : StartLibs}.
Variable os : StartOs.
Implicit Types f : Files.
Implicit Types config : LomaxConfig.
#[local] Abbreviation key_of config := (cl_key (lo_certificate_locations config)).
#[local] Abbreviation cert_of config := (cl_cert (lo_certificate_locations config)).
#[local] Abbreviation version_of config := (version_file (lo_certificate_locations config)).

(** ** The version *)
Lemma u32_lt n : (u32 n < 4294967296)%N.
Proof. by apply N.mod_lt. Qed.
Lemma create_cert_version_lt config : (create_cert_version config < 4294967296)%N.
Proof.
  unfold create_cert_version. generalize (char_code <$> str_chars (str_join " " (lo_certificate_alt_names config))).
  intros l. assert (5381 < 4294967296)%N as H by done. revert H. generalize 5381%N.
  induction l as [|c l IH]; intros n Hn; [done|]. cbn [foldl]. apply IH, u32_lt.
Qed.
Lemma read_version config f :
  so_read os (version_of config) = None -> f !! version_of config = Some (pretty (create_cert_version config)) ->
  get_certificate_version os config f = Ok (create_cert_version config).
Proof.
  intros Hr Hf. pose proof (create_cert_version_lt config) as Hlt. unfold get_certificate_version, path_exists. cbv zeta.
  rewrite bool_decide_eq_true_2 by eauto. cbn [negb]. unfold read_to_string. rewrite Hr, Hf. cbn [ok_or because map_err mbind result_bind].
  unfold parse_u32. rewrite parse_int_pretty by lia. cbn. by rewrite N2Z.id.
Qed.

(** ** Writing *)
Lemma fs_write_ok p content f f' : fs_write os p content f = (f', Ok tt) -> f' = <[p := content]> f.
Proof. unfold fs_write. by destruct (so_write os f p) as [[e [l|]]|]; intros [= <-]. Qed.
Lemma because_of_ok {A} m (c : sem Files string A) f f' a : because_of m c f = (f', Ok a) -> c f = (f', Ok a).
Proof. unfold because_of. destruct (c f) as [f1 [b|e]]; [by intros [= -> ->]|done]. Qed.
(** A certificate that was made: what is in the files then. *)
Lemma created config f f' :
  create_certificate os config f = (f', Ok tt) ->
  exists hostname cert pem, so_hostname os = Ok hostname /\ generate_self_signed (alt_names_of config hostname) = Ok cert /\
    serialize_pem cert = Ok pem /\
    f' = <[cert_of config := pem]> (<[version_of config := pretty (create_cert_version config)]>
           (<[key_of config := serialize_private_key_pem cert]> f)).
Proof.
  unfold create_certificate. cbv zeta.
  intros (f1 & [] & H1 & (f2 & [] & H2 & (f3 & h & H3 & (f4 & c & H4 & (f5 & p & H5 & H)%sem_bind_Ok)%sem_bind_Ok)%sem_bind_Ok)%sem_bind_Ok)%sem_bind_Ok.
  injection H1 as <- _. injection H2 as <- _. injection H3 as <- Hh. injection H4 as <- Hc. injection H5 as <- Hp.
  apply sem_bind_Ok in H as (f6 & [] & H6%because_of_ok%fs_write_ok & (f7 & [] & H7%because_of_ok%fs_write_ok & H8%because_of_ok%fs_write_ok)%sem_bind_Ok).
  exists h, c, p. subst. unfold because in *. split_and!; [| | |done].
  - by destruct (so_hostname os); [injection Hh as ->|].
  - by destruct (generate_self_signed _); [injection Hc as ->|].
  - by destruct (serialize_pem c); [injection Hp as ->|].
Qed.
Lemma prepare_run config f :
  prepare_certificate os config f =
    match get_certificate_version os config f with
    | Err e => (f, Err e)
    | Ok expected =>
        if (negb (path_exists (key_of config) f) && lo_create_self_signed_certificate config) ||
           negb (N.eqb (create_cert_version config) expected)
        then create_certificate os config f else (f, Ok tt)
    end.
Proof.
  unfold prepare_certificate, sem_ask. cbv [mbind sem_bind]. destruct (get_certificate_version os config f); [|done]. by case_match.
Qed.

(** A certificate is made once.  After a preparation that succeeded the version on
    disk is the one of the configuration, and preparing again, at the next start with
    the same configuration, changes nothing, if the version file can be read and
    is not the certificate. *)
Theorem certificate_made_once config f f' :
  so_read os (version_of config) = None -> cert_of config <> version_of config ->
  prepare_certificate os config f = (f', Ok tt) ->
  get_certificate_version os config f' = Ok (create_cert_version config) /\
  prepare_certificate os config f' = (f', Ok tt).
Proof.
  intros Hr Hne H. assert (get_certificate_version os config f' = Ok (create_cert_version config) /\
    (path_exists (key_of config) f' = true \/ lo_create_self_signed_certificate config = false)) as [Hv Hk].
  { rewrite prepare_run in H. destruct (get_certificate_version os config f) as [expected|e] eqn:Hv; [|done].
    destruct (_ || _) eqn:Hcond.
    - apply created in H as (h & c & p & _ & _ & _ & ->). split.
      + apply read_version; [done|]. by rewrite lookup_insert_ne, lookup_insert_eq.
      + left. unfold path_exists. apply bool_decide_eq_true_2. do 2 (apply lookup_insert_is_Some'; right). rewrite lookup_insert_eq. eauto.
    - injection H as <-. apply orb_false_iff in Hcond as [H1 H2%negb_false_iff%N.eqb_eq]. subst expected. split; [done|].
      destruct (path_exists _ _); [by left|]. by right. }
  split; [done|]. rewrite prepare_run, Hv, N.eqb_refl. by destruct Hk as [-> | ->]; rewrite ?andb_false_r.
Qed.

(** A certificate of one's own is replaced.  Where the configuration names
    alternative names and says that no certificate is to be made, and the key and the
    certificate of the operator are in place, the first start replaces both by a
    self-signed certificate, because there is no version file beside them. *)
Theorem own_certificate_replaced config f f' :
  lo_create_self_signed_certificate config = false -> f !! version_of config = None ->
  create_cert_version config <> 5381%N ->
  cert_of config <> version_of config -> key_of config <> version_of config -> key_of config <> cert_of config ->
  prepare_certificate os config f = (f', Ok tt) ->
  exists hostname cert pem, so_hostname os = Ok hostname /\ generate_self_signed (alt_names_of config hostname) = Ok cert /\
    serialize_pem cert = Ok pem /\
    f' !! key_of config = Some (serialize_private_key_pem cert) /\ f' !! cert_of config = Some pem.
Proof.
  intros Hself Hnone Hv H1 H2 H3. rewrite prepare_run.
  assert (get_certificate_version os config f = Ok 5381%N) as ->.
  { unfold get_certificate_version, path_exists. cbv zeta. rewrite Hnone. rewrite bool_decide_eq_false_2; [done|]. by intros [? ?]. }
  rewrite (proj2 (N.eqb_neq _ _) Hv), orb_true_r.
  intros (h & c & p & Hh & Hc & Hp & ->)%created. exists h, c, p. split_and!; [done..| |by rewrite lookup_insert_eq].
  by rewrite lookup_insert_ne, lookup_insert_ne, lookup_insert_eq by done.
Qed.

(** ** Privileges *)
Lemma set_privileges_ok uid gid u u' : set_privileges (so_unix os) uid gid u = (u', Ok tt) -> u' = MkUnix uid gid (ux_groups u).
Proof.
  unfold set_privileges. intros (u1 & [] & H1 & H2)%sem_bind_Ok. revert H1 H2. rewrite !syscall_run.
  destruct (uo_setegid _ _ _); [|done]. intros [= <-]. destruct (uo_seteuid _ _ _); [|done]. by intros [= <-].
Qed.
Lemma drop_privileges_ok user group u u' :
  drop_privileges (so_unix os) user group u = (u', Ok tt) ->
  exists uid gid, uo_user (so_unix os) user = Some uid /\ uo_group (so_unix os) group = Some gid /\ u' = MkUnix uid gid (ux_groups u).
Proof.
  unfold drop_privileges. intros (u1 & [] & H1 & (u2 & uid & H2 & (u3 & [] & H3 & (u4 & gid & H4 & H5)%sem_bind_Ok)%sem_bind_Ok)%sem_bind_Ok)%sem_bind_Ok.
  injection H1 as <- _. injection H2 as <- Hu. injection H3 as <- _. injection H4 as <- Hg. apply set_privileges_ok in H5.
  exists uid, gid. split_and!; [| |done].
  - by destruct (uo_user _ _); [injection Hu as ->|].
  - by destruct (uo_group _ _); [injection Hg as ->|].
Qed.

(** Lomax serves as the configured user.  When it gets to serve, the process has
    the user and group of the configuration; it has read its certificate and key
    and holds its socket, which it got before, with the privileges it was started
    with. *)
Theorem serves_as_configured_user args w w' s :
  lomax_run os args w = (w', Ok s) ->
  exists uid gid, uo_user (so_unix os) (lo_user (sv_config s)) = Some uid /\ uo_group (so_unix os) (lo_group (sv_config s)) = Some gid /\
    ux_euid (lw_unix w') = uid /\ ux_egid (lw_unix w') = gid /\
    get_tls_config os (cert_of (sv_config s)) (key_of (sv_config s)) (lw_files w') = Ok (sv_tls s) /\
    (listen os (default (lo_port (sv_config s)) (la_port args)) (lw_env w) (lw_unix w)).2 = Ok (sv_listener s).
Proof.
  unfold lomax_run, on_files, on_socket, on_privileges, sem_ask. cbv [mbind sem_bind mret sem_ret].
  destruct (read_config args (lw_files w)) as [config|]; [|done]. cbn.
  destruct (prepare_certificate os config (lw_files w)) as [f [[]|]]; [|done]. cbn.
  destruct (get_tls_config os _ _ f) as [tls|] eqn:Htls; [|done]. cbn.
  destruct (listen os _ _ _) as [env [l|]] eqn:Hl; [|done]. cbn.
  destruct (drop_privileges _ _ _ _) as [u [[]|]] eqn:Hd; [|done]. intros [= <- <-]. cbn in *.
  apply drop_privileges_ok in Hd as (uid & gid & Hu & Hg & ->). exists uid, gid. rewrite Hl. done.
Qed.
End start_props.

(** ** A concrete host *)
Module LomaxExamples.
#[local] Existing Instance ascii_tables.
Definition raw : RawLomaxConfig := MkRawLomax None None None None None None (Some ["{hostname}.fabriken.se"]) None.
#[local] Instance libs : StartLibs := {|
  sl_merge _ := Ok raw; Certificate := list string;
  generate_self_signed := Ok; serialize_pem c := Ok (str_join "," c); serialize_private_key_pem _ := "key";
  pem_parse_many s := [s]; pem_parse := Ok;
  ServerConfig := list string * string; set_single_cert c k := Ok (c, k) |}.
Definition host : StartOs :=
  MkStartOs (fun _ => None) (fun _ _ => None) (fun _ => None) (Ok "tower") (fun _ _ => None) 7 (UnixExamples.permissive None).
Definition config_with (own : bool) : LomaxConfig :=
  MkLomaxConfig 1939 (MkLocations "/etc/lomax/cert.pem" "/etc/lomax/key.pem") (negb own) "firm" "firm" ["{hostname}.fabriken.se"] DEFAULT_SOCKET_URL.

Example paths : path_parent "/etc/lomax/key.pem" = Some "/etc/lomax" /\ set_extension "version" "/etc/lomax/key.pem" = "/etc/lomax/key.version" /\
  set_extension "version" ".key" = ".key.version" /\ path_parent "/key" = Some "/" /\ path_parent "key" = Some EmptyString.
Proof. split_and!; reflexivity. Qed.
(** The test of tls.rs. *)
Example versions_differ :
  create_cert_version (config_with false) <>
  create_cert_version (MkLomaxConfig 1939 (MkLocations "c" "k") true "firm" "firm" ["{hostname}.fabrikan.se"] DEFAULT_SOCKET_URL).
Proof. vm_compute. discriminate. Qed.

Lemma certificate_made_once_witness :
  exists f, prepare_certificate host (config_with false) ∅ = (f, Ok tt) /\ prepare_certificate host (config_with false) f = (f, Ok tt).
Proof.
  exists (prepare_certificate host (config_with false) ∅).1.
  assert (prepare_certificate host (config_with false) ∅ = ((prepare_certificate host (config_with false) ∅).1, Ok tt)) as H
    by (vm_compute; reflexivity).
  split; [exact H|]. apply (certificate_made_once host (config_with false) ∅); [reflexivity|discriminate|exact H].
Defined.
Lemma own_certificate_replaced_witness :
  exists f cert, prepare_certificate host (config_with true) {[ "/etc/lomax/key.pem" := "mine"; "/etc/lomax/cert.pem" := "mine" ]} = (f, Ok tt) /\
    f !! "/etc/lomax/cert.pem" = Some cert /\ f !! "/etc/lomax/key.pem" = Some "key".
Proof.
  assert (prepare_certificate host (config_with true) {[ "/etc/lomax/key.pem" := "mine"; "/etc/lomax/cert.pem" := "mine" ]} =
    ((prepare_certificate host (config_with true) {[ "/etc/lomax/key.pem" := "mine"; "/etc/lomax/cert.pem" := "mine" ]}).1, Ok tt)) as H
    by (vm_compute; reflexivity).
  destruct (own_certificate_replaced host (config_with true) {[ "/etc/lomax/key.pem" := "mine"; "/etc/lomax/cert.pem" := "mine" ]}
    (prepare_certificate host (config_with true) {[ "/etc/lomax/key.pem" := "mine"; "/etc/lomax/cert.pem" := "mine" ]}).1)
    as (h & c & p & _ & _ & _ & Hk & Hc); [reflexivity|reflexivity|vm_compute; discriminate|discriminate|discriminate|discriminate|exact H|].
  eexists _, p. split; [exact H|]. split; [exact Hc|exact Hk].
Defined.
Definition as_root : LomaxWorld := MkLomaxWorld ∅ ∅ (MkUnix 0 0 ∅).
Lemma serves_as_configured_user_witness :
  exists w s, lomax_run host (MkLomaxArgs None None) as_root = (w, Ok s) /\ ux_euid (lw_unix w) = 1000%N /\ ux_egid (lw_unix w) = 100%N.
Proof.
  destruct (lomax_run host (MkLomaxArgs None None) as_root) as [w [s|e]] eqn:E.
  - destruct (serves_as_configured_user host (MkLomaxArgs None None) as_root w s E) as (uid & gid & Hu & Hg & H1 & H2 & _).
    injection Hu as <-. injection Hg as <-. exists w, s. split; [reflexivity|]. split; [exact H1|exact H2].
  - exfalso. assert (is_ok (lomax_run host (MkLomaxArgs None None) as_root).2 = true) as H by (vm_compute; reflexivity).
    rewrite E in H. discriminate H.
Defined.
(** The version is written before the certificate: when writing the certificate
    fails, the next start takes everything for made and finds no certificate. *)
Definition no_cert : StartOs :=
  MkStartOs (fun _ => None) (fun _ p => if bool_decide (p = "/etc/lomax/cert.pem") then Some ("disk full", None) else None)
    (fun _ => None) (Ok "tower") (fun _ _ => None) 7 (UnixExamples.permissive None).
Example half_made :
  let f := (prepare_certificate no_cert (config_with false) ∅).1 in
  is_ok (prepare_certificate no_cert (config_with false) ∅).2 = false /\
  is_ok (prepare_certificate host (config_with false) f).2 = true /\
  is_ok (get_tls_config host "/etc/lomax/cert.pem" "/etc/lomax/key.pem" (prepare_certificate host (config_with false) f).1) = false.
Proof. vm_compute. auto. Qed.
End LomaxExamples.
