(* ===== verification/Channels.v ===== *)
(** * Channels (services/avery/src/channels.rs)

    The inputs and outputs of running functions.  A channel handle shares its
    data with its clones and has a position of its own; reading waits until
    enough elements are there or the channel is closed.

    Handles live in a [Heap], so that aliasing is explicit: [hp_shared] holds what
    the clones of a channel share (the [Arc]s), [hp_channels] the handles with
    their waker slots.  The asynchronous functions are cut where they wait: a read
    is [read_start] and then polls; appending checks [closed] first and then waits
    for the write lock.  A read lock is the presence of its guard in [sh_guards];
    a function that would wait on a lock is not enabled ([None]).  Positions and
    lengths are 64-bit and wrap. *)
From S2P Require Import Prelude Proto Stream.
From Stdlib Require Import Floats.SpecFloat.

(** [&l[start..end]]. *)
Definition slice {A} (start fin : N) (l : list A) : result panic (list A) :=
  if (start <=? fin)%N && (fin <=? N.of_nat (length l))%N
  then Ok (take (N.to_nat (fin - start)) (drop (N.to_nat start) l)) else Err Panicked.

(** ** Data *)
Inductive TypedChannelData :=
| Strings (l : list string) | Integers (l : list Z) | Floats (l : list spec_float)
| Booleans (l : list bool) | Bytes (l : list byte) | Null.
Definition data_len (d : TypedChannelData) : N :=
  match d with
  | Strings l => N.of_nat (length l) | Integers l => N.of_nat (length l)
  | Floats l => N.of_nat (length l) | Booleans l => N.of_nat (length l)
  | Bytes l => N.of_nat (length l) | Null => 0
  end.
Definition display_data (d : TypedChannelData) : string :=
  match d with
  | Strings _ => "strings" | Integers _ => "integers" | Floats _ => "floats"
  | Booleans _ => "booleans" | Bytes _ => "bytes" | Null => "null"
  end.
Definition data_of_spec (spec : ChannelSpec) : TypedChannelData :=
  match ChannelType_from_i32 (cs_type spec) with
  | Some CTString => Strings [] | Some CTInt => Integers [] | Some CTFloat => Floats []
  | Some CTBool => Booleans [] | Some CTBytes => Bytes [] | None => Null
  end.
Definition data_of_proto (c : Stream.Channel) : TypedChannelData :=
  match ch_value c with
  | Some (Stream.Strings s) => Strings s | Some (Stream.Integers i) => Integers i
  | Some (Stream.Booleans b) => Booleans b | Some (Stream.Floats f) => Floats f
  | Some (Stream.Bytes b) => Bytes b | None => Null
  end.

(** The trait [ChannelData]: the macros are instances over the element types. *)
Class ChannelData (T : Type) := to_channel_data : T -> TypedChannelData.
#[export] Instance data_strings : ChannelData (list string) := Strings.
#[export] Instance data_integers : ChannelData (list Z) := Integers.
#[export] Instance data_bounded {lo hi} : ChannelData (list (Stream.bounded lo hi)) :=
  fun l => Integers (Stream.bounded_val <$> l).
#[export] Instance data_floats : ChannelData (list spec_float) := Floats.
#[export] Instance data_booleans : ChannelData (list bool) := Booleans.
#[export] Instance data_bytes : ChannelData (list byte) := Bytes.
#[export] Instance data_unit : ChannelData unit := fun _ => Null.

Inductive ChannelError := MismatchedTypes (expected got : string) | ChannelClosed.

(** The [extend] of [append]. *)
Definition extend (existing_data new_data : TypedChannelData) : result ChannelError TypedChannelData :=
  match existing_data, new_data with
  | Strings a, Strings b => Ok (Strings (a ++ b))
  | Integers a, Integers b => Ok (Integers (a ++ b))
  | Floats a, Floats b => Ok (Floats (a ++ b))
  | Booleans a, Booleans b => Ok (Booleans (a ++ b))
  | Bytes a, Bytes b => Ok (Bytes (a ++ b))
  | Null, Null => Ok Null
  | _, _ => Err (MismatchedTypes (display_data existing_data) (display_data new_data))
  end.

(** ** Handles *)
Inductive SeekFrom := SeekStart (offset : N) | SeekEnd (offset : Z) | SeekCurrent (offset : Z).

Record Shared := MkShared {
  sh_closed : bool;
  sh_data : TypedChannelData;
  (** the handles whose waker slots are notified *)
  sh_wakers : list N;
  (** the read guards that are held *)
  sh_guards : gset N
}.
Record Channel := MkChannel {
  cn_shared : N;
  cn_pos : N;
  (** the waker slot: its mutex and its content *)
  cn_waker_locked : bool;
  cn_waker : option N;
  cn_seek_pos : option SeekFrom
}.
Record Heap := MkHeap {
  hp_shared : gmap N Shared;
  hp_channels : gmap N Channel;
  hp_next : N;
  (** the tasks woken so far *)
  hp_woken : list N
}.
Definition empty_heap : Heap := MkHeap ∅ ∅ 0 [].

Definition set_shared (l : N) (s : Shared) (h : Heap) : Heap :=
  MkHeap (<[l := s]> (hp_shared h)) (hp_channels h) (hp_next h) (hp_woken h).
Definition set_channel (l : N) (c : Channel) (h : Heap) : Heap :=
  MkHeap (hp_shared h) (<[l := c]> (hp_channels h)) (hp_next h) (hp_woken h).
Definition fresh (h : Heap) : Heap :=
  MkHeap (hp_shared h) (hp_channels h) (hp_next h + 1) (hp_woken h).
Definition with_pos (p : N) (c : Channel) : Channel :=
  MkChannel (cn_shared c) p (cn_waker_locked c) (cn_waker c) (cn_seek_pos c).
Definition with_waker (locked : bool) (w : option N) (c : Channel) : Channel :=
  MkChannel (cn_shared c) (cn_pos c) locked w (cn_seek_pos c).
Definition with_seek (s : option SeekFrom) (c : Channel) : Channel :=
  MkChannel (cn_shared c) (cn_pos c) (cn_waker_locked c) (cn_waker c) s.
Definition with_guards (g : gset N) (s : Shared) : Shared :=
  MkShared (sh_closed s) (sh_data s) (sh_wakers s) g.
Definition with_wakers (w : list N) (s : Shared) : Shared :=
  MkShared (sh_closed s) (sh_data s) w (sh_guards s).

(** [Channel::new]. *)
Definition channel_new (data : TypedChannelData) (h : Heap) : Heap * N :=
  let c := hp_next h in
  (fresh (set_channel c (MkChannel c 0 false None None) (set_shared c (MkShared false data [c] ∅) h)), c).

(** A handle with what it shares. *)
Definition handle (c : N) (h : Heap) : option (Channel * Shared) :=
  channel ← hp_channels h !! c;
  shared ← hp_shared h !! cn_shared channel;
  Some (channel, shared).

(** [Channel::clone]. *)
Definition channel_clone (c : N) (h : Heap) : option (Heap * N) :=
  '(channel, shared) ← handle c h;
  let c' := hp_next h in
  Some (fresh (set_channel c' (MkChannel (cn_shared channel) (cn_pos channel) false None (cn_seek_pos channel))
         (set_shared (cn_shared channel) (with_wakers (sh_wakers shared ++ [c']) shared) h)), c').

(** [Channel::close]: nobody is woken. *)
Definition channel_close (c : N) (h : Heap) : option Heap :=
  '(channel, shared) ← handle c h;
  Some (set_shared (cn_shared channel)
          (MkShared true (sh_data shared) (sh_wakers shared) (sh_guards shared)) h).

(** ** Reading *)
Record ChannelDataReadRequest := MkReadRequest {
  rr_channel : N; rr_guard : N; rr_data_len : N; rr_requested_size : N }.
Record ChannelDataView := MkView { vw_shared : N; vw_guard : N; vw_start : N; vw_end : option N }.

(** Takes the read lock, then the length, then the lock of the waker slot. *)
Definition read_start (c size : N) (h : Heap) : option (Heap * ChannelDataReadRequest) :=
  '(channel, shared) ← handle c h;
  if cn_waker_locked channel then None
  else let g := hp_next h in
    Some (fresh (set_channel c (with_waker true (cn_waker channel) channel)
                  (set_shared (cn_shared channel) (with_guards ({[ g ]} ∪ sh_guards shared) shared) h)),
          MkReadRequest c g (data_len (sh_data shared)) size).

Definition clamp (lo hi x : N) : N := N.min hi (N.max lo x).
(** The position after a read, and whether all elements are there. *)
Definition new_pos (original_pos size len : N) : N := clamp 0 len (u64_add original_pos size).
Definition complete (original_pos size len : N) : bool :=
  (size <=? u64_sub (new_pos original_pos size len) original_pos)%N.

(** [ChannelDataReadRequest::poll]; the slot is unlocked when the request is
    done. *)
Definition read_poll (rr : ChannelDataReadRequest) (task : N) (h : Heap)
  : option (Heap * Poll (N * option N)) :=
  '(channel, shared) ← handle (rr_channel rr) h;
  let original_pos := cn_pos channel in
  let size := rr_requested_size rr in
  let channel' := with_pos (new_pos original_pos size (rr_data_len rr)) channel in
  let finish r := (set_channel (rr_channel rr) (with_waker false (cn_waker channel) channel') h, Ready r) in
  Some (if complete original_pos size (rr_data_len rr)
        then finish (original_pos, Some (u64_add original_pos size))
        else if sh_closed shared then finish (original_pos, None)
        else (set_channel (rr_channel rr) (with_waker true (Some task) channel') h, Pending)).

(** Dropping a view, or a read that is still waiting. *)
Definition drop_guard (l g : N) (h : Heap) : option Heap :=
  shared ← hp_shared h !! l;
  Some (set_shared l (with_guards (sh_guards shared ∖ {[ g ]}) shared) h).
Definition drop_request (rr : ChannelDataReadRequest) (h : Heap) : option Heap :=
  '(channel, _) ← handle (rr_channel rr) h;
  drop_guard (cn_shared channel) (rr_guard rr)
    (set_channel (rr_channel rr) (with_waker false (cn_waker channel) channel) h).

(** A read that does not wait: [None] is one that does. *)
Definition read (c size task : N) (h : Heap) : option (Heap * option ChannelDataView) :=
  '(channel, _) ← handle c h;
  '(h1, rr) ← read_start c size h;
  '(h2, r) ← read_poll rr task h1;
  Some (h2, match r with
            | Ready (s, e) => Some (MkView (cn_shared channel) (rr_guard rr) s e)
            | Pending => None
            end).

Inductive TypedChannelDataRef :=
| RStrings (l : list string) | RIntegers (l : list Z) | RFloats (l : list spec_float)
| RBooleans (l : list bool) | RBytes (l : list byte).
Definition ref_to_owned (r : TypedChannelDataRef) : TypedChannelData :=
  match r with
  | RStrings l => Strings l | RIntegers l => Integers l | RFloats l => Floats l
  | RBooleans l => Booleans l | RBytes l => Bytes l
  end.
Definition view_end (v : ChannelDataView) (d : TypedChannelData) : N := default (data_len d) (vw_end v).
(** [as_typed_data] on the data the view's guard protects. *)
Definition as_typed_data (v : ChannelDataView) (d : TypedChannelData) : result panic (option TypedChannelDataRef) :=
  match d with
  | Strings s => (fun l => Some (RStrings l)) <$> slice (vw_start v) (view_end v d) s
  | Integers i => (fun l => Some (RIntegers l)) <$> slice (vw_start v) (view_end v d) i
  | Floats f => (fun l => Some (RFloats l)) <$> slice (vw_start v) (view_end v d) f
  | Booleans b => (fun l => Some (RBooleans l)) <$> slice (vw_start v) (view_end v d) b
  | Bytes b => (fun l => Some (RBytes l)) <$> slice (vw_start v) (view_end v d) b
  | Null => Ok None
  end.
Definition view_len (v : ChannelDataView) (d : TypedChannelData) : N := u64_sub (view_end v d) (vw_start v).

(** The trait [TypedDataAsSlice]: the rows of [as_slice_impl!]. *)
Class TypedDataAsSlice (T : Type) := {
  slice_type_name : string;
  slice_unwrap : TypedChannelData -> option (list T)
}.
#[export] Instance slice_string : TypedDataAsSlice string :=
  {| slice_type_name := "String"; slice_unwrap d := match d with Strings l => Some l | _ => None end |}.
#[export] Instance slice_i64 : TypedDataAsSlice Z :=
  {| slice_type_name := "i64"; slice_unwrap d := match d with Integers l => Some l | _ => None end |}.
#[export] Instance slice_f64 : TypedDataAsSlice spec_float :=
  {| slice_type_name := "f64"; slice_unwrap d := match d with Floats l => Some l | _ => None end |}.
#[export] Instance slice_bool : TypedDataAsSlice bool :=
  {| slice_type_name := "bool"; slice_unwrap d := match d with Booleans l => Some l | _ => None end |}.
#[export] Instance slice_u8 : TypedDataAsSlice byte :=
  {| slice_type_name := "u8"; slice_unwrap d := match d with Bytes l => Some l | _ => None end |}.
Definition as_slice {T} `{TypedDataAsSlice T} (v : ChannelDataView) (d : TypedChannelData)
  : result panic (result ChannelError (list T)) :=
  match slice_unwrap d with
  | Some l => Ok <$> slice (vw_start v) (default (data_len d) (vw_end v)) l
  | None => Ok (Err (MismatchedTypes slice_type_name (display_data d)))
  end.

(** ** Appending *)

(** Every slot gives up its waker, in the order the handles were made. *)
Definition wake_slot (h : Heap) (c : N) : Heap :=
  match hp_channels h !! c with
  | Some channel =>
      MkHeap (hp_shared h) (<[c := with_waker (cn_waker_locked channel) None channel]> (hp_channels h))
        (hp_next h) (hp_woken h ++ option_list (cn_waker channel))
  | None => h
  end.
Definition append_check (c : N) (h : Heap) : option (result ChannelError unit) :=
  '(_, shared) ← handle c h;
  Some (if sh_closed shared then Err ChannelClosed else Ok tt).
(** Waits while a read guard is held. *)
Definition append_write (c : N) (new_data : TypedChannelData) (h : Heap)
  : option (Heap * result ChannelError unit) :=
  '(channel, shared) ← handle c h;
  if bool_decide (sh_guards shared = ∅) then
    Some match extend (sh_data shared) new_data with
         | Ok data =>
             (foldl wake_slot (set_shared (cn_shared channel)
                (MkShared (sh_closed shared) data (sh_wakers shared) (sh_guards shared)) h) (sh_wakers shared), Ok tt)
         | Err e => (h, Err e)
         end
  else None.
(** [append] when nothing happens in between. *)
Definition append {T} `{ChannelData T} (c : N) (value : T) (h : Heap) : option (Heap * result ChannelError unit) :=
  checked ← append_check c h;
  match checked with
  | Err e => Some (h, Err e)
  | Ok _ => append_write c (to_channel_data value) h
  end.

Definition type_matches (d : TypedChannelData) (spec : ChannelSpec) : bool :=
  match d, ChannelType_from_i32 (cs_type spec) with
  | Strings _, Some CTString | Integers _, Some CTInt | Floats _, Some CTFloat
  | Booleans _, Some CTBool | Bytes _, Some CTBytes | Null, None => true
  | _, _ => false
  end.

(** ** Seeking *)
Definition i64_wrap (z : Z) : Z := ((z + 9223372036854775808) mod 18446744073709551616 - 9223372036854775808)%Z.
Definition i64_clamp (len : N) (z : Z) : N := Z.to_N (Z.max 0 (Z.min (i64_wrap (Z.of_N len)) z)).
Definition seek_target (seek_pos : SeekFrom) (current_position len : N) : N :=
  match seek_pos with
  | SeekStart offset => clamp 0 len offset
  | SeekEnd offset => i64_clamp len (i64_wrap (i64_wrap (Z.of_N len) + offset))
  | SeekCurrent offset => i64_clamp len (i64_wrap (i64_wrap (Z.of_N current_position) + offset))
  end.
Definition start_seek (c : N) (pos : SeekFrom) (h : Heap) : option (Heap * result string unit) :=
  channel ← hp_channels h !! c;
  Some match cn_seek_pos channel with
       | None => (set_channel c (with_seek (Some pos) channel) h, Ok tt)
       | Some _ => (h, Err "other error")
       end.
(** [lock_ready] says whether the read lock is granted at once; what
    [compare_exchange] returns is the position before. *)
Definition poll_complete (c : N) (lock_ready : bool) (h : Heap) : option (Heap * Poll N) :=
  '(channel, shared) ← handle c h;
  let current_position := cn_pos channel in
  let h := set_channel c (with_seek None channel) h in
  Some match cn_seek_pos channel with
       | None => (h, Ready current_position)
       | Some seek_pos =>
           if lock_ready
           then (set_channel c (with_pos (seek_target seek_pos current_position (data_len (sh_data shared)))
                                  (with_seek None channel)) h, Ready current_position)
           else (h, Pending)
       end.

(** ** Channel sets *)
Inductive Access := ChannelReader | ChannelWriter.
Record ChannelSet (T : Access) := MkChannelSet { cs_channels : gmap string N }.
Arguments MkChannelSet {T} _.
Arguments cs_channels {T} _.

Inductive ChannelSetError := FailedToAppendOutput (name : string) (e : ChannelError) | NonExistingChannel (name : string).
Inductive ChannelSetValidationError :=
| MismatchedChannelType (channel_name expected got : string)
| UnexpectedChannel (name : string)
| RequiredChannelMissing (name : string).

(** Printing an unknown type prints itself: it never returns. *)
Fixpoint display_channel_spec_type (fuel : nat) (t : option ChannelType) : option string :=
  match fuel with
  | O => None
  | S fuel =>
      match t with
      | Some CTString => Some "string" | Some CTInt => Some "integer" | Some CTBool => Some "boolean"
      | Some CTFloat => Some "float" | Some CTBytes => Some "bytes"
      | None => s ← display_channel_spec_type fuel t; Some ("Unknown type with discriminator " +:+ s)
      end
  end.

Section sets.
Context {HO : HashOrder} {T : Access}.
Implicit Types self : ChannelSet T.

Definition channel self (channel_name : string) : option N := cs_channels self !! channel_name.
Definition has_channel self (channel_name : string) : bool := bool_decide (is_Some (cs_channels self !! channel_name)).
Definition read_channel self (channel_name : string) (size task : N) (h : Heap)
  : option (Heap * option ChannelDataView) :=
  c ← channel self channel_name; read c size task h.

(** One entry of the specification against its channel. *)
Definition check_entry (fuel : nat) (h : Heap) (name : string) (c : N) (channel_spec : ChannelSpec)
  : option (list ChannelSetValidationError) :=
  '(_, shared) ← handle c h;
  if type_matches (sh_data shared) channel_spec then Some []
  else expected ← display_channel_spec_type fuel (ChannelType_from_i32 (cs_type channel_spec));
       Some [MismatchedChannelType name expected (display_data (sh_data shared))].
Definition check_required (fuel : nat) (h : Heap) self (entry : string * ChannelSpec)
  : option (list ChannelSetValidationError) :=
  match cs_channels self !! entry.1 with
  | Some c => check_entry fuel h entry.1 c entry.2
  | None => Some [RequiredChannelMissing entry.1]
  end.
Definition check_optional (fuel : nat) (h : Heap) self (entry : string * ChannelSpec)
  : option (list ChannelSetValidationError) :=
  match cs_channels self !! entry.1 with
  | Some c => check_entry fuel h entry.1 c entry.2
  | None => Some []
  end.
Definition unexpected (required : gmap string ChannelSpec) (optional : option (gmap string ChannelSpec)) (k : string)
  : list ChannelSetValidationError :=
  if bool_decide (is_Some (required !! k)) || bool_decide (is_Some (optional ≫= fun o : gmap string ChannelSpec => o !! k))
  then [] else [UnexpectedChannel k].
Definition validate (fuel : nat) (h : Heap) self (required : gmap string ChannelSpec)
    (optional : option (gmap string ChannelSpec)) : option (result (list ChannelSetValidationError) unit) :=
  e1 ← mapM (check_required fuel h self) (hash_iter required);
  e2 ← mapM (check_optional fuel h self) (match optional with Some o => hash_iter o | None => [] end);
  let err := concat e1 ++ concat e2 ++ concat (unexpected required optional <$> hash_keys (cs_channels self)) in
  Some (if bool_decide (length err = 0) then Ok tt else Err err).

Inductive FromChannelSet := Left_ (name : string) (c : N) | Right_ (name : string) (c : N).
Definition from_name (f : FromChannelSet) : string := match f with Left_ n _ | Right_ n _ => n end.
Definition from_channel (f : FromChannelSet) : N := match f with Left_ _ c | Right_ _ c => c end.
Definition is_from_left (f : FromChannelSet) : bool := match f with Left_ _ _ => true | Right_ _ _ => false end.
Definition is_from_right (f : FromChannelSet) : bool := negb (is_from_left f).
Definition from_to_owned (f : FromChannelSet) (h : Heap) : option (Heap * (string * N)) :=
  '(h', c) ← channel_clone (from_channel f) h; Some (h', (from_name f, c)).

(** [filter_map(f).collect()] into a map, [f] run on one entry after the
    other. *)
Fixpoint filter_collect {A} (f : A -> Heap -> option (Heap * option (string * N))) (l : list A)
    (m : gmap string N) (h : Heap) : option (Heap * gmap string N) :=
  match l with
  | [] => Some (h, m)
  | a :: l =>
      '(h', r) ← f a h;
      filter_collect f l (match r with Some (k, c) => <[k := c]> m | None => m end) h'
  end.
Definition merge_with self {U} (other : ChannelSet U)
    (f : FromChannelSet -> Heap -> option (Heap * option (string * N))) (h : Heap) : option (Heap * ChannelSet T) :=
  '(h', m) ← filter_collect f
    (((fun '(name, c) => Left_ name c) <$> hash_iter (cs_channels self)) ++
     ((fun '(name, c) => Right_ name c) <$> hash_iter (cs_channels other))) ∅ h;
  Some (h', MkChannelSet m).
Definition merge self {U} (other : ChannelSet U) (h : Heap) : option (Heap * ChannelSet T) :=
  merge_with self other (fun from h => '(h', e) ← from_to_owned from h; Some (h', Some e)) h.
Definition reader self (h : Heap) : option (Heap * ChannelSet ChannelReader) :=
  '(h', m) ← filter_collect
    (fun '(name, c) h => '(h', c') ← channel_clone c h; Some (h', Some (name, c')))
    (hash_iter (cs_channels self)) ∅ h;
  Some (h', MkChannelSet m).
End sets.

(** The operations of writers. *)
Definition append_channel {A} `{ChannelData A} (self : ChannelSet ChannelWriter) (channel_name : string) (value : A) (h : Heap)
  : option (Heap * result ChannelSetError unit) :=
  match cs_channels self !! channel_name with
  | None => Some (h, Err (NonExistingChannel channel_name))
  | Some c => '(h', r) ← append c value h; Some (h', map_err (FailedToAppendOutput channel_name) r)
  end.
Definition close_channel (self : ChannelSet ChannelWriter) (channel_name : string) (h : Heap) : option Heap :=
  match cs_channels self !! channel_name with
  | Some c => channel_close c h
  | None => Some h
  end.

(** The two conversions into a channel set make a channel per entry. *)
Definition new_channels {HO : HashOrder} {V} (f : V -> TypedChannelData) (m : gmap string V) (h : Heap)
  : Heap * ChannelSet ChannelWriter :=
  let '(h', channels) := foldl (fun '(h, acc) '(name, v) =>
      let '(h', c) := channel_new (f v) h in (h', <[name := c]> acc)) (h, ∅) (hash_iter m) in
  (h', MkChannelSet channels).
Definition channel_set_of_spec {HO : HashOrder} (spec : gmap string ChannelSpec) : Heap -> Heap * ChannelSet ChannelWriter :=
  new_channels data_of_spec spec.
Definition channel_set_of_proto {HO : HashOrder} (channel_set : ValueStream) : Heap -> Heap * ChannelSet ChannelWriter :=
  new_channels data_of_proto (channels channel_set).
