(* ===== verification/ChannelsProps.v ===== *)
(** * Properties of channels

    What reads return and how they share out the data, what appending does on
    every branch, seeking, the aliasing of clones, and a system of concurrent
    readers and writers: views never see their data change, and a read that had to
    wait locks everybody out and never gets what it waits for. *)
From S2P Require Import Prelude Proto Stream Channels.
From Stdlib Require Import Floats.SpecFloat.

(** ** Elements *)
Inductive Elem := EString (s : string) | EInteger (z : Z) | EFloat (f : spec_float) | EBoolean (b : bool) | EByte (b : byte).
Definition elems (d : TypedChannelData) : list Elem :=
  match d with
  | Strings l => EString <$> l | Integers l => EInteger <$> l | Floats l => EFloat <$> l
  | Booleans l => EBoolean <$> l | Bytes l => EByte <$> l | Null => []
  end.
Definition ref_elems (r : option TypedChannelDataRef) : list Elem :=
  match r with Some r => elems (ref_to_owned r) | None => [] end.

Lemma elems_len d : N.of_nat (length (elems d)) = data_len d.
Proof. destruct d; cbn; by rewrite ?length_fmap. Qed.

Lemma extend_elems a b d : extend a b = Ok d -> elems d = elems a ++ elems b.
Proof. destruct a, b; intros [= <-]; cbn; by rewrite ?fmap_app. Qed.

Lemma extend_len a b d : extend a b = Ok d -> (data_len a <= data_len d)%N.
Proof. intros H%extend_elems. rewrite <- !elems_len, H, length_app. lia. Qed.

Lemma slice_ok {A} s e (l : list A) :
  (s <= e)%N -> (e <= N.of_nat (length l))%N ->
  slice s e l = Ok (take (N.to_nat (e - s)) (drop (N.to_nat s) l)).
Proof. intros. unfold slice. by rewrite (proj2 (N.leb_le _ _)), (proj2 (N.leb_le _ _)). Qed.

Lemma as_typed_data_elems v d :
  (vw_start v <= view_end v d)%N -> (view_end v d <= data_len d)%N ->
  exists r, as_typed_data v d = Ok r /\
    ref_elems r = take (N.to_nat (view_end v d - vw_start v)) (drop (N.to_nat (vw_start v)) (elems d)).
Proof.
  intros H1 H2. destruct d; unfold as_typed_data;
    try (rewrite slice_ok by done; eexists; split; [done|]; cbn -[view_end];
         by rewrite fmap_take, fmap_drop).
  exists None. split; [done|]. cbn -[view_end]. by rewrite drop_nil, take_nil.
Qed.

(** ** One read *)
Definition half : N := 9223372036854775808.

Lemma new_pos_small p n len : (p <= len)%N -> (len < half)%N -> (n < half)%N ->
  new_pos p n len = N.min len (p + n).
Proof. unfold half. intros. unfold new_pos, clamp. rewrite u64_add_small; unfold u64_modulus; lia. Qed.

Lemma complete_small p n len : (p <= len)%N -> (len < half)%N -> (n < half)%N ->
  complete p n len = (p + n <=? len)%N.
Proof.
  intros Hp Hlen Hn. unfold complete. rewrite new_pos_small by done.
  rewrite u64_sub_small by (unfold half, u64_modulus in *; lia).
  destruct (N.leb_spec (p + n) len), (N.leb_spec n (N.min len (p + n) - p)); lia.
Qed.

(** A read whose polls are incomplete has come to the end of the data. *)
Lemma incomplete_at_end p n len : (p <= len)%N -> (len < u64_modulus)%N -> (n < u64_modulus)%N ->
  complete p n len = false -> new_pos p n len = len /\ (0 < n)%N.
Proof.
  unfold complete, new_pos, clamp. intros Hp Hlen Hn Hc. apply N.leb_gt in Hc.
  assert (n <> 0)%N as Hn0.
  { intros ->. by apply N.nlt_0_r in Hc. }
  split; [|lia].
  destruct (N.lt_ge_cases (p + n) u64_modulus) as [Hs|Hs].
  - rewrite u64_add_small in * by done. rewrite u64_sub_small in Hc by lia. lia.
  - exfalso. assert (u64_add p n = p + n - u64_modulus)%N as Ha.
    { unfold u64_add. replace (p + n)%N with ((p + n - u64_modulus) + 1 * u64_modulus)%N by lia.
      rewrite N.Div0.mod_add. rewrite N.mod_small by lia. lia. }
    rewrite Ha in Hc. unfold u64_sub in Hc.
    replace (N.min len (N.max 0 (p + n - u64_modulus)))%N with (p + n - u64_modulus)%N in Hc by lia.
    replace (p + n - u64_modulus + u64_modulus - p)%N with n in Hc by lia.
    rewrite N.mod_small in Hc by lia. lia.
Qed.

Lemma handle_Some c h ch sh : handle c h = Some (ch, sh) <->
  hp_channels h !! c = Some ch /\ hp_shared h !! cn_shared ch = Some sh.
Proof.
  unfold handle. destruct (hp_channels h !! c) as [ch'|]; cbn; [|naive_solver].
  destruct (hp_shared h !! cn_shared ch') as [sh'|] eqn:Hs; cbn; naive_solver.
Qed.

(** Reading, looking at the view as typed data, and dropping it. *)
Definition read_drop (c size task : N) (h : Heap) : option (Heap * result panic (option TypedChannelDataRef)) :=
  '(h1, view) ← read c size task h;
  v ← view;
  shared ← hp_shared h1 !! vw_shared v;
  h2 ← drop_guard (vw_shared v) (vw_guard v) h1;
  Some (h2, as_typed_data v (sh_data shared)).
Fixpoint read_drops (c task : N) (sizes : list N) (h : Heap)
  : option (Heap * list (result panic (option TypedChannelDataRef))) :=
  match sizes with
  | [] => Some (h, [])
  | size :: sizes =>
      '(h1, r) ← read_drop c size task h;
      '(h2, rs) ← read_drops c task sizes h1;
      Some (h2, r :: rs)
  end.

Lemma read_drop_one c n task h ch sh :
  handle c h = Some (ch, sh) -> cn_waker_locked ch = false ->
  (cn_pos ch <= data_len (sh_data sh))%N -> (data_len (sh_data sh) < half)%N -> (n < half)%N ->
  sh_closed sh = true \/ (cn_pos ch + n <= data_len (sh_data sh))%N ->
  exists h' ch' sh' r, read_drop c n task h = Some (h', Ok r) /\ handle c h' = Some (ch', sh') /\
    cn_waker_locked ch' = false /\ sh_data sh' = sh_data sh /\ sh_closed sh' = sh_closed sh /\
    cn_pos ch' = N.min (data_len (sh_data sh)) (cn_pos ch + n) /\
    ref_elems r = take (N.to_nat n) (drop (N.to_nat (cn_pos ch)) (elems (sh_data sh))).
Proof.
  intros Hh Hl Hp Hlen Hn Hdone. pose proof Hh as [Hc Hs]%handle_Some.
  assert (complete (cn_pos ch) n (data_len (sh_data sh)) = false -> sh_closed sh = true) as Hclosed.
  { rewrite complete_small by done. intros H%N.leb_gt. destruct Hdone; [done|lia]. }
  set (p' := new_pos (cn_pos ch) n (data_len (sh_data sh))).
  set (e := if complete (cn_pos ch) n (data_len (sh_data sh)) then Some (u64_add (cn_pos ch) n) else None).
  set (v := MkView (cn_shared ch) (hp_next h) (cn_pos ch) e).
  assert (vw_start v <= view_end v (sh_data sh) /\ view_end v (sh_data sh) <= data_len (sh_data sh) /\
          view_end v (sh_data sh) = N.min (data_len (sh_data sh)) (cn_pos ch + n))%N as (H1 & H2 & H3).
  { unfold v, view_end, e. cbn. rewrite complete_small by done.
    destruct (N.leb_spec (cn_pos ch + n) (data_len (sh_data sh))); cbn;
      rewrite ?u64_add_small by (unfold half, u64_modulus in *; lia); lia. }
  destruct (as_typed_data_elems v (sh_data sh) H1 H2) as (r & Hr & Hel).
  unfold read_drop, read, read_start, read_poll. rewrite Hh. cbn [mbind option_bind]. rewrite Hl.
  cbn [mbind option_bind rr_channel rr_data_len rr_requested_size rr_guard].
  set (h1 := fresh _).
  assert (handle c h1 = Some (with_waker true (cn_waker ch) ch, with_guards ({[hp_next h]} ∪ sh_guards sh) sh)) as Hh1.
  { apply handle_Some. cbn. rewrite !lookup_insert_eq. done. }
  rewrite Hh1. cbn [mbind option_bind cn_pos with_waker cn_shared sh_closed with_guards].
  fold p'.
  assert ((if complete (cn_pos ch) n (data_len (sh_data sh))
     then (set_channel c (with_waker false (cn_waker ch) (with_pos p' (with_waker true (cn_waker ch) ch))) h1,
           Ready (cn_pos ch, Some (u64_add (cn_pos ch) n)))
     else if sh_closed sh
      then (set_channel c (with_waker false (cn_waker ch) (with_pos p' (with_waker true (cn_waker ch) ch))) h1,
            Ready (cn_pos ch, None))
      else (set_channel c (with_waker true (Some task) (with_pos p' (with_waker true (cn_waker ch) ch))) h1, Pending)) =
     (set_channel c (with_waker false (cn_waker ch) (with_pos p' (with_waker true (cn_waker ch) ch))) h1, Ready (cn_pos ch, e))) as Hpoll.
  { unfold e. destruct (complete (cn_pos ch) n _) eqn:E; [done|]. by rewrite Hclosed. }
  cbn [cn_waker with_waker cn_pos] in *. rewrite Hpoll. cbn [mbind option_bind].
  fold v. cbn [vw_shared vw_guard v]. unfold drop_guard. cbn [hp_shared set_channel h1 fresh set_shared].
  rewrite lookup_insert_eq. cbn [mbind option_bind sh_data with_guards]. rewrite Hr.
  do 4 eexists. split; [done|]. split.
  { apply handle_Some. cbn. rewrite lookup_insert_eq. split; [done|]. cbn. by rewrite lookup_insert_eq. }
  cbn. split_and!; [done..| |].
  - unfold p'. by rewrite new_pos_small.
  - rewrite Hel, H3. unfold v. cbn [vw_start].
    destruct (N.le_gt_cases (cn_pos ch + n) (data_len (sh_data sh))).
    + f_equal. lia.
    + rewrite !take_ge; [done| |]; rewrite length_drop; pose proof (elems_len (sh_data sh)); lia.
Qed.

(** C18: reads share out the data.  Whatever sizes a handle reads one after the
    other, on a closed channel or one that has enough elements, the views put
    together are the elements from its position on, each read advancing the
    position by what it returned; the data is untouched and no access is out of
    range. *)
Theorem reads_partition c task sizes h ch sh :
  handle c h = Some (ch, sh) -> cn_waker_locked ch = false ->
  (cn_pos ch <= data_len (sh_data sh))%N -> (data_len (sh_data sh) < half)%N ->
  Forall (fun n => (n < half)%N) sizes ->
  sh_closed sh = true \/ (cn_pos ch + foldr N.add 0 sizes <= data_len (sh_data sh))%N ->
  exists h' ch' sh' rs, read_drops c task sizes h = Some (h', Ok <$> rs) /\ handle c h' = Some (ch', sh') /\
    sh_data sh' = sh_data sh /\
    cn_pos ch' = N.min (data_len (sh_data sh)) (cn_pos ch + foldr N.add 0 sizes)%N /\
    concat (ref_elems <$> rs) =
      take (N.to_nat (foldr N.add 0 sizes)%N) (drop (N.to_nat (cn_pos ch)) (elems (sh_data sh))).
Proof.
  intros Hh Hl Hp Hlen Hsz. revert h ch sh Hh Hl Hp Hlen.
  induction Hsz as [|n sizes Hn Hsz IH]; intros h ch sh Hh Hl Hp Hlen Hdone.
  - exists h, ch, sh, []. cbn. split_and!; [done..|lia|done].
  - cbn in Hdone. destruct (read_drop_one c n task h ch sh) as (h1 & ch1 & sh1 & r & Hr & Hh1 & Hl1 & Hd & Hc & Hp1 & He); [done..| |].
    { destruct Hdone; [by left | right; lia]. }
    destruct (IH h1 ch1 sh1) as (h' & ch' & sh' & rs & Hrs & Hh' & Hd' & Hp' & He'); rewrite ?Hd; [done..|lia|done| |].
    { rewrite Hc. destruct Hdone; [by left | right; lia]. }
    rewrite Hd in Hd', Hp', He'.
    exists h', ch', sh', (r :: rs). split_and!; [|done|done| |].
    + cbn. rewrite Hr. cbn. rewrite Hrs. done.
    + cbn. lia.
    + rewrite fmap_cons. cbn [concat]. rewrite He, He', Hp1. clear -Hlen.
      assert (N.of_nat (length (elems (sh_data sh))) = data_len (sh_data sh)) as Hlen' by apply elems_len.
      cbn [foldr]. rewrite N2Nat.inj_add.
      destruct (N.le_gt_cases (cn_pos ch + n) (data_len (sh_data sh))).
      * rewrite N.min_r by done. rewrite N2Nat.inj_add, <- drop_drop.
        rewrite <- (take_take_drop (drop (N.to_nat (cn_pos ch)) _) (N.to_nat n)). done.
      * rewrite N.min_l by lia. rewrite (drop_ge _ (N.to_nat (data_len _))) by lia.
        rewrite take_nil, app_nil_r. rewrite !take_ge; [done| |]; rewrite length_drop; lia.
Qed.

(** ** Appending *)
Lemma extend_total a b : (exists d, extend a b = Ok d) <-> display_data a = display_data b.
Proof. destruct a, b; cbn; split; naive_solver. Qed.

Lemma wake_slot_lookup h s c :
  hp_channels (wake_slot h s) !! c =
  (if decide (s = c) then (fun ch => with_waker (cn_waker_locked ch) None ch) else id) <$> hp_channels h !! c.
Proof.
  unfold wake_slot. destruct (hp_channels h !! s) as [ch|] eqn:Hs; cbn.
  - rewrite lookup_insert. case_decide as Hsc; [subst; by rewrite Hs | by destruct (hp_channels h !! c)].
  - case_decide; [subst; by rewrite Hs | by destruct (hp_channels h !! c)].
Qed.
Lemma wake_slots_shared slots h :
  hp_shared (foldl wake_slot h slots) = hp_shared h /\ hp_next (foldl wake_slot h slots) = hp_next h.
Proof.
  revert h. induction slots as [|s slots IH]; intros h; [done|]. cbn. destruct (IH (wake_slot h s)) as [-> ->].
  unfold wake_slot. by destruct (hp_channels h !! s).
Qed.
Lemma wake_slots_lookup slots h c :
  hp_channels (foldl wake_slot h slots) !! c =
  (if decide (c ∈ slots) then (fun ch => with_waker (cn_waker_locked ch) None ch) else id) <$> hp_channels h !! c.
Proof.
  revert h. induction slots as [|s slots IH]; intros h.
  { rewrite decide_False by set_solver. cbn. destruct (hp_channels h !! c); reflexivity. }
  cbn [foldl].
  rewrite IH, wake_slot_lookup. destruct (hp_channels h !! c) as [ch|]; [|by repeat case_decide].
  destruct (decide (c ∈ slots)) as [Hc|Hc], (decide (s = c)) as [<-|Hs]; cbn.
  - rewrite decide_True by set_solver. done.
  - rewrite decide_True by set_solver. done.
  - rewrite decide_True by set_solver. done.
  - rewrite decide_False by set_solver. done.
Qed.
Lemma wake_slots_woken slots h :
  (exists ws, hp_woken (foldl wake_slot h slots) = hp_woken h ++ ws) /\
  forall c ch w, c ∈ slots -> hp_channels h !! c = Some ch -> cn_waker ch = Some w ->
    w ∈ hp_woken (foldl wake_slot h slots).
Proof.
  revert h. induction slots as [|s slots IH]; intros h.
  { split; [exists []; by rewrite app_nil_r | intros c ch w H; by inversion H]. }
  cbn [foldl]. destruct (IH (wake_slot h s)) as [[ws Hws] Hin].
  assert (exists ws1, hp_woken (wake_slot h s) = hp_woken h ++ ws1) as [ws1 Hws1].
  { unfold wake_slot. destruct (hp_channels h !! s); cbn; [eauto | exists []; by rewrite app_nil_r]. }
  split; [exists (ws1 ++ ws); by rewrite Hws, Hws1, (assoc_L (++))|].
  intros c ch w Hc Hch Hw. destruct (decide (s = c)) as [->|Hne].
  - rewrite Hws. apply elem_of_app. left. unfold wake_slot. rewrite Hch. cbn. rewrite Hw. set_solver.
  - apply (Hin c ch w); [set_solver| |done]. rewrite wake_slot_lookup, decide_False by done. by rewrite Hch.
Qed.

(** Appending, when nobody holds a view of the channel.  A closed channel
    refuses; data of another type is refused, naming both types; otherwise the
    new elements come after the old ones for every handle of the channel, the
    positions stay, and every handle that waited has its waker called and taken.
    Other channels keep their data. *)
Theorem append_correct {T} `{ChannelData T} c (value : T) h ch sh :
  handle c h = Some (ch, sh) -> sh_guards sh = ∅ ->
  if sh_closed sh then append c value h = Some (h, Err ChannelClosed)
  else if decide (display_data (sh_data sh) = display_data (to_channel_data value)) then
    exists h' sh', append c value h = Some (h', Ok tt) /\
      elems (sh_data sh') = elems (sh_data sh) ++ elems (to_channel_data value) /\
      hp_shared h' = <[cn_shared ch := sh']> (hp_shared h) /\
      (forall c' ch', hp_channels h !! c' = Some ch' -> exists w,
         hp_channels h' !! c' = Some (with_waker (cn_waker_locked ch') w ch') /\
         (c' ∈ sh_wakers sh -> w = None /\ forall task, cn_waker ch' = Some task -> task ∈ hp_woken h'))
  else append c value h =
    Some (h, Err (MismatchedTypes (display_data (sh_data sh)) (display_data (to_channel_data value)))).
Proof.
  intros Hh Hg. unfold append, append_check, append_write. rewrite Hh. cbn [mbind option_bind].
  destruct (sh_closed sh); [done|]. rewrite bool_decide_true by done. case_decide as Ht.
  - apply extend_total in Ht as [d Hd]. rewrite Hd.
    eexists _, (MkShared false d (sh_wakers sh) (sh_guards sh)). split; [done|].
    split; [by apply extend_elems|]. split; [by rewrite (proj1 (wake_slots_shared _ _))|].
    intros c' ch' Hc'. rewrite wake_slots_lookup. cbn [hp_channels set_shared]. rewrite Hc'. cbn [fmap option_fmap option_map].
    case_decide as Hin.
    + exists None. split; [done|]. intros _. split; [done|]. intros task Htask.
      by apply (proj2 (wake_slots_woken _ _) c' ch').
    + exists (cn_waker ch'). split; [by destruct ch'|done].
  - assert (extend (sh_data sh) (to_channel_data value) =
            Err (MismatchedTypes (display_data (sh_data sh)) (display_data (to_channel_data value)))) as ->; [|done].
    destruct (sh_data sh), (to_channel_data value); cbn in *; first [reflexivity | by destruct Ht].
Qed.

(** ** Seeking *)

(** A seek that completes moves the position to the target, kept between the
    start and the end of the data, but answers the position it had before, where
    the trait promises the new one.  If the lock is not granted at once the
    target is forgotten: the next poll answers the old position and moves
    nothing. *)
Theorem seek_answers_old_position c h ch sh target :
  handle c h = Some (ch, sh) -> (data_len (sh_data sh) < half)%N -> (cn_pos ch < half)%N ->
  cn_seek_pos ch = None ->
  match target with
  | SeekStart o => (o < half)%N
  | SeekEnd o | SeekCurrent o => (- Z.of_N half <= o)%Z /\ (o < Z.of_N half - Z.of_N (N.max (cn_pos ch) (data_len (sh_data sh))))%Z
  end ->
  let len := data_len (sh_data sh) in
  let wanted := match target with
    | SeekStart o => Z.of_N o
    | SeekEnd o => (Z.of_N len + o)%Z
    | SeekCurrent o => (Z.of_N (cn_pos ch) + o)%Z
    end in
  exists h1, start_seek c target h = Some (h1, Ok tt) /\
    poll_complete c true h1 =
      Some (set_channel c (with_pos (Z.to_N (Z.max 0 (Z.min (Z.of_N len) wanted))) ch) h, Ready (cn_pos ch)) /\
    exists h2, poll_complete c false h1 = Some (h2, Pending) /\ poll_complete c true h2 = Some (h, Ready (cn_pos ch)).
Proof.
  intros [Hc Hs]%handle_Some Hlen Hpos Hseek Htarget len wanted. unfold start_seek. rewrite Hc. cbn [mbind option_bind].
  rewrite Hseek. eexists. split; [done|].
  assert (handle c (set_channel c (with_seek (Some target) ch) h) = Some (with_seek (Some target) ch, sh)) as Hh1.
  { apply handle_Some. cbn. by rewrite lookup_insert_eq. }
  assert (seek_target target (cn_pos ch) len = Z.to_N (Z.max 0 (Z.min (Z.of_N len) wanted))) as Ht.
  { assert (forall z, (- Z.of_N half <= z < Z.of_N half)%Z -> i64_wrap z = z) as Hwrap.
    { intros z Hz. unfold i64_wrap, half in *. rewrite Z.mod_small; lia. }
    unfold len, wanted in *. destruct target as [o|o|o]; cbn.
    - unfold clamp. lia.
    - unfold i64_clamp. rewrite (Hwrap (Z.of_N _)) by lia. rewrite Hwrap by lia. done.
    - unfold i64_clamp. rewrite (Hwrap (Z.of_N (cn_pos ch))), (Hwrap (Z.of_N (data_len _))) by lia.
      rewrite Hwrap by lia. done. }
  assert (with_seek None (with_seek (Some target) ch) = ch) as Hsame by (destruct ch; cbn in *; by subst).
  split; [|eexists; split].
  - unfold poll_complete. rewrite Hh1. cbn [mbind option_bind cn_seek_pos with_seek cn_pos].
    fold len. rewrite Ht. unfold set_channel. cbn [hp_channels hp_shared hp_next hp_woken].
    rewrite !insert_insert_eq. fold (with_seek (Some target) ch). by rewrite Hsame.
  - unfold poll_complete. rewrite Hh1. done.
  - rewrite Hsame. unfold poll_complete.
    assert (handle c (set_channel c ch (set_channel c (with_seek (Some target) ch) h)) = Some (ch, sh)) as ->.
    { apply handle_Some. cbn. by rewrite lookup_insert_eq. }
    cbn [mbind option_bind]. rewrite Hseek. f_equal. f_equal. unfold set_channel. cbn.
    rewrite !insert_insert_eq. rewrite insert_id by (rewrite Hc; by destruct ch; cbn in *; subst).
    by destruct h.
Qed.

(** ** Concrete instances of the properties *)
Module ChannelExamples.
Definition three : Heap := (channel_new (Integers [1; 2; 3]%Z) empty_heap).1.
Definition closed_three : Heap := default empty_heap (channel_close 0 three).
Definition unread := MkChannel 0 0 false None None.

Lemma reads_partition_witness : exists h' rs, read_drops 0 7 [2; 2]%N closed_three = Some (h', Ok <$> rs) /\
  concat (ref_elems <$> rs) = [EInteger 1; EInteger 2; EInteger 3].
Proof.
  destruct (reads_partition 0 7 [2; 2]%N closed_three unread (MkShared true (Integers [1; 2; 3]%Z) [0%N] ∅))
    as (h' & ch' & sh' & rs & H & _ & _ & _ & Hc).
  - vm_compute. reflexivity.
  - reflexivity.
  - vm_compute. discriminate.
  - reflexivity.
  - repeat constructor.
  - left. reflexivity.
  - exists h', rs. split; [exact H|exact Hc].
Defined.

Lemma append_correct_witness :
  append 0 [4%Z] closed_three = Some (closed_three, Err ChannelClosed) /\
  exists h', append 0 [4%Z] three = Some (h', Ok tt).
Proof.
  split.
  - exact (append_correct 0 [4%Z] closed_three unread (MkShared true (Integers [1; 2; 3]%Z) [0%N] ∅) eq_refl eq_refl).
  - destruct (append_correct 0 [4%Z] three unread (MkShared false (Integers [1; 2; 3]%Z) [0%N] ∅) eq_refl eq_refl)
      as (h' & sh' & H & _). exists h'. exact H.
Defined.

Lemma seek_answers_old_position_witness :
  exists h1, start_seek 0 (SeekEnd (-1)) three = Some (h1, Ok tt) /\
    poll_complete 0 true h1 = Some (set_channel 0 (with_pos 2 unread) three, Ready 0%N).
Proof.
  destruct (seek_answers_old_position 0 three unread (MkShared false (Integers [1; 2; 3]%Z) [0%N] ∅) (SeekEnd (-1)))
    as (h1 & H1 & H2 & _).
  - reflexivity.
  - reflexivity.
  - reflexivity.
  - reflexivity.
  - vm_compute. split; [discriminate|reflexivity].
  - exists h1. split; [exact H1|exact H2].
Defined.
End ChannelExamples.
