(* ===== verification/ChannelSystem.v ===== *)
(** * Concurrent readers and writers of channels

    The system of all handles with the reads that wait and the views that are
    held, as a step relation over the operations of Channels.v, its invariant, and
    two theorems: what a view shows never changes, and a read that had to wait
    keeps every writer out and never gets an element. *)
From S2P Require Import Prelude Proto Stream Channels ChannelsProps.

Record Sys := MkSys {
  sy_heap : Heap;
  sy_requests : list ChannelDataReadRequest;
  sy_views : list ChannelDataView
}.

(** What tasks can do next.  Operations that take the handle mutably (seeking)
    need that no read of the same handle is waiting, which the borrow checker sees
    to.  Vectors and buffers have fewer than 2^63 elements. *)
Inductive step : Sys -> Sys -> Prop :=
| StepNew d h rs vs : (data_len d < half)%N ->
    step (MkSys h rs vs) (MkSys (channel_new d h).1 rs vs)
| StepClone c h h' c' rs vs : channel_clone c h = Some (h', c') -> step (MkSys h rs vs) (MkSys h' rs vs)
| StepClose c h h' rs vs : channel_close c h = Some h' -> step (MkSys h rs vs) (MkSys h' rs vs)
| StepRead c size h h' rr rs vs : (size < half)%N -> read_start c size h = Some (h', rr) ->
    step (MkSys h rs vs) (MkSys h' (rr :: rs) vs)
| StepPending rr task h h' l1 l2 vs : read_poll rr task h = Some (h', Pending) ->
    step (MkSys h (l1 ++ rr :: l2) vs) (MkSys h' (l1 ++ rr :: l2) vs)
| StepReady rr task h h' ch sh s e l1 l2 vs : handle (rr_channel rr) h = Some (ch, sh) ->
    read_poll rr task h = Some (h', Ready (s, e)) ->
    step (MkSys h (l1 ++ rr :: l2) vs) (MkSys h' (l1 ++ l2) (MkView (cn_shared ch) (rr_guard rr) s e :: vs))
| StepCancel rr h h' l1 l2 vs : drop_request rr h = Some h' ->
    step (MkSys h (l1 ++ rr :: l2) vs) (MkSys h' (l1 ++ l2) vs)
| StepDrop v h h' rs v1 v2 : drop_guard (vw_shared v) (vw_guard v) h = Some h' ->
    step (MkSys h rs (v1 ++ v :: v2)) (MkSys h' rs (v1 ++ v2))
| StepAppend c d h h' r rs vs ch sh : append_write c d h = Some (h', r) ->
    handle c h = Some (ch, sh) -> (data_len (sh_data sh) + data_len d < half)%N ->
    step (MkSys h rs vs) (MkSys h' rs vs)
| StepSeek c pos h h' r rs vs : start_seek c pos h = Some (h', r) -> step (MkSys h rs vs) (MkSys h' rs vs)
| StepSeekPoll c ready h h' r rs vs ch : hp_channels h !! c = Some ch -> cn_waker_locked ch = false ->
    poll_complete c ready h = Some (h', r) -> step (MkSys h rs vs) (MkSys h' rs vs).

Definition initial : Sys := MkSys empty_heap [] [].
Definition reachable (s : Sys) : Prop := rtc step initial s.

(** ** Well-formed heaps *)
Record wf (h : Heap) : Prop := {
  wf_channels : forall c ch, hp_channels h !! c = Some ch -> (c < hp_next h)%N /\
    exists sh, hp_shared h !! cn_shared ch = Some sh /\ (cn_pos ch <= data_len (sh_data sh))%N /\ c ∈ sh_wakers sh;
  wf_shared : forall l sh, hp_shared h !! l = Some sh -> (l < hp_next h)%N /\
    (data_len (sh_data sh) < half)%N /\ forall g, g ∈ sh_guards sh -> (g < hp_next h)%N
}.

(** What every operation but the dropping of the guard [rg] and the changes to the
    handle [tc] keeps. *)
Record evolves (tc rg : option N) (h h' : Heap) : Prop := {
  ev_shared : forall l sh, hp_shared h !! l = Some sh -> exists sh', hp_shared h' !! l = Some sh' /\
    (forall g, g ∈ sh_guards sh -> rg <> Some g -> g ∈ sh_guards sh') /\
    (sh_guards sh = ∅ \/ sh_data sh' = sh_data sh);
  ev_channels : forall c ch, hp_channels h !! c = Some ch -> exists ch', hp_channels h' !! c = Some ch' /\
    cn_shared ch' = cn_shared ch /\
    (tc = Some c \/ (cn_waker_locked ch = true -> cn_waker_locked ch' = true /\ cn_pos ch' = cn_pos ch))
}.

Lemma evolves_shared_at tc rg h h' l sh :
  evolves tc rg h h' -> hp_shared h !! l = Some sh -> is_Some (hp_shared h' !! l).
Proof. intros [Hs _] Hl. destruct (Hs _ _ Hl) as (? & -> & _). eauto. Qed.

(** Changing one handle and what one channel shares. *)
Lemma update_evolves tc rg h c ch ch' l sh sh' n w :
  hp_channels h !! c = Some ch -> hp_shared h !! l = Some sh ->
  cn_shared ch' = cn_shared ch ->
  (tc = Some c \/ (cn_waker_locked ch = true -> cn_waker_locked ch' = true /\ cn_pos ch' = cn_pos ch)) ->
  (forall g, g ∈ sh_guards sh -> rg <> Some g -> g ∈ sh_guards sh') ->
  (sh_guards sh = ∅ \/ sh_data sh' = sh_data sh) ->
  evolves tc rg h (MkHeap (<[l := sh']> (hp_shared h)) (<[c := ch']> (hp_channels h)) n w).
Proof.
  intros Hc Hl Hsame Htc Hrg Hd. split; cbn.
  - intros l0 sh0 Hl0. destruct (decide (l = l0)) as [<-|Hne].
    + rewrite lookup_insert_eq. rewrite Hl in Hl0. injection Hl0 as <-. eauto.
    + rewrite lookup_insert_ne by done. exists sh0. split_and!; [done|done|by right].
  - intros c0 ch0 Hc0. destruct (decide (c = c0)) as [<-|Hne].
    + rewrite lookup_insert_eq. rewrite Hc in Hc0. injection Hc0 as <-. eauto.
    + rewrite lookup_insert_ne by done. exists ch0. split_and!; [done|done|by right].
Qed.
Lemma update_wf h c ch ch' l sh sh' n w :
  wf h -> hp_channels h !! c = Some ch -> hp_shared h !! l = Some sh -> cn_shared ch = l ->
  cn_shared ch' = l -> (cn_pos ch' <= data_len (sh_data sh'))%N ->
  (data_len (sh_data sh) <= data_len (sh_data sh'))%N -> (data_len (sh_data sh') < half)%N ->
  sh_wakers sh ⊆ sh_wakers sh' -> (hp_next h <= n)%N ->
  (forall g, g ∈ sh_guards sh' -> g ∈ sh_guards sh \/ (g < n)%N) ->
  wf (MkHeap (<[l := sh']> (hp_shared h)) (<[c := ch']> (hp_channels h)) n w).
Proof.
  intros [Hwc Hws] Hc Hl Hch Hch' Hpos Hlen Hhalf Hw Hn Hg. split; cbn.
  - intros c0 ch0 Hc0.
    assert (exists ch1, hp_channels h !! c0 = Some ch1 /\ cn_shared ch0 = cn_shared ch1 /\
              (c0 = c /\ ch0 = ch' \/ ch0 = ch1)) as (ch1 & Hc1 & Hs1 & Hor).
    { apply lookup_insert_Some in Hc0 as [[<- <-]|[_ Hc0]]; [exists ch; split_and!; [done|congruence|auto] | eauto]. }
    destruct (Hwc _ _ Hc1) as (Hlt & sh1 & Hsh1 & Hp1 & Hin1). split; [lia|].
    rewrite Hs1. destruct (decide (l = cn_shared ch1)) as [->|Hne].
    + rewrite lookup_insert_eq. exists sh'. rewrite Hl in Hsh1. injection Hsh1 as <-.
      split_and!; [done| |set_solver]. destruct Hor as [[_ ->]| ->]; [done|lia].
    + rewrite lookup_insert_ne by done. exists sh1. split_and!; [done| |done].
      destruct Hor as [[-> ->]| ->]; [|done]. rewrite Hc in Hc1. injection Hc1 as <-. by destruct Hne.
  - intros l0 sh0 Hl0. apply lookup_insert_Some in Hl0 as [[<- <-]|[_ Hl0]].
    + destruct (Hws _ _ Hl) as (Hlt & _ & Hgs). split_and!; [lia|done|].
      intros g Hgin. destruct (Hg _ Hgin) as [H'%Hgs|]; lia.
    + destruct (Hws _ _ Hl0) as (Hlt & ? & Hgs). split_and!; [lia|done|]. intros g Hgin%Hgs. lia.
Qed.

(** Changing what one channel shares only. *)
Lemma update_shared_evolves tc rg h l sh sh' n w :
  hp_shared h !! l = Some sh -> (forall g, g ∈ sh_guards sh -> rg <> Some g -> g ∈ sh_guards sh') ->
  (sh_guards sh = ∅ \/ sh_data sh' = sh_data sh) ->
  evolves tc rg h (MkHeap (<[l := sh']> (hp_shared h)) (hp_channels h) n w).
Proof.
  intros Hl Hrg Hd. split; cbn.
  - intros l0 sh0 Hl0. destruct (decide (l = l0)) as [<-|Hne].
    + rewrite lookup_insert_eq. rewrite Hl in Hl0. injection Hl0 as <-. eauto.
    + rewrite lookup_insert_ne by done. exists sh0. split_and!; [done|done|by right].
  - intros c0 ch0 Hc0. exists ch0. split_and!; [done|done|by right].
Qed.
Lemma update_shared_wf h l sh sh' w :
  wf h -> hp_shared h !! l = Some sh ->
  (data_len (sh_data sh) <= data_len (sh_data sh'))%N -> (data_len (sh_data sh') < half)%N ->
  sh_wakers sh' = sh_wakers sh -> (forall g, g ∈ sh_guards sh' -> g ∈ sh_guards sh) ->
  wf (MkHeap (<[l := sh']> (hp_shared h)) (hp_channels h) (hp_next h) w).
Proof.
  intros [Hwc Hws] Hl Hlen Hhalf Hw Hg. split; cbn.
  - intros c0 ch0 Hc0. destruct (Hwc _ _ Hc0) as (Hlt & sh1 & Hsh1 & Hp1 & Hin1). split; [lia|].
    destruct (decide (l = cn_shared ch0)) as [->|Hne].
    + rewrite lookup_insert_eq. exists sh'. rewrite Hl in Hsh1. injection Hsh1 as <-.
      split_and!; [done|lia|by rewrite Hw].
    + rewrite lookup_insert_ne by done. eauto.
  - intros l0 sh0 Hl0. apply lookup_insert_Some in Hl0 as [[<- <-]|[_ Hl0]]; [|by apply Hws].
    destruct (Hws _ _ Hl) as (Hlt & _ & Hgs). split_and!; [done|done|]. intros g Hgin%Hg. auto.
Qed.

(** Calling wakers. *)
Lemma wake_evolves tc rg h h1 slots : evolves tc rg h h1 -> evolves tc rg h (foldl wake_slot h1 slots).
Proof.
  intros [Hs Hc]. split.
  - by rewrite (proj1 (wake_slots_shared _ _)).
  - intros c ch Hch. destruct (Hc _ _ Hch) as (ch' & Hch' & Hsame & Hor). rewrite wake_slots_lookup, Hch'.
    cbn. case_decide; eauto.
Qed.
Lemma wake_wf h slots : wf h -> wf (foldl wake_slot h slots).
Proof.
  intros [Hwc Hws]. pose proof (wake_slots_shared slots h) as [Hs Hn]. split; rewrite Hs, Hn; [|done].
  intros c ch. rewrite wake_slots_lookup. destruct (hp_channels h !! c) as [ch0|] eqn:Hc; [|done].
  destruct (Hwc _ _ Hc) as (Hlt & sh & Hsh & Hp & Hin). cbn. intros [= <-]. split; [done|].
  exists sh. by case_decide.
Qed.
Lemma evolves_refl tc rg h : evolves tc rg h h.
Proof.
  split; intros ? x Hx; exists x; (split; [done|]); [split; [done|by right] | split; [done|by right]].
Qed.

Lemma set_channel_twice c ch1 ch2 h : set_channel c ch2 (set_channel c ch1 h) = set_channel c ch2 h.
Proof. unfold set_channel. cbn. by rewrite insert_insert_eq. Qed.

Lemma set_channel_as_update c ch' l sh h :
  hp_shared h !! l = Some sh -> set_channel c ch' h = MkHeap (<[l := sh]> (hp_shared h)) (<[c := ch']> (hp_channels h)) (hp_next h) (hp_woken h).
Proof. intros Hl. unfold set_channel. by rewrite (insert_id (hp_shared h) l sh). Qed.

Lemma set_channel_evolves tc rg c ch ch' h :
  wf h -> hp_channels h !! c = Some ch -> cn_shared ch' = cn_shared ch ->
  (tc = Some c \/ (cn_waker_locked ch = true -> cn_waker_locked ch' = true /\ cn_pos ch' = cn_pos ch)) ->
  evolves tc rg h (set_channel c ch' h).
Proof.
  intros Hw Hc Hs Htc. destruct (wf_channels _ Hw _ _ Hc) as (_ & sh & Hsh & _).
  rewrite (set_channel_as_update _ _ _ _ _ Hsh). eapply update_evolves; eauto.
Qed.
Lemma set_channel_wf c ch ch' sh h :
  wf h -> handle c h = Some (ch, sh) -> cn_shared ch' = cn_shared ch ->
  (cn_pos ch' <= data_len (sh_data sh))%N -> wf (set_channel c ch' h).
Proof.
  intros Hw [Hc Hsh]%handle_Some Hs Hp. rewrite (set_channel_as_update _ _ _ _ _ Hsh).
  eapply update_wf; eauto; try lia; by eapply wf_shared.
Qed.

Lemma handle_pos h c ch sh : wf h -> handle c h = Some (ch, sh) ->
  (cn_pos ch <= data_len (sh_data sh))%N /\ (data_len (sh_data sh) < half)%N.
Proof.
  intros Hw [Hc Hs]%handle_Some. destruct (wf_channels _ Hw _ _ Hc) as (_ & sh' & Hs' & Hp & _).
  rewrite Hs in Hs'. injection Hs' as <-. split; [done|]. by eapply wf_shared.
Qed.

(** ** The operations *)
Lemma new_ok d h : wf h -> (data_len d < half)%N ->
  wf (channel_new d h).1 /\ evolves None None h (channel_new d h).1.
Proof.
  intros Hw Hd. pose proof Hw as [Hwc Hws].
  assert (hp_channels h !! hp_next h = None) as Hnc.
  { destruct (hp_channels h !! hp_next h) eqn:E; [|done]. apply Hwc in E as [? _]. lia. }
  assert (hp_shared h !! hp_next h = None) as Hns.
  { destruct (hp_shared h !! hp_next h) eqn:E; [|done]. apply Hws in E as [? _]. lia. }
  split; split; cbn.
  - intros c ch [[<- <-]|[Hne Hc]]%lookup_insert_Some.
    + split; [lia|]. cbn. rewrite lookup_insert_eq. eexists. split; [done|]. cbn. split; [lia|set_solver].
    + destruct (Hwc _ _ Hc) as (Hlt & sh & Hsh & Hp & Hin). split; [lia|].
      rewrite lookup_insert_ne by (intros Heq; congruence). eauto.
  - intros l sh [[<- <-]|[Hne Hl]]%lookup_insert_Some.
    + cbn. split_and!; [lia|done|set_solver].
    + destruct (Hws _ _ Hl) as (Hlt & Hd' & Hg). split_and!; [lia|done|]. intros g Hgin%Hg. lia.
  - intros l sh Hl. exists sh. rewrite lookup_insert_ne by (intros Heq; congruence). eauto.
  - intros c ch Hc. exists ch. rewrite lookup_insert_ne by (intros Heq; congruence). eauto.
Qed.

Lemma clone_ok c h h' c' : wf h -> channel_clone c h = Some (h', c') -> wf h' /\ evolves None None h h'.
Proof.
  intros Hw H. unfold channel_clone in H. destruct (handle c h) as [[ch sh]|] eqn:Hh; [|done]. cbn in H.
  injection H as <- <-. destruct (handle_pos _ _ _ _ Hw Hh) as [Hp Hhalf]. apply handle_Some in Hh as [Hc Hs].
  pose proof Hw as [Hwc Hws].
  assert (hp_channels h !! hp_next h = None) as Hnc.
  { destruct (hp_channels h !! hp_next h) eqn:E; [|done]. apply Hwc in E as [? _]. lia. }
  assert (hp_next h <> c) by (intros Heq; congruence).
  split; split; cbn.
  - intros c0 ch0 [[<- <-]|[Hne Hc0]]%lookup_insert_Some; cbn.
    + split; [lia|]. rewrite lookup_insert_eq. eexists. split; [done|]. cbn. split; [done|set_solver].
    + destruct (Hwc _ _ Hc0) as (Hlt & sh0 & Hsh0 & Hp0 & Hin). split; [lia|].
      destruct (decide (cn_shared ch = cn_shared ch0)) as [Heq|Hne'].
      * rewrite <- Heq in *. rewrite lookup_insert_eq. rewrite Hs in Hsh0. injection Hsh0 as <-. eexists. split; [done|]. cbn. set_solver.
      * rewrite lookup_insert_ne by done. eauto.
  - intros l sh0 [[<- <-]|[Hne Hl]]%lookup_insert_Some.
    + destruct (Hws _ _ Hs) as (Hlt & _ & Hg). cbn. split_and!; [lia|done|]. intros g Hgin%Hg. lia.
    + destruct (Hws _ _ Hl) as (Hlt & Hd' & Hg). split_and!; [lia|done|]. intros g Hgin%Hg. lia.
  - intros l sh0 Hl. destruct (decide (cn_shared ch = l)) as [Heq|Hne].
    + subst l. rewrite lookup_insert_eq. rewrite Hs in Hl. injection Hl as <-. eexists. split; [done|]. cbn. auto.
    + rewrite lookup_insert_ne by done. exists sh0. auto.
  - intros c0 ch0 Hc0. exists ch0. rewrite lookup_insert_ne by (intros Heq; congruence). auto.
Qed.

Lemma close_ok c h h' : wf h -> channel_close c h = Some h' -> wf h' /\ evolves None None h h'.
Proof.
  intros Hw H. unfold channel_close in H. destruct (handle c h) as [[ch sh]|] eqn:Hh; [|done]. cbn in H.
  injection H as <-. destruct (handle_pos _ _ _ _ Hw Hh) as [Hp Hhalf]. apply handle_Some in Hh as [Hc Hs].
  split; [eapply update_shared_wf; eauto; cbn; try lia; done | eapply update_shared_evolves; eauto].
Qed.

Lemma append_ok c d h h' r ch sh : wf h -> append_write c d h = Some (h', r) -> handle c h = Some (ch, sh) ->
  (data_len (sh_data sh) + data_len d < half)%N -> wf h' /\ evolves None None h h'.
Proof.
  intros Hw H Hh Hlen. unfold append_write in H. rewrite Hh in H. cbn in H. apply handle_Some in Hh as [Hc Hs].
  case_bool_decide as Hg; [|done].
  destruct (extend (sh_data sh) d) as [dat|e] eqn:Hd; injection H as <- <-; [|split; [done|apply evolves_refl]].
  assert (data_len dat = data_len (sh_data sh) + data_len d)%N as Hdl.
  { rewrite <- !elems_len, (extend_elems _ _ _ Hd), length_app. lia. }
  split; [apply wake_wf | apply wake_evolves].
  - eapply update_shared_wf; eauto; cbn; lia.
  - eapply update_shared_evolves; eauto.
Qed.

Lemma start_seek_ok c p h h' r : wf h -> start_seek c p h = Some (h', r) -> wf h' /\ evolves None None h h'.
Proof.
  intros Hw H. unfold start_seek in H. destruct (hp_channels h !! c) as [ch|] eqn:Hc; [|done]. cbn in H.
  destruct (wf_channels _ Hw _ _ Hc) as (_ & sh & Hs & Hp & _).
  destruct (cn_seek_pos ch); injection H as <- <-; [split; [done|apply evolves_refl]|].
  split; [eapply set_channel_wf; [done|by apply handle_Some|done|done] | eapply set_channel_evolves; eauto].
Qed.

Lemma i64_wrap_half n : (n < half)%N -> i64_wrap (Z.of_N n) = Z.of_N n.
Proof. unfold i64_wrap, half. intros. rewrite Z.mod_small; lia. Qed.

Lemma seek_target_le t p len : (len < half)%N -> (seek_target t p len <= len)%N.
Proof.
  intros Hlen. destruct t; cbn; unfold clamp, i64_clamp; [lia|..]; rewrite i64_wrap_half by done; lia.
Qed.

Lemma poll_complete_ok c ready h h' r ch : wf h -> hp_channels h !! c = Some ch -> cn_waker_locked ch = false ->
  poll_complete c ready h = Some (h', r) -> wf h' /\ evolves None None h h'.
Proof.
  intros Hw Hc Hl H. destruct (wf_channels _ Hw _ _ Hc) as (_ & sh & Hs & Hp & _).
  assert (handle c h = Some (ch, sh)) as Hh by by apply handle_Some.
  destruct (handle_pos _ _ _ _ Hw Hh) as [_ Hhalf].
  unfold poll_complete in H. rewrite Hh in H. cbn in H.
  assert (forall p, (p <= data_len (sh_data sh))%N ->
     wf (set_channel c (with_pos p (with_seek None ch)) h) /\
     evolves None None h (set_channel c (with_pos p (with_seek None ch)) h)) as Hset.
  { intros p Hp'. split; [by eapply set_channel_wf | eapply set_channel_evolves; eauto; right; congruence]. }
  assert (with_seek None ch = with_pos (cn_pos ch) (with_seek None ch)) as Hsame by done.
  destruct (cn_seek_pos ch) as [t|]; [destruct ready|]; injection H as <- <-.
  - rewrite set_channel_twice. apply Hset. by apply seek_target_le.
  - rewrite Hsame. by apply Hset.
  - rewrite Hsame. by apply Hset.
Qed.

(** Starting a read: the guard is new, the handle was free. *)
Lemma read_start_ok c size h h' rr : wf h -> read_start c size h = Some (h', rr) ->
  wf h' /\ evolves None None h h' /\
  exists ch sh ch' sh', handle c h = Some (ch, sh) /\ cn_waker_locked ch = false /\
    handle c h' = Some (ch', sh') /\ cn_waker_locked ch' = true /\ cn_shared ch' = cn_shared ch /\
    cn_pos ch' = cn_pos ch /\ sh_data sh' = sh_data sh /\ hp_next h ∈ sh_guards sh' /\
    rr = MkReadRequest c (hp_next h) (data_len (sh_data sh)) size.
Proof.
  intros Hw H. unfold read_start in H. destruct (handle c h) as [[ch sh]|] eqn:Hh; [|done]. cbn in H.
  destruct (cn_waker_locked ch) eqn:Hl; [done|]. injection H as <- <-.
  destruct (handle_pos _ _ _ _ Hw Hh) as [Hp Hhalf]. pose proof Hh as [Hc Hs]%handle_Some.
  unfold fresh, set_channel, set_shared. cbn [hp_shared hp_channels hp_next hp_woken].
  split_and!.
  - eapply update_wf; eauto; cbn; try lia; try done. intros g. set_unfold. intros [->|]; [right; lia|by left].
  - eapply update_evolves; eauto; cbn; set_solver.
  - exists ch, sh, (with_waker true (cn_waker ch) ch), (with_guards ({[hp_next h]} ∪ sh_guards sh) sh).
    split_and!; try done; [|cbn; set_solver].
    apply handle_Some. cbn. by rewrite !lookup_insert_eq.
Qed.

(** A poll moves the handle it belongs to. *)
Lemma read_poll_ok rr task h h' r ch sh : wf h -> handle (rr_channel rr) h = Some (ch, sh) ->
  rr_data_len rr = data_len (sh_data sh) -> read_poll rr task h = Some (h', r) ->
  wf h' /\ evolves (Some (rr_channel rr)) None h h' /\
  exists ch', handle (rr_channel rr) h' = Some (ch', sh) /\ cn_shared ch' = cn_shared ch /\
    cn_pos ch' = new_pos (cn_pos ch) (rr_requested_size rr) (rr_data_len rr) /\
    match r with
    | Pending => cn_waker_locked ch' = true /\ sh_closed sh = false /\
        complete (cn_pos ch) (rr_requested_size rr) (rr_data_len rr) = false
    | Ready (s, e) => cn_waker_locked ch' = false /\ s = cn_pos ch /\
        e = (if complete (cn_pos ch) (rr_requested_size rr) (rr_data_len rr)
             then Some (u64_add (cn_pos ch) (rr_requested_size rr)) else None) /\
        (e = None -> sh_closed sh = true)
    end.
Proof.
  intros Hw Hh Hlen H. unfold read_poll in H. rewrite Hh in H. cbn in H. pose proof Hh as [Hc Hs]%handle_Some.
  set (p := new_pos _ _ _) in *.
  assert (p <= data_len (sh_data sh))%N as Hp by (unfold p, new_pos, clamp; lia).
  assert (forall ch', cn_shared ch' = cn_shared ch -> cn_pos ch' = p ->
    wf (set_channel (rr_channel rr) ch' h) /\ evolves (Some (rr_channel rr)) None h (set_channel (rr_channel rr) ch' h) /\
    handle (rr_channel rr) (set_channel (rr_channel rr) ch' h) = Some (ch', sh)) as Hset.
  { intros ch' Hs' Hp'. split_and!; [eapply set_channel_wf; eauto; by rewrite Hp' | eapply set_channel_evolves; eauto |].
    apply handle_Some. cbn. rewrite lookup_insert_eq. by rewrite Hs'. }
  destruct (complete _ _ _) eqn:Hcomp; [|destruct (sh_closed sh) eqn:Hcl]; injection H as <- <-;
    (edestruct Hset as (H1 & H2 & H3); [| |split_and!; [exact H1|exact H2|eexists; split_and!; [exact H3|..]]]); done.
Qed.

Lemma drop_guard_ok tc l g h h' : wf h -> drop_guard l g h = Some h' -> wf h' /\ evolves tc (Some g) h h'.
Proof.
  intros Hw H. unfold drop_guard in H. destruct (hp_shared h !! l) as [sh|] eqn:Hl; [|done]. cbn in H.
  injection H as <-. pose proof (wf_shared _ Hw _ _ Hl) as (_ & Hhalf & _). split.
  - eapply update_shared_wf; eauto; cbn; try lia; set_solver.
  - eapply update_shared_evolves; eauto. cbn. intros g' Hg' Hne. set_unfold. naive_solver.
Qed.

(** ** The invariant *)

(** A read that waits holds its guard and its waker slot, and knows the length. *)
Definition waiting (h : Heap) (rr : ChannelDataReadRequest) : Prop :=
  exists ch sh, handle (rr_channel rr) h = Some (ch, sh) /\ cn_waker_locked ch = true /\
    rr_guard rr ∈ sh_guards sh /\ rr_data_len rr = data_len (sh_data sh) /\ (rr_requested_size rr < half)%N.
(** A view holds its guard and lies within the data. *)
Definition viewing (h : Heap) (v : ChannelDataView) : Prop :=
  exists sh, hp_shared h !! vw_shared v = Some sh /\ vw_guard v ∈ sh_guards sh /\
    (vw_start v <= view_end v (sh_data sh))%N /\ (view_end v (sh_data sh) <= data_len (sh_data sh))%N.
Definition owners (rs : list ChannelDataReadRequest) (vs : list ChannelDataView) : list N :=
  (rr_guard <$> rs) ++ (vw_guard <$> vs).
Arguments owners : simpl never.
Definition inv (s : Sys) : Prop :=
  wf (sy_heap s) /\ Forall (waiting (sy_heap s)) (sy_requests s) /\ Forall (viewing (sy_heap s)) (sy_views s) /\
  NoDup (owners (sy_requests s) (sy_views s)) /\ NoDup (rr_channel <$> sy_requests s).

Lemma evolves_waiting tc rg h h' rr :
  evolves tc rg h h' -> waiting h rr -> tc <> Some (rr_channel rr) -> rg <> Some (rr_guard rr) -> waiting h' rr.
Proof.
  intros [Hs Hc] (ch & sh & [Hch Hsh]%handle_Some & Hl & Hg & Hlen & Hsz) Htc Hrg.
  destruct (Hc _ _ Hch) as (ch' & Hch' & Hsame & [?|Hkeep]); [done|]. destruct (Hkeep Hl) as [Hl' _].
  destruct (Hs _ _ Hsh) as (sh' & Hsh' & Hgs & [He|Hd]); [set_solver|].
  exists ch', sh'. split_and!; [|done|by apply Hgs|by rewrite Hd|done].
  apply handle_Some. split; [done|]. by rewrite Hsame.
Qed.
Lemma evolves_viewing tc rg h h' v :
  evolves tc rg h h' -> viewing h v -> rg <> Some (vw_guard v) -> viewing h' v.
Proof.
  intros [Hs _] (sh & Hsh & Hg & H1 & H2) Hrg.
  destruct (Hs _ _ Hsh) as (sh' & Hsh' & Hgs & [He|Hd]); [set_solver|].
  exists sh'. rewrite Hd. split_and!; [done|by apply Hgs|done|done].
Qed.
Lemma waiting_guard h rr : wf h -> waiting h rr -> (rr_guard rr < hp_next h)%N.
Proof.
  intros Hw (ch & sh & [_ Hsh]%handle_Some & _ & Hg & _). destruct (wf_shared _ Hw _ _ Hsh) as (_ & _ & H). auto.
Qed.
Lemma viewing_guard h v : wf h -> viewing h v -> (vw_guard v < hp_next h)%N.
Proof. intros Hw (sh & Hsh & Hg & _). destruct (wf_shared _ Hw _ _ Hsh) as (_ & _ & H). auto. Qed.

(** Steps that neither make nor end a read. *)
Lemma inv_evolves h h' rs vs : wf h' -> evolves None None h h' -> inv (MkSys h rs vs) -> inv (MkSys h' rs vs).
Proof.
  intros Hw He (_ & Hr & Hv & Hnd & Hndc). split_and!; cbn in *; [done| | |done|done].
  - eapply Forall_impl; [exact Hr|]. intros rr Hrr. by eapply evolves_waiting.
  - eapply Forall_impl; [exact Hv|]. intros v Hvv. by eapply evolves_viewing.
Qed.

Lemma owners_middle rr l1 l2 vs : owners (l1 ++ rr :: l2) vs ≡ₚ rr_guard rr :: owners (l1 ++ l2) vs.
Proof. unfold owners. rewrite !fmap_app, fmap_cons. by rewrite <- Permutation_middle. Qed.
Lemma owners_middle_view v rs v1 v2 : owners rs (v1 ++ v :: v2) ≡ₚ vw_guard v :: owners rs (v1 ++ v2).
Proof. unfold owners. rewrite !fmap_app, fmap_cons. by rewrite !(assoc_L (++)), <- Permutation_middle. Qed.
Lemma channels_middle rr l1 l2 : rr_channel <$> (l1 ++ rr :: l2) ≡ₚ rr_channel rr :: (rr_channel <$> (l1 ++ l2)).
Proof. rewrite !fmap_app, fmap_cons. by rewrite <- Permutation_middle. Qed.

(** The other reads and views when the handle or the guard of one goes. *)
Lemma others_waiting tc rg h h' rr l1 l2 vs :
  evolves tc rg h h' -> (tc = None \/ tc = Some (rr_channel rr)) -> (rg = None \/ rg = Some (rr_guard rr)) ->
  inv (MkSys h (l1 ++ rr :: l2) vs) -> Forall (waiting h') (l1 ++ l2) /\ Forall (viewing h') vs.
Proof.
  intros He Htc Hrg (_ & Hr & Hv & Hnd & Hndc). cbn in *.
  rewrite owners_middle in Hnd. apply NoDup_cons in Hnd as [Hg _].
  rewrite channels_middle in Hndc. apply NoDup_cons in Hndc as [Hc _].
  rewrite Forall_forall in Hr; rewrite Forall_forall in Hv. split; apply Forall_forall; intros x Hx.
  - eapply evolves_waiting; [done|apply Hr; set_solver| |].
    + destruct Htc as [->| ->]; [done|]. intros [= Heq]. apply Hc. rewrite Heq. by apply list_elem_of_fmap_2.
    + destruct Hrg as [->| ->]; [done|]. intros [= Heq]. apply Hg. rewrite Heq. unfold owners.
      apply elem_of_app. left. by apply list_elem_of_fmap_2.
  - eapply evolves_viewing; [done|by apply Hv|].
    destruct Hrg as [->| ->]; [done|]. intros [= Heq]. apply Hg. rewrite Heq. unfold owners.
    apply elem_of_app. right. by apply list_elem_of_fmap_2.
Qed.

Lemma evolves_trans tc rg h1 h2 h3 : evolves tc None h1 h2 -> evolves tc rg h2 h3 -> evolves tc rg h1 h3.
Proof.
  intros [Hs1 Hc1] [Hs2 Hc2]. split.
  - intros l sh Hl. destruct (Hs1 _ _ Hl) as (sh' & Hl' & Hg & Hd). destruct (Hs2 _ _ Hl') as (sh'' & Hl'' & Hg' & Hd').
    exists sh''. split_and!; [done|auto|]. destruct Hd as [?|Hd]; [by left|]. destruct Hd' as [He|Hd']; [left; set_solver|].
    right. congruence.
  - intros c ch Hc. destruct (Hc1 _ _ Hc) as (ch' & Hc' & Hs & Hor). destruct (Hc2 _ _ Hc') as (ch'' & Hc'' & Hs' & Hor').
    exists ch''. split_and!; [done|congruence|]. destruct Hor as [?|Hor]; [by left|]. destruct Hor' as [?|Hor']; [by left|].
    right. intros Hl. destruct (Hor Hl) as [Hl' Hp]. destruct (Hor' Hl') as [Hl'' Hp']. split; congruence.
Qed.

Lemma drop_request_ok rr h h' : wf h -> drop_request rr h = Some h' ->
  wf h' /\ evolves (Some (rr_channel rr)) (Some (rr_guard rr)) h h'.
Proof.
  intros Hw H. unfold drop_request in H. destruct (handle (rr_channel rr) h) as [[ch sh]|] eqn:Hh; [|done]. cbn in H.
  destruct (handle_pos _ _ _ _ Hw Hh) as [Hp _]. pose proof Hh as [Hc Hs]%handle_Some.
  assert (wf (set_channel (rr_channel rr) (with_waker false (cn_waker ch) ch) h)) as Hw1 by by eapply set_channel_wf.
  destruct (drop_guard_ok (Some (rr_channel rr)) _ _ _ _ Hw1 H) as [Hw2 He2]. split; [done|].
  eapply evolves_trans; [|done]. eapply set_channel_evolves; eauto.
Qed.

Lemma NoDup_middle_owners rr l1 l2 vs : NoDup (owners (l1 ++ rr :: l2) vs) -> NoDup (owners (l1 ++ l2) vs).
Proof. rewrite owners_middle. by intros [_ ?]%NoDup_cons. Qed.
Lemma NoDup_middle_channels rr l1 l2 : NoDup (rr_channel <$> (l1 ++ rr :: l2)) -> NoDup (rr_channel <$> (l1 ++ l2)).
Proof. rewrite channels_middle. by intros [_ ?]%NoDup_cons. Qed.

Lemma view_in_range p n d e :
  (p <= data_len d)%N -> (data_len d < half)%N -> (n < half)%N ->
  e = (if complete p n (data_len d) then Some (u64_add p n) else None) ->
  (p <= default (data_len d) e)%N /\ (default (data_len d) e <= data_len d)%N.
Proof.
  intros Hp Hd Hn ->. rewrite complete_small by done. destruct (N.leb_spec (p + n) (data_len d)); cbn; [|lia].
  rewrite u64_add_small by (unfold half, u64_modulus in *; lia). lia.
Qed.

Lemma inv_read c size h h' rr rs vs : (size < half)%N -> read_start c size h = Some (h', rr) ->
  inv (MkSys h rs vs) -> inv (MkSys h' (rr :: rs) vs).
Proof.
  intros Hsz H Hinv. pose proof Hinv as (Hw & Hr & Hv & Hnd & Hndc). cbn in Hw, Hr, Hv, Hnd, Hndc.
  apply read_start_ok in H as (Hw' & He & ch & sh & ch' & sh' & Hh & Hl & Hh' & Hl' & Hs & Hp & Hd & Hg & ->); [|done].
  destruct (inv_evolves _ _ _ _ Hw' He Hinv) as (_ & Hr' & Hv' & _). cbn in Hr', Hv'.
  rewrite Forall_forall in Hr; rewrite Forall_forall in Hv. split_and!; cbn; [done| |done| |].
  - constructor; [|done]. exists ch', sh'. cbn. rewrite Hd. split_and!; done.
  - apply NoDup_cons. split; [|done]. intros [Hin|Hin]%elem_of_app; apply list_elem_of_fmap in Hin as (x & Hx & Hin); cbn in Hx.
    + pose proof (waiting_guard _ _ Hw (Hr _ Hin)). lia.
    + pose proof (viewing_guard _ _ Hw (Hv _ Hin)). lia.
  - apply NoDup_cons. split; [|done]. intros (x & Hx & Hin)%list_elem_of_fmap.
    destruct (Hr _ Hin) as (chx & shx & Hhx & Hlx & _). rewrite <- Hx, Hh in Hhx. injection Hhx as <- <-. congruence.
Qed.

Lemma inv_poll rr task h h' r l1 l2 vs ch sh : handle (rr_channel rr) h = Some (ch, sh) ->
  read_poll rr task h = Some (h', r) -> inv (MkSys h (l1 ++ rr :: l2) vs) ->
  inv match r with
      | Pending => MkSys h' (l1 ++ rr :: l2) vs
      | Ready (s, e) => MkSys h' (l1 ++ l2) (MkView (cn_shared ch) (rr_guard rr) s e :: vs)
      end.
Proof.
  intros Hh H Hinv. pose proof Hinv as (Hw & Hr & Hv & Hnd & Hndc). cbn in Hw, Hr, Hv, Hnd, Hndc.
  assert (waiting h rr) as (ch0 & sh0 & Hh0 & Hl & Hg & Hlen & Hsz).
  { rewrite Forall_forall in Hr. apply Hr. set_solver. }
  rewrite Hh in Hh0. injection Hh0 as <- <-. destruct (handle_pos _ _ _ _ Hw Hh) as [Hp Hhalf].
  destruct (read_poll_ok _ _ _ _ _ _ _ Hw Hh Hlen H) as (Hw' & He & ch' & Hh' & Hs & Hpos & Hr').
  destruct (others_waiting _ _ _ _ rr l1 l2 vs He (or_intror eq_refl) (or_introl eq_refl) Hinv) as [Ho Hvo].
  destruct r as [|[s e]].
  - destruct Hr' as (Hl' & _). split_and!; cbn; [done| |done|done|done].
    apply Forall_app in Ho as [Ho1 Ho2]. apply Forall_app. split; [done|]. constructor; [|done]. by exists ch', sh.
  - destruct Hr' as (_ & -> & He' & _). split_and!; cbn; [done|done| | |].
    + constructor; [|done]. exists sh. cbn. split; [apply handle_Some in Hh' as [_ Hsh']; by rewrite Hs in Hsh'|]. split; [done|].
      unfold view_end. cbn. rewrite Hlen in He'. by apply (view_in_range _ (rr_requested_size rr)).
    + rewrite owners_middle in Hnd. unfold owners in *. cbn. by rewrite <- Permutation_middle.
    + by apply NoDup_middle_channels in Hndc.
Qed.

Lemma step_inv s s' : step s s' -> inv s -> inv s'.
Proof.
  intros Hstep Hinv. destruct Hstep as
    [d h rs vs Hd|c h h' c' rs vs H|c h h' rs vs H|c size h h' rr rs vs Hsz H|rr task h h' l1 l2 vs H
    |rr task h h' ch sh s e l1 l2 vs Hh H|rr h h' l1 l2 vs H|v h h' rs v1 v2 H
    |c d h h' r rs vs ch sh H Hh Hlen|c pos h h' r rs vs H|c ready h h' r rs vs ch Hc Hl H];
    pose proof Hinv as (Hw & Hr & Hv & Hnd & Hndc); cbn in Hw, Hr, Hv, Hnd, Hndc.
  - destruct (new_ok _ _ Hw Hd). by eapply inv_evolves.
  - destruct (clone_ok _ _ _ _ Hw H). by eapply inv_evolves.
  - destruct (close_ok _ _ _ Hw H). by eapply inv_evolves.
  - by eapply inv_read.
  - assert (waiting h rr) as (ch & sh & Hh & _) by (rewrite Forall_forall in Hr; apply Hr; set_solver).
    exact (inv_poll _ _ _ _ _ _ _ _ _ _ Hh H Hinv).
  - exact (inv_poll _ _ _ _ _ _ _ _ _ _ Hh H Hinv).
  - destruct (drop_request_ok _ _ _ Hw H) as [Hw' He].
    destruct (others_waiting _ _ _ _ rr l1 l2 vs He (or_intror eq_refl) (or_intror eq_refl) Hinv) as [Ho Hvo].
    split_and!; cbn; [done|done|done|by apply NoDup_middle_owners in Hnd|by apply NoDup_middle_channels in Hndc].
  - destruct (drop_guard_ok None _ _ _ _ Hw H) as [Hw' He].
    rewrite owners_middle_view in Hnd. apply NoDup_cons in Hnd as [Hg Hnd].
    rewrite Forall_forall in Hr; rewrite Forall_forall in Hv. split_and!; cbn; [done| | |done|done]; rewrite Forall_forall; intros x Hx.
    + eapply evolves_waiting; [done|by apply Hr|done|]. intros [= Heq]. apply Hg. rewrite Heq. unfold owners.
      apply elem_of_app. left. by apply list_elem_of_fmap_2.
    + eapply evolves_viewing; [done|apply Hv; set_solver|]. intros [= Heq]. apply Hg. rewrite Heq. unfold owners.
      apply elem_of_app. right. by apply list_elem_of_fmap_2.
  - destruct (append_ok _ _ _ _ _ _ _ Hw H Hh Hlen). by eapply inv_evolves.
  - destruct (start_seek_ok _ _ _ _ _ Hw H). by eapply inv_evolves.
  - destruct (poll_complete_ok _ _ _ _ _ _ Hw Hc Hl H). by eapply inv_evolves.
Qed.

Lemma reachable_inv s : reachable s -> inv s.
Proof.
  intros H. unfold reachable in H. apply rtc_ind_r with (P := inv) (z := s) in H; [done| |].
  - split_and!; cbn; [|constructor..]. split; cbn; intros ? ? Hx; by rewrite lookup_empty in Hx.
  - intros y z _ Hstep Hy. by eapply step_inv.
Qed.

(** ** What is true of every step *)
Lemma other_channel rr rr0 l1 l2 : NoDup (rr_channel <$> (l1 ++ rr :: l2)) -> rr0 ∈ l1 ++ l2 ->
  rr_channel rr <> rr_channel rr0.
Proof.
  rewrite channels_middle. intros [Hc _]%NoDup_cons Hin Heq. apply Hc. rewrite Heq. by apply list_elem_of_fmap_2.
Qed.

Lemma step_evolves s s' : step s s' -> inv s -> exists tc rg, evolves tc rg (sy_heap s) (sy_heap s') /\
  forall rr, rr ∈ sy_requests s -> rr ∈ sy_requests s' ->
    tc <> Some (rr_channel rr) \/ exists task, read_poll rr task (sy_heap s) = Some (sy_heap s', Pending).
Proof.
  intros Hstep Hinv. destruct Hstep as
    [d h rs vs Hd|c h h' c' rs vs H|c h h' rs vs H|c size h h' rr rs vs Hsz H|rr task h h' l1 l2 vs H
    |rr task h h' ch sh s e l1 l2 vs Hh H|rr h h' l1 l2 vs H|v h h' rs v1 v2 H
    |c d h h' r rs vs ch sh H Hh Hlen|c pos h h' r rs vs H|c ready h h' r rs vs ch Hc Hl H];
    pose proof Hinv as (Hw & Hr & Hv & Hnd & Hndc); cbn in Hw, Hr, Hv, Hnd, Hndc; cbn.
  - destruct (new_ok _ _ Hw Hd). exists None, None. split; [done|by left].
  - destruct (clone_ok _ _ _ _ Hw H). exists None, None. split; [done|by left].
  - destruct (close_ok _ _ _ Hw H). exists None, None. split; [done|by left].
  - apply read_start_ok in H as (_ & He & _); [|done]. exists None, None. split; [done|by left].
  - assert (waiting h rr) as (ch & sh & Hh & _ & _ & Hlen & _) by (rewrite Forall_forall in Hr; apply Hr; set_solver).
    destruct (read_poll_ok _ _ _ _ _ _ _ Hw Hh Hlen H) as (_ & He & _).
    exists (Some (rr_channel rr)), None. split; [done|]. intros rr0 Hin _.
    assert (rr0 = rr \/ rr0 ∈ l1 ++ l2) as [->|Hin'] by set_solver; [eauto|].
    left. intros [= Heq]. by apply (other_channel rr rr0 l1 l2).
  - assert (waiting h rr) as (ch0 & sh0 & Hh0 & _ & _ & Hlen & _) by (rewrite Forall_forall in Hr; apply Hr; set_solver).
    destruct (read_poll_ok _ _ _ _ _ _ _ Hw Hh0 Hlen H) as (_ & He & _).
    exists (Some (rr_channel rr)), None. split; [done|]. intros rr0 _ Hin.
    left. intros [= Heq]. by apply (other_channel rr rr0 l1 l2).
  - destruct (drop_request_ok _ _ _ Hw H) as [_ He].
    eexists _, _. split; [exact He|]. intros rr0 _ Hin. left. intros [= Heq]. by apply (other_channel rr rr0 l1 l2).
  - destruct (drop_guard_ok None _ _ _ _ Hw H) as [_ He]. eexists _, _. split; [exact He|by left].
  - destruct (append_ok _ _ _ _ _ _ _ Hw H Hh Hlen). exists None, None. split; [done|by left].
  - destruct (start_seek_ok _ _ _ _ _ Hw H). exists None, None. split; [done|by left].
  - destruct (poll_complete_ok _ _ _ _ _ _ Hw Hc Hl H). exists None, None. split; [done|by left].
Qed.

Lemma inv_viewing s v : inv s -> v ∈ sy_views s -> viewing (sy_heap s) v.
Proof. intros (_ & _ & Hv & _) Hin. rewrite Forall_forall in Hv. auto. Qed.
Lemma inv_waiting s rr : inv s -> rr ∈ sy_requests s -> waiting (sy_heap s) rr.
Proof. intros (_ & Hr & _) Hin. rewrite Forall_forall in Hr. auto. Qed.

(** ** Views *)

(** The steps while something is held. *)
Definition steps_holding (held : Sys -> Prop) : relation Sys := rtc (fun a b => step a b /\ held b).

Lemma view_data_step s s' v sh : step s s' -> inv s -> v ∈ sy_views s ->
  hp_shared (sy_heap s) !! vw_shared v = Some sh ->
  exists sh', hp_shared (sy_heap s') !! vw_shared v = Some sh' /\ sh_data sh' = sh_data sh.
Proof.
  intros Hstep Hinv Hv Hsh. destruct (step_evolves _ _ Hstep Hinv) as (tc & rg & [He _] & _).
  destruct (inv_viewing _ _ Hinv Hv) as (sh0 & Hsh0 & Hg & _). rewrite Hsh in Hsh0. injection Hsh0 as <-.
  destruct (He _ _ Hsh) as (sh' & Hsh' & _ & [Hempty|Hd]); [set_solver|eauto].
Qed.

(** C16: what a view shows never changes and is always within the data.  In every
    reachable state, and however the system goes on while the view is held, the
    elements it shows are the same slice of the same data. *)
Theorem view_stable s s' v : reachable s -> v ∈ sy_views s ->
  steps_holding (fun b => v ∈ sy_views b) s s' ->
  exists sh sh' r, hp_shared (sy_heap s) !! vw_shared v = Some sh /\
    hp_shared (sy_heap s') !! vw_shared v = Some sh' /\ sh_data sh' = sh_data sh /\
    as_typed_data v (sh_data sh') = Ok r /\
    ref_elems r = take (N.to_nat (view_end v (sh_data sh) - vw_start v)) (drop (N.to_nat (vw_start v)) (elems (sh_data sh))).
Proof.
  intros Hreach%reachable_inv Hv Hsteps.
  destruct (inv_viewing _ _ Hreach Hv) as (sh & Hsh & Hg & Hse & Hel).
  destruct (as_typed_data_elems v (sh_data sh) Hse Hel) as (r & Hr & Hrel).
  assert (exists sh', hp_shared (sy_heap s') !! vw_shared v = Some sh' /\ sh_data sh' = sh_data sh) as (sh' & Hsh' & Hd).
  { clear Hg Hse Hel Hr Hrel r. revert sh Hsh Hreach Hv.
    induction Hsteps as [s|s s1 s' [Hstep Hheld] _ IH]; intros sh Hsh Hinv Hv; [eauto|].
    destruct (view_data_step _ _ _ _ Hstep Hinv Hv Hsh) as (sh1 & Hsh1 & Hd1).
    destruct (IH sh1 Hsh1 (step_inv _ _ Hstep Hinv) Hheld) as (sh' & Hsh' & Hd). exists sh'. split; [done|congruence]. }
  exists sh, sh', r. rewrite Hd. done.
Qed.

(** ** Reads that wait *)

(** Its handle is at the end of the data [d]. *)
Definition at_end (h : Heap) (rr : ChannelDataReadRequest) (l : N) (d : TypedChannelData) : Prop :=
  exists ch sh, handle (rr_channel rr) h = Some (ch, sh) /\ cn_shared ch = l /\ cn_pos ch = rr_data_len rr /\
    sh_data sh = d.

Lemma poll_at_end s rr task h r : inv s -> rr ∈ sy_requests s -> (0 < rr_requested_size rr)%N ->
  read_poll rr task (sy_heap s) = Some (h, r) ->
  exists ch sh ch', handle (rr_channel rr) (sy_heap s) = Some (ch, sh) /\ handle (rr_channel rr) h = Some (ch', sh) /\
    cn_shared ch' = cn_shared ch /\
    (r = Pending -> cn_pos ch' = rr_data_len rr /\ sh_closed sh = false) /\
    (cn_pos ch = rr_data_len rr -> r = if sh_closed sh then Ready (rr_data_len rr, None) else Pending).
Proof.
  intros Hinv Hin Hsz Hpoll. destruct (inv_waiting _ _ Hinv Hin) as (ch & sh & Hh & _ & _ & Hlen & Hhalf').
  pose proof Hinv as (Hw & _). destruct (handle_pos _ _ _ _ Hw Hh) as [Hp Hhalf].
  destruct (read_poll_ok _ _ _ _ _ _ _ Hw Hh Hlen Hpoll) as (_ & _ & ch' & Hh' & Hs & Hpos & Hr).
  exists ch, sh, ch'. split_and!; [done..| |].
  - intros ->. destruct Hr as (_ & Hcl & Hinc). split; [|done]. rewrite Hpos.
    rewrite Hlen in *. apply incomplete_at_end; unfold half, u64_modulus in *; try lia. done.
  - intros Hend. rewrite Hend in Hr. rewrite Hlen in *.
    assert (complete (data_len (sh_data sh)) (rr_requested_size rr) (data_len (sh_data sh)) = false) as Hc.
    { rewrite complete_small by (done || lia). apply N.leb_gt. lia. }
    rewrite Hc in Hr. destruct r as [|[st e]].
    + destruct Hr as (_ & -> & _). done.
    + destruct Hr as (_ & -> & -> & Hcl). by rewrite Hcl.
Qed.

Lemma at_end_step s s' rr l d : step s s' -> inv s -> rr ∈ sy_requests s -> rr ∈ sy_requests s' ->
  (0 < rr_requested_size rr)%N -> at_end (sy_heap s) rr l d -> at_end (sy_heap s') rr l d.
Proof.
  intros Hstep Hinv Hin Hin' Hsz (ch & sh & Hh & Hl & Hp & Hd).
  destruct (step_evolves _ _ Hstep Hinv) as (tc & rg & [He Hc] & Hrr).
  destruct (Hrr rr Hin Hin') as [Htc|[task Hpoll]].
  - destruct (inv_waiting _ _ Hinv Hin) as (ch0 & sh0 & Hh0 & Hlk & Hg & _). rewrite Hh in Hh0. injection Hh0 as <- <-.
    apply handle_Some in Hh as [Hch Hsh].
    destruct (Hc _ _ Hch) as (ch' & Hch' & Hs & [?|Hkeep]); [done|]. destruct (Hkeep Hlk) as [_ Hp'].
    destruct (He _ _ Hsh) as (sh' & Hsh' & _ & [Hempty|Hd']); [set_solver|].
    exists ch', sh'. split_and!; [apply handle_Some; split; [done|by rewrite Hs]|congruence..].
  - destruct (poll_at_end _ _ _ _ _ Hinv Hin Hsz Hpoll) as (ch0 & sh0 & ch' & Hh0 & Hh' & Hs & Hpend & _).
    rewrite Hh in Hh0. injection Hh0 as <- <-. destruct (Hpend eq_refl) as [Hp' _].
    exists ch', sh. split_and!; [done|congruence|done|done].
Qed.

Lemma at_end_steps s s' rr l d : steps_holding (fun b => rr ∈ sy_requests b) s s' ->
  inv s -> rr ∈ sy_requests s -> (0 < rr_requested_size rr)%N -> at_end (sy_heap s) rr l d ->
  inv s' /\ rr ∈ sy_requests s' /\ at_end (sy_heap s') rr l d.
Proof.
  intros Hsteps. induction Hsteps as [s|s s1 s' [Hstep Hheld] _ IH]; intros Hinv Hin Hsz He; [done|].
  apply IH; [by eapply step_inv|done|done|]. by eapply at_end_step.
Qed.

(** C17: a read that has to wait waits for ever, or comes back empty.  From the
    moment a poll of it answered [Pending], however the system goes on while it
    waits: nobody can append to the channel, so its data stays as it was; polling
    it again stays [Pending] until the channel is closed, and then yields an empty
    view at the end of the data, although the elements from the position it had
    before were there. *)
Theorem waiting_read_starves s rr task h1 l1 l2 s2 : reachable s -> sy_requests s = l1 ++ rr :: l2 ->
  read_poll rr task (sy_heap s) = Some (h1, Pending) ->
  steps_holding (fun b => rr ∈ sy_requests b) (MkSys h1 (sy_requests s) (sy_views s)) s2 ->
  exists ch sh ch2 sh2, handle (rr_channel rr) (sy_heap s) = Some (ch, sh) /\
    handle (rr_channel rr) (sy_heap s2) = Some (ch2, sh2) /\ sh_data sh2 = sh_data sh /\
    (forall c d ch', handle c (sy_heap s2) = Some (ch', sh2) -> append_write c d (sy_heap s2) = None) /\
    forall task' h3 r, read_poll rr task' (sy_heap s2) = Some (h3, r) ->
      r = if sh_closed sh2 then Ready (data_len (sh_data sh), None) else Pending.
Proof.
  intros Hreach%reachable_inv Hreq Hpoll Hsteps.
  assert (rr ∈ sy_requests s) as Hin by (rewrite Hreq; set_solver).
  destruct (inv_waiting _ _ Hreach Hin) as (ch & sh & Hh & _ & Hg & Hlen & Hhalf).
  pose proof Hreach as (Hw & _). destruct (handle_pos _ _ _ _ Hw Hh) as [Hp Hd].
  destruct (read_poll_ok _ _ _ _ _ _ _ Hw Hh Hlen Hpoll) as (_ & _ & ch1 & Hh1 & Hs1 & Hpos1 & Hl1 & Hcl & Hinc).
  rewrite Hlen in Hinc. apply incomplete_at_end in Hinc as [Hend Hsz];
    [|done|unfold half, u64_modulus in *; lia|unfold half, u64_modulus in *; lia].
  assert (inv (MkSys h1 (sy_requests s) (sy_views s))) as Hinv1.
  { destruct s as [h rs vs]. cbn in *. subst rs. exact (inv_poll _ _ _ _ _ _ _ _ _ _ Hh Hpoll Hreach). }
  destruct (at_end_steps _ _ rr (cn_shared ch) (sh_data sh) Hsteps Hinv1 Hin Hsz) as (Hinv2 & Hin2 & ch2 & sh2 & Hh2 & Hl2 & Hp2 & Hd2).
  { exists ch1, sh. cbn. split_and!; [done|done| |done]. rewrite Hpos1, Hlen. done. }
  exists ch, sh, ch2, sh2. split_and!; [done..| |].
  - intros c d ch' Hc. unfold append_write. rewrite Hc. cbn. rewrite bool_decide_false; [done|].
    destruct (inv_waiting _ _ Hinv2 Hin2) as (ch0 & sh0 & Hh0 & _ & Hg2 & _). rewrite Hh2 in Hh0. injection Hh0 as <- <-.
    set_solver.
  - intros task' h3 r Hr.
    destruct (poll_at_end _ _ _ _ _ Hinv2 Hin2 Hsz Hr) as (ch0 & sh0 & ch' & Hh0 & _ & _ & _ & Hfin).
    rewrite Hh2 in Hh0. injection Hh0 as <- <-. rewrite (Hfin Hp2), Hlen. done.
Qed.

(** ** Merging *)
Section merging.
Context {HO : HashOrder}.

(** [c'] is a clone of the handle [c]. *)
Definition clone_of (h h' : Heap) (c c' : N) : Prop :=
  exists ch ch', hp_channels h !! c = Some ch /\ hp_channels h' !! c' = Some ch' /\
    cn_shared ch' = cn_shared ch /\ cn_pos ch' = cn_pos ch.
Definition keeps_channels (h h' : Heap) : Prop :=
  (forall c ch, hp_channels h !! c = Some ch -> hp_channels h' !! c = Some ch) /\
  (forall l sh, hp_shared h !! l = Some sh -> exists sh', hp_shared h' !! l = Some sh' /\
     sh_data sh' = sh_data sh /\ sh_closed sh' = sh_closed sh).

#[local] Instance keeps_channels_preorder : PreOrder keeps_channels.
Proof.
  split.
  - intros h. split; [done|]. intros l sh Hl. eauto.
  - intros h1 h2 h3 [Hc1 Hs1] [Hc2 Hs2]. split; [auto|]. intros l sh Hl.
    destruct (Hs1 _ _ Hl) as (sh' & Hl' & Hd & Hcl). destruct (Hs2 _ _ Hl') as (sh'' & Hl'' & Hd' & Hcl').
    exists sh''. split_and!; [done|congruence|congruence].
Qed.

Lemma clone_keeps c h h' c' : wf h -> channel_clone c h = Some (h', c') ->
  wf h' /\ keeps_channels h h' /\ clone_of h h' c c'.
Proof.
  intros Hw H. destruct (clone_ok _ _ _ _ Hw H) as [Hw' _]. split; [done|].
  unfold channel_clone in H. destruct (handle c h) as [[ch sh]|] eqn:Hh; [|done]. cbn in H. injection H as <- <-.
  apply handle_Some in Hh as [Hc Hs].
  assert (forall c0 ch0, hp_channels h !! c0 = Some ch0 -> hp_next h <> c0) as Hfresh.
  { intros c0 ch0 Hc0 <-. destruct (wf_channels _ Hw _ _ Hc0). lia. }
  split; [split|]; cbn.
  - intros c0 ch0 Hc0. rewrite lookup_insert_ne by eauto. done.
  - intros l sh0 Hl. destruct (decide (cn_shared ch = l)) as [<-|Hne].
    + rewrite lookup_insert_eq. rewrite Hs in Hl. injection Hl as <-. eauto.
    + rewrite lookup_insert_ne by done. eauto.
  - exists ch. eexists. split; [done|]. cbn. rewrite lookup_insert_eq. done.
Qed.

Lemma clone_of_later h0 h h1 c c' : keeps_channels h h1 -> clone_of h0 h c c' -> clone_of h0 h1 c c'.
Proof. intros [Hk _] (ch & ch' & ? & ? & ?). exists ch, ch'. eauto. Qed.
Lemma clone_of_earlier h0 h h1 c c' : keeps_channels h0 h -> is_Some (hp_channels h0 !! c) ->
  clone_of h h1 c c' -> clone_of h0 h1 c c'.
Proof.
  intros [Hk _] [ch0 Hc0] (ch & ch' & Hc & ? & ?). pose proof (Hk _ _ Hc0) as Hc1. rewrite Hc in Hc1.
  injection Hc1 as <-. exists ch, ch'. eauto.
Qed.

(** What collecting clones gives. *)
Definition clone_entry (from : FromChannelSet) (h : Heap) : option (Heap * option (string * N)) :=
  '(h', e) ← from_to_owned from h; Some (h', Some e).

Lemma clone_entry_eq e h : clone_entry e h =
  match channel_clone (from_channel e) h with Some (h', c) => Some (h', Some (from_name e, c)) | None => None end.
Proof. unfold clone_entry, from_to_owned. by destruct (channel_clone (from_channel e) h) as [[h' c]|]. Qed.

Lemma filter_collect_app {A} (f : A -> Heap -> option (Heap * option (string * N))) l1 l2 m h :
  filter_collect f (l1 ++ l2) m h = '(h1, m1) ← filter_collect f l1 m h; filter_collect f l2 m1 h1.
Proof.
  revert m h. induction l1 as [|a l1 IH]; intros m h; [done|]. cbn.
  destruct (f a h) as [[h' r]|]; [|done]. cbn. apply IH.
Qed.

Lemma merge_entries (l : list FromChannelSet) m h h' m' : wf h ->
  (forall e, e ∈ l -> is_Some (hp_channels h !! from_channel e)) ->
  filter_collect clone_entry l m h = Some (h', m') ->
  wf h' /\ keeps_channels h h' /\
  forall name, match m' !! name with
    | Some c' =>
        (m !! name = Some c' /\ forall e, e ∈ l -> from_name e <> name) \/
        exists e, e ∈ l /\ from_name e = name /\ clone_of h h' (from_channel e) c'
    | None => m !! name = None /\ forall e, e ∈ l -> from_name e <> name
    end.
Proof.
  revert m h. induction l as [|e l IH]; intros m h Hw Hall H.
  - injection H as <- <-. split_and!; [done|reflexivity|]. intros name.
    destruct (m !! name); [left|]; (split; [done|]; intros e He; by apply not_elem_of_nil in He).
  - cbn [filter_collect] in H. rewrite clone_entry_eq in H.
    destruct (channel_clone (from_channel e) h) as [[h1 c1]|] eqn:Hcl; [|done].
    cbn in H. destruct (clone_keeps _ _ _ _ Hw Hcl) as (Hw1 & Hk1 & Hco).
    apply IH in H as (Hw' & Hk & Hm); [|done|].
    2: { intros e' He'. destruct (Hall e') as [ch Hch]; [set_solver|]. exists ch. by apply Hk1. }
    split_and!; [done|by transitivity h1|]. intros name. specialize (Hm name).
    destruct (m' !! name) as [c'|].
    + destruct Hm as [[Hm Hno]|(e' & He' & Hn & Hc)].
      * apply lookup_insert_Some in Hm as [[Hn <-]|[Hn Hm]].
        -- right. exists e. split_and!; [set_solver|done|]. by eapply clone_of_later.
        -- left. split; [done|]. intros e' [->|He']%elem_of_cons; [done|auto].
      * right. exists e'. split_and!; [set_solver|done|]. eapply clone_of_earlier; [done| |done].
        apply Hall. set_solver.
    + destruct Hm as [Hm Hno]. apply lookup_insert_None in Hm as [Hm Hn]. split; [done|].
      intros e' [->|He']%elem_of_cons; [done|auto].
Qed.

Lemma elem_of_entries (mk : string -> N -> FromChannelSet) (m : gmap string N) e :
  e ∈ ((fun '(name, c) => mk name c) <$> hash_iter m) <-> exists name c, e = mk name c /\ m !! name = Some c.
Proof.
  rewrite list_elem_of_fmap. split.
  - intros ([n c] & -> & Hin). rewrite elem_of_hash_iter in Hin. eauto.
  - intros (n & c & -> & Hin). exists (n, c). by rewrite elem_of_hash_iter.
Qed.

(** Merging two sets of channels gives one handle per name of either, a clone
    of the handle of the right set where both have the name: it shares the data,
    so that whatever is appended to either set later is read from the merged one,
    and starts at the position the handle had.  The handles and the data of both
    sets are as before. *)
Theorem merge_shares {T U} (self : ChannelSet T) (other : ChannelSet U) h h' (m : ChannelSet T) : wf h ->
  (forall name c, cs_channels self !! name = Some c \/ cs_channels other !! name = Some c -> is_Some (hp_channels h !! c)) ->
  merge self other h = Some (h', m) ->
  wf h' /\ keeps_channels h h' /\
  forall name,
    match cs_channels m !! name with
    | Some c' => exists c, clone_of h h' c c' /\
        match cs_channels other !! name with
        | Some r => c = r
        | None => cs_channels self !! name = Some c
        end
    | None => cs_channels other !! name = None /\ cs_channels self !! name = None
    end.
Proof.
  intros Hw Hall H. unfold merge, merge_with in H. fold clone_entry in H. rewrite filter_collect_app in H.
  destruct (filter_collect clone_entry _ ∅ h) as [[h1 m1]|] eqn:Hl; [|done]. cbn [mbind option_bind] in H.
  destruct (filter_collect clone_entry _ m1 h1) as [[h2 m2]|] eqn:Hr; [|done]. cbn in H. injection H as <- <-.
  apply merge_entries in Hl as (Hw1 & Hk1 & Hm1); [|done|].
  2: { intros e (n & c & -> & Hin)%elem_of_entries. cbn. eauto. }
  apply merge_entries in Hr as (Hw2 & Hk2 & Hm2); [|done|].
  2: { intros e (n & c & -> & Hin)%elem_of_entries. cbn. destruct (Hall n c) as [ch Hch]; [eauto|]. exists ch. by apply Hk1. }
  assert (keeps_channels h h2) as Hk by by transitivity h1.
  split_and!; [done..|]. intros name. specialize (Hm1 name). specialize (Hm2 name). cbn.
  assert (forall (m : gmap string N) mk c, (forall e, e ∈ ((fun '(name, c) => mk name c) <$> hash_iter m) -> from_name e <> name) ->
            (forall c, from_name (mk name c) = name) -> m !! name = Some c -> False) as Habsurd.
  { intros m mk c Hno Hmk Hc. apply (Hno (mk name c)); [apply elem_of_entries; eauto|done]. }
  destruct (m2 !! name) as [c'|].
  - destruct Hm2 as [[Hc' Hno]|(e & (n & c & -> & Hin)%elem_of_entries & Hn & Hc)].
    + rewrite Hc' in Hm1. destruct Hm1 as [[Hm1 _]|(e & (n & c & -> & Hin)%elem_of_entries & Hn & Hc)]; [by rewrite lookup_empty in Hm1|].
      cbn in *. subst n. exists c. split; [exact (clone_of_later _ _ _ _ _ Hk2 Hc)|].
      destruct (cs_channels other !! name) as [r|] eqn:Ho; [|done]. exfalso. by eapply (Habsurd _ Right_).
    + cbn in *. subst n. exists c. rewrite Hin. split; [|done]. apply (clone_of_earlier h h1); [done|eauto|done].
  - destruct Hm2 as [Hm12 Hno]. rewrite Hm12 in Hm1. destruct Hm1 as [_ Hno1]. split.
    + destruct (cs_channels other !! name) as [r|] eqn:Ho; [|done]. exfalso. by eapply (Habsurd _ Right_).
    + destruct (cs_channels self !! name) as [r|] eqn:Ho; [|done]. exfalso. by eapply (Habsurd _ Left_).
Qed.
End merging.

(** ** Concrete instances of the properties *)
Module SystemExamples.
Import ChannelExamples.

(** A channel of three elements with a view of two of them; then somebody closes
    the channel. *)
Definition read2 := default (empty_heap, MkReadRequest 0 0 0 0) (read_start 0 2 three).
Definition polled2 := default (empty_heap, Pending) (read_poll read2.2 7 read2.1).
Definition view2 := MkView 0 1 0 (Some 2%N).
Definition viewed := MkSys polled2.1 [] [view2].
Definition closed_viewed := MkSys (default empty_heap (channel_close 0 polled2.1)) [] [view2].

Lemma three_reachable : reachable (MkSys three [] []).
Proof. apply rtc_once, (StepNew (Integers [1; 2; 3]%Z)). vm_compute. reflexivity. Qed.
Lemma viewed_reachable : reachable viewed.
Proof.
  apply (rtc_r _ (MkSys read2.1 [read2.2] [])).
  - apply (rtc_r _ (MkSys three [] [])); [apply three_reachable|].
    apply (StepRead 0 2); [vm_compute|]; reflexivity.
  - exact (StepReady read2.2 7 read2.1 polled2.1 (with_waker true None unread)
      (MkShared false (Integers [1; 2; 3]%Z) [0%N] {[1%N]}) 0 (Some 2%N) [] [] [] eq_refl eq_refl).
Qed.

Lemma view_stable_witness : exists sh r, hp_shared (sy_heap closed_viewed) !! 0%N = Some sh /\
  as_typed_data view2 (sh_data sh) = Ok r /\ ref_elems r = [EInteger 1; EInteger 2].
Proof.
  destruct (view_stable viewed closed_viewed view2) as (sh & sh' & r & Hsh & Hsh' & Hd & Hr & He).
  - exact viewed_reachable.
  - left.
  - apply rtc_once. split; [|left]. apply (StepClose 0). reflexivity.
  - exists sh', r. split; [exact Hsh'|]. split; [exact Hr|].
    rewrite He. vm_compute in Hsh. injection Hsh as <-. vm_compute. reflexivity.
Defined.

(** Asking for five elements of the three. *)
Definition read5 := default (empty_heap, MkReadRequest 0 0 0 0) (read_start 0 5 three).
Definition polled5 := default (empty_heap, Pending) (read_poll read5.2 7 read5.1).
Definition asked := MkSys read5.1 [read5.2] [].
Definition closed_asked := MkSys (default empty_heap (channel_close 0 polled5.1)) [read5.2] [].

Lemma waiting_read_starves_witness : exists h3,
  read_poll read5.2 8 (sy_heap closed_asked) = Some (h3, Ready (3%N, None)).
Proof.
  destruct (waiting_read_starves asked read5.2 7 polled5.1 [] [] closed_asked) as (ch & sh & ch2 & sh2 & Hh & Hh2 & _ & _ & H).
  - apply (rtc_r _ (MkSys three [] [])); [exact three_reachable|]. apply (StepRead 0 5); [vm_compute|]; reflexivity.
  - reflexivity.
  - reflexivity.
  - apply rtc_once. split; [|left]. apply (StepClose 0). reflexivity.
  - destruct (read_poll read5.2 8 (sy_heap closed_asked)) as [[h3 r]|] eqn:Hr; [|discriminate Hr].
    exists h3. rewrite (H 8%N h3 r Hr). vm_compute in Hh, Hh2.
    injection Hh as _ <-. injection Hh2 as _ <-. reflexivity.
Defined.

#[local] Existing Instance key_order.
Definition left_set : ChannelSet ChannelReader := MkChannelSet {[ "a" := 0%N ]}.
Definition right_set : ChannelSet ChannelReader := MkChannelSet ∅.
Lemma three_wf : wf three.
Proof. apply (reachable_inv _ three_reachable). Qed.
Lemma merge_shares_witness : exists h' m c', merge left_set right_set three = Some (h', m) /\
  cs_channels m !! "a" = Some c' /\ clone_of three h' 0 c'.
Proof.
  assert (exists h' m, merge left_set right_set three = Some (h', m)) as (h' & m & H) by (eexists _, _; vm_compute; reflexivity).
  destruct (merge_shares left_set right_set three h' m) as (_ & _ & Hm).
  - exact three_wf.
  - intros name c [Hc|Hc].
    + change (({[ "a" := 0%N ]} : gmap string N) !! name = Some c) in Hc.
      apply lookup_singleton_Some in Hc as [_ <-]. vm_compute. eexists. reflexivity.
    + change ((∅ : gmap string N) !! name = Some c) in Hc. rewrite lookup_empty in Hc. discriminate Hc.
  - exact H.
  - specialize (Hm "a"). destruct (cs_channels m !! "a") as [c'|] eqn:E.
    + destruct Hm as (c & Hc & Hs). exists h', m, c'. split; [exact H|]. split; [exact E|].
      assert (c = 0%N) as -> by (vm_compute in Hs; injection Hs as ->; reflexivity). exact Hc.
    + destruct Hm as [_ Hm]. discriminate Hm.
Defined.
End SystemExamples.
