(* ===== verification/RegistryApi.v ===== *)
(** * The registry as other components see it

    The trait [Registry] of the generated protocol code, as far as the execution
    service uses it, with what a listing of versions promises to its client
    (protocols/firm_protocols/registry/registry.proto: the name filter of
    [ListVersions] is exact).  The internal registry keeps that promise. *)
From S2P Require Import Prelude Interfaces Proto Regex Registry RegistryProps ProxyRegistry.

Class RegistryApi (R : Type) := {
  api_list : R -> Filters -> result Status (list Function_);
  api_list_versions : R -> Filters -> result Status (list Function_);
  api_get : R -> FunctionId -> result Status Function_
}.

Section instances.
Context {SV : SemVer} {UL : UuidLib} {DL : DigestLib} {RE : RegexEngine} {HO : HashOrder}.

#[export] Instance internal_api : RegistryApi RegistryService := {|
  api_list := rpc_list; api_list_versions := rpc_list_versions; api_get := Registry.get |}.
#[export] Instance proxy_api : RegistryApi ProxyRegistry := {|
  api_list := proxy_rpc_list; api_list_versions := proxy_rpc_list_versions; api_get := proxy_get |}.
End instances.

(** A registry that lists the versions of exactly the function asked for. *)
Class ExactVersions {R} `{RegistryApi R} (self : R) : Prop :=
  exact_versions : forall filters fs f, api_list_versions self filters = Ok fs -> f ∈ fs -> fn_name f = fl_name filters.

Section exact.
Context {SV : SemVer} {UL : UuidLib} {DL : DigestLib} {RE : RegexEngine} {HO : HashOrder}.

Lemma Forall2_elem_r {A B} (P : A -> B -> Prop) l k b : Forall2 P l k -> b ∈ k -> exists a, a ∈ l /\ P a b.
Proof.
  intros H Hb. apply list_elem_of_lookup in Hb as [i Hi].
  destruct (Forall2_lookup_r _ _ _ _ _ H Hi) as (a & Ha & Hp). exists a. split; [|done].
  by eapply list_elem_of_lookup_2.
Qed.

#[export] Instance internal_exact (self : RegistryService) (Hinv : registry_inv self) : ExactVersions self.
Proof.
  intros filters fs f Hl Hf. destruct (list_Ok_requirement _ _ _ _ Hl) as [req Hreq].
  destruct (list_images self filters false req Hinv Hreq) as (rs & Hrs & Himg).
  cbn in Hl. unfold rpc_list_versions in Hl. rewrite Hrs in Hl. injection Hl as ->.
  destruct (Forall2_elem_r _ _ _ _ Himg Hf) as (g & Hg%page_elem_of & Hgf).
  apply elem_of_listing in Hg as (_ & [Hn _] & _); [|done]. cbn in Hn. apply bool_decide_eq_true in Hn.
  rewrite <- Hn. by apply (get_function_name self).
Qed.
End exact.
