(* ===== verification/Executor.v ===== *)
(** * The execution service (services/avery/src/executor.rs, runtime.rs)

    [ExecutionService] looks a function up in its registry and queues it with
    validated arguments, runs a queued function once in the runtime its
    specification names, hands out the stream of output chunks, and lists the
    runtimes there are.

    The registry is anything with the interface of RegistryApi.v.  A [Runtime] is
    a record of its [execute], which may panic and may write output chunks; output
    channels live in [es_outputs].  What the operating system answers is the
    argument [ExecOs]; validation of streams takes the fuel Stream.v explains.
    Starting the thread pool and logging are not modelled. *)
From S2P Require Import Prelude Interfaces Proto Stream Registry RegistryApi.

(** ** Messages (execution.proto) *)
Record FunctionOutputChunk := MkChunk { oc_channel : string; oc_output : string }.
Record ExecutionParameters := MkExecutionParameters {
  ep_name : string; ep_version_requirement : string; ep_arguments : option ValueStream }.
Inductive ProtoResult := ResultOk (s : ValueStream) | ResultError (msg : string).
Record ExecutionResult := MkExecutionResult { er_execution_id : option string; er_result : option ProtoResult }.
Record ProtoRuntime := MkProtoRuntime { pr_name : string; pr_source : string }.

(** ** Errors *)
Inductive RuntimeError :=
| UnsupportedTransport (s : string)
| RuntimeDependencyCycle (dependencies : list (string * string))
| InvalidCodeUrl (e : string)
| AttachmentDownloadError (url e : string)
| AttachmentReadError (url e : string)
| RuntimeNotFound (name : string)
| MissingRuntime (name : string)
| MissingChecksums (name : string)
| FunctionMissingId
| EncodeError (e : string)
| MissingCode (name : string)
| ChecksumMismatch (attachment_name wanted got : string)
| FailedToDecodeChecksum (e : string)
| FailedToQueueOutputChunk (e : string)
| RuntimeError_ (name message : string).

Definition display_dependency_cycle (dependencies : list (string * string)) : string :=
  foldr (fun '(fn_name, ee) s => fn_name +:+ " (" +:+ ee +:+ ") ➡️ " +:+ s) "💥" dependencies.
Definition display_runtime_error (e : RuntimeError) : string :=
  match e with
  | UnsupportedTransport s => "Unsupported code transport mechanism: " +:+ quoted s
  | RuntimeDependencyCycle d => "Cyclic depencency detected for runtimes: " +:+ quoted (display_dependency_cycle d)
  | InvalidCodeUrl e => "Invalid code url: " +:+ e
  | AttachmentDownloadError u e => "Failed to donwload attachment " +:+ quoted u +:+ ": " +:+ e
  | AttachmentReadError u e => "Failed to read code from " +:+ u +:+ ": " +:+ e
  | RuntimeNotFound n => "Failed to find runtime " +:+ quoted n
  | MissingRuntime n => "Function " +:+ quoted n +:+ " did not have a runtime specified."
  | MissingChecksums n => "Attachment " +:+ quoted n +:+ " is missing checksums."
  | FunctionMissingId => "Function is missing id."
  | EncodeError e => "Failed to encode proto data: " +:+ e
  | MissingCode n => "Code is missing even though it is required for the " +:+ quoted n +:+ " runtime."
  | ChecksumMismatch a w g => "Checksum mismatch for attachment " +:+ quoted a +:+ ". Wanted: " +:+ w +:+ ", got: " +:+ g
  | FailedToDecodeChecksum e => "Failed to decode checksum to bytes: " +:+ e
  | FailedToQueueOutputChunk e => "Failed to queue output chunk: " +:+ e
  | RuntimeError_ n m => "Runtime " +:+ n +:+ " error: " +:+ m
  end.

Definition display_validation_error (e : StreamValidationError) : string :=
  match e with
  | MismatchedChannelType name expected got =>
      "Channel " +:+ quoted name +:+ " has unexpected type. Expected " +:+ quoted expected +:+ ", got " +:+ quoted got
  | UnexpectedChannel name => "Channel " +:+ quoted name +:+ " was not expected by spec"
  | RequiredChannelMissing name => "Failed to find required channel " +:+ name
  end.
Definition display_validation_errors (e : list StreamValidationError) : string :=
  str_join ", " (display_validation_error <$> e).

(** How a handler ends other than well: with a status, by a panic, or not at
    all. *)
Inductive failure := Fails (s : Status) | Panics | Diverges.

(** ** Output channels

    [futures::channel::mpsc]: bounded, its capacity the buffer plus one slot per
    sender; sending to a full or closed channel fails. *)
Record OutputChannel := MkOutputChannel { mp_chunks : list FunctionOutputChunk; mp_capacity : nat; mp_open : bool }.
Abbreviation Outputs := (gmap N OutputChannel).
Definition channel_with (buffer : nat) : OutputChannel := MkOutputChannel [] (buffer + 1) true.
Definition try_send (c : OutputChannel) (chunk : FunctionOutputChunk) : OutputChannel :=
  if mp_open c && Nat.ltb (length (mp_chunks c)) (mp_capacity c)
  then MkOutputChannel (mp_chunks c ++ [chunk]) (mp_capacity c) (mp_open c) else c.

(** [FunctionOutputSink]: the location of the channel, if any. *)
Definition FunctionOutputSink := option N.
Definition sink_null : FunctionOutputSink := None.
Definition sink_close (self : FunctionOutputSink) (outputs : Outputs) : Outputs :=
  match self with
  | Some l => alter (fun c => MkOutputChannel (mp_chunks c) (mp_capacity c) false) l outputs
  | None => outputs
  end.
Definition sink_send (self : FunctionOutputSink) (channel content : string) (outputs : Outputs) : Outputs :=
  match self with
  | Some l => alter (fun c => try_send c (MkChunk channel content)) l outputs
  | None => outputs
  end.

(** ** Runtimes *)
Record FunctionDirectory := MkFunctionDirectory {
  attachments_path : string; cache_path : string; execution_path : string }.
Record ExecOs := MkExecOs {
  eo_create_dir_all : string -> option string;
  (** building the single-threaded runtime of the execution *)
  eo_async_runtime : option string
}.
Definition create_dir_all (os : ExecOs) (path : string) : result string unit :=
  match eo_create_dir_all os path with Some e => Err e | None => Ok tt end.
Definition function_directory_new (os : ExecOs) (root function_name function_version checksum execution_id : string)
  : result string FunctionDirectory :=
  let root_path := path_join root (function_name +:+ "-" +:+ function_version +:+ "-" +:+ checksum) in
  let attachments_path := path_join root_path "attachments" in
  let cache_path := path_join root_path "cache" in
  let execution_path := path_join root_path execution_id in
  _ ← create_dir_all os attachments_path;
  _ ← create_dir_all os cache_path;
  _ ← create_dir_all os execution_path;
  Ok (MkFunctionDirectory attachments_path cache_path execution_path).

Record RuntimeParameters := MkRuntimeParameters {
  rp_function_dir : FunctionDirectory;
  rp_function_name : string;
  rp_entrypoint : option string;
  rp_code : option Attachment;
  rp_arguments : gmap string string;
  rp_output_sink : FunctionOutputSink
}.
(** What [execute] returns: an error of the runtime, or the function's error or
    result. *)
Abbreviation Executed := (result RuntimeError (result string ValueStream)).
Record Runtime := MkRuntime {
  rt_execute : RuntimeParameters -> ValueStream -> list Attachment -> Outputs -> Outputs * result panic Executed }.
Record RuntimeSource := MkRuntimeSource {
  src_get : string -> option Runtime; src_list : list string; src_name : string }.
Definition InternalRuntimeSource (wasi : Runtime) : RuntimeSource :=
  MkRuntimeSource (fun name => if bool_decide (name = "wasi") then Some wasi else None) ["wasi"] "internal".

(** ** State *)
Record QueuedFunction := MkQueuedFunction {
  qf_function : Function_;
  qf_arguments : ValueStream;
  qf_output_receiver : option N;
  qf_output_sender : N
}.

Section execution.
Context {UL : UuidLib} {HO : HashOrder} {R : Type} {RA : RegistryApi R}.

Record ExecutionService := MkExecution {
  es_registry : R;
  es_runtime_sources : list RuntimeSource;
  es_execution_queue : lock (gmap uuid QueuedFunction);
  es_root_dir : string;
  es_outputs : Outputs;
  es_next_output : N
}.
Definition set_queue (q : gmap uuid QueuedFunction) (self : ExecutionService) : ExecutionService :=
  MkExecution (es_registry self) (es_runtime_sources self) (lock_set (es_execution_queue self) q)
    (es_root_dir self) (es_outputs self) (es_next_output self).
Definition set_outputs (o : Outputs) (self : ExecutionService) : ExecutionService :=
  MkExecution (es_registry self) (es_runtime_sources self) (es_execution_queue self)
    (es_root_dir self) o (es_next_output self).
Definition new_output (buffer : nat) (self : ExecutionService) : ExecutionService :=
  MkExecution (es_registry self) (es_runtime_sources self) (es_execution_queue self)
    (es_root_dir self) (<[es_next_output self := channel_with buffer]> (es_outputs self)) (es_next_output self + 1).

Definition execution_new (registry : R) (runtime_sources : list RuntimeSource) (root_dir : string) : ExecutionService :=
  MkExecution registry runtime_sources (lock_new ∅) root_dir ∅ 0.

Definition lookup_runtime (self : ExecutionService) (runtime_name : string) : result RuntimeError Runtime :=
  ok_or (RuntimeNotFound runtime_name)
    (head (omap (fun e => src_get e runtime_name) (es_runtime_sources self))).

Definition exec_handler := sem ExecutionService failure.
Definition lift_status {A} (r : result Status A) : exec_handler A := sem_lift (map_err Fails r).
Definition execution_queue (self : ExecutionService) : result failure (gmap uuid QueuedFunction) :=
  map_err Fails (lock_get (fun _ => MkStatus CInternal "Failed to lock execution queue.") (es_execution_queue self)).

(** ** Queueing *)
Definition version_filters (payload : ExecutionParameters) : Filters :=
  MkFilters (ep_name payload) (Some (ep_version_requirement payload)) ∅
    (Some (MkOrdering (OrderingKey_to_i32 NameVersion) false 0 1)) EmptyString.
Definition find_function (registry : R) (payload : ExecutionParameters) : result Status Function_ :=
  functions ← api_list_versions registry (version_filters payload);
  ok_or (MkStatus CNotFound ("Could not find function " +:+ quoted (ep_name payload) +:+
           " with version requirement: " +:+ quoted (ep_version_requirement payload)))
    (head functions).

(** Running [validate], which may not return. *)
Definition checked (wrap : string -> Status) (v : option (result (list StreamValidationError) unit))
  : result failure unit :=
  match v with
  | None => Err Diverges
  | Some (Err e) => Err (Fails (wrap (display_validation_errors e)))
  | Some (Ok tt) => Ok tt
  end.

Definition queue_function (fuel : nat) (execution_id : uuid) (payload : ExecutionParameters) : exec_handler string :=
  function ← sem_ask (fun self => map_err Fails (find_function (es_registry self) payload));
  let args := default stream_new (ep_arguments payload) in
  _ ← sem_lift (checked (fun e => MkStatus CInvalidArgument ("Invalid function arguments: " +:+ e))
         (validate args (fn_required_inputs function) (Some (fn_optional_inputs function)) fuel));
  output ← sem_ask (fun self => Ok (es_next_output self));
  _ ← sem_modify (new_output 1024);
  queue ← sem_ask execution_queue;
  _ ← sem_modify (set_queue (<[execution_id := MkQueuedFunction function args (Some output) output]> queue));
  mret (uuid_to_string execution_id).

(** ** Running *)
Definition parse_execution_id (id : string) : result Status uuid :=
  map_err (fun e => MkStatus CInvalidArgument ("Failed to parse execution id as uuid: " +:+ e +:+ ".")) (uuid_parse id).
Definition no_such_execution (uuid : uuid) : Status :=
  MkStatus CNotFound ("Failed to find queued execution with id " +:+ quoted (uuid_to_string uuid)).

Definition function_checksum (f : Function_) : option string :=
  match fn_metadata f !! "_dev-checksum" with
  | Some cs => Some cs
  | None => code ← fn_code f; cs ← att_checksums code; Some (ck_sha256 cs)
  end.
(** [.map(|cs| &cs[..16]).unwrap_or("no-checksum")]. *)
Definition short_checksum (f : Function_) : result failure string :=
  match function_checksum f with
  | Some cs => map_err (fun _ => Panics) (str_slice_to 16 cs)
  | None => Ok "no-checksum"
  end.

(** The task given to the thread pool. *)
Definition execute (os : ExecOs) (runtime : Runtime) (runtime_spec : RuntimeSpec) (queued_function : QueuedFunction)
    (execution_dir : FunctionDirectory) (outputs : Outputs) : Outputs * result panic Executed :=
  match eo_async_runtime os with
  | Some e =>
      (outputs, Ok (Err (RuntimeError_ (rs_name runtime_spec)
        ("Failed to create async runtime for function execution: " +:+ e))))
  | None =>
      rt_execute runtime
        (MkRuntimeParameters execution_dir (fn_name (qf_function queued_function))
           (if str_is_empty (rs_entrypoint runtime_spec) then None else Some (rs_entrypoint runtime_spec))
           (fn_code (qf_function queued_function)) (rs_arguments runtime_spec)
           (Some (qf_output_sender queued_function)))
        (qf_arguments queued_function) (fn_attachments (qf_function queued_function)) outputs
  end.

(** What the caller is answered. *)
Definition execution_answer (fuel : nat) (id : string) (function : Function_) (executed : result panic Executed)
  : result failure ExecutionResult :=
  match executed with
  | Ok (Ok (Ok r)) =>
      _ ← checked (fun e => MkStatus CInvalidArgument
             ("Function " +:+ quoted (fn_name function) +:+ " generated invalid result: " +:+ e))
             (validate r (fn_outputs function) None fuel);
      Ok (MkExecutionResult (Some id) (Some (ResultOk r)))
  | Ok (Ok (Err e)) => Ok (MkExecutionResult (Some id) (Some (ResultError e)))
  | Ok (Err e) => Err (Fails (MkStatus CInternal
      ("Failed to execute function " +:+ quoted (fn_name function) +:+ ": " +:+ display_runtime_error e)))
  | Err Panicked => Err (Fails (MkStatus CInternal
      ("Panic when executing function " +:+ quoted (fn_name function) +:+ ": channel closed")))
  end.

(** Taking the execution out of the queue: from here on nobody finds it. *)
Definition take_queued (uuid : uuid) : exec_handler QueuedFunction :=
  queue ← sem_ask execution_queue;
  queued_function ← lift_status (ok_or (no_such_execution uuid) (queue !! uuid));
  _ ← sem_modify (set_queue (delete uuid queue));
  mret queued_function.

Definition run_queued (os : ExecOs) (fuel : nat) (id : string) (uuid : uuid) (queued_function : QueuedFunction)
  : exec_handler ExecutionResult :=
  let function := qf_function queued_function in
  runtime_spec ← lift_status (ok_or (MkStatus CInternal
                   "Function descriptor did not contain any runtime specification.") (fn_runtime function));
  checksum ← sem_lift (short_checksum function);
  execution_dir ← sem_ask (fun self => map_err (fun ioe => Fails (MkStatus CInternal
      ("Failed to create function execution directory: " +:+ ioe)))
      (function_directory_new os (es_root_dir self) (fn_name function) (fn_version function) checksum (uuid_to_string uuid)));
  runtime ← sem_ask (fun self => map_err (fun e => Fails (MkStatus CInternal
      ("Failed to lookup function runtime: " +:+ display_runtime_error e))) (lookup_runtime self (rs_name runtime_spec)));
  executed ← (fun self =>
    let '(outputs, r) := execute os runtime runtime_spec queued_function execution_dir (es_outputs self) in
    (set_outputs outputs self, Ok r));
  sem_lift (execution_answer fuel id function executed).

Definition run_function (os : ExecOs) (fuel : nat) (id : string) : exec_handler ExecutionResult :=
  uuid ← lift_status (parse_execution_id id);
  queued_function ← take_queued uuid;
  run_queued os fuel id uuid queued_function.

(** ** Output *)
Definition function_output (id : string) : exec_handler N :=
  uuid ← lift_status (parse_execution_id id);
  queue ← sem_ask execution_queue;
  queued ← lift_status (ok_or (no_such_execution uuid) (queue !! uuid));
  _ ← sem_modify (set_queue (<[uuid := MkQueuedFunction (qf_function queued) (qf_arguments queued) None
                                          (qf_output_sender queued)]> queue));
  lift_status (ok_or (MkStatus CInternal
    ("No output channel set (or it has already been used) for execution id " +:+ quoted id)) (qf_output_receiver queued)).

(** ** Listing *)
Definition list_runtimes (self : ExecutionService) (name_filter : string) : list ProtoRuntime :=
  runtime_src ← es_runtime_sources self;
  (fun runtime_name => MkProtoRuntime runtime_name (src_name runtime_src)) <$>
    filter (fun n => str_contains name_filter n) (src_list runtime_src).
End execution.
