(* ===== verification/Download.v ===== *)
(** * Downloading attachments (services/avery/src/executor.rs, [AttachmentDownload])

    The bytes of an attachment come from a file or over HTTP, with a token of the
    authentication service where the attachment asks for one, and are checked
    against the registered checksum.  [download_cached] keeps them in a file named
    after the url.

    What the network and the file system answer is a [Source] and, for the cache
    file, the outcome of the write. *)
From S2P Require Import Prelude Interfaces Proto Config Tokens TokenStore Registry Executor.

Inductive HttpFailure := HttpTransport (e : string) | HttpStatus (e : string) | HttpBody (e : string).
Record Source := MkSource {
  so_canonicalize : string -> result string string;
  so_read : string -> result string (list byte);
  (** a GET of the url with the bearer token *)
  so_http : string -> option string -> result HttpFailure (list byte)
}.

(** The trait [AuthenticationSource], over its state. *)
Record AuthenticationSource (S : Type) := MkAuthSource { as_acquire_token : string -> sem S string string }.
Arguments MkAuthSource {S} _.
Arguments as_acquire_token {S} _ _.

(** Its implementation by the authentication service. *)
Definition auth_service_source {DL : DigestLib} {JL : JwtLib} {EL : EncodingLib} {HO : HashOrder}
    (identity_hash : IdentityProvider -> string) (w : World) : AuthenticationSource TokenStore :=
  MkAuthSource (fun scope store =>
    let '(store', r) := acquire_token identity_hash w scope store in
    (store', match r with Ok (_, t) => Ok (token_text t) | Err e => Err (display_acquire_error e) end)).

Section download.
Context {DL : DigestLib} {UR : UrlLib} {S : Type}.
Variable auth : AuthenticationSource S.
Variable source : Source.

Definition attachment_url (self : Attachment) : result RuntimeError AttachmentUrl :=
  ok_or (InvalidCodeUrl "Attachment missing url.") (att_url self).

Definition read_file_url (attachment_url : AttachmentUrl) (url : Url) : result RuntimeError (list byte) :=
  path ← ok_or (InvalidCodeUrl ("Attachment URL " +:+ url_to_string url +:+ " is not a valid file path"))
           (url_to_file_path url);
  path ← map_err (fun e => AttachmentReadError (au_url attachment_url)
           ("Failed to canonicalize attachment file path " +:+ quoted path +:+ ": " +:+ e)) (so_canonicalize source path);
  map_err (AttachmentReadError (au_url attachment_url)) (so_read source path).

Definition credentials (url : Url) (scope : string) : sem S RuntimeError string :=
  fun s => let '(s', r) := as_acquire_token auth scope s in
    (s', map_err (fun e => AttachmentDownloadError (url_to_string url)
           ("Failed to acquire credentials for attachment: " +:+ e)) r).
(** The token the request carries. *)
Definition request_token (url : Url) (auth_method : AuthMethod) : sem S RuntimeError (option string) :=
  match auth_method with
  | AMNone => mret None
  | AMOauth2 =>
      scope ← sem_lift (ok_or (AttachmentDownloadError (url_to_string url)
                "Attachment URL has no host which is needed to acquire credentials") (url_host url));
      token ← credentials url scope;
      mret (Some token)
  | AMBasic => sem_lift (Err (UnsupportedTransport "Basic auth is not supported when downloading attachments"))
  end.
Definition http_error (url : Url) (e : HttpFailure) : RuntimeError :=
  match e with
  | HttpTransport e => AttachmentDownloadError (url_to_string url) ("Transport error: " +:+ e)
  | HttpStatus e => AttachmentDownloadError (url_to_string url) ("HTTP error: " +:+ e)
  | HttpBody e => AttachmentReadError (url_to_string url) e
  end.
Definition http_get (url : Url) (auth_method : AuthMethod) : sem S RuntimeError (list byte) :=
  token ← request_token url auth_method;
  sem_lift (map_err (http_error url) (so_http source (url_to_string url) token)).

Definition fetch (attachment_url : AttachmentUrl) : sem S RuntimeError (list byte) :=
  url ← sem_lift (map_err InvalidCodeUrl (url_parse (au_url attachment_url)));
  let auth_method := AuthMethod_from_i32 (au_auth_method attachment_url) in
  if bool_decide (url_scheme url = "file") then sem_lift (read_file_url attachment_url url)
  else if bool_decide (url_scheme url = "https") || bool_decide (url_scheme url = "http") then
    match auth_method with
    | Some auth_method => http_get url auth_method
    | None => sem_lift (Err (UnsupportedTransport (url_scheme url)))
    end
  else sem_lift (Err (UnsupportedTransport (url_scheme url))).

Definition check_content (self : Attachment) (content : list byte) : result RuntimeError (list byte) :=
  checksums ← ok_or (MissingChecksums (att_name self)) (att_checksums self);
  wanted ← map_err FailedToDecodeChecksum (hex_decode (ck_sha256 checksums));
  if bytes_eqb (sha256 content) wanted then Ok content
  else Err (ChecksumMismatch (att_name self) (ck_sha256 checksums) (hex_encode (sha256 content))).

Definition download (self : Attachment) : sem S RuntimeError (list byte) :=
  url ← sem_lift (attachment_url self);
  content ← fetch url;
  sem_lift (check_content self content).

(** ** The cache *)
Record Cache := MkCache { ca_auth : S; ca_files : gmap string (list byte) }.

(** What writing the cache file comes to: done, or an error with what the file
    holds then, if it was created. *)
Inductive WriteOutcome := Written | WriteFailed (left_over : option (list byte)) (e : string).

Definition cache_file (target_dir : string) (attachment_url : AttachmentUrl) : string :=
  path_join target_dir (String.substring 0 16 (hex_encode (sha256 (bytes_of (au_url attachment_url))))).

Definition write_cache (url target_path : string) (outcome : WriteOutcome) (content : list byte)
  : sem Cache RuntimeError string :=
  fun c => match outcome with
           | Written => (MkCache (ca_auth c) (<[target_path := content]> (ca_files c)), Ok target_path)
           | WriteFailed left_over e =>
               (MkCache (ca_auth c) (partial_alter (fun _ => left_over) target_path (ca_files c)),
                Err (AttachmentDownloadError url ("Failed to write attachment to cache file: " +:+ e)))
           end.
Definition download_content (self : Attachment) : sem Cache RuntimeError (list byte) :=
  fun c => let '(a, r) := download self (ca_auth c) in (MkCache a (ca_files c), r).
Definition download_cached (outcome : WriteOutcome) (target_dir : string) (self : Attachment)
  : sem Cache RuntimeError string :=
  url ← sem_lift (attachment_url self);
  let target_path := cache_file target_dir url in
  present ← sem_ask (fun c => Ok (bool_decide (is_Some (ca_files c !! target_path))));
  if (present : bool) then mret target_path
  else
    content ← download_content self;
    write_cache (au_url url) target_path outcome content.

(** ** What is verified *)
Lemma check_content_Ok self content c : check_content self content = Ok c ->
  c = content /\ exists ck, att_checksums self = Some ck /\ hex_decode (ck_sha256 ck) = Ok (sha256 content).
Proof.
  unfold check_content. intros H. apply bind_Ok_inv in H as (ck & Hck & H).
  apply bind_Ok_inv in H as (wanted & Hw & H). apply ok_or_Ok in Hck. apply map_err_Ok in Hw.
  destruct (bytes_eqb (sha256 content) wanted) eqn:Hb; [|done]. injection H as <-. split; [done|].
  exists ck. apply bytes_eqb_eq in Hb. by rewrite Hb.
Qed.

Lemma download_Ok self s s' content : download self s = (s', Ok content) ->
  exists ck, att_checksums self = Some ck /\ hex_decode (ck_sha256 ck) = Ok (sha256 content).
Proof.
  unfold download. intros H. apply sem_bind_Ok in H as (s1 & url & _ & H).
  apply sem_bind_Ok in H as (s2 & c & _ & H). unfold sem_lift in H. injection H as _ H.
  by apply check_content_Ok in H as [-> ?].
Qed.

(** What ends up in the cache.  When [download_cached] answers a path for an
    attachment that was not cached, the file there holds bytes with the registered
    checksum.  But a file that is already there is answered without being looked
    at; in particular, when writing a download fails, the call fails and the next
    one answers the file with whatever the failed write left in it. *)
Theorem cached_download target_dir self url outcome c :
  att_url self = Some url ->
  let target := cache_file target_dir url in
  (forall c' p, download_cached outcome target_dir self c = (c', Ok p) -> p = target /\
     (ca_files c !! target = None -> exists content ck,
        ca_files c' !! target = Some content /\ att_checksums self = Some ck /\
        hex_decode (ck_sha256 ck) = Ok (sha256 content))) /\
  (is_Some (ca_files c !! target) -> download_cached outcome target_dir self c = (c, Ok target)) /\
  (forall a content left_over e, ca_files c !! target = None -> download self (ca_auth c) = (a, Ok content) ->
     outcome = WriteFailed (Some left_over) e ->
     exists c', download_cached outcome target_dir self c =
         (c', Err (AttachmentDownloadError (au_url url) ("Failed to write attachment to cache file: " +:+ e))) /\
       ca_files c' !! target = Some left_over /\
       forall outcome', download_cached outcome' target_dir self c' = (c', Ok target)).
Proof.
  intros Hurl target.
  assert (forall outcome c, is_Some (ca_files c !! target) -> download_cached outcome target_dir self c = (c, Ok target)) as Hpresent.
  { intros o c0 Hc. unfold download_cached, attachment_url. rewrite Hurl. cbv [mbind sem_bind sem_lift sem_ask mret sem_ret ok_or].
    fold target. by rewrite bool_decide_true. }
  assert (forall outcome c, ca_files c !! target = None -> download_cached outcome target_dir self c =
    match download self (ca_auth c) with
    | (a, Ok content) => write_cache (au_url url) target outcome content (MkCache a (ca_files c))
    | (a, Err e) => (MkCache a (ca_files c), Err e)
    end) as Habsent.
  { intros o c0 Hc. unfold download_cached, attachment_url. rewrite Hurl. cbv [mbind sem_bind sem_lift sem_ask mret sem_ret ok_or].
    fold target. rewrite bool_decide_false by (rewrite Hc; by intros [? ?]). unfold download_content.
    by destruct (download self (ca_auth c0)) as [a [content|e]]. }
  split_and!.
  - intros c' p H. destruct (ca_files c !! target) as [b|] eqn:Hc.
    + rewrite Hpresent in H by eauto. injection H as <- <-. done.
    + rewrite Habsent in H by done. destruct (download self (ca_auth c)) as [a [content|e]] eqn:Hd; [|done].
      destruct outcome as [|left_over e]; [|done]. injection H as <- <-. split; [done|]. intros _.
      destruct (download_Ok _ _ _ _ Hd) as (ck & ? & ?). exists content, ck. cbn. by rewrite lookup_insert_eq.
  - apply Hpresent.
  - intros a content left_over e Hc Hd ->. rewrite Habsent, Hd by done. eexists. split; [done|].
    cbn. rewrite lookup_partial_alter_eq. split; [done|]. intros outcome'. apply Hpresent. cbn. rewrite lookup_partial_alter_eq. eauto.
Qed.
End download.

(** ** A concrete instance *)
Module DownloadExamples.
#[local] Existing Instance Concrete.text_digest.
#[local] Existing Instance Concrete.text_url.
Definition no_auth : AuthenticationSource unit := MkAuthSource (fun _ => sem_lift (Err "no credentials")).
Definition hello : list byte := bytes_of "hello".
Definition served : Source := MkSource Ok (fun _ => Ok hello) (fun _ _ => Err (HttpTransport "offline")).
Definition url := MkAttachmentUrl "file:/a" 0.
Definition attachment := MkAttachment "a" (Some url) ∅ (Some (MkChecksums "hello")) 0 None None.
Definition empty_cache : Cache (S := unit) := MkCache tt ∅.

Lemma cached_download_witness :
  (exists c' content, download_cached no_auth served Written "/cache" attachment empty_cache =
     (c', Ok (cache_file "/cache" url)) /\ ca_files c' !! cache_file "/cache" url = Some content) /\
  (exists c', download_cached no_auth served Written "/cache" attachment c' = (c', Ok (cache_file "/cache" url)) /\
     ca_files c' !! cache_file "/cache" url = Some []).
Proof.
  split.
  - destruct (cached_download no_auth served "/cache" attachment url Written empty_cache eq_refl) as (H & _ & _).
    assert (exists c' p, download_cached no_auth served Written "/cache" attachment empty_cache = (c', Ok p)) as (c' & p & Hd)
      by (eexists _, _; vm_compute; reflexivity).
    destruct (H c' p Hd) as [-> Hc]. destruct (Hc eq_refl) as (content & ck & Hf & _). exists c', content.
    split; [exact Hd|exact Hf].
  - destruct (cached_download no_auth served "/cache" attachment url (WriteFailed (Some []) "disk full") empty_cache eq_refl)
      as (_ & _ & H).
    destruct (H tt hello [] "disk full" eq_refl eq_refl eq_refl) as (c' & _ & Hf & Hd).
    exists c'. split; [exact (Hd Written)|exact Hf].
Defined.
End DownloadExamples.
