(* ===== verification/ExecutorProps.v ===== *)
(** * Properties of the execution service

    A queued execution is run at most once, and once if asked for; what runs has
    arguments of the declared types and what is answered has results of the
    declared types.  Over the internal registry the newest matching version of
    exactly the function asked for is queued; over the forwarding registry, which
    avery's main function passes in, another function may be. *)
From S2P Require Import Prelude Interfaces Proto Stream Regex Registry RegistryProps ProxyRegistry ProxyProps RegistryApi Executor.

Lemma validate_conforms `{HashOrder} self required optional fuel :
  validate self required optional fuel = Some (Ok tt) -> conforms self required optional.
Proof.
  unfold validate. destruct (mapM _ _) as [outs|] eqn:Hm; [|done]. cbn.
  case_bool_decide as Hnil; [|done]. intros _. apply mapM_Some in Hm.
  assert (forall r, r ∈ validation_items self required optional -> judge fuel r = Some None) as Hj.
  { intros r [i Hi]%list_elem_of_lookup. destruct (Forall2_lookup_l _ _ _ _ _ Hm Hi) as (o & Ho & Hj).
    rewrite Hj. f_equal. destruct o as [e|]; [|done]. apply list_elem_of_lookup_2 in Ho.
    assert (e ∈ omap id outs) as Hx by (apply list_elem_of_omap; exists (Some e); auto). rewrite Hnil in Hx. set_solver. }
  split.
  - intros name spec Hr. destruct (channels self !! name) eqn:Hc; [eauto|].
    specialize (Hj (Err (RequiredChannelMissing name))). rewrite items_Err in Hj. cbn in Hj. discriminate Hj. eauto 10.
  - intros name spec c Hd Hc. specialize (Hj (Ok (name, c, spec))). rewrite items_Ok in Hj.
    specialize (Hj (conj Hd Hc)). cbn in Hj. destruct (type_matches c spec); [done|].
    by destruct (display_channel_spec fuel spec).
  - intros name Hs. destruct (is_expected required optional name) eqn:Hx; [by apply is_expected_iff in Hx|].
    specialize (Hj (Err (UnexpectedChannel name))). rewrite items_Err in Hj. cbn in Hj. discriminate Hj.
    right. exists name. split_and!; [done| |done]. intros spec Hd.
    assert (is_expected required optional name = true); [apply is_expected_iff; eauto|congruence].
Qed.

Section executor_props.
Context {UL : UuidLib} {HO : HashOrder} {R : Type} {RA : RegistryApi R}.
Implicit Types s : ExecutionService (R := R).

Definition queue_of s : gmap uuid QueuedFunction := lk_data (es_execution_queue s).

(** ** Histories

    The state changing requests; every handler changes the queue in one step
    under its lock, so a history is a sequence. *)
Inductive call :=
| CQueue (fuel : nat) (execution_id : uuid) (payload : ExecutionParameters)
| CRun (os : ExecOs) (fuel : nat) (id : string)
| COutput (id : string).
Definition serve_call (c : call) s : ExecutionService :=
  match c with
  | CQueue fuel execution_id payload => (queue_function fuel execution_id payload s).1
  | CRun os fuel id => (run_function os fuel id s).1
  | COutput id => (function_output id s).1
  end.
Fixpoint serve_calls (cs : list call) s : ExecutionService :=
  match cs with
  | [] => s
  | c :: cs => serve_calls cs (serve_call c s)
  end.
Definition queues (u : uuid) (c : call) : bool :=
  match c with CQueue _ v _ => bool_decide (v = u) | _ => false end.
Definition runs (u : uuid) (c : call) : bool :=
  match c with CRun _ _ id => bool_decide (parse_execution_id id = Ok u) | _ => false end.

(** ** What a call does to the queue *)
Lemma queue_function_cases fuel u payload s :
  (exists s' e, queue_function fuel u payload s = (s', Err e) /\
     es_execution_queue s' = es_execution_queue s /\ es_registry s' = es_registry s /\
     es_runtime_sources s' = es_runtime_sources s) \/
  (exists function args, find_function (es_registry s) payload = Ok function /\
     validate args (fn_required_inputs function) (Some (fn_optional_inputs function)) fuel = Some (Ok tt) /\
     lk_poisoned (es_execution_queue s) = false /\
     queue_function fuel u payload s =
       (set_queue (<[u := MkQueuedFunction function args (Some (es_next_output s)) (es_next_output s)]> (queue_of s))
          (new_output 1024 s), Ok (uuid_to_string u))).
Proof.
  unfold queue_function, execution_queue, sem_ask, sem_lift, sem_modify. cbv [mbind sem_bind mret sem_ret].
  destruct (find_function (es_registry s) payload) as [function|e] eqn:Hf; cbn [map_err]; [|left; eauto 10].
  destruct (validate _ _ _ fuel) as [[[]|e]|] eqn:Hv; cbn [checked]; [|left; eauto 10..].
  unfold lock_get. cbn. destruct (lk_poisoned (es_execution_queue s)) eqn:Hp; cbn; [left; eauto 10|].
  right. eexists function, _. split_and!; [done|exact Hv|done|done].
Qed.

Lemma run_queued_queue os fuel id u qf s s' r :
  run_queued os fuel id u qf s = (s', r) ->
  es_execution_queue s' = es_execution_queue s /\ es_registry s' = es_registry s /\
  es_runtime_sources s' = es_runtime_sources s.
Proof.
  unfold run_queued, lift_status, sem_ask, sem_lift. cbv [mbind sem_bind].
  destruct (fn_runtime _) as [spec|]; cbn [ok_or map_err]; [|intros [= <- _]; done].
  destruct (short_checksum _); [|intros [= <- _]; done].
  destruct (function_directory_new _ _ _ _ _ _); cbn [map_err]; [|intros [= <- _]; done].
  destruct (lookup_runtime _ _); cbn [map_err]; [|intros [= <- _]; done].
  destruct (execute _ _ _ _ _ _). intros [= <- _]. done.
Qed.

Lemma run_function_cases os fuel id s :
  (exists e, parse_execution_id id = Err e /\ run_function os fuel id s = (s, Err (Fails e))) \/
  (exists u, parse_execution_id id = Ok u /\
     ((exists e, (lk_poisoned (es_execution_queue s) = true \/ queue_of s !! u = None /\ e = Fails (no_such_execution u)) /\
        run_function os fuel id s = (s, Err e)) \/
      (exists qf, lk_poisoned (es_execution_queue s) = false /\ queue_of s !! u = Some qf /\
        run_function os fuel id s = run_queued os fuel id u qf (set_queue (delete u (queue_of s)) s)))).
Proof.
  unfold run_function, take_queued, lift_status, execution_queue, sem_ask, sem_lift, sem_modify.
  cbv [mbind sem_bind mret sem_ret]. destruct (parse_execution_id id) as [u|e]; cbn [map_err]; [|left; eauto].
  right. exists u. split; [done|]. unfold lock_get, queue_of.
  destruct (lk_poisoned (es_execution_queue s)) eqn:Hp; cbn [map_err]; [left; eauto|].
  destruct (lk_data (es_execution_queue s) !! u) as [qf|] eqn:Hq; cbn [ok_or map_err]; [right; eauto|left; eauto 10].
Qed.

(** The queue only changes at the execution a call names. *)
Definition same_execution (qf qf' : QueuedFunction) : Prop :=
  qf_function qf' = qf_function qf /\ qf_arguments qf' = qf_arguments qf /\ qf_output_sender qf' = qf_output_sender qf.

Lemma function_output_queue id s s' r :
  function_output id s = (s', r) ->
  lk_poisoned (es_execution_queue s') = lk_poisoned (es_execution_queue s) /\
  es_registry s' = es_registry s /\ es_runtime_sources s' = es_runtime_sources s /\
  forall u, option_Forall2 same_execution (queue_of s !! u) (queue_of s' !! u).
Proof.
  assert (forall o, option_Forall2 same_execution o o) as Hrefl by (intros [qf|]; by repeat constructor).
  unfold function_output, lift_status, execution_queue, sem_ask, sem_lift, sem_modify.
  cbv [mbind sem_bind mret sem_ret].
  destruct (parse_execution_id id) as [u|e]; cbn [map_err]; [|intros [= <- _]; auto].
  unfold lock_get. destruct (lk_poisoned (es_execution_queue s)) eqn:Hp; cbn [map_err]; [intros [= <- _]; auto|].
  destruct (lk_data (es_execution_queue s) !! u) as [qf|] eqn:Hq; cbn [ok_or map_err]; [|intros [= <- _]; auto].
  intros [= <- _]. split_and!; [done..|]. intros w. unfold queue_of. cbn. rewrite lookup_insert.
  case_decide; subst; [|apply Hrefl]. rewrite Hq. by repeat constructor.
Qed.

Lemma queue_of_set q s : queue_of (set_queue q s) = q.
Proof. done. Qed.

Lemma serve_call_keeps c u s :
  lk_poisoned (es_execution_queue s) = false -> queues u c = false ->
  lk_poisoned (es_execution_queue (serve_call c s)) = false /\
  (queue_of s !! u = None -> queue_of (serve_call c s) !! u = None) /\
  (runs u c = false -> option_Forall2 same_execution (queue_of s !! u) (queue_of (serve_call c s) !! u)).
Proof.
  assert (forall o, option_Forall2 same_execution o o) as Hrefl by (intros [qf|]; by repeat constructor).
  intros Hp Hq. destruct c as [fuel v payload|os fuel id|id]; cbn [serve_call queues runs] in *.
  - apply bool_decide_eq_false in Hq.
    destruct (queue_function_cases fuel v payload s) as [(s' & e & -> & He & _)|(f & args & _ & _ & _ & ->)].
    + unfold queue_of. cbn. rewrite He. auto.
    + cbn. rewrite lookup_insert_ne by done. auto.
  - destruct (run_function_cases os fuel id s) as [(e & _ & ->)|(v & Hv & [(e & _ & ->)|(qf & _ & _ & ->)])]; [by auto..|].
    destruct (run_queued _ _ _ _ _ _) as [s' r] eqn:Hr. apply run_queued_queue in Hr as (He & _). cbn.
    unfold queue_of. rewrite He. cbn. split; [done|]. fold (queue_of s). rewrite lookup_delete. split.
    + by case_decide.
    + rewrite Hv. intros Hne%bool_decide_eq_false. case_decide; [congruence|]. apply Hrefl.
  - destruct (function_output id s) as [s' r] eqn:Ho. apply function_output_queue in Ho as (Hl & _ & _ & Hall). cbn.
    rewrite Hl. split; [done|]. specialize (Hall u). split; [|done]. intros Hn. rewrite Hn in Hall. by inversion Hall.
Qed.

Lemma same_execution_trans qf1 qf2 qf3 : same_execution qf1 qf2 -> same_execution qf2 qf3 -> same_execution qf1 qf3.
Proof. unfold same_execution. intuition congruence. Qed.

Lemma serve_calls_keep u cs s :
  lk_poisoned (es_execution_queue s) = false -> (forall c, c ∈ cs -> queues u c = false) ->
  lk_poisoned (es_execution_queue (serve_calls cs s)) = false /\
  (queue_of s !! u = None -> queue_of (serve_calls cs s) !! u = None) /\
  ((forall c, c ∈ cs -> runs u c = false) ->
   forall qf, queue_of s !! u = Some qf -> exists qf', queue_of (serve_calls cs s) !! u = Some qf' /\ same_execution qf qf').
Proof.
  revert s. induction cs as [|c cs IH]; intros s Hp Hq; cbn [serve_calls].
  { split_and!; [done..|]. intros _ qf Hqf. exists qf. by repeat constructor. }
  destruct (serve_call_keeps c u s Hp) as (Hp1 & Hn1 & Hk1); [apply Hq; set_solver|].
  destruct (IH (serve_call c s) Hp1) as (Hp2 & Hn2 & Hk2); [intros; apply Hq; set_solver|].
  split_and!; [done|auto|]. intros Hr qf Hqf. specialize (Hk1 (Hr c ltac:(set_solver))).
  rewrite Hqf in Hk1. inversion Hk1 as [? qf1 H1 Heq1 Heq2|]; subst.
  destruct (Hk2 ltac:(intros; apply Hr; set_solver) qf1 (eq_sym Heq2)) as (qf2 & ? & ?).
  exists qf2. split; [done|]. by apply (same_execution_trans qf qf1).
Qed.

(** C19: an execution runs once.  However calls for other executions and for its
    output interleave, running a queued id runs the function and the arguments it
    was queued with; once it was run, or if it was never queued, no call runs it
    again: whatever the history, until the id is queued anew, running it is
    refused as not found and changes nothing. *)
Theorem executes_at_most_once u cs s os fuel id :
  lk_poisoned (es_execution_queue s) = false -> parse_execution_id id = Ok u ->
  (forall c, c ∈ cs -> queues u c = false) ->
  let s' := serve_calls cs s in
  (forall qf, queue_of s !! u = Some qf -> (forall c, c ∈ cs -> runs u c = false) ->
     exists qf', same_execution qf qf' /\
       run_function os fuel id s' = run_queued os fuel id u qf' (set_queue (delete u (queue_of s')) s')) /\
  ((exists c cs1 cs2, cs = cs1 ++ c :: cs2 /\ runs u c = true) \/ queue_of s !! u = None ->
     run_function os fuel id s' = (s', Err (Fails (no_such_execution u)))).
Proof.
  intros Hp Hid Hq s'. destruct (serve_calls_keep u cs s Hp Hq) as (Hp' & Hn & Hk). fold s' in Hp', Hn, Hk.
  destruct (run_function_cases os fuel id s') as [(e & He & _)|(v & Hv & Hcase)]; [congruence|].
  assert (v = u) as -> by congruence. split.
  - intros qf Hqf Hr. destruct (Hk Hr qf Hqf) as (qf' & Hqf' & Hsame).
    destruct Hcase as [(e & [?|[? _]] & _)|(qf2 & _ & Hqf2 & ->)]; [congruence..|].
    rewrite Hqf' in Hqf2. injection Hqf2 as <-. eauto.
  - intros Hrun. assert (queue_of s' !! u = None) as Hnone.
    { destruct Hrun as [(c & cs1 & cs2 & -> & Hc)|Hnone]; [|auto]. unfold s'. clear -Hp Hq Hc.
      revert s Hp. induction cs1 as [|c1 cs1 IH]; intros s Hp; cbn [app serve_calls].
      - destruct (serve_call_keeps c u s Hp) as (Hp1 & _); [apply Hq; set_solver|].
        apply (serve_calls_keep u cs2); [done|intros; apply Hq; set_solver|].
        destruct c as [?|os fuel id|?]; try discriminate Hc. cbn in Hc. apply bool_decide_eq_true in Hc. cbn [serve_call].
        destruct (run_function_cases os fuel id s) as [(e & He & _)|(v & Hv & Hcase)]; [congruence|].
        assert (v = u) as -> by congruence.
        destruct Hcase as [(e & [?|[? _]] & ->)|(qf & _ & _ & ->)]; [congruence|done|].
        destruct (run_queued _ _ _ _ _ _) as [s1 r] eqn:Hr. apply run_queued_queue in Hr as (He & _).
        unfold queue_of. cbn. rewrite He. cbn. apply lookup_delete_eq.
      - apply IH; [intros; apply Hq; set_solver|]. apply (serve_call_keeps c1 u s Hp), Hq. set_solver. }
    destruct Hcase as [(e & [?|[_ ->]] & ->)|(qf2 & _ & Hqf2 & _)]; [congruence|done|congruence].
Qed.

(** ** Types *)
Definition queue_typed s : Prop :=
  forall u qf, queue_of s !! u = Some qf ->
    conforms (qf_arguments qf) (fn_required_inputs (qf_function qf)) (Some (fn_optional_inputs (qf_function qf))).

Lemma serve_call_typed c s : queue_typed s -> queue_typed (serve_call c s).
Proof.
  intros Ht. destruct c as [fuel v payload|os fuel id|id]; cbn [serve_call].
  - destruct (queue_function_cases fuel v payload s) as [(s' & e & -> & He & _)|(f & args & _ & Hv & _ & ->)]; cbn.
    + unfold queue_typed, queue_of. by rewrite He.
    + intros u qf. cbn. rewrite lookup_insert. case_decide; [|apply Ht]. intros [= <-]. by apply validate_conforms in Hv.
  - destruct (run_function_cases os fuel id s) as [(e & _ & ->)|(v & Hv & [(e & _ & ->)|(qf & _ & _ & ->)])]; [done..|].
    destruct (run_queued _ _ _ _ _ _) as [s' r] eqn:Hr. apply run_queued_queue in Hr as (He & _).
    intros u qf'. unfold queue_of. cbn. rewrite He. cbn. rewrite lookup_delete. case_decide; [done|apply Ht].
  - destruct (function_output id s) as [s' r] eqn:Ho. apply function_output_queue in Ho as (_ & _ & _ & Hall).
    intros u qf Hqf. specialize (Hall u). cbn in Hqf. rewrite Hqf in Hall. inversion Hall as [qf0 y (Hf & Ha & _) Heq|]; subst.
    rewrite Hf, Ha. by apply (Ht u).
Qed.

Lemma serve_calls_typed cs s : queue_typed s -> queue_typed (serve_calls cs s).
Proof. revert s. induction cs as [|c cs IH]; intros s Ht; cbn; [done|]. by apply IH, serve_call_typed. Qed.

(** C20: what is executed and answered is typed.  In every state a service can
    reach, when running an execution answers a result, the result carries the
    caller's id, is what the runtime named by the queued function returned when
    it was given arguments that conform to the inputs the function declares, and
    conforms to the outputs it declares. *)
Theorem execution_typed registry sources root cs os fuel id s' eid r :
  let s := serve_calls cs (execution_new registry sources root) in
  run_function os fuel id s = (s', Ok (MkExecutionResult eid (Some (ResultOk r)))) ->
  eid = Some id /\
  exists u qf spec runtime params outputs',
    parse_execution_id id = Ok u /\ queue_of s !! u = Some qf /\
    fn_runtime (qf_function qf) = Some spec /\ lookup_runtime s (rs_name spec) = Ok runtime /\
    rp_function_name params = fn_name (qf_function qf) /\ rp_code params = fn_code (qf_function qf) /\
    conforms (qf_arguments qf) (fn_required_inputs (qf_function qf)) (Some (fn_optional_inputs (qf_function qf))) /\
    rt_execute runtime params (qf_arguments qf) (fn_attachments (qf_function qf)) (es_outputs s) =
      (outputs', Ok (Ok (Ok r))) /\
    conforms r (fn_outputs (qf_function qf)) None.
Proof.
  intros s Hrun. assert (queue_typed s) as Ht by (apply serve_calls_typed; intros u qf; done).
  clearbody s. destruct (run_function_cases os fuel id s) as [(e & _ & He)|(u & Hu & [(e & _ & He)|(qf & _ & Hqf & He)])];
    rewrite He in Hrun; [done..|]. clear He. specialize (Ht u qf Hqf).
  unfold run_queued in Hrun.
  apply sem_bind_Ok in Hrun as (s1 & spec & Hspec & Hrun). apply sem_bind_Ok in Hrun as (s2 & cs2 & Hcs & Hrun).
  apply sem_bind_Ok in Hrun as (s3 & dir & Hdir & Hrun). apply sem_bind_Ok in Hrun as (s4 & rt & Hrt & Hrun).
  apply sem_bind_Ok in Hrun as (s5 & ex & Hex & Hrun).
  unfold lift_status, sem_lift, sem_ask in *. injection Hspec as <- Hspec. injection Hcs as <- Hcs.
  injection Hdir as <- Hdir. injection Hrt as <- Hrt. injection Hrun as _ Hans.
  apply map_err_Ok, ok_or_Ok in Hspec. apply map_err_Ok in Hrt.
  destruct (execute os rt spec qf dir _) as [outputs' ex'] eqn:Hexe. injection Hex as _ ->.
  unfold execution_answer in Hans. destruct ex as [[[r'|e]|e]|[]]; [|done..].
  apply bind_Ok_inv in Hans as ([] & Hch & Hans). injection Hans as <- <-.
  unfold checked in Hch. destruct (validate _ _ _ _) as [[[]|?]|] eqn:Hv; [|done..]. apply validate_conforms in Hv.
  unfold execute in Hexe. destruct (eo_async_runtime os); [done|].
  split; [done|]. eexists u, qf, spec, rt, _, outputs'. split_and!; [done|done|done|exact Hrt| | |done|exact Hexe|done]; done.
Qed.
End executor_props.

(** ** Which function is queued *)
Section finding.
Context {SV : SemVer} {UL : UuidLib} {DL : DigestLib} {RE : RegexEngine} {HO : HashOrder}.

Definition newest_matching (self : RegistryService) (name : string) (req : VersionReq) (g : RFunction) : Prop :=
  g ∈ lk_data (functions self) /\ f_name g = name /\ req_matches req (f_version g) = true /\
  forall h, h ∈ lk_data (functions self) -> f_name h = name -> req_matches req (f_version h) = true ->
    version_ltb (f_version g) (f_version h) = false.

Lemma page_one {A} (l : list A) : page 0 1 l = option_list (head l).
Proof. by destruct l as [|a l]; [|destruct l]. Qed.

Lemma version_filters_requirement payload req :
  req_parse_npm (ep_version_requirement payload) = Ok req -> parsed_requirement (version_filters payload) = Ok (Some req).
Proof. intros H. unfold parsed_requirement. cbn. by rewrite H. Qed.

(** What the two listings answer to the filters of the execution service: the
    image of the first function listed. *)
Lemma first_listed self payload group req :
  registry_inv self -> req_parse_npm (ep_version_requirement payload) = Ok req ->
  exists fs, list_ self (version_filters payload) group = Ok fs /\
    Forall2 (fun g f => get_function self g = Ok f)
      (option_list (head (listing self (version_filters payload) (Some req) group))) fs.
Proof.
  intros Hinv Hreq. destruct (list_images self (version_filters payload) group (Some req) Hinv) as (fs & Hfs & Himg).
  { by apply version_filters_requirement. }
  exists fs. split; [done|]. by rewrite <- page_one.
Qed.

Lemma head_sorted self filters req group g l h :
  listing self filters req group = g :: l -> h ∈ listing self filters req group -> ord_reverse (ordering filters) = false ->
  cmp_le (list_cmp (ord_key (ordering filters))) g h.
Proof.
  intros Hl Hh Hr. pose proof (listing_sorted self filters req group) as Hs. unfold listing_order in Hs.
  rewrite Hl in Hh, Hs. rewrite Hr in Hs. apply StronglySorted_inv in Hs as [_ Hf]. rewrite Forall_forall in Hf.
  apply elem_of_cons in Hh as [->|Hh]; [|by apply Hf]. unfold cmp_le. by rewrite cmp_refl_eq by apply _.
Qed.

Lemma metadata_ok_empty f : metadata_ok ∅ f.
Proof. intros k v H. by rewrite lookup_empty in H. Qed.

Lemma listed_exact self payload req g :
  registry_inv self ->
  g ∈ listing self (version_filters payload) (Some req) false <->
  g ∈ lk_data (functions self) /\ f_name g = ep_name payload /\ req_matches req (f_version g) = true.
Proof.
  intros Hinv. rewrite elem_of_listing by done. unfold selected, matches_id. cbn. rewrite bool_decide_eq_true.
  split; [naive_solver|]. intros (?&?&?). split_and!; [done..|apply metadata_ok_empty|apply str_contains_empty].
Qed.

(** Over the internal registry, the function found for a request is the image
    of the newest version of exactly the named function that the requirement
    admits; there is none exactly when the answer is not found, and a requirement
    that does not parse is refused as such. *)
Theorem find_newest self payload :
  registry_inv self ->
  match req_parse_npm (ep_version_requirement payload) with
  | Ok req =>
      (exists g f, newest_matching self (ep_name payload) req g /\ get_function self g = Ok f /\
         find_function self payload = Ok f) \/
      ((forall g, g ∈ lk_data (functions self) -> f_name g = ep_name payload -> req_matches req (f_version g) = false) /\
       exists msg, find_function self payload = Err (MkStatus CNotFound msg))
  | Err e => find_function self payload = Err (MkStatus CInvalidArgument ("Supplied version requirement is invalid: " +:+ e))
  end.
Proof.
  intros Hinv. destruct (req_parse_npm _) as [req|e] eqn:Hreq.
  - destruct (first_listed self payload false req Hinv Hreq) as (fs & Hfs & Himg).
    unfold find_function. cbn [api_list_versions internal_api]. unfold rpc_list_versions. rewrite Hfs. cbn [mbind result_bind].
    pose proof (listed_exact self payload req) as Hin.
    destruct (listing self (version_filters payload) (Some req) false) as [|g l] eqn:Hl; cbn in Himg.
    + right. inversion Himg; subst. split; [|by eexists]. intros g Hg Hn.
      destruct (req_matches req (f_version g)) eqn:Hm; [|done]. assert (g ∈ @nil RFunction) as Hx by (apply Hin; auto). set_solver.
    + left. inversion Himg as [|? f ? fs' Hf Hnil]; subst. inversion Hnil; subst. exists g, f. split_and!; [|done|done].
      assert (g ∈ g :: l) as Hg by set_solver. apply Hin in Hg as (Hg & Hn & Hm); [|done]. split_and!; [done..|].
      intros h Hh Hhn Hhm. assert (h ∈ g :: l) as Hhl by (apply Hin; auto). rewrite <- Hl in Hhl.
      pose proof (head_sorted self _ _ _ g l h Hl Hhl eq_refl) as Hle. apply version_ltb_ge.
      revert Hle. cbn. unfold cmp_le, cmp_lex, cmp_on, cmp_rev. rewrite Hn, Hhn, cmp_refl_eq by apply _. done.
  - unfold find_function. cbn. unfold rpc_list_versions, list_, functions_read, lock_get. rewrite (ri_functions_lock _ Hinv).
    cbn. by rewrite Hreq.
Qed.

(** ** Behind the forwarding registry *)
Lemma proxied_versions_singleton self filters f :
  connections self = [] -> rpc_list (internal_registry self) filters = Ok [f] ->
  ord_offset (ordering filters) = 0%N -> ord_limit (ordering filters) = 1%N ->
  proxy_rpc_list_versions self filters = Ok [tag "internal" f].
Proof.
  intros Hc Hl Ho Hlim. unfold proxy_rpc_list_versions, proxy_list.
  rewrite (responses_internal _ _ _ [f]) by done. cbn [mbind result_bind insert_function fmap list_fmap try_fold].
  unfold try_insert_version. rewrite lookup_empty. cbn [mbind result_bind map_err].
  rewrite insert_empty, hash_values_singleton. fold (ordering filters). unfold arrange. rewrite Ho, Hlim.
  f_equal. by destruct (ord_reverse (ordering filters)).
Qed.

(** Avery's execution service is given the forwarding registry, which asks the
    internal registry by name fragment and keeps the first answer only.  So when
    a function is registered whose name contains the requested one and sorts
    before it, in an admitted version, queueing finds a function whose name sorts
    before the requested one: it never is the function asked for. *)
Theorem proxied_finds_another self payload req g :
  registry_inv (internal_registry self) -> connections self = [] ->
  req_parse_npm (ep_version_requirement payload) = Ok req ->
  g ∈ lk_data (functions (internal_registry self)) ->
  str_contains (ep_name payload) (f_name g) = true -> req_matches req (f_version g) = true ->
  str_cmp (f_name g) (ep_name payload) = Lt ->
  exists f, find_function self payload = Ok f /\ str_cmp (fn_name f) (ep_name payload) = Lt /\
    fn_name f <> ep_name payload.
Proof.
  intros Hinv Hc Hreq Hg Hn Hm Hlt.
  destruct (first_listed (internal_registry self) payload true req Hinv Hreq) as (fs & Hfs & Himg).
  set (filters := version_filters payload) in *.
  assert (exists h, h ∈ listing (internal_registry self) filters (Some req) true /\ f_name h = f_name g) as (h & Hh & Hhn).
  { set (matching := filter (fun f => matches_name true (fl_name filters) f && matches_version (Some req) f)
                            (lk_data (functions (internal_registry self)))).
    pose proof (latest_versions_spec matching (f_name g)) as Hs.
    destruct (latest_versions matching !! f_name g) as [h|] eqn:Hlv.
    - destruct Hs as (Hh & Hhn & Hmax). exists h. split; [|done]. rewrite listing_perm. unfold candidates.
      apply list_elem_of_filter. cbn. split.
      + apply Is_true_true. rewrite str_contains_empty. done.
      + apply elem_of_hash_values. by exists (f_name g).
    - destruct (Hs g); [|done]. unfold matching. apply list_elem_of_filter. split; [|done]. apply Is_true_true.
      cbn. by rewrite Hn, Hm. }
  destruct (listing (internal_registry self) filters (Some req) true) as [|k l] eqn:Hl; [set_solver|].
  cbn in Himg. inversion Himg as [|? f ? fs' Hf Hnil]; subst. inversion Hnil; subst.
  exists (tag "internal" f). unfold find_function. cbn [api_list_versions proxy_api]. fold filters.
  rewrite (proxied_versions_singleton self filters f) by done. split; [done|].
  assert (str_cmp (f_name k) (ep_name payload) = Lt) as Hk.
  { apply (cmp_trans_le_lt str_cmp _ (f_name g)); [|done]. rewrite <- Hhn. rewrite <- Hl in Hh.
    apply (list_cmp_name (ord_key (ordering filters))). exact (head_sorted _ _ _ _ k l h Hl Hh eq_refl). }
  cbn. rewrite (get_function_name _ _ _ Hf). split; [done|]. intros Heq. rewrite Heq, cmp_refl_eq in Hk by apply _. done.
Qed.
End finding.

(** ** A concrete service *)
Module ExecutorExamples.
#[local] Existing Instance Concrete.text_semver.
#[local] Existing Instance Concrete.text_uuid.
#[local] Existing Instance Concrete.text_digest.
#[local] Existing Instance derivative_engine.
#[local] Existing Instance key_order.

(** A registry of one function, which has a number as input and output, and a
    runtime that answers it with its arguments. *)
Definition numbers : gmap string ChannelSpec := {[ "n" := MkChannelSpec 2 "a number" ]}.
Definition identity_function := MkFunction "same" "1" {[ "_dev-checksum" := "0123456789abcdef0123" ]} numbers ∅ numbers
  None [] (Some (MkRuntimeSpec "wasi" EmptyString ∅)) 0 None None.
#[local] Instance one_function : RegistryApi unit := {|
  api_list := fun _ _ => Ok [identity_function];
  api_list_versions := fun _ _ => Ok [identity_function];
  api_get := fun _ _ => Ok identity_function |}.
Definition identity_runtime := MkRuntime (fun params args atts o => (o, Ok (Ok (Ok args)))).
Definition service : ExecutionService (R := unit) := execution_new tt [InternalRuntimeSource identity_runtime] "/root".
Definition three := MkStream {[ "n" := to_channel_one 3%Z ]}.
Definition os := MkExecOs (fun _ => None) None.
Definition first_id : @uuid Concrete.text_uuid := "u1".
Definition second_id : @uuid Concrete.text_uuid := "u2".
Definition wanted := MkExecutionParameters "same" "*" (Some three).
Definition queueing : list call := [CQueue 1 first_id wanted; CQueue 1 second_id wanted; COutput "#u1"].
Definition queued := serve_calls queueing service.

Lemma executes_at_most_once_witness :
  (exists qf, qf_arguments qf = three /\
     run_function os 1 "#u1" (serve_calls [COutput "#u1"] queued) =
     run_queued os 1 "#u1" first_id qf (set_queue (delete first_id (queue_of (serve_calls [COutput "#u1"] queued)))
                                          (serve_calls [COutput "#u1"] queued))) /\
  (run_function os 1 "#u1" (serve_calls [CRun os 1 "#u1"; CRun os 1 "#u2"] queued)).2 =
    Err (Fails (no_such_execution first_id)).
Proof.
  split.
  - destruct (executes_at_most_once first_id [COutput "#u1"] queued os 1 "#u1" eq_refl eq_refl) as [H _].
    { intros c ->%list_elem_of_singleton. reflexivity. }
    destruct (queue_of queued !! first_id) as [qf|] eqn:Hqf; [|vm_compute in Hqf; discriminate Hqf].
    destruct (H qf eq_refl) as (qf' & (_ & Ha & _) & Hr).
    { intros c ->%list_elem_of_singleton. reflexivity. }
    exists qf'. split; [|exact Hr]. rewrite Ha. vm_compute in Hqf. injection Hqf as <-. reflexivity.
  - destruct (executes_at_most_once first_id [CRun os 1 "#u1"; CRun os 1 "#u2"] queued os 1 "#u1" eq_refl eq_refl) as [_ H].
    { intros c [->| ->%list_elem_of_singleton]%elem_of_cons; reflexivity. }
    rewrite H; [reflexivity|]. left. exists (CRun os 1 "#u1"), [], [CRun os 1 "#u2"]. split; reflexivity.
Defined.

Lemma execution_typed_witness : conforms three numbers None.
Proof.
  assert (exists s', run_function os 1 "#u1" queued = (s', Ok (MkExecutionResult (Some "#u1") (Some (ResultOk three))))) as [s' Hs]
    by (eexists; vm_compute; reflexivity).
  destruct (execution_typed tt _ _ queueing os 1 "#u1" s' _ three Hs) as (_ & u & qf & spec & rt & params & o & Hu & Hq & H).
  destruct H as (_ & _ & _ & _ & _ & _ & Hc). injection Hu as <-. vm_compute in Hq. injection Hq as <-. exact Hc.
Defined.

Import RegistryExamples ProxyExamples.
(** A second function whose name contains the name of another. *)
Definition similar : RegistryService := (register 5 (named "re-sum-it" "9") stocked).1.
Definition sum_request := MkExecutionParameters "sum-it" "*" None.
Lemma similar_inv : registry_inv similar.
Proof. apply inv_register, stocked_inv. Qed.

Lemma find_newest_witness :
  exists f, find_function similar sum_request = Ok f /\ fn_name f = "sum-it".
Proof.
  destruct (find_newest similar sum_request similar_inv) as [(g & f & (_ & Hn & _) & Hg & Hf)|(_ & msg & He)].
  - exists f. split; [exact Hf|]. rewrite <- (Hn : _ = "sum-it"). exact (get_function_name similar g f Hg).
  - vm_compute in He. discriminate He.
Defined.

Lemma proxied_finds_another_witness :
  exists f, find_function (MkProxy similar [] UsePriority) sum_request = Ok f /\ fn_name f <> "sum-it".
Proof.
  assert (existsb (fun g => str_contains "sum-it" (f_name g) && req_matches "*" (f_version g) &&
            bool_decide (str_cmp (f_name g) "sum-it" = Lt)) (lk_data (functions similar)) = true) as Hg
    by (vm_compute; exact eq_refl).
  apply existsb_exists in Hg as (g & Hg%list_elem_of_In & Hb).
  apply andb_true_iff in Hb as [[Hn Hm]%andb_true_iff Hlt%bool_decide_eq_true].
  destruct (proxied_finds_another (MkProxy similar [] UsePriority) sum_request "*" g similar_inv eq_refl eq_refl Hg Hn Hm Hlt)
    as (f & Hf & _ & Hne).
  exists f. split; [exact Hf|exact Hne].
Defined.
End ExecutorExamples.
