(* ===== verification/WasmMemory.v ===== *)
(** * Guest memory (services/avery/src/runtime/wasi/api.rs, error.rs)

    A guest hands the host pointers into its linear memory: [WasmBuffer] and
    [WasmString] are views of a range of it, [WasmItemPtr] points to one value.
    The memory is the list of its bytes, pointers and lengths are [u32] numbers;
    a panic in a view is the error [Panicked].

    [WasmPtr::deref] of the wasmer crate is the class [WasmPtrLib]: it answers
    where a value of a size lies, within the memory, or nothing. *)
From S2P Require Import Prelude Registry.

(** ** Errors *)

(** [Utf8Error]: the number of bytes that were valid. *)
Record Utf8Error := MkUtf8Error { valid_up_to : nat }.

Inductive WasiError :=
| Unknown (e : string)
| SandboxError (e : string)
| FailedToSetupStdIO (e : string)
| FailedToReadStringPointer (what : string) (e : Utf8Error)
| FailedToFindKey (key : string)
| FailedToDerefPointer
| FailedToStartProcess (e : string)
| FailedToDecodeProtobuf (e : string)
| FailedToEncodeProtobuf (e : string)
| FailedToOpenFile (e : string)
| FailedToConnect (address e : string)
| FailedToMapAttachment (name e : string)
| FailedToUnpackAttachment (name e : string)
| FailedToFindAttachment (name : string)
| FailedToWriteBuffer (e : string)
| FailedToReadBuffer (e : string).

Definition error_code (err : WasiError) : N :=
  match err with
  | Unknown _ => 1
  | FailedToDerefPointer => 2
  | FailedToDecodeProtobuf _ => 3
  | FailedToReadStringPointer _ _ => 5
  | FailedToFindKey _ => 6
  | FailedToEncodeProtobuf _ => 7
  | FailedToStartProcess _ => 8
  | FailedToOpenFile _ => 9
  | FailedToConnect _ _ => 10
  | FailedToMapAttachment _ _ => 11
  | FailedToFindAttachment _ => 12
  | SandboxError _ => 13
  | FailedToSetupStdIO _ => 14
  | FailedToUnpackAttachment _ _ => 15
  | FailedToWriteBuffer _ => 16
  | FailedToReadBuffer _ => 17
  end.
Definition to_error_code {A} (r : result WasiError A) : N :=
  match r with Ok _ => 0 | Err e => error_code e end.

(** How a host function ends other than well. *)
Inductive wasi_failure := WErr (e : WasiError) | WPanic.
Definition no_panic {A} (r : result panic A) : result wasi_failure A := map_err (fun _ => WPanic) r.
Definition wasi {A} (r : result WasiError A) : result wasi_failure A := map_err WErr r.

(** ** Text ([std::str::from_utf8]) *)
Definition byte_N (b : byte) : N := Ascii.N_of_ascii (Ascii.ascii_of_byte b).
Definition within (lo hi : N) (b : byte) : bool := (lo <=? byte_N b)%N && (byte_N b <=? hi)%N.
Definition continuation : byte -> bool := within 128 191.

(** The length of the character that starts a text, if it is one: table 3-7 of
    the Unicode standard. *)
Definition utf8_char (l : list byte) : option nat :=
  match l with
  | [] => None
  | b :: l =>
      if within 0 127 b then Some 1
      else match l with
      | b1 :: l1 =>
          if within 194 223 b && continuation b1 then Some 2
          else match l1 with
          | b2 :: l2 =>
              if ((within 224 224 b && within 160 191 b1) || (within 225 236 b && continuation b1) ||
                  (within 237 237 b && within 128 159 b1) || (within 238 239 b && continuation b1)) && continuation b2
              then Some 3
              else match l2 with
              | b3 :: _ =>
                  if ((within 240 240 b && within 144 191 b1) || (within 241 243 b && continuation b1) ||
                      (within 244 244 b && within 128 143 b1)) && continuation b2 && continuation b3
                  then Some 4 else None
              | [] => None
              end
          | [] => None
          end
      | [] => None
      end
  end.
(** How many bytes are whole characters; [fuel] is the number of bytes. *)
Fixpoint utf8_valid_up_to (fuel : nat) (l : list byte) : nat :=
  match fuel, utf8_char l with
  | S fuel, Some n => n + utf8_valid_up_to fuel (drop n l)
  | _, _ => 0
  end.
Definition from_utf8 (l : list byte) : result Utf8Error string :=
  let n := utf8_valid_up_to (length l) l in
  if Nat.eqb n (length l) then Ok (String.string_of_list_byte l) else Err (MkUtf8Error n).

(** ** Views *)
Definition Memory := list byte.
Definition wasm_page : N := 65536.
Definition u32_modulus : N := 4294967296.
Definition u32_saturating_add (a b : N) : N := N.min (a + b) (u32_modulus - 1).
Definition mem_size (memory : Memory) : N := N.of_nat (length memory).

Record WasmBuffer := MkBuffer { wb_ptr : N; wb_len : N }.
Definition is_empty (self : WasmBuffer) : bool := (wb_len self =? 0)%N.
(** The check of [buffer] and [buffer_mut]: [size().bytes().0 as u32]. *)
Definition beyond_capacity (memory : Memory) (self : WasmBuffer) : bool :=
  (mem_size memory mod u32_modulus <? u32_saturating_add (wb_ptr self) (wb_len self))%N.
Definition buffer (self : WasmBuffer) (memory : Memory) : result panic (list byte) :=
  if beyond_capacity memory self then Err Panicked
  else Ok (take (N.to_nat (wb_len self)) (drop (N.to_nat (wb_ptr self)) memory)).
(** Overwriting [buffer_mut] from its start. *)
Definition buffer_put (self : WasmBuffer) (content : list byte) (memory : Memory) : result panic Memory :=
  if beyond_capacity memory self then Err Panicked
  else Ok (write_at (N.to_nat (wb_ptr self)) content memory).

(** [clone_from_slice] panics on slices of different lengths. *)
Definition buffer_write (self : WasmBuffer) (buf : list byte) (memory : Memory) : result panic (Memory * N) :=
  _ ← buffer self memory;
  if (N.of_nat (length buf) =? wb_len self)%N
  then memory ← buffer_put self buf memory; Ok (memory, wb_len self)
  else Err Panicked.
Definition buffer_read (self : WasmBuffer) (buf : list byte) (memory : Memory) : result panic (list byte * N) :=
  content ← buffer self memory;
  if (N.of_nat (length buf) =? wb_len self)%N then Ok (content, wb_len self) else Err Panicked.
(** [Write::write_all]: [write] takes the whole of a text or panics, so its loop
    runs once, or not at all. *)
Definition buffer_write_all (self : WasmBuffer) (buf : list byte) (memory : Memory) : result panic Memory :=
  match buf with
  | [] => Ok memory
  | _ => fst <$> buffer_write self buf memory
  end.

Definition WasmString := WasmBuffer.
Definition string_try_from (s : WasmString) (memory : Memory) : result panic (result Utf8Error string) :=
  from_utf8 <$> buffer s memory.

(** [WasmItemPtr]: a pointer to one value of [size] bytes. *)
Class WasmPtrLib := {
  wasm_deref : N -> N -> N -> option N;
  wasm_deref_within : forall size ptr width at_, wasm_deref size ptr width = Some at_ -> (at_ + width <= size)%N
}.
Fixpoint to_le_bytes (width : nat) (value : N) : list byte :=
  match width with
  | O => []
  | S width => Ascii.byte_of_ascii (Ascii.ascii_of_N (value mod 256)) :: to_le_bytes width (value / 256)
  end.
Definition WasmItemPtr := N.
Definition item_set `{WasmPtrLib} (width : nat) (self : WasmItemPtr) (val : N) (memory : Memory)
  : result WasiError Memory :=
  match wasm_deref (mem_size memory) self (N.of_nat width) with
  | Some at_ => Ok (write_at (N.to_nat at_) (to_le_bytes width val) memory)
  | None => Err FailedToDerefPointer
  end.

(** ** Theorems *)
Lemma to_le_bytes_length width v : length (to_le_bytes width v) = width.
Proof. revert v. induction width as [|w IH]; intros v; cbn; [done|]. by rewrite IH. Qed.

Lemma write_at_length pos (new old : list byte) :
  pos + length new <= length old -> length (write_at pos new old) = length old.
Proof. intros H. unfold write_at. rewrite !length_app, length_take, length_drop. lia. Qed.

Lemma write_at_lookup_out pos (new old : list byte) i :
  pos + length new <= length old -> i < pos \/ pos + length new <= i -> write_at pos new old !! i = old !! i.
Proof.
  intros Hle Hi. unfold write_at. destruct Hi as [Hi|Hi].
  - rewrite lookup_app_l by (rewrite length_take; lia). by rewrite lookup_take_lt.
  - rewrite lookup_app_r by (rewrite length_take; lia). rewrite length_take, Nat.min_l by lia.
    rewrite lookup_app_r by lia. rewrite lookup_drop. f_equal. lia.
Qed.

Lemma write_at_read pos (new old : list byte) :
  pos + length new <= length old -> take (length new) (drop pos (write_at pos new old)) = new.
Proof.
  intros H. unfold write_at. rewrite drop_app_length' by (rewrite length_take; lia). by rewrite take_app_length.
Qed.

(** Reading a range an update leaves alone. *)
Lemma write_at_read_other pos (new old : list byte) at_ n :
  pos + length new <= length old -> at_ + n <= pos \/ pos + length new <= at_ ->
  take n (drop at_ (write_at pos new old)) = take n (drop at_ old).
Proof.
  intros H Hd. apply list_eq. intros i. destruct (decide (i < n)) as [Hi|Hi].
  - rewrite !lookup_take_lt, !lookup_drop by done. apply write_at_lookup_out; [done|lia].
  - by rewrite !lookup_take_ge by lia.
Qed.

Definition whole_pages (memory : Memory) : Prop := (mem_size memory mod wasm_page = 0)%N.
Definition in_memory (memory : Memory) (b : WasmBuffer) : Prop := (wb_ptr b + wb_len b <= mem_size memory)%N.

Lemma beyond_capacity_iff memory b :
  whole_pages memory -> (mem_size memory < u32_modulus)%N ->
  beyond_capacity memory b = false <-> in_memory memory b.
Proof.
  intros Hp Hlt. unfold beyond_capacity, in_memory, u32_saturating_add.
  rewrite (N.mod_small (mem_size memory)) by done. rewrite N.ltb_ge.
  unfold whole_pages, wasm_page, u32_modulus in *. split; [|lia]. intros Hm.
  pose proof (N.div_mod (mem_size memory) 65536 ltac:(done)) as Hd. rewrite Hp in Hd.
  destruct (N.min_spec (wb_ptr b + wb_len b) (4294967296 - 1)) as [[? Hx]|[? Hx]]; rewrite Hx in Hm; lia.
Qed.

Lemma in_memory_nat memory b : in_memory memory b -> N.to_nat (wb_ptr b) + N.to_nat (wb_len b) <= length memory.
Proof. unfold in_memory, mem_size. lia. Qed.

(** C23: the bounds check of guest memory.  On a memory of whole pages below
    4 GiB a view gives the bytes of exactly its range when the range lies in the
    memory and panics otherwise, also where pointer and length overflow 32 bits;
    a write of as many bytes as the view has changes that range only and can be
    read back, one of any other length panics.  On a memory of the full 4 GiB,
    whose size is zero as a 32-bit number, every access panics but the one of the
    empty view at address 0. *)
Theorem buffer_bounds memory b content :
  whole_pages memory ->
  ((mem_size memory < u32_modulus)%N ->
     (in_memory memory b ->
        (exists l, buffer b memory = Ok l /\ N.of_nat (length l) = wb_len b /\
           forall i, i < length l -> l !! i = memory !! (N.to_nat (wb_ptr b) + i)) /\
        (N.of_nat (length content) = wb_len b ->
           exists memory', buffer_write b content memory = Ok (memory', wb_len b) /\
             mem_size memory' = mem_size memory /\ buffer b memory' = Ok content /\
             forall i, i < N.to_nat (wb_ptr b) \/ N.to_nat (wb_ptr b + wb_len b) <= i -> memory' !! i = memory !! i) /\
        (N.of_nat (length content) <> wb_len b -> buffer_write b content memory = Err Panicked)) /\
     (~ in_memory memory b -> buffer b memory = Err Panicked /\ buffer_write b content memory = Err Panicked)) /\
  (mem_size memory = u32_modulus -> (0 < wb_ptr b + wb_len b)%N ->
     buffer b memory = Err Panicked /\ buffer_write b content memory = Err Panicked).
Proof.
  intros Hp. split.
  - intros Hlt. pose proof (beyond_capacity_iff memory b Hp Hlt) as Hiff. split.
    + intros Hin. pose proof (in_memory_nat _ _ Hin) as Hn. apply Hiff in Hin as Hb.
      unfold buffer_write, buffer, buffer_put. rewrite Hb. cbn [mbind result_bind]. split_and!.
      * eexists. split; [done|]. rewrite length_take, length_drop. split; [lia|].
        intros i Hi. by rewrite lookup_take_lt, lookup_drop by lia.
      * intros Hlen. rewrite (proj2 (N.eqb_eq _ _) Hlen). eexists. split; [done|].
        assert (length (write_at (N.to_nat (wb_ptr b)) content memory) = length memory) as Hsize
          by (apply write_at_length; lia).
        unfold mem_size. rewrite Hsize. split; [done|]. split.
        -- assert (beyond_capacity (write_at (N.to_nat (wb_ptr b)) content memory) b = false) as ->.
           { revert Hb. unfold beyond_capacity, mem_size. by rewrite Hsize. }
           f_equal. replace (N.to_nat (wb_len b)) with (length content) by lia. apply write_at_read. lia.
        -- intros i Hi. apply write_at_lookup_out; lia.
      * intros Hne. by rewrite (proj2 (N.eqb_neq _ _) Hne).
    + intros Hin. assert (beyond_capacity memory b = true) as Hb.
      { apply not_false_iff_true. by rewrite Hiff. }
      unfold buffer_write, buffer. by rewrite Hb.
  - intros Hfull Hpos. assert (beyond_capacity memory b = true) as Hb.
    { unfold beyond_capacity, u32_saturating_add. rewrite Hfull, N.Div0.mod_same. apply N.ltb_lt.
      unfold u32_modulus. lia. }
    unfold buffer_write, buffer. by rewrite Hb.
Qed.

(** One page of zeroes. *)
Definition one_page : Memory := replicate (N.to_nat wasm_page) Corelib.Init.Byte.x00.
Lemma one_page_size : mem_size one_page = wasm_page.
Proof. unfold mem_size, one_page. rewrite length_replicate. apply N2Nat.id. Qed.

Lemma buffer_bounds_witness :
  (exists memory', buffer_write (MkBuffer 65532 4) (bytes_of "firm") one_page = Ok (memory', 4%N) /\
     buffer (MkBuffer 65532 4) memory' = Ok (bytes_of "firm")) /\
  buffer_write (MkBuffer 0 5) (bytes_of "firm") one_page = Err Panicked /\
  buffer (MkBuffer 4294967295 4) one_page = Err Panicked.
Proof.
  assert (whole_pages one_page) as Hp by (unfold whole_pages; rewrite one_page_size; reflexivity).
  assert (mem_size one_page < u32_modulus)%N as Hlt by (rewrite one_page_size; reflexivity).
  assert (forall p n, (p + n <=? 65536)%N = true -> in_memory one_page (MkBuffer p n)) as Hin
    by (intros p n H; apply N.leb_le in H; unfold in_memory; rewrite one_page_size; exact H).
  split_and!.
  - destruct (buffer_bounds one_page (MkBuffer 65532 4) (bytes_of "firm") Hp) as [H _].
    destruct (H Hlt) as [H1 _]. destruct (H1 (Hin 65532%N 4%N eq_refl)) as (_ & Hw & _).
    destruct (Hw eq_refl) as (m & Hm & _ & Hr & _). exists m. split; [exact Hm|exact Hr].
  - destruct (buffer_bounds one_page (MkBuffer 0 5) (bytes_of "firm") Hp) as [H _].
    destruct (H Hlt) as [H1 _]. destruct (H1 (Hin 0%N 5%N eq_refl)) as (_ & _ & Hn). apply Hn. discriminate.
  - destruct (buffer_bounds one_page (MkBuffer 4294967295 4) [] Hp) as [H _].
    destruct (H Hlt) as [_ H2]. apply H2. unfold in_memory. rewrite one_page_size. unfold wasm_page. cbn. lia.
Defined.
