(* ===== verification/WasiHost.v ===== *)
(** * What a guest gets of its host (services/avery/src/runtime/wasi/sandbox.rs,
    output.rs, process.rs)

    A [Sandbox] is a host folder with the name the guest knows it by; names in
    arguments of host processes are replaced with the [regex] crate, the class
    [RegexReplace].  An [Output] duplicates what is written to it to several
    sinks; what a sink does with bytes is a parameter.  [read_output] forwards the
    lines of a host process. *)
From S2P Require Import Prelude Proto Stream Registry Executor WasmMemory.

(** ** wasi.proto *)
Record StartProcessRequest := MkStartProcess {
  sp_command : string; sp_args : list string; sp_environment_variables : gmap string string }.
Record RuntimeContext := MkRuntimeContext {
  rc_code : option Attachment; rc_entrypoint : string; rc_arguments : gmap string string; rc_name : string }.

(** ** Sandboxes *)

(** [Regex::new] and [Regex::replace_all] with two capture groups. *)
Class RegexReplace := {
  RegexObject : Type;
  regex_new : string -> result string RegexObject;
  regex_replace_all : RegexObject -> string -> (string -> string -> string) -> string
}.
Record Sandbox `{RegexReplace} := MkSandbox { host_path : string; sb_regex : RegexObject; guest_path : string }.

Section sandbox.
Context {RR : RegexReplace}.

Definition sandbox_pattern (guest_path : string) : string :=
  "(^|[=\s;:" +:+ dquote +:+ "])" +:+ guest_path +:+ "(\b)".
Definition sandbox_new (os : ExecOs) (root_dir guest_path : string) : result WasiError Sandbox :=
  let host_path := path_join root_dir guest_path in
  _ ← map_err (fun e => SandboxError ("Failed to create sandbox folder: " +:+ e)) (create_dir_all os host_path);
  regex ← map_err (fun e => SandboxError ("Failed to create regex for sandbox: " +:+ e))
            (regex_new (sandbox_pattern guest_path));
  Ok (MkSandbox _ host_path regex guest_path).
Definition sandbox_map (self : Sandbox) (arg : string) : string :=
  regex_replace_all (sb_regex self) arg (fun cap1 cap2 => cap1 +:+ host_path self +:+ cap2).

(** Arguments and environment of a host process. *)
Definition map_sandboxes (sandboxes : list Sandbox) (s : string) : string :=
  foldl (fun s sndbx => sandbox_map sndbx s) s sandboxes.
Definition get_args_and_envs (request : StartProcessRequest) (sandboxes : list Sandbox)
  : list string * gmap string string :=
  (map_sandboxes sandboxes <$> sp_args request, map_sandboxes sandboxes <$> sp_environment_variables request).
End sandbox.

(** ** Outputs *)
Section output.
Context {Sink : Type}.
(** [Write::write] of a sink: how many bytes it took. *)
Variable sink_write : list byte -> Sink -> Sink * result string nat.
Variable sink_flush : Sink -> Sink * result string unit.

Definition Output := lock (list Sink).
Definition output_new (sinks : list Sink) : Output := lock_new sinks.

(** [iter_mut().try_for_each]. *)
Fixpoint try_for_each {A} (f : Sink -> Sink * result string A) (sinks : list Sink) : list Sink * result string unit :=
  match sinks with
  | [] => ([], Ok tt)
  | s :: rest =>
      match f s with
      | (s', Ok _) => let '(rest', r) := try_for_each f rest in (s' :: rest', r)
      | (s', Err e) => (s' :: rest, Err e)
      end
  end.
Definition each_sink {A} (f : Sink -> Sink * result string A) : sem Output string unit :=
  fun self => let '(sinks, r) := try_for_each f (lk_data self) in (lock_set self sinks, r).
Definition output_write (buf : list byte) : sem Output string nat :=
  _ ← sem_ask (lock_get (fun _ => "Failed to aquire write lock for output sinks."));
  _ ← each_sink (sink_write buf);
  mret (length buf).
Definition output_flush : sem Output string unit :=
  _ ← sem_ask (lock_get (fun _ => "Failed to aquire flush lock for output sinks."));
  each_sink sink_flush.

(** [BufRead::read_line] up to the end of the source, a line with its newline. *)
Fixpoint split_lines (line : list byte) (source : list byte) : list (list byte) :=
  match source with
  | [] => match line with [] => [] | _ => [line] end
  | b :: source =>
      if (byte_N b =? 10)%N then (line ++ [b]) :: split_lines [] source else split_lines (line ++ [b]) source
  end.
(** The loop of [read_output]: it ends at the first line that is not text. *)
Fixpoint forward_lines (lines : list (list byte)) (output : Output) : Output :=
  match lines with
  | [] => output
  | line :: lines =>
      match from_utf8 line with
      | Ok s => forward_lines lines (output_write (bytes_of s) output).1
      | Err _ => output
      end
  end.
Definition read_output (output : Output) (source : option (list byte)) : Output :=
  match source with
  | Some src => forward_lines (split_lines [] src) output
  | None => output
  end.
End output.
Arguments Output Sink : clear implicits.

(** The sink that sends to the caller of the execution. *)
Record NamedFunctionOutputSink := MkNamedSink { ns_name : string; ns_sink : FunctionOutputSink }.
Definition named_write (self : NamedFunctionOutputSink) (buf : list byte) (outputs : Outputs)
  : Outputs * result string nat :=
  let content := match from_utf8 buf with Ok s => s | Err _ => EmptyString end in
  (sink_send (ns_sink self) (ns_name self) content outputs, Ok (length buf)).

(** ** Theorems *)
Lemma concat_split_lines line source : concat (split_lines line source) = line ++ source.
Proof.
  revert line. induction source as [|b source IH]; intros line; cbn.
  - destruct line; cbn; by rewrite ?app_nil_r.
  - destruct (byte_N b =? 10)%N; cbn; rewrite IH; cbn; by rewrite <- (assoc_L (++)).
Qed.

Lemma from_utf8_Ok l s : from_utf8 l = Ok s -> bytes_of s = l.
Proof.
  unfold from_utf8. destruct (Nat.eqb _ _); [|done]. intros [= <-]. apply String.list_byte_of_string_of_list_byte.
Qed.

(** Sinks that record what they are given. *)
Section forwarding.
Context {Sink : Type} (sink_write : list byte -> Sink -> Sink * result string nat).
Variable received : Sink -> list byte.
Hypothesis sink_takes : forall buf s, received (sink_write buf s).1 = received s ++ buf.

Lemma try_for_each_received buf sinks sinks' :
  try_for_each (sink_write buf) sinks = (sinks', Ok tt) -> received <$> sinks' = (fun s => received s ++ buf) <$> sinks.
Proof.
  revert sinks'. induction sinks as [|s sinks IH]; intros sinks'; cbn [try_for_each]; [by intros [= <-]|].
  destruct (sink_write buf s) as [s' [n|e]] eqn:Hw; [|done].
  destruct (try_for_each (sink_write buf) sinks) as [rest r] eqn:Hr. intros [= <- ->].
  rewrite !fmap_cons. f_equal; [|by apply IH]. pose proof (sink_takes buf s) as Hs. by rewrite Hw in Hs.
Qed.

Lemma output_write_received buf (o o' : Output Sink) n :
  output_write sink_write buf o = (o', Ok n) ->
  n = length buf /\ lk_poisoned o' = lk_poisoned o /\
  received <$> lk_data o' = (fun s => received s ++ buf) <$> lk_data o.
Proof.
  unfold output_write, sem_ask, each_sink. cbv [mbind sem_bind mret sem_ret]. unfold lock_get.
  destruct (lk_poisoned o) eqn:Hp; [done|]. destruct (try_for_each _ _) as [sinks [[]|e]] eqn:Ht; [|done].
  intros [= <- <-]. cbn. split_and!; [done..|]. by apply try_for_each_received.
Qed.

Lemma forward_lines_received lines (o : Output Sink) :
  (forall o buf, is_ok (output_write sink_write buf o).2 = negb (lk_poisoned o)) -> lk_poisoned o = false ->
  exists n, received <$> lk_data (forward_lines sink_write lines o) =
              (fun s => received s ++ concat (take n lines)) <$> lk_data o /\
    Forall (fun line => is_ok (from_utf8 line) = true) (take n lines) /\
    (n = length lines \/ exists line, lines !! n = Some line /\ is_ok (from_utf8 line) = false).
Proof.
  intros Hok. revert o. induction lines as [|line lines IH]; intros o Hp; cbn [forward_lines].
  { exists 0. cbn. split_and!; [|constructor|by left]. apply list_fmap_ext. intros. by rewrite app_nil_r. }
  destruct (from_utf8 line) as [s|e] eqn:Hu.
  - specialize (Hok o (bytes_of s)) as Hw. rewrite Hp in Hw.
    destruct (output_write sink_write (bytes_of s) o) as [o' [k|e]] eqn:Ho; [|done].
    apply output_write_received in Ho as (_ & Hp' & Hr). rewrite Hp in Hp'.
    destruct (IH o' Hp') as (n & Hn & Hall & Hend). exists (S n). cbn [take concat]. split_and!.
    + cbn [fst]. rewrite Hn. rewrite (from_utf8_Ok _ _ Hu) in Hr.
      transitivity ((fun l => l ++ concat (take n lines)) <$> (received <$> lk_data o')).
      { by rewrite <- list_fmap_compose. }
      rewrite Hr, <- list_fmap_compose. apply list_fmap_ext. intros i x _. cbn. by rewrite <- (assoc_L (++)).
    + constructor; [by rewrite Hu|done].
    + destruct Hend as [->|He]; [by left|by right].
  - exists 0. cbn. split_and!; [|constructor|right; exists line; by rewrite Hu]. apply list_fmap_ext. intros. by rewrite app_nil_r.
Qed.

(** Forwarding the output of a host process gives every sink, in order,
    exactly the lines before the first line that is not UTF-8: all of the output
    when it is text, and from such a line on nothing, whatever the process writes
    after it. *)
Theorem read_output_prefix source (o : Output Sink) :
  (forall o buf, is_ok (output_write sink_write buf o).2 = negb (lk_poisoned o)) -> lk_poisoned o = false ->
  exists lines rest, source = concat (lines ++ rest) /\ split_lines [] source = lines ++ rest /\
    received <$> lk_data (read_output sink_write o (Some source)) = (fun s => received s ++ concat lines) <$> lk_data o /\
    Forall (fun line => is_ok (from_utf8 line) = true) lines /\
    match head rest with None => True | Some line => is_ok (from_utf8 line) = false end.
Proof.
  intros Hok Hp. destruct (forward_lines_received (split_lines [] source) o Hok Hp) as (n & Hr & Hall & Hend).
  exists (take n (split_lines [] source)), (drop n (split_lines [] source)). rewrite take_drop, concat_split_lines.
  split_and!; [done|done|exact Hr|done|].
  rewrite head_lookup, lookup_drop, Nat.add_0_r. destruct Hend as [->|(line & -> & Hbad)]; [|done].
  by rewrite lookup_ge_None_2.
Qed.
End forwarding.

(** ** Sinks that take everything *)
Module HostExamples.
Definition store (buf : list byte) (s : list byte) : list byte * result string nat := (s ++ buf, Ok (length buf)).
Definition not_text : byte := Corelib.Init.Byte.xff.

Lemma store_takes (o : Output (list byte)) buf : is_ok (output_write store buf o).2 = negb (lk_poisoned o).
Proof.
  assert (forall sinks, exists sinks', try_for_each (store buf) sinks = (sinks', Ok tt)) as H.
  { induction sinks as [|s sinks [sinks' IH]]; cbn; [eauto|]. rewrite IH. eauto. }
  unfold output_write, sem_ask, each_sink, lock_get. cbv [mbind sem_bind mret sem_ret].
  destruct (lk_poisoned o); [done|]. by destruct (H (lk_data o)) as [sinks' ->].
Qed.

Lemma read_output_prefix_witness :
  exists lines rest, concat (lines ++ rest) = bytes_of "one" ++ bytes_of newline ++ [not_text] /\
    lk_data (read_output store (output_new [[]]) (Some (bytes_of "one" ++ bytes_of newline ++ [not_text]))) = [concat lines] /\
    concat lines = bytes_of ("one" +:+ newline) /\
    match head rest with None => True | Some line => is_ok (from_utf8 line) = false end.
Proof.
  destruct (read_output_prefix store (fun s => s) (fun buf s => eq_refl) (bytes_of "one" ++ bytes_of newline ++ [not_text])
              (output_new [[]]) store_takes eq_refl) as (lines & rest & Hs & _ & Hr & _ & Hbad).
  rewrite list_fmap_id in Hr. change (_ <$> lk_data (output_new [[]])) with [concat lines] in Hr.
  exists lines, rest. split; [by rewrite <- Hs|]. split; [exact Hr|]. split; [|exact Hbad].
  assert (lk_data (read_output store (output_new [[]]) (Some (bytes_of "one" ++ bytes_of newline ++ [not_text]))) =
          [bytes_of ("one" +:+ newline)]) as Hv by (vm_compute; exact eq_refl).
  rewrite Hv in Hr. injection Hr as Hr. by rewrite <- Hr.
Defined.
End HostExamples.
