(* ===== verification/WasiProcess.v ===== *)
(** * Host processes and their readers (services/avery/src/runtime/wasi/process.rs,
    output.rs, net.rs)

    A process started for a guest writes to two pipes, and a thread for each of them
    forwards its lines to an output ([read_output]) while the process runs and after
    it ended.  [process_step] is one step of the process or of a reader, and a list
    of actors an interleaving.  A reader that meets a line that is not text ends, and
    with it its end of the pipe: the next write of the process to it is its death by
    a signal, unless it handles that.

    How much a pipe holds only delays a process, which the interleavings cover.  The
    two outputs have sinks of their own.

    The second part is outputs and sockets as files of a guest (output.rs, net.rs): the
    class [WasiFile] is the trait of the WASI crate, an [Output] and a [SocketFile]
    implement it.  A socket is written down as its address and opened again when it is
    read ([visit_seq], [visit_map]).  The operating system's streams are the class
    [TcpStreams]; moments are not modelled, so reading does not wait. *)
From S2P Require Import Prelude Registry Executor WasmMemory WasiHost.

(** ** Readers *)

(** The first line of a text with its newline, and what is after it. *)
Fixpoint take_line (l : list byte) : option (list byte * list byte) :=
  match l with
  | [] => None
  | b :: l => if (byte_N b =? 10)%N then Some ([b], l) else (fun p => (b :: p.1, p.2)) <$> take_line l
  end.

Section process.
Context {Sink : Type}.
Variable sink_write : list byte -> Sink -> Sink * result string nat.

(** A thread in [read_output]: what is in its pipe, and whether it still reads it. *)
Record Reader := MkReader { rd_pipe : list byte; rd_output : Output Sink; rd_open : bool }.
Definition closed (r : Reader) : Reader := MkReader (rd_pipe r) (rd_output r) false.
Definition fill (b : list byte) (r : Reader) : Reader := MkReader (rd_pipe r ++ b) (rd_output r) (rd_open r).
(** One round of the loop with a line of the pipe. *)
Definition read_line (line rest : list byte) (r : Reader) : Reader :=
  match from_utf8 line with
  | Ok s => MkReader rest (output_write sink_write (bytes_of s) (rd_output r)).1 true
  | Err _ => MkReader rest (rd_output r) false
  end.
(** Nothing when the reader has to wait or has ended; [eof] says that the process has. *)
Definition reader_step (eof : bool) (r : Reader) : option Reader :=
  if rd_open r then
    match take_line (rd_pipe r) with
    | Some (line, rest) => Some (read_line line rest r)
    | None => if eof then Some (match rd_pipe r with [] => closed r | _ => read_line (rd_pipe r) [] r end) else None
    end
  else None.

(** ** Processes *)
Inductive Std := Stdout | Stderr.
#[export] Instance std_eq_dec : EqDecision Std.
Proof. solve_decision. Defined.
(** What a process writes, one after the other, and its exit code, if it has one. *)
Record Program := MkProgram { pg_writes : list (Std * list byte); pg_exit : option Z }.
Inductive Child := Running (todo : list (Std * list byte)) | Ended (code : option Z).
Record Execution := MkExecution { ex_child : Child; ex_stdout : Reader; ex_stderr : Reader }.
Definition reader (st : Std) (x : Execution) : Reader := match st with Stdout => ex_stdout x | Stderr => ex_stderr x end.
Definition set_reader (st : Std) (r : Reader) (x : Execution) : Execution :=
  match st with
  | Stdout => MkExecution (ex_child x) r (ex_stderr x)
  | Stderr => MkExecution (ex_child x) (ex_stdout x) r
  end.
Definition set_child (c : Child) (x : Execution) : Execution := MkExecution c (ex_stdout x) (ex_stderr x).
Definition has_ended (x : Execution) : bool := match ex_child x with Ended _ => true | Running _ => false end.
(** Spawning with the readers set up. *)
Definition setup_readers (p : Program) (out err : Output Sink) : Execution :=
  MkExecution (Running (pg_writes p)) (MkReader [] out true) (MkReader [] err true).

Variable exit : option Z.
(** Writing nothing does not meet the pipe. *)
Definition child_step (x : Execution) : option Execution :=
  match ex_child x with
  | Ended _ => None
  | Running [] => Some (set_child (Ended exit) x)
  | Running ((st, b) :: todo) =>
      if rd_open (reader st x) || bool_decide (b = [])
      then Some (set_child (Running todo) (set_reader st (fill b (reader st x)) x))
      else Some (set_child (Ended None) x)
  end.
Inductive Actor := TheChild | TheReader (st : Std).
Definition process_step (a : Actor) (x : Execution) : option Execution :=
  match a with
  | TheChild => child_step x
  | TheReader st => (fun r => set_reader st r x) <$> reader_step (has_ended x) (reader st x)
  end.
(** An actor that has to wait lets the others go on. *)
Definition process_run (actors : list Actor) (x : Execution) : Execution :=
  foldl (fun x a => default x (process_step a x)) x actors.
Definition finished (x : Execution) : bool := has_ended x && negb (rd_open (ex_stdout x)) && negb (rd_open (ex_stderr x)).
(** What [run_process] answers when the process has ended: [code().unwrap_or(-1)]. *)
Definition exit_code (x : Execution) : option Z :=
  match ex_child x with Ended code => Some (default (-1)%Z code) | Running _ => None end.

(** ** Lines *)
Lemma take_line_split l line rest more : take_line l = Some (line, rest) ->
  forall before, split_lines before (l ++ more) = (before ++ line) :: split_lines [] (rest ++ more).
Proof.
  revert line. induction l as [|b l IH]; intros line H before; [done|]. cbn [take_line] in H. cbn [app split_lines].
  destruct (byte_N b =? 10)%N; [by injection H as <- <-|].
  destruct (take_line l) as [[line' rest']|]; [|done]. injection H as <- <-.
  rewrite (IH line' eq_refl). cbn. by rewrite <- app_assoc.
Qed.
Lemma no_line_split l : take_line l = None -> forall before, split_lines before l = match before ++ l with [] => [] | line => [line] end.
Proof.
  induction l as [|b l IH]; intros H before; cbn [take_line split_lines] in *; [rewrite app_nil_r; by destruct before|].
  destruct (byte_N b =? 10)%N; [done|]. destruct (take_line l) as [[]|]; [done|]. rewrite IH by done.
  by rewrite <- app_assoc.
Qed.
Lemma take_line_length l line rest : take_line l = Some (line, rest) -> l = line ++ rest /\ line <> [].
Proof.
  revert line. induction l as [|b l IH]; intros line H; [done|]. cbn [take_line] in H.
  destruct (byte_N b =? 10)%N; [by injection H as <- <-|]. destruct (take_line l) as [[line' rest']|]; [|done].
  injection H as <- <-. by destruct (IH line' eq_refl) as [-> _].
Qed.

(** ** What a reader has done *)
Definition forwards (lines : list (list byte)) (o0 o : Output Sink) : Prop :=
  forall rest, forward_lines sink_write (lines ++ rest) o0 = forward_lines sink_write rest o.
Lemma forwards_more lines o0 o line s : forwards lines o0 o -> from_utf8 line = Ok s ->
  forwards (lines ++ [line]) o0 (output_write sink_write (bytes_of s) o).1.
Proof. intros H Hu rest. rewrite <- app_assoc, H. cbn. by rewrite Hu. Qed.
Definition is_text (line : list byte) : bool := is_ok (from_utf8 line).

(** A reader that started with the output [o0] and into whose pipe [w] was written. *)
Inductive reader_inv (o0 : Output Sink) (w : list byte) (ended : bool) : Reader -> Prop :=
| reading lines pipe o :
    (forall more, (ended = true -> more = []) -> split_lines [] (w ++ more) = lines ++ split_lines [] (pipe ++ more)) ->
    forwards lines o0 o -> reader_inv o0 w ended (MkReader pipe o true)
| at_end lines pipe o : ended = true -> split_lines [] w = lines -> forwards lines o0 o ->
    reader_inv o0 w ended (MkReader pipe o false)
| at_bad_line lines line pipe o : is_text line = false ->
    (forall more, (ended = true -> more = []) -> exists rest, split_lines [] (w ++ more) = lines ++ line :: rest) ->
    forwards lines o0 o ->
    reader_inv o0 w ended (MkReader pipe o false).
Lemma reader_inv_start o : reader_inv o [] false (MkReader [] o true).
Proof. by apply (reading _ _ _ []). Qed.
Lemma reader_inv_fill o0 w b r : reader_inv o0 w false r -> rd_open r = true \/ b = [] -> reader_inv o0 (w ++ b) false (fill b r).
Proof.
  intros H Hb. destruct H as [lines pipe o Hl Ho| |lines line pipe o Hbad Hl Ho]; cbn in Hb.
  - apply (reading _ _ _ lines); [|done]. intros more _. rewrite <- !app_assoc. by apply Hl.
  - destruct Hb as [| ->]; [done|]. rewrite app_nil_r. by eapply at_end.
  - destruct Hb as [| ->]; [done|]. rewrite app_nil_r. apply (at_bad_line _ _ _ lines line); auto.
Qed.
Lemma reader_inv_ended o0 w r : reader_inv o0 w false r -> reader_inv o0 w true r.
Proof.
  destruct 1 as [lines pipe o Hl Ho|lines pipe o He|lines line pipe o Hbad Hl Ho]; [|done|].
  - apply (reading _ _ _ lines); auto.
  - apply (at_bad_line _ _ _ lines line); auto.
Qed.
Lemma reader_inv_step o0 w e r r' : reader_inv o0 w e r -> reader_step e r = Some r' -> reader_inv o0 w e r'.
Proof.
  intros H Hr. destruct H as [lines pipe o Hl Ho| |]; [|done..]. unfold reader_step in Hr. cbn [rd_open rd_pipe] in Hr.
  destruct (take_line pipe) as [[line rest]|] eqn:Ht.
  - injection Hr as <-. unfold read_line. destruct (from_utf8 line) as [s|] eqn:Hu.
    + apply (reading _ _ _ (lines ++ [line])); [|by apply forwards_more]. intros more Hm.
      by rewrite Hl, (take_line_split _ _ _ more Ht), <- app_assoc.
    + apply (at_bad_line _ _ _ lines line); [by unfold is_text; rewrite Hu| |done]. intros more Hm.
      exists (split_lines [] (rest ++ more)). by rewrite Hl, (take_line_split _ _ _ more Ht).
  - destruct e; [|done]. injection Hr as <-. specialize (Hl [] (fun _ => eq_refl)) as Hl0. rewrite !app_nil_r, (no_line_split _ Ht) in Hl0.
    destruct pipe as [|b pipe]; [by apply (at_end _ _ _ lines); rewrite ?app_nil_r in *|].
    cbn [app] in Hl0. unfold read_line. destruct (from_utf8 (b :: pipe)) as [s|] eqn:Hu.
    + apply (reading _ _ _ (lines ++ [b :: pipe])); [|by apply forwards_more]. intros more Hm. rewrite (Hm eq_refl), app_nil_r.
      by rewrite Hl0, app_nil_r.
    + apply (at_bad_line _ _ _ lines (b :: pipe)); [by unfold is_text; rewrite Hu| |done]. intros more Hm.
      rewrite (Hm eq_refl), app_nil_r. by exists [].
Qed.

(** ** Interleavings *)
Fixpoint written (st : Std) (writes : list (Std * list byte)) : list byte :=
  match writes with
  | [] => []
  | (st', b) :: writes => (if decide (st' = st) then b else []) ++ written st writes
  end.
Lemma written_app st l l' : written st (l ++ l') = written st l ++ written st l'.
Proof. induction l as [|[st' b] l IH]; [done|]. cbn. by rewrite IH, <- app_assoc. Qed.
Definition bad_line (l : list byte) : Prop := exists line, line ∈ split_lines [] l /\ is_text line = false.
(** What the process did: it wrote the first of its writes, and ended of its own or
    because a reader had met a line that is no text. *)
Definition child_inv (writes past : list (Std * list byte)) (c : Child) : Prop :=
  match c with
  | Running todo => writes = past ++ todo
  | Ended code => (writes = past /\ code = exit) \/ (code = None /\ (exists todo, writes = past ++ todo) /\ exists st, bad_line (written st past))
  end.
Section initial.
Context (p : Program) (out err : Output Sink).
Definition initial (st : Std) : Output Sink := match st with Stdout => out | Stderr => err end.
Definition execution_inv (x : Execution) : Prop := exists past,
  child_inv (pg_writes p) past (ex_child x) /\
  forall st, reader_inv (initial st) (written st past) (has_ended x) (reader st x).
Lemma reader_set st st' r x : reader st' (set_reader st r x) = if decide (st = st') then r else reader st' x.
Proof. by destruct st, st'. Qed.
Lemma ended_set st r x : has_ended (set_reader st r x) = has_ended x.
Proof. by destruct st. Qed.
Lemma execution_inv_start : execution_inv (setup_readers p out err).
Proof. exists []. split; [done|]. intros []; apply reader_inv_start. Qed.
Lemma execution_inv_step a x x' : process_step a x = Some x' -> execution_inv x -> execution_inv x'.
Proof.
  intros Hs (past & Hc & Hr). destruct a as [|st]; cbn [process_step] in Hs.
  - unfold child_step in Hs. destruct (ex_child x) as [[|[st b] todo]|code] eqn:Hx; [| |done].
    + injection Hs as <-. exists past. cbn [child_inv] in Hc. rewrite app_nil_r in Hc. split; [by left|]. intros st.
      specialize (Hr st). unfold has_ended in Hr. rewrite Hx in Hr. apply reader_inv_ended in Hr. by destruct st.
    + unfold has_ended in Hr. rewrite Hx in Hr. cbn [child_inv] in Hc.
      destruct (rd_open (reader st x) || bool_decide (b = [])) eqn:Ho; injection Hs as <-.
      * exists (past ++ [(st, b)]). split; [cbn; by rewrite <- app_assoc|]. intros st'.
        change (reader_inv (initial st') (written st' (past ++ [(st, b)])) false (reader st' (set_reader st (fill b (reader st x)) x))).
        rewrite reader_set, written_app. cbn [written]. rewrite app_nil_r. destruct (decide (st = st')) as [<-|Hne].
        -- apply reader_inv_fill; [done|]. apply orb_true_iff in Ho as [Ho|Ho%bool_decide_eq_true]; auto.
        -- rewrite app_nil_r. apply Hr.
      * apply orb_false_iff in Ho as [Ho _]. exists past. split.
        -- right. split; [done|]. split; [by eexists|]. exists st. specialize (Hr st).
           destruct Hr as [|lines pipe o He|lines line pipe o Hbad Hl Hf]; [done|done|]. destruct (Hl [] (fun _ => eq_refl)) as [rest Hrest].
           rewrite app_nil_r in Hrest. exists line. rewrite Hrest. split; [set_solver|done].
        -- intros st'. specialize (Hr st'). apply reader_inv_ended in Hr. by destruct st'.
  - destruct (reader_step (has_ended x) (reader st x)) as [r|] eqn:Hstep; [|done]. injection Hs as <-. exists past.
    split; [by destruct st|]. intros st'. rewrite reader_set, ended_set. destruct (decide (st = st')) as [<-|]; [|done].
    by eapply reader_inv_step.
Qed.
Lemma execution_inv_run actors x : execution_inv x -> execution_inv (process_run actors x).
Proof.
  revert x. induction actors as [|a actors IH]; intros x Hx; [done|]. apply IH. cbn.
  destruct (process_step a x) as [x'|] eqn:Hs; [by eapply execution_inv_step|done].
Qed.
Lemma closed_output o0 w e r : reader_inv o0 w e r -> rd_open r = false -> rd_output r = read_output sink_write o0 (Some w).
Proof.
  intros H Hc. unfold read_output. destruct H as [|lines pipe o He Hl Hf|lines line pipe o Hbad Hl Hf]; [done| |]; cbn.
  - rewrite Hl. specialize (Hf []). by rewrite app_nil_r in Hf.
  - destruct (Hl [] (fun _ => eq_refl)) as [rest Hrest]. rewrite app_nil_r in Hrest. rewrite Hrest, (Hf (line :: rest)). cbn.
    unfold is_text in Hbad. by destruct (from_utf8 line).
Qed.
End initial.

(** ** Ends *)
Definition pending (todo : list (Std * list byte)) : nat := sum_list ((fun w => S (length w.2)) <$> todo).
Definition reader_size (r : Reader) : nat := length (rd_pipe r) + (if rd_open r then 1 else 0).
(** A bound on the steps that are left. *)
Definition size (x : Execution) : nat :=
  match ex_child x with Running todo => S (pending todo) | Ended _ => 0 end + reader_size (ex_stdout x) + reader_size (ex_stderr x).
Lemma reader_step_size e r r' : reader_step e r = Some r' -> reader_size r' < reader_size r.
Proof.
  unfold reader_step, reader_size. destruct r as [pipe o []]; [|done]. cbn [rd_open rd_pipe rd_output].
  destruct (take_line pipe) as [[line rest]|] eqn:Ht.
  - intros [= <-]. apply take_line_length in Ht as [-> Hne]. rewrite length_app. destruct line; [done|].
    unfold read_line. destruct (from_utf8 _); cbn; lia.
  - destruct e; [|done]. intros [= <-]. destruct pipe; [cbn; lia|]. unfold read_line. destruct (from_utf8 _); cbn; lia.
Qed.
Lemma process_step_size a x x' : process_step a x = Some x' -> size x' < size x.
Proof.
  destruct a as [|st]; cbn [process_step].
  - unfold child_step, size. destruct (ex_child x) as [[|[st b] todo]|] eqn:Hx; [intros [= <-]; cbn; lia| |done].
    destruct (_ || _); intros [= <-]; [|cbn; lia]. destruct st; cbn; unfold fill, reader_size; cbn; rewrite length_app; unfold pending; cbn; lia.
  - destruct (reader_step _ _) as [r|] eqn:Hr; [|done]. intros [= <-]. apply reader_step_size in Hr.
    unfold size. destruct st; cbn in *; lia.
Qed.
(** As long as it has not finished, someone can go on. *)
Lemma process_progress x : finished x = true <-> forall a, process_step a x = None.
Proof.
  unfold finished. split.
  - intros ((Hc & Ho%negb_true_iff)%andb_true_iff & He%negb_true_iff)%andb_true_iff [|st]; cbn.
    + unfold child_step. unfold has_ended in Hc. by destruct (ex_child x).
    + unfold reader_step. by destruct st; cbn; [rewrite Ho|rewrite He].
  - intros H. assert (has_ended x = true) as Hc.
    { specialize (H TheChild). cbn in H. unfold child_step in H. unfold has_ended.
      destruct (ex_child x) as [[|[st b] todo]|]; [done| |done]. by destruct (_ || _). }
    rewrite Hc. assert (forall st, rd_open (reader st x) = false) as Ho.
    { intros st. specialize (H (TheReader st)). cbn in H. rewrite Hc in H. unfold reader_step in H.
      destruct (rd_open (reader st x)); [|done]. by destruct (take_line _) as [[]|]. }
    by rewrite (Ho Stdout : rd_open (ex_stdout x) = false), (Ho Stderr : rd_open (ex_stderr x) = false).
Qed.
(** How many of the actors could go on when it was their turn. *)
Fixpoint steps_taken (actors : list Actor) (x : Execution) : nat :=
  match actors with
  | [] => 0
  | a :: actors =>
      match process_step a x with Some x' => S (steps_taken actors x') | None => steps_taken actors x end
  end.
Lemma steps_bounded actors x : steps_taken actors x + size (process_run actors x) <= size x.
Proof.
  revert x. induction actors as [|a actors IH]; intros x; [cbn; lia|]. cbn [steps_taken process_run foldl].
  destruct (process_step a x) as [x'|] eqn:Hs; cbn; [|apply IH]. apply process_step_size in Hs. specialize (IH x'). unfold process_run in IH. lia.
Qed.
End process.
Arguments Reader Sink : clear implicits.
Arguments Execution Sink : clear implicits.

(** C21: what a guest's host process has printed when all is over.  However the process
    and its two readers interleave, no more steps are taken than there are bytes and
    writes, and until the process and both readers have ended one of them can go on.
    Then each output has got exactly what [read_output] makes of all the process wrote
    to its pipe, in order, whatever was written to the other one in between; and the
    process wrote all it had to and its own exit code is answered, or it was killed by
    a write to a pipe whose reader had met a line that is no text, and the answer is
    -1. *)
Theorem process_output_forwarded {Sink} (sink_write : list byte -> Sink -> Sink * result string nat) p out err actors :
  let step := process_step sink_write (pg_exit p) in
  let start := setup_readers p out err in
  let x := process_run sink_write (pg_exit p) actors start in
  steps_taken sink_write (pg_exit p) actors start <= 3 + pending (pg_writes p) /\
  (finished x = true <-> forall a, step a x = None) /\
  (finished x = true -> exists past todo, pg_writes p = past ++ todo /\
     (forall st, rd_output (reader st x) = read_output sink_write (initial out err st) (Some (written st past))) /\
     (todo = [] /\ exit_code x = Some (default (-1)%Z (pg_exit p)) \/
      exit_code x = Some (-1)%Z /\ exists st, bad_line (written st past))).
Proof.
  intros step start x. split; [|split].
  - pose proof (steps_bounded sink_write (pg_exit p) actors start) as H. unfold size at 2 in H. cbn in H. lia.
  - apply process_progress.
  - intros Hf. destruct (execution_inv_run sink_write (pg_exit p) p out err actors start) as (past & Hc & Hr); [apply execution_inv_start|].
    fold x in Hc, Hr. unfold finished in Hf. apply andb_true_iff in Hf as [[He Ho]%andb_true_iff Hs].
    assert (forall st, rd_output (reader st x) = read_output sink_write (initial out err st) (Some (written st past))) as Hout.
    { intros st. eapply closed_output; [apply Hr|]. by destruct st; apply negb_true_iff. }
    unfold has_ended in He. unfold exit_code. destruct (ex_child x) as [|code]; [done|]. cbn [child_inv] in Hc.
    destruct Hc as [[Hw ->]|(-> & [todo Hw] & Hbad)].
    + exists past, []. rewrite app_nil_r. auto.
    + exists past, todo. auto.
Qed.

(** ** A process that prints *)
Module ProcessExamples.
Import HostExamples.
Definition line (s : string) : list byte := bytes_of (s +:+ newline).
Definition build : Program := MkProgram [(Stdout, bytes_of "com"); (Stderr, line "warning"); (Stdout, line "piled"); (Stdout, bytes_of "done")] (Some 0%Z).
Definition turns : list Actor := concat (replicate 6 [TheReader Stdout; TheChild; TheReader Stderr]) ++ [TheReader Stdout].
Definition ran (p : Program) (actors : list Actor) : Execution (list byte) :=
  process_run store (pg_exit p) actors (setup_readers p (output_new [[]]) (output_new [[]])).
Definition shown (st : Std) (x : Execution (list byte)) : list (list byte) := lk_data (rd_output (reader st x)).
Lemma process_output_forwarded_witness :
  finished (ran build turns) = true /\ exit_code (ran build turns) = Some 0%Z /\
  shown Stdout (ran build turns) = [line "compiled" ++ bytes_of "done"] /\ shown Stderr (ran build turns) = [line "warning"].
Proof.
  assert (finished (ran build turns) = true) as Hf by (vm_compute; reflexivity).
  assert (exit_code (ran build turns) = Some 0%Z) as Hcode by (vm_compute; reflexivity).
  destruct (process_output_forwarded store build (output_new [[]]) (output_new [[]]) turns) as (_ & _ & H).
  destruct (H Hf) as (past & todo & Hw & Hout & [[-> _]|[Hkilled _]]).
  2: { assert (Some 0%Z = Some (-1)%Z) as Hbad by (rewrite <- Hcode; exact Hkilled). discriminate Hbad. }
  rewrite app_nil_r in Hw. subst past. split; [exact Hf|]. split; [exact Hcode|].
  split; [etransitivity; [exact (f_equal lk_data (Hout Stdout))|]|etransitivity; [exact (f_equal lk_data (Hout Stderr))|]];
    vm_compute; reflexivity.
Defined.
(** The call returns with the process, not with its readers: here nothing of what was
    printed is there yet. *)
Example answered_before_forwarded : let x := ran build (replicate 5 TheChild) in
  exit_code x = Some 0%Z /\ shown Stdout x = [[]] /\ shown Stderr x = [[]].
Proof. vm_compute. repeat split; reflexivity. Qed.
(** A process that prints a line in another encoding is killed by its next line. *)
Definition latin : Program := MkProgram [(Stdout, line "one"); (Stdout, [not_text; Corelib.Init.Byte.x0a]); (Stdout, line "three")] (Some 0%Z).
Example killed_by_encoding : let x := ran latin (concat (replicate 5 [TheChild; TheReader Stdout; TheReader Stderr])) in
  finished x = true /\ exit_code x = Some (-1)%Z /\ shown Stdout x = [line "one"].
Proof. vm_compute. repeat split; reflexivity. Qed.
End ProcessExamples.

(** [WasiFsError] as far as files answer with it. *)
Inductive WasiFsError := PermissionDenied | NotAFile | FsIOError.
(** [io::ErrorKind::Other] with a message, or an error of the system. *)
Definition IoError := string.
Class WasiFile (F : Type) := {
  last_accessed : F -> N;
  last_modified : F -> N;
  created_time : F -> N;
  file_size : F -> N;
  set_len : N -> F -> F * result WasiFsError unit;
  unlink : F -> F * result WasiFsError unit;
  bytes_available : F -> result WasiFsError N;
  get_raw_fd : F -> result panic (option Z);
  file_read : nat -> F -> F * result IoError (list byte);
  file_write : list byte -> F -> F * result IoError nat;
  file_flush : F -> F * result IoError unit;
  file_seek : Z -> F -> F * result IoError N
}.

(** ** Outputs *)
Section output.
Context {Sink : Type}.
Variable sink_write : list byte -> Sink -> Sink * result string nat.
Variable sink_flush : Sink -> Sink * result string unit.
(** The methods that are not given have the defaults of the trait: no descriptor. *)
Definition output_file : WasiFile (Output Sink) := {|
  last_accessed _ := 0; last_modified _ := 0; created_time _ := 0; file_size _ := 0;
  set_len _ self := (self, Err NotAFile);
  unlink self := (self, Ok tt);
  bytes_available _ := Ok 0;
  get_raw_fd _ := Ok None;
  file_read _ self := (self, Err "can not read from output");
  file_write := output_write sink_write;
  file_flush := output_flush sink_flush;
  file_seek _ self := (self, Err "can not seek output") |}%N.
End output.

(** ** Sockets *)
Class TcpStreams := {
  TcpStream : Type;
  tcp_connect : string -> result IoError TcpStream;
  tcp_read : nat -> TcpStream -> TcpStream * result IoError (list byte);
  tcp_write : list byte -> TcpStream -> TcpStream * result IoError nat;
  tcp_flush : TcpStream -> TcpStream * result IoError unit;
  (** how many bytes a look at the stream puts into a buffer of this size *)
  tcp_peek : N -> TcpStream -> result IoError N;
  tcp_raw_fd : TcpStream -> Z;
  (** on Windows *)
  tcp_raw_socket : TcpStream -> N;
  tcp_peek_bounded : forall n s k, tcp_peek n s = Ok k -> (k <= n)%N
}.
Section socket.
Context {TS : TcpStreams}.
Record SocketFile := MkSocketFile { sf_address : string; sf_stream : TcpStream }.
Definition socket_file_new (address : string) : result IoError SocketFile := MkSocketFile address <$> tcp_connect address.
Definition on_stream {A} (f : TcpStream -> TcpStream * result IoError A) (self : SocketFile) : SocketFile * result IoError A :=
  let '(stream, r) := f (sf_stream self) in (MkSocketFile (sf_address self) stream, r).
Definition PEEK_SIZE : N := 1024.
(** [try_into().unwrap()] on Windows. *)
Definition socket_raw_fd (unix : bool) (self : SocketFile) : result panic (option Z) :=
  if unix then Ok (Some (tcp_raw_fd (sf_stream self)))
  else if (tcp_raw_socket (sf_stream self) <? 2147483648)%N then Ok (Some (Z.of_N (tcp_raw_socket (sf_stream self)))) else Err Panicked.
Definition socket_file (unix : bool) : WasiFile SocketFile := {|
  last_accessed _ := 0%N; last_modified _ := 0%N; created_time _ := 0%N; file_size _ := 0%N;
  set_len _ self := (self, Err PermissionDenied);
  unlink self := (self, Ok tt);
  bytes_available self := map_err (fun _ => FsIOError) (tcp_peek PEEK_SIZE (sf_stream self));
  get_raw_fd := socket_raw_fd unix;
  file_read n := on_stream (tcp_read n);
  file_write buf := on_stream (tcp_write buf);
  file_flush := on_stream tcp_flush;
  file_seek _ self := (self, Err "can not seek socket") |}.

(** ** Sockets in serialised state *)
Definition FIELDS : list string := ["address"].
Inductive DeError := InvalidLength (n : nat) | DuplicateField (f : string) | MissingField (f : string) | UnknownField (f : string) | DeCustom (e : string).
Definition serialize (self : SocketFile) : list (string * string) := [("address", sf_address self)].
Definition reconnect (address : string) : result DeError SocketFile :=
  map_err (fun e => DeCustom ("Failed to connect to socket while creating SocketFile: " +:+ e)) (socket_file_new address).
Definition visit_seq (seq : list string) : result DeError SocketFile :=
  address ← ok_or (InvalidLength 0) (head seq); reconnect address.
Fixpoint read_fields (map : list (string * string)) (address : option string) : result DeError (option string) :=
  match map with
  | [] => Ok address
  | (key, value) :: map =>
      if bool_decide (key ∈ FIELDS) then
        match address with
        | Some _ => Err (DuplicateField "address")
        | None => read_fields map (Some value)
        end
      else Err (UnknownField key)
  end.
Definition visit_map (map : list (string * string)) : result DeError SocketFile :=
  address ← read_fields map None; address ← ok_or (MissingField "address") address; reconnect address.

(** ** Properties *)

(** A socket read from what it was written as is a new connection to its address, or
    says why there is none. *)
Lemma reopened self : visit_map (serialize self) = reconnect (sf_address self) /\ visit_seq (snd <$> serialize self) = reconnect (sf_address self).
Proof. done. Qed.
(** Reading accepts the one field and nothing else. *)
Lemma visit_map_Ok map self : visit_map map = Ok self -> map = serialize self.
Proof.
  unfold visit_map. destruct map as [|[key value] map]; [done|]. cbn [read_fields].
  case_bool_decide as Hk; [|done]. apply list_elem_of_singleton in Hk as ->.
  destruct map as [|[key' value'] map]; [|cbn [read_fields]; by case_bool_decide].
  cbn. unfold reconnect, socket_file_new. destruct (tcp_connect value); [|done]. by intros [= <-].
Qed.
(** A guest is told of at most 1024 bytes, however many have arrived. *)
Lemma available_bounded unix self n : bytes_available (WasiFile := socket_file unix) self = Ok n -> (n <= PEEK_SIZE)%N.
Proof. cbn. destruct (tcp_peek PEEK_SIZE _) as [k|] eqn:H; [|done]. intros [= <-]. by apply tcp_peek_bounded in H. Qed.
End socket.
