(* ===== verification/Wasi.v ===== *)
(** * The WASI runtime (services/avery/src/runtime/wasi.rs, wasi/api.rs,
    function.rs, process.rs, net.rs)

    Functions run as WebAssembly modules that call the host through the functions
    of [api.rs]: [api_call] is such a call with its pointers, [invoke] serves it,
    each in a definition of its source name, and answers an error code.  A guest
    is a tree of what it does ([Guest]); [run_guest] runs it against the host
    state and [wasi_execute] is the runtime around it.

    The handlers run in [sem ApiState wasi_failure]: a panic ends the guest.  What
    the operating system answers is the [HostOs] of a call; compiling and
    instantiating modules is [WasmEngine], protocol buffers are [Prost], archives
    are an answer of the host. *)
From S2P Require Import Prelude Interfaces Proto Stream Registry Executor Download WasmMemory WasiHost.

(** ** Interfaces *)

(** [prost::Message]. *)
Class Prost (T : Type) := {
  prost_encode : T -> list byte;
  prost_decode : list byte -> result string T;
  prost_decode_encode : forall m, prost_decode (prost_encode m) = Ok m
}.
Definition encoded_len {T} `{Prost T} (m : T) : N := N.of_nat (length (prost_encode m)).

Abbreviation Files := (gmap string (list byte)).
Record HostOs := MkHostOs {
  ho_is_dir : string -> bool;
  ho_open : string -> option string;
  ho_hard_link : string -> string -> option string;
  ho_cache_write : WriteOutcome;
  (** unpacking a compressed archive into a folder *)
  ho_unpack : list byte -> string -> Files -> Files * option string;
  ho_name : string;
  (** a spawned process: its id and what waiting for it gives *)
  ho_spawn : string -> list string -> gmap string string -> result string (N * result string (option Z));
  ho_connect : string -> result string unit;
  ho_open_socket : string -> result string N
}.

Section wasi.
Context {DL : DigestLib} {UR : UrlLib} {RR : RegexReplace} {WP : WasmPtrLib}.
Context {PC : Prost Channel} {PA : Prost Attachment} {PS : Prost StartProcessRequest}.
Context {S : Type}.
Variable auth : AuthenticationSource S.
Variable source : Source.

(** ** The state of an execution *)
Record Process := MkProcess { pc_command : string; pc_args : list string; pc_envs : gmap string string }.
Record ApiState := MkApiState {
  as_arguments : ValueStream;
  as_attachments : list Attachment;
  as_sandbox : Sandbox;
  as_attachment_sandbox : Sandbox;
  as_cache_sandbox : Sandbox;
  as_results : lock ValueStream;
  as_errors : lock (list string);
  as_function_dir : FunctionDirectory;
  as_memory : Memory;
  as_host : Cache (S := S);
  as_processes : list Process
}.
Definition set_memory (m : Memory) (s : ApiState) : ApiState :=
  MkApiState (as_arguments s) (as_attachments s) (as_sandbox s) (as_attachment_sandbox s) (as_cache_sandbox s)
    (as_results s) (as_errors s) (as_function_dir s) m (as_host s) (as_processes s).
Definition set_host (h : Cache (S := S)) (s : ApiState) : ApiState :=
  MkApiState (as_arguments s) (as_attachments s) (as_sandbox s) (as_attachment_sandbox s) (as_cache_sandbox s)
    (as_results s) (as_errors s) (as_function_dir s) (as_memory s) h (as_processes s).
Definition set_host_files (f : Files) (s : ApiState) : ApiState := set_host (MkCache (ca_auth (as_host s)) f) s.
Definition set_results (r : ValueStream) (s : ApiState) : ApiState :=
  MkApiState (as_arguments s) (as_attachments s) (as_sandbox s) (as_attachment_sandbox s) (as_cache_sandbox s)
    (lock_set (as_results s) r) (as_errors s) (as_function_dir s) (as_memory s) (as_host s) (as_processes s).
Definition set_errors (e : list string) (s : ApiState) : ApiState :=
  MkApiState (as_arguments s) (as_attachments s) (as_sandbox s) (as_attachment_sandbox s) (as_cache_sandbox s)
    (as_results s) (lock_set (as_errors s) e) (as_function_dir s) (as_memory s) (as_host s) (as_processes s).
Definition add_process (p : Process) (s : ApiState) : ApiState :=
  MkApiState (as_arguments s) (as_attachments s) (as_sandbox s) (as_attachment_sandbox s) (as_cache_sandbox s)
    (as_results s) (as_errors s) (as_function_dir s) (as_memory s) (as_host s) (as_processes s ++ [p]).
Definition sandboxes (s : ApiState) : list Sandbox := [as_sandbox s; as_attachment_sandbox s; as_cache_sandbox s].

Definition wasi_handler := sem ApiState wasi_failure.
Definition fail {A} (r : result WasiError A) : wasi_handler A := sem_lift (wasi r).

(** Guest memory in the state. *)
Definition read_buffer (b : WasmBuffer) : wasi_handler (list byte) := sem_ask (fun s => no_panic (buffer b (as_memory s))).
Definition put_memory (r : Memory -> result wasi_failure Memory) : wasi_handler unit :=
  fun s => match r (as_memory s) with Ok m => (set_memory m s, Ok tt) | Err e => (s, Err e) end.
Definition write_buffer (b : WasmBuffer) (content : list byte) : wasi_handler unit :=
  put_memory (fun m => no_panic (fst <$> buffer_write b content m)).
Definition set_item (width : nat) (ptr : WasmItemPtr) (val : N) : wasi_handler unit :=
  put_memory (fun m => wasi (item_set width ptr val m)).
Definition read_string (what : string) (s : WasmString) : wasi_handler string :=
  text ← sem_ask (fun st => no_panic (string_try_from s (as_memory st)));
  fail (map_err (FailedToReadStringPointer what) text).

(** ** function.rs *)
Definition wasi_attachment_path_from_descriptor (attachment_data : Attachment) : string :=
  "attachments/" +:+ att_name attachment_data.
Definition native_attachment_path_from_descriptor (attachment_data : Attachment) (sandbox : Sandbox) : string :=
  path_join (host_path sandbox) (att_name attachment_data).

Definition path_present (os : HostOs) (path : string) (s : ApiState) : bool :=
  bool_decide (is_Some (ca_files (as_host s) !! path)) || ho_is_dir os path.

Definition fetch_attachment (os : HostOs) (attachment_data : Attachment) : wasi_handler string :=
  fun s => let '(host, r) := download_cached auth source (ho_cache_write os)
                               (attachments_path (as_function_dir s)) attachment_data (as_host s) in
    (set_host host s,
     map_err (fun e => WErr (FailedToMapAttachment (att_name attachment_data) (display_runtime_error e))) r).
Definition open_file (os : HostOs) (path : string) (s : ApiState) : result string (list byte) :=
  match ho_open os path with
  | Some e => Err e
  | None => ok_or "No such file or directory" (ca_files (as_host s) !! path)
  end.
Definition unpack_content (os : HostOs) (name path : string) (content : list byte) : wasi_handler unit :=
  fun s => let '(f, r) := ho_unpack os content path (ca_files (as_host s)) in
    (set_host_files f s, match r with Some e => Err (WErr (FailedToUnpackAttachment name e)) | None => Ok tt end).
Definition unpack_at (os : HostOs) (name downloaded_path path : string) : wasi_handler unit :=
  content ← sem_ask (fun s => wasi (map_err (FailedToUnpackAttachment name) (open_file os downloaded_path s)));
  unpack_content os name path content.
Definition link_at (os : HostOs) (name downloaded_path path : string) : wasi_handler unit :=
  content ← sem_ask (fun s => wasi (map_err (FailedToMapAttachment name)
    match ho_hard_link os downloaded_path path with
    | Some e => Err e
    | None => ok_or "No such file or directory" (ca_files (as_host s) !! downloaded_path)
    end));
  sem_modify (fun s => set_host_files (<[path := content]> (ca_files (as_host s))) s).
Definition download_and_map_at (os : HostOs) (attachment_data : Attachment) (path : string) (unpack : bool)
  : wasi_handler unit :=
  present ← sem_ask (fun s => Ok (path_present os path s));
  if (present : bool) then mret tt
  else
    downloaded_path ← fetch_attachment os attachment_data;
    if unpack then unpack_at os (att_name attachment_data) downloaded_path path
    else link_at os (att_name attachment_data) downloaded_path path.

Definition find_attachment (attachment_key : string) (s : ApiState) : result wasi_failure Attachment :=
  wasi (ok_or (FailedToFindAttachment attachment_key)
          (snd <$> list_find (fun a => att_name a = attachment_key) (as_attachments s))).
Definition path_len (attachment_data : Attachment) : N :=
  N.of_nat (length (bytes_of (wasi_attachment_path_from_descriptor attachment_data))) mod u32_modulus.
Definition get_attachment_path_len (attachment_name : WasmString) (len : WasmItemPtr) : wasi_handler unit :=
  attachment_key ← read_string "attachment_name" attachment_name;
  attachment_data ← sem_ask (find_attachment attachment_key);
  set_item 4 len (path_len attachment_data).
Definition map_found (os : HostOs) (attachment_data : Attachment) (unpack : bool) (path_buffer : WasmBuffer)
  : wasi_handler unit :=
  path ← sem_ask (fun s => Ok (native_attachment_path_from_descriptor attachment_data (as_attachment_sandbox s)));
  _ ← download_and_map_at os attachment_data path unpack;
  write_buffer path_buffer (bytes_of (wasi_attachment_path_from_descriptor attachment_data)).
Definition map_attachment (os : HostOs) (attachment_name : WasmString) (unpack : bool) (path_buffer : WasmBuffer)
  : wasi_handler unit :=
  attachment_key ← read_string "attachment_key" attachment_name;
  attachment_data ← sem_ask (find_attachment attachment_key);
  map_found os attachment_data unpack path_buffer.

Definition decode {T} `{Prost T} (b : WasmBuffer) : wasi_handler T :=
  content ← read_buffer b;
  fail (map_err FailedToDecodeProtobuf (prost_decode content)).
Definition get_attachment_path_len_from_descriptor (attachment_descriptor : WasmBuffer) (len : WasmItemPtr)
  : wasi_handler unit :=
  fa ← decode attachment_descriptor;
  set_item 4 len (path_len fa).
Definition map_attachment_from_descriptor (os : HostOs) (attachment_descriptor : WasmBuffer) (unpack : bool)
    (path_buffer : WasmBuffer) : wasi_handler unit :=
  fa ← decode attachment_descriptor;
  map_found os fa unpack path_buffer.

Definition find_input (key : string) (s : ApiState) : result wasi_failure Channel :=
  wasi (ok_or (FailedToFindKey key) (get_channel (as_arguments s) key)).
Definition get_input_len (key : WasmString) (len : WasmItemPtr) : wasi_handler unit :=
  key ← read_string "input key" key;
  a ← sem_ask (find_input key);
  set_item 4 len (encoded_len a mod u32_modulus).
(** [Message::encode] into a slice fails where the slice is too short. *)
Definition encode_into (value : WasmBuffer) (a : Channel) (m : Memory) : result wasi_failure Memory :=
  _ ← no_panic (buffer value m);
  if (wb_len value <? encoded_len a)%N
  then Err (WErr (FailedToEncodeProtobuf "failed to encode Protobuf message; insufficient buffer capacity"))
  else no_panic (buffer_put value (prost_encode a) m).
Definition get_input (key : WasmString) (value : WasmBuffer) : wasi_handler unit :=
  key ← read_string "input key" key;
  a ← sem_ask (find_input key);
  put_memory (encode_into value a).
Definition set_output (key : WasmString) (value : WasmBuffer) : wasi_handler ValueStream :=
  key ← read_string "output key" key;
  channel ← decode value;
  mret (set_channel stream_new key channel).
Definition set_error (msg : WasmString) : wasi_handler string := read_string "msg" msg.

(** ** process.rs and net.rs *)
Definition spawn (os : HostOs) (request : StartProcessRequest) : wasi_handler (N * result string (option Z)) :=
  '(args, env) ← sem_ask (fun s => Ok (get_args_and_envs request (sandboxes s)));
  child ← fail (map_err FailedToStartProcess (ho_spawn os (sp_command request) args env));
  _ ← sem_modify (add_process (MkProcess (sp_command request) args env));
  mret child.
Definition start_process (os : HostOs) (request : WasmBuffer) (pid_out : WasmItemPtr) : wasi_handler unit :=
  request ← decode request;
  child ← spawn os request;
  set_item 8 pid_out (fst child).
(** The bits of an [i32]. *)
Definition i32_bits (z : Z) : N := Z.to_N (z mod Z.of_N u32_modulus).
Definition run_process (os : HostOs) (request : WasmBuffer) (exit_code_out : WasmItemPtr) : wasi_handler unit :=
  request ← decode request;
  child ← spawn os request;
  code ← fail (map_err FailedToStartProcess (snd child));
  set_item 4 exit_code_out (i32_bits (default (-1)%Z code)).
Definition connect (os : HostOs) (address : WasmString) (fd_out : WasmItemPtr) : wasi_handler unit :=
  address ← read_string "address" address;
  _ ← fail (map_err (FailedToConnect address) (ho_connect os address));
  fd ← fail (map_err FailedToOpenFile (ho_open_socket os (address +:+ ".sock")));
  set_item 4 fd_out (fd mod u32_modulus).

(** ** api.rs *)
Definition path_exists (os : HostOs) (path : WasmString) (exists_ : WasmItemPtr) : wasi_handler unit :=
  p ← read_string "path" path;
  present ← sem_ask (fun s => Ok (path_present os p s));
  set_item 1 exists_ (if (present : bool) then 1 else 0)%N.
Definition get_os (os : HostOs) (os_name : N) (len_written : WasmItemPtr) : wasi_handler unit :=
  let name := bytes_of (ho_name os) in
  _ ← set_item 4 len_written (N.of_nat (length name) mod u32_modulus);
  let len := Nat.min 128 (length name) in
  put_memory (fun m => no_panic (buffer_write_all (MkBuffer os_name (N.of_nat len)) (take len name) m)).
Definition api_set_output (key : WasmString) (value : WasmBuffer) : wasi_handler unit :=
  v ← set_output key value;
  current_stream ← sem_ask (fun s => map_err WErr (lock_get Unknown (as_results s)));
  sem_modify (set_results (merge current_stream v)).
Definition api_set_error (msg : WasmString) : wasi_handler unit :=
  v ← set_error msg;
  errors ← sem_ask (fun s => map_err WErr (lock_get Unknown (as_errors s)));
  sem_modify (set_errors (errors ++ [v])).

(** A call of the guest, with the pointers it passes. *)
Inductive api_call :=
| PathExists (path : WasmString) (exists_ : WasmItemPtr)
| GetOs (os_name : N) (len_written : WasmItemPtr)
| StartProcess (request : WasmBuffer) (pid_out : WasmItemPtr)
| RunProcess (request : WasmBuffer) (exit_code_out : WasmItemPtr)
| SocketConnect (addr : WasmString) (fd_out : WasmItemPtr)
| GetPathLen (attachment_name : WasmString) (len : WasmItemPtr)
| MapAttachment (attachment_name : WasmString) (unpack : N) (path : WasmBuffer)
| GetPathLenFromDescriptor (attachment_descriptor : WasmBuffer) (len : WasmItemPtr)
| MapFromDescriptor (attachment_descriptor : WasmBuffer) (unpack : N) (path : WasmBuffer)
| GetInputLen (key : WasmString) (value : WasmItemPtr)
| GetInput (key : WasmString) (value : WasmBuffer)
| SetOutput (key : WasmString) (val : WasmBuffer)
| SetError (msg : WasmString).
Definition handle (os : HostOs) (c : api_call) : wasi_handler unit :=
  match c with
  | PathExists path exists_ => path_exists os path exists_
  | GetOs os_name len_written => get_os os os_name len_written
  | StartProcess request pid_out => start_process os request pid_out
  | RunProcess request exit_code_out => run_process os request exit_code_out
  | SocketConnect addr fd_out => connect os addr fd_out
  | GetPathLen name len => get_attachment_path_len name len
  | MapAttachment name unpack path => map_attachment os name (negb (unpack =? 0)%N) path
  | GetPathLenFromDescriptor d len => get_attachment_path_len_from_descriptor d len
  | MapFromDescriptor d unpack path => map_attachment_from_descriptor os d (negb (unpack =? 0)%N) path
  | GetInputLen key value => get_input_len key value
  | GetInput key value => get_input key value
  | SetOutput key val => api_set_output key val
  | SetError msg => api_set_error msg
  end.
(** The number the guest gets back. *)
Definition invoke (os : HostOs) (c : api_call) (s : ApiState) : ApiState * result panic N :=
  let '(s', r) := handle os c s in
  (s', match r with
       | Ok _ => Ok (to_error_code (Ok tt : result WasiError unit))
       | Err (WErr e) => Ok (to_error_code (Err e : result WasiError unit))
       | Err WPanic => Err Panicked
       end).

(** ** Guests *)

(** What a guest does until it ends, well or with a trap: compute on its memory,
    or call the host, which the operating system then answers as given. *)
Inductive Guest :=
| Exit (trap : option string)
| Step (f : Memory -> Memory) (next : Memory -> Guest)
| Call (os : HostOs) (c : api_call) (next : N -> Memory -> Guest).
Fixpoint run_guest (g : Guest) (s : ApiState) : ApiState * result panic (option string) :=
  match g with
  | Exit trap => (s, Ok trap)
  | Step f next => let m := f (as_memory s) in run_guest (next m) (set_memory m s)
  | Call os c next =>
      match invoke os c s with
      | (s', Ok code) => run_guest (next code (as_memory s')) s'
      | (s', Err p) => (s', Err p)
      end
  end.
End wasi.
