(* ===== verification/WasiRun.v ===== *)
(** * Executing a WASI module (services/avery/src/runtime/wasi.rs)

    [wasi_execute] is [WasiRuntime::execute]: sandboxes, output files, the WASI
    state, downloading and compiling the code, running the entrypoint and taking
    the results and errors the guest left.  It changes the files of the host and
    the state of the authentication service, its [Cache]; what a guest prints
    goes through the WASI crate and is not modelled.

    [WasmEngine] is the wasmer crate, [LaunchOs] what the operating system and the
    WASI crate answer. *)
From S2P Require Import Prelude Interfaces Proto Stream Registry Executor Download WasmMemory WasiHost Wasi.

Record Instance_ := MkInstance { initial_memory : Memory; in_get_function : string -> result string Guest }.
Class WasmEngine := {
  WModule : Type;
  module_new : list byte -> result string WModule;
  wasi_import_object : WModule -> result string unit;
  instance_new : WModule -> result string Instance_
}.
Record LaunchOs := MkLaunchOs {
  lo_exec : ExecOs;
  lo_create_new : string -> option string;
  (** building the WASI state of a name and its mapped folders *)
  lo_wasi_state : string -> list (string * string) -> option string;
  lo_cache_write : WriteOutcome;
  lo_read : string -> option string
}.

Definition display_wasi_error (display_utf8 : Utf8Error -> string) (e : WasiError) : string :=
  match e with
  | Unknown e => "Unknown: " +:+ e
  | SandboxError e => "Sandbox Error: " +:+ e
  | FailedToSetupStdIO e => "Failed to setup std IO: " +:+ e
  | FailedToReadStringPointer what e => "Failed to read string pointer for " +:+ quoted what +:+ ": " +:+ display_utf8 e
  | FailedToFindKey k => "Failed to find key: " +:+ k
  | FailedToDerefPointer => "Failed to deref pointer."
  | FailedToStartProcess e => "Failed to start process: " +:+ e +:+ "."
  | FailedToDecodeProtobuf e => "Failed to decode value from protobuf: " +:+ e
  | FailedToEncodeProtobuf e => "Failed to encode value from protobuf: " +:+ e
  | FailedToOpenFile e => "Failed to open file descriptor: " +:+ e
  | FailedToConnect a e => "Failed to connect to address " +:+ quoted a +:+ ". IO Error: " +:+ e
  | FailedToMapAttachment n e => "Failed to map attachment " +:+ quoted n +:+ ": " +:+ e
  | FailedToUnpackAttachment n e => "Failed to unpack attachment " +:+ quoted n +:+ ": " +:+ e
  | FailedToFindAttachment n => "Failed to find attachment " +:+ quoted n
  | FailedToWriteBuffer e => "Failed to write to WASI buffer: " +:+ e
  | FailedToReadBuffer e => "Failed to read WASI buffer: " +:+ e
  end.

(** [impl From<String> for RuntimeError]. *)
Definition wasmer_error (message : string) : RuntimeError := RuntimeError_ "wasi-wasmer" message.

(** How an execution stops early. *)
Inductive stop := StopError (e : RuntimeError) | StopPanic.

Section run.
Context {DL : DigestLib} {UR : UrlLib} {RR : RegexReplace} {WP : WasmPtrLib} {HO : HashOrder} {WE : WasmEngine}.
Context {PC : Prost Channel} {PA : Prost Attachment} {PS : Prost StartProcessRequest}.
Context {S : Type}.
Variable auth : AuthenticationSource S.
Variable source : Source.
Variable display_utf8 : Utf8Error -> string.

Record WasiRuntime := MkWasiRuntime { host_dirs : gmap string string }.
Definition wasi_runtime_new : WasiRuntime := MkWasiRuntime ∅.
Definition with_host_dir (wasi_name host_path : string) (self : WasiRuntime) : WasiRuntime :=
  MkWasiRuntime (<[wasi_name := host_path]> (host_dirs self)).

Definition execution := sem (Cache (S := S)) stop.
Definition or_message {A} (what : string) (r : result string A) : execution A :=
  sem_lift (map_err (fun e => StopError (wasmer_error (what +:+ e))) r).
Definition make_sandbox (os : LaunchOs) (root guest_path : string) : execution Sandbox :=
  or_message EmptyString (map_err (display_wasi_error display_utf8) (sandbox_new (lo_exec os) root guest_path)).
Definition create_new (os : LaunchOs) (what path : string) : execution unit :=
  _ ← sem_ask (fun c : Cache => map_err (fun e => StopError (wasmer_error (what +:+ e)))
         match ca_files c !! path, lo_create_new os path with
         | Some _, _ => Err "File exists"
         | None, Some e => Err e
         | None, None => Ok tt
         end);
  sem_modify (fun c => MkCache (ca_auth c) (<[path := []]> (ca_files c))).
Definition preopened (sandboxes : list Sandbox) (self : WasiRuntime) : list (string * string) :=
  ((fun s => (guest_path s, host_path s)) <$> sandboxes) ++ hash_iter (host_dirs self).

Definition code_path (os : LaunchOs) (params : RuntimeParameters) (code : Attachment) : execution string :=
  fun c => let '(c', r) := download_cached auth source (lo_cache_write os)
                             (attachments_path (rp_function_dir params)) code c in
    (c', map_err StopError r).
Definition read_code (os : LaunchOs) (params : RuntimeParameters) : execution (list byte) :=
  code ← sem_lift (ok_or (StopError (MissingCode "wasi")) (rp_code params));
  path ← code_path os params code;
  sem_ask (fun c : Cache => map_err (fun e => StopError (AttachmentReadError "code" ("Failed to read downloaded code: " +:+ e)))
    match lo_read os path with
    | Some e => Err e
    | None => ok_or "No such file or directory" (ca_files c !! path)
    end).

(** The call of the entrypoint: the host state moves into the state of the API
    and back. *)
Definition call_entrypoint (entrypoint : string) (guest : Guest) (s : ApiState) : execution ApiState :=
  fun c =>
    let '(s', r) := run_guest auth source guest (set_host c s) in
    (as_host s', match r with
                 | Ok None => Ok s'
                 | Ok (Some trap) => Err (StopError (wasmer_error
                     ("Failed to call entrypoint function " +:+ entrypoint +:+ ": " +:+ trap)))
                 | Err Panicked => Err StopPanic
                 end).
(** What the guest left: its results, or its errors one per line. *)
Definition outcome (s : ApiState (S := S)) : result string (result string ValueStream) :=
  results ← lock_get (fun e => "Failed to acquire lock for results: " +:+ e) (as_results s);
  errors ← lock_get (fun e => "Failed to acquire lock for errors: " +:+ e) (as_errors s);
  Ok match errors with [] => Ok results | _ => Err (str_join newline errors) end.

Definition wasi_execute (os : LaunchOs) (self : WasiRuntime) (params : RuntimeParameters) (arguments : ValueStream)
    (attachments : list Attachment) : execution (result string ValueStream) :=
  let dir := rp_function_dir params in
  sandbox ← make_sandbox os (execution_path dir) "sandbox";
  attachment_sandbox ← make_sandbox os (execution_path dir) "attachments";
  cache_sandbox ← make_sandbox os (cache_path dir) "cache";
  _ ← create_new os "Failed to create stdout sandbox file: " (path_join (host_path sandbox) "stdout");
  _ ← create_new os "Failed to create stderr sandbox file: " (path_join (host_path sandbox) "stderr");
  _ ← or_message "Failed to create wasi state: "
        match lo_wasi_state os ("wasi-" +:+ rp_function_name params)
                (preopened [sandbox; attachment_sandbox; cache_sandbox] self) with
        | Some e => Err e
        | None => Ok tt
        end;
  code ← read_code os params;
  module ← or_message "failed to compile wasm: " (module_new code);
  let entrypoint := default "_start" (rp_entrypoint params) in
  _ ← or_message "Failed to generate import object: " (wasi_import_object module);
  instance ← or_message "failed to instantiate WASI module: " (instance_new module);
  guest ← or_message ("Failed to resolve entrypoint " +:+ entrypoint +:+ ": ") (in_get_function instance entrypoint);
  host ← sem_ask (fun c => Ok c);
  s ← call_entrypoint entrypoint guest
        (MkApiState arguments attachments sandbox attachment_sandbox cache_sandbox (lock_new stream_new) (lock_new [])
           dir (initial_memory instance) host []);
  or_message EmptyString (outcome s).

(** As a runtime of the execution service, on the host it starts with. *)
Definition executed {A} (r : result stop A) : result panic (result RuntimeError A) :=
  match r with
  | Ok a => Ok (Ok a)
  | Err (StopError e) => Ok (Err e)
  | Err StopPanic => Err Panicked
  end.
Definition wasi_runtime (os : LaunchOs) (self : WasiRuntime) (host : Cache) : Runtime :=
  MkRuntime (fun params arguments attachments outputs =>
    (outputs, executed (wasi_execute os self params arguments attachments host).2)).
End run.
