(* ===== verification/SimpleCodec.v ===== *)
(** * A message format for concrete evaluations

    An instance of [Prost] for every message type the model encodes, so that
    theorems about encoded messages can be applied to concrete ones.  The format
    is this file's own; the theorems hold for any. *)
From S2P Require Import Prelude Proto Stream WasmMemory WasiHost Wasi.
From Stdlib Require Import Floats.SpecFloat.

#[local] Abbreviation b0 := Corelib.Init.Byte.x00.
#[local] Abbreviation b1 := Corelib.Init.Byte.x01.
#[local] Abbreviation b2 := Corelib.Init.Byte.x02.

(** Encodings that can be followed by anything. *)
Class Codec (T : Type) := {
  put : T -> list byte;
  take_ : list byte -> option (T * list byte);
  take_put : forall t rest, take_ (put t ++ rest) = Some (t, rest)
}.

#[export] Program Instance codec_byte : Codec byte := {|
  put b := [b]; take_ l := match l with b :: l => Some (b, l) | [] => None end |}.
Next Obligation. done. Qed.

Fixpoint put_positive (p : positive) : list byte :=
  match p with xH => [b0] | xO p => b1 :: put_positive p | xI p => b2 :: put_positive p end.
Fixpoint take_positive (l : list byte) : option (positive * list byte) :=
  match l with
  | b :: l =>
      match b with
      | Corelib.Init.Byte.x00 => Some (xH, l)
      | Corelib.Init.Byte.x01 => '(p, l) ← take_positive l; Some (xO p, l)
      | _ => '(p, l) ← take_positive l; Some (xI p, l)
      end
  | [] => None
  end.
#[export] Program Instance codec_positive : Codec positive := {| put := put_positive; take_ := take_positive |}.
Next Obligation. induction t as [p IH|p IH|]; intros rest; cbn; [by rewrite IH..|done]. Qed.

(** Types that embed into one with an encoding. *)
#[export] Program Instance codec_prod {A B} `{Codec A, Codec B} : Codec (A * B) := {|
  put p := put p.1 ++ put p.2;
  take_ l := '(a, l) ← take_ l; '(b, l) ← take_ l; Some (a, b, l) |}.
Next Obligation. intros A B HA HB [a b] rest. cbn. rewrite <- (assoc_L (++)), take_put. cbn. by rewrite take_put. Qed.

#[export] Instance codec_sum {A B} `{Codec A, Codec B} : Codec (A + B).
Proof.
  refine {|
    put s := match s with inl a => b0 :: put a | inr b => b1 :: put b end;
    take_ l := match l with
               | b :: l => match b with
                           | Corelib.Init.Byte.x00 => '(a, l) ← take_ l; Some (inl a, l)
                           | _ => '(b, l) ← take_ l; Some (inr b, l)
                           end
               | [] => None
               end |}.
  intros [a|b] rest; cbn; by rewrite take_put.
Defined.

#[export] Program Instance codec_unit : Codec unit := {| put _ := []; take_ l := Some (tt, l) |}.
Next Obligation. by intros []. Qed.

Definition codec_via {A B} `{Codec A} (f : B -> A) (g : A -> B) (Hgf : forall b, g (f b) = b) : Codec B.
Proof.
  refine {| put b := put (f b); take_ l := '(a, l) ← take_ l; Some (g a, l) |}.
  intros t rest. rewrite take_put. cbn. by rewrite Hgf.
Defined.

(** Lists: a mark before every element and another one at the end. *)
Section lists.
Context {A} `{Codec A}.
Fixpoint put_list (l : list A) : list byte :=
  match l with [] => [b0] | a :: l => b1 :: put a ++ put_list l end.
Fixpoint take_list (fuel : nat) (l : list byte) : option (list A * list byte) :=
  match fuel, l with
  | S fuel, Corelib.Init.Byte.x00 :: l => Some ([], l)
  | S fuel, _ :: l => '(a, l) ← take_ l; '(rest, l) ← take_list fuel l; Some (a :: rest, l)
  | _, _ => None
  end.
Lemma take_put_list l rest fuel : length l < fuel -> take_list fuel (put_list l ++ rest) = Some (l, rest).
Proof.
  revert fuel. induction l as [|a l IH]; intros [|fuel] Hf; cbn in *; [lia|done|lia|].
  rewrite <- (assoc_L (++)), take_put. cbn. by rewrite IH by lia.
Qed.
Lemma put_list_length l : length l < length (put_list l).
Proof. induction l as [|a l IH]; cbn; [lia|]. rewrite length_app. lia. Qed.
#[export] Program Instance codec_list : Codec (list A) := {|
  put := put_list; take_ l := take_list (length l) l |}.
Next Obligation.
  intros l rest. apply take_put_list. rewrite length_app. pose proof (put_list_length l). lia.
Qed.
End lists.
#[export] Existing Instance codec_list.

#[export] Instance codec_bool : Codec bool :=
  codec_via (fun b : bool => if b then inl tt else inr tt) (fun s => match s with inl _ => true | inr _ => false end)
    ltac:(by intros []).
#[export] Instance codec_option {A} `{Codec A} : Codec (option A) :=
  codec_via (fun o => match o with Some a => inl a | None => inr tt end)
    (fun s => match s with inl a => Some a | inr _ => None end) ltac:(by intros []).
#[export] Instance codec_N : Codec N :=
  codec_via (fun n => match n with N0 => inl tt | Npos p => inr p end)
    (fun s => match s with inl _ => N0 | inr p => Npos p end) ltac:(by intros []).
#[export] Instance codec_Z : Codec Z :=
  codec_via (fun z => match z with Z0 => inl tt | Zpos p => inr (inl p) | Zneg p => inr (inr p) end)
    (fun s => match s with inl _ => Z0 | inr (inl p) => Zpos p | inr (inr p) => Zneg p end) ltac:(by intros []).
#[export] Instance codec_string : Codec string :=
  codec_via String.list_byte_of_string String.string_of_list_byte String.string_of_list_byte_of_string.
#[export] Instance codec_gmap {A} `{Codec A} : Codec (gmap string A) :=
  codec_via map_to_list list_to_map list_to_map_to_list.
#[export] Instance codec_float : Codec spec_float :=
  codec_via (fun f => match f with
                      | S754_zero s => inl (inl s)
                      | S754_infinity s => inl (inr s)
                      | S754_nan => inr (inl tt)
                      | S754_finite s m e => inr (inr (s, m, e))
                      end)
    (fun s => match s with
              | inl (inl s) => S754_zero s
              | inl (inr s) => S754_infinity s
              | inr (inl _) => S754_nan
              | inr (inr (s, m, e)) => S754_finite s m e
              end) ltac:(by intros []).

(** ** The messages *)
#[export] Instance codec_value : Codec ValueType :=
  codec_via (fun v => match v with
                      | Strings l => inl (inl l)
                      | Integers l => inl (inr l)
                      | Floats l => inr (inl l)
                      | Booleans l => inr (inr (inl l))
                      | Bytes l => inr (inr (inr l))
                      end)
    (fun s => match s with
              | inl (inl l) => Strings l
              | inl (inr l) => Integers l
              | inr (inl l) => Floats l
              | inr (inr (inl l)) => Booleans l
              | inr (inr (inr l)) => Bytes l
              end) ltac:(by intros []).
#[export] Instance codec_channel : Codec Channel := codec_via ch_value MkChannel ltac:(by intros []).
#[export] Instance codec_attachment : Codec Attachment :=
  codec_via
    (fun a => (att_name a, (fun u => (au_url u, au_auth_method u)) <$> att_url a, att_metadata a,
               ck_sha256 <$> att_checksums a, att_created_at a,
               (fun p => (pub_name p, pub_email p)) <$> att_publisher a, sig_signature <$> att_signature a))
    (fun '(n, u, m, c, t, p, s) =>
       MkAttachment n ((fun x => MkAttachmentUrl x.1 x.2) <$> u) m (MkChecksums <$> c) t
         ((fun x => MkPublisher x.1 x.2) <$> p) (MkSignature <$> s))
    ltac:(by intros [? [[]|] ? [[]|] ? [[]|] [[]|]]).
#[export] Instance codec_process : Codec StartProcessRequest :=
  codec_via (fun r => (sp_command r, sp_args r, sp_environment_variables r)) (fun '(c, a, e) => MkStartProcess c a e)
    ltac:(by intros []).
#[export] Instance codec_context : Codec RuntimeContext :=
  codec_via (fun r => (rc_code r, rc_entrypoint r, rc_arguments r, rc_name r)) (fun '(c, e, a, n) => MkRuntimeContext c e a n)
    ltac:(by intros []).

#[export] Instance simple_prost {T} `{Codec T} : Prost T.
Proof.
  refine {|
    prost_encode := put;
    prost_decode l := match take_ l with Some (t, []) => Ok t | _ => Err "invalid message" end |}.
  intros m. pose proof (take_put m []) as Hm. rewrite app_nil_r in Hm. by rewrite Hm.
Defined.
