(* ===== verification/WasiProps.v ===== *)
(** * Properties of the WASI runtime

    What an execution answers is what the guest handed over, what a guest reads
    and writes through the host survives the trip, and where mapped attachments
    end up on the host. *)
From S2P Require Import Prelude Interfaces Proto Stream Registry Executor Download WasmMemory WasiHost Wasi WasiRun SimpleCodec.

Create HintDb wasi.

Section wasi_props.
Context {DL : DigestLib} {UR : UrlLib} {RR : RegexReplace} {WP : WasmPtrLib}.
Context {PC : Prost Channel} {PA : Prost Attachment} {PS : Prost StartProcessRequest}.
Context {S : Type}.
Variable auth : AuthenticationSource S.
Variable source : Source.
Implicit Types s : ApiState (S := S).
#[local] Abbreviation invoke := (invoke auth source).
#[local] Abbreviation handle := (handle auth source).
#[local] Abbreviation run_guest := (run_guest auth source).

(** ** What a call leaves alone *)

(** The parts of the state that only [set_output] and [set_error] change. *)
Definition answers s : lock ValueStream * lock (list string) := (as_results s, as_errors s).
Definition keeps_answers {A} (h : wasi_handler A) : Prop := forall s, answers (h s).1 = answers s.

Lemma keeps_bind {A B} (m : wasi_handler A) (f : A -> wasi_handler B) :
  keeps_answers m -> (forall a, keeps_answers (f a)) -> keeps_answers (m ≫= f).
Proof.
  intros Hm Hf s. specialize (Hm s). cbv [mbind sem_bind]. destruct (m s) as [s1 [a|e]]; cbn in *; [|done].
  by rewrite (Hf a s1).
Qed.
Lemma keeps_ask {A} (f : ApiState -> result wasi_failure A) : keeps_answers (sem_ask f).
Proof. done. Qed.
Lemma keeps_lift {A} (r : result wasi_failure A) : keeps_answers (sem_lift r).
Proof. done. Qed.
Lemma keeps_ret {A} (a : A) : keeps_answers (mret a).
Proof. done. Qed.
Lemma keeps_put r : keeps_answers (put_memory r).
Proof. intros s. unfold put_memory. by destruct (r (as_memory s)). Qed.
Lemma keeps_modify (f : ApiState -> ApiState) : (forall s, answers (f s) = answers s) -> keeps_answers (sem_modify f).
Proof. intros H s. apply H. Qed.
Lemma keeps_fetch os a : keeps_answers (fetch_attachment auth source os a).
Proof. intros s. unfold fetch_attachment. by destruct (download_cached _ _ _ _ _ _). Qed.
Lemma keeps_unpack os n p c : keeps_answers (unpack_content os n p c).
Proof. intros s. unfold unpack_content. by destruct (ho_unpack _ _ _ _). Qed.
#[local] Hint Resolve keeps_bind keeps_ask keeps_lift keeps_ret keeps_put keeps_modify keeps_fetch keeps_unpack : wasi.

Lemma keeps_map_found os a unpack b : keeps_answers (map_found auth source os a unpack b).
Proof.
  unfold map_found, write_buffer, download_and_map_at, unpack_at, link_at.
  apply keeps_bind; [auto with wasi|intros path]. apply keeps_bind; [|auto with wasi].
  apply keeps_bind; [auto with wasi|intros []]; [auto with wasi|].
  apply keeps_bind; [auto with wasi|intros p]. destruct unpack; auto with wasi.
Qed.
Lemma keeps_spawn os r : keeps_answers (spawn os r).
Proof.
  unfold spawn, fail. apply keeps_bind; [auto with wasi|intros [args env]]. auto 10 with wasi.
Qed.
#[local] Hint Resolve keeps_map_found keeps_spawn : wasi.

Definition answering (c : api_call) : bool :=
  match c with SetOutput _ _ | SetError _ => true | _ => false end.
Lemma keeps_handle os c : answering c = false -> keeps_answers (handle os c).
Proof.
  destruct c; intros Hc; try discriminate Hc; cbn [Wasi.handle];
    unfold path_exists, get_os, start_process, run_process, connect, get_attachment_path_len, map_attachment,
      get_attachment_path_len_from_descriptor, map_attachment_from_descriptor, get_input_len, get_input,
      decode, read_string, read_buffer, set_item, fail; auto 20 with wasi.
Qed.

(** ** The answers of a guest *)

(** What a call hands over, read from the memory it is made with. *)
Definition given_text (b : WasmString) s : option string :=
  match buffer b (as_memory s) with Ok l => result_ok (from_utf8 l) | Err _ => None end.
Definition given_channel (b : WasmBuffer) s : option Channel :=
  match buffer b (as_memory s) with Ok l => result_ok (prost_decode l) | Err _ => None end.
Definition given_output (c : api_call) s : option (string * Channel) :=
  match c with
  | SetOutput key val => k ← given_text key s; v ← given_channel val s; Some (k, v)
  | _ => None
  end.
Definition given_error (c : api_call) s : option string :=
  match c with SetError msg => given_text msg s | _ => None end.
Definition unpoisoned s : Prop := lk_poisoned (as_results s) = false /\ lk_poisoned (as_errors s) = false.

Lemma read_string_run what b s :
  read_string what b s =
  (s, match buffer b (as_memory s) with
      | Ok l => map_err (fun e => WErr (FailedToReadStringPointer what e)) (from_utf8 l)
      | Err _ => Err WPanic
      end).
Proof.
  unfold read_string, string_try_from, sem_ask, fail, sem_lift, wasi. cbv [mbind sem_bind].
  destruct (buffer b (as_memory s)) as [l|[]]; cbn; [|done]. by destruct (from_utf8 l).
Qed.
Lemma decode_run {T} `{Prost T} b s :
  decode (T := T) b s =
  (s, match buffer b (as_memory s) with
      | Ok l => map_err (fun e => WErr (FailedToDecodeProtobuf e)) (prost_decode l)
      | Err _ => Err WPanic
      end).
Proof.
  unfold decode, read_buffer, sem_ask, fail, sem_lift, wasi. cbv [mbind sem_bind].
  destruct (buffer b (as_memory s)) as [l|[]]; cbn; [|done]. by destruct (prost_decode l).
Qed.

Definition set_stream (r : ValueStream) (o : string * Channel) : ValueStream := set_channel r o.1 o.2.

Lemma merge_singleton r k c : merge r (set_channel stream_new k c) = set_channel r k c.
Proof. unfold merge, set_channel, stream_new. cbn. by rewrite insert_empty, <- insert_union_singleton_l. Qed.

(** A call is accepted, with code zero, exactly when what it hands over can be
    read, and then that is all it changes of the answers. *)
Lemma set_output_run key val s :
  unpoisoned s ->
  match given_output (SetOutput key val) s with
  | Some o => api_set_output key val s = (set_results (set_stream (lk_data (as_results s)) o) s, Ok tt)
  | None => exists e, api_set_output key val s = (s, Err e)
  end.
Proof.
  intros [Hp _]. unfold api_set_output, set_output, given_output, given_text, given_channel. cbv [mbind sem_bind].
  rewrite read_string_run. destruct (buffer key (as_memory s)) as [l|[]]; cbn; [|eauto].
  destruct (from_utf8 l) as [k|e]; cbn; [|eauto]. rewrite decode_run.
  destruct (buffer val (as_memory s)) as [v|[]]; cbn; [|eauto]. destruct (prost_decode v) as [c|e]; cbn; [|eauto].
  unfold sem_ask, lock_get. rewrite Hp. cbn. unfold sem_modify. by rewrite merge_singleton.
Qed.
Lemma set_error_run msg s :
  unpoisoned s ->
  match given_error (SetError msg) s with
  | Some m => api_set_error msg s = (set_errors (lk_data (as_errors s) ++ [m]) s, Ok tt)
  | None => exists e, api_set_error msg s = (s, Err e)
  end.
Proof.
  intros [_ Hp]. unfold api_set_error, set_error, given_error, given_text. cbv [mbind sem_bind].
  rewrite read_string_run. destruct (buffer msg (as_memory s)) as [l|[]]; cbn; [|eauto].
  destruct (from_utf8 l) as [k|e]; cbn; [|eauto]. unfold sem_ask, lock_get. rewrite Hp. done.
Qed.

Lemma handle_answers os c s :
  unpoisoned s ->
  unpoisoned (handle os c s).1 /\
  lk_data (as_results (handle os c s).1) = foldl set_stream (lk_data (as_results s)) (option_list (given_output c s)) /\
  lk_data (as_errors (handle os c s).1) = lk_data (as_errors s) ++ option_list (given_error c s).
Proof.
  intros Hp. destruct (answering c) eqn:Hc.
  - destruct c; try discriminate Hc; cbn [Wasi.handle].
    + pose proof (set_output_run key val s Hp) as H. cbn [given_error option_list]. rewrite app_nil_r.
      destruct (given_output _ s) as [o|]; [rewrite H|destruct H as [e ->]]; done.
    + pose proof (set_error_run msg s Hp) as H. cbn [given_output option_list foldl].
      destruct (given_error _ s) as [o|]; [rewrite H|destruct H as [e ->]]; cbn; by rewrite ?app_nil_r.
  - pose proof (keeps_handle os c Hc s) as Hk. unfold answers in Hk. injection Hk as Hr He.
    unfold unpoisoned. rewrite Hr, He. destruct c; try discriminate Hc; cbn; by rewrite app_nil_r.
Qed.

(** The calls a guest makes, each with the state it is made in. *)
Fixpoint guest_calls (g : Guest) s : list (api_call * ApiState) :=
  match g with
  | Exit _ => []
  | Step f next => let m := f (as_memory s) in guest_calls (next m) (set_memory m s)
  | Call os c next =>
      (c, s) :: match invoke os c s with
                | (s', Ok code) => guest_calls (next code (as_memory s')) s'
                | (_, Err _) => []
                end
  end.
Definition outputs_given (calls : list (api_call * ApiState)) : list (string * Channel) :=
  omap (fun p => given_output p.1 p.2) calls.
Definition errors_given (calls : list (api_call * ApiState)) : list string := omap (fun p => given_error p.1 p.2) calls.

Lemma omap_cons_list {A B} (f : A -> option B) x l : omap f (x :: l) = option_list (f x) ++ omap f l.
Proof. cbn. by destruct (f x). Qed.

Lemma run_guest_answers g s :
  unpoisoned s ->
  let s' := (run_guest g s).1 in
  unpoisoned s' /\
  lk_data (as_results s') = foldl set_stream (lk_data (as_results s)) (outputs_given (guest_calls g s)) /\
  lk_data (as_errors s') = lk_data (as_errors s) ++ errors_given (guest_calls g s).
Proof.
  revert s. induction g as [trap|f next IH|os c next IH]; intros s Hp; cbn [Wasi.run_guest guest_calls].
  - cbn. by rewrite app_nil_r.
  - apply (IH _ (set_memory (f (as_memory s)) s)), Hp.
  - unfold outputs_given, errors_given. rewrite !omap_cons_list. cbn [fst snd].
    destruct (handle_answers os c s Hp) as (Hp1 & Hr1 & He1). unfold Wasi.invoke.
    destruct (handle os c s) as [s1 r]. cbn [fst] in *. rewrite foldl_app, <- Hr1, (assoc_L (++)), <- He1.
    destruct r as [a|[e|]]; [apply IH, Hp1|apply IH, Hp1|cbn; by rewrite app_nil_r].
Qed.

(** ** Input and output through guest memory *)
Definition disjoint (b : WasmBuffer) (at_ width : nat) : Prop :=
  N.to_nat (wb_ptr b) + N.to_nat (wb_len b) <= at_ \/ at_ + width <= N.to_nat (wb_ptr b).

Lemma buffer_in m b : beyond_capacity m b = false ->
  buffer b m = Ok (take (N.to_nat (wb_len b)) (drop (N.to_nat (wb_ptr b)) m)).
Proof. intros H. unfold buffer. by rewrite H. Qed.

Lemma beyond_capacity_length m m' b : length m' = length m -> beyond_capacity m' b = beyond_capacity m b.
Proof. intros H. unfold beyond_capacity, mem_size. by rewrite H. Qed.

(** A view keeps its content when another range is written. *)
Lemma buffer_write_at m b at_ new :
  at_ + length new <= length m -> disjoint b at_ (length new) -> buffer b (write_at at_ new m) = buffer b m.
Proof.
  intros Hle Hd. unfold buffer. rewrite (beyond_capacity_length m) by (by apply write_at_length).
  destruct (beyond_capacity m b); [done|]. f_equal. apply write_at_read_other; [done|]. unfold disjoint in Hd. lia.
Qed.

(** A key as the guest passes it. *)
Definition key_at (kb : WasmString) (key : string) s : Prop :=
  buffer kb (as_memory s) = Ok (bytes_of key) /\ from_utf8 (bytes_of key) = Ok key.

Lemma read_key what kb key s : key_at kb key s -> read_string what kb s = (s, Ok key).
Proof. intros [H1 H2]. rewrite read_string_run, H1, H2. done. Qed.

(** A channel survives the way through the guest.  For an argument of the
    execution, asking for its length and then for its content into a view of that
    length succeeds and puts the length and the encoding there; handing that view
    back as an output succeeds and adds exactly this channel to the results. *)
Theorem input_output_roundtrip os s kb key c len_ptr at_ vb :
  whole_pages (as_memory s) -> (mem_size (as_memory s) < u32_modulus)%N -> unpoisoned s ->
  get_channel (as_arguments s) key = Some c -> key_at kb key s ->
  wasm_deref (mem_size (as_memory s)) len_ptr 4 = Some at_ -> disjoint kb (N.to_nat at_) 4 ->
  in_memory (as_memory s) vb -> wb_len vb = encoded_len c ->
  disjoint kb (N.to_nat (wb_ptr vb)) (N.to_nat (wb_len vb)) ->
  exists s1 s2 s3,
    invoke os (GetInputLen kb len_ptr) s = (s1, Ok 0%N) /\
    take 4 (drop (N.to_nat at_) (as_memory s1)) = to_le_bytes 4 (encoded_len c) /\
    invoke os (GetInput kb vb) s1 = (s2, Ok 0%N) /\ buffer vb (as_memory s2) = Ok (prost_encode c) /\
    invoke os (SetOutput kb vb) s2 = (s3, Ok 0%N) /\
    lk_data (as_results s3) = set_channel (lk_data (as_results s)) key c.
Proof.
  intros Hpages Hlt Hp Hc Hk Hat Hd1 Hvb Hlen Hd2.
  apply (beyond_capacity_iff _ vb Hpages Hlt) in Hvb as Hcap. pose proof (in_memory_nat _ _ Hvb) as Hvn.
  pose proof (wasm_deref_within _ _ _ _ Hat) as Hw.
  assert (N.to_nat at_ + 4 <= length (as_memory s)) as Hatn by (unfold mem_size in Hw; lia).
  set (m1 := write_at (N.to_nat at_) (to_le_bytes 4 (encoded_len c mod u32_modulus)) (as_memory s)).
  assert (length m1 = length (as_memory s)) as Hm1 by (apply write_at_length; rewrite to_le_bytes_length; lia).
  set (s1 := set_memory m1 s).
  assert (key_at kb key s1) as Hk1.
  { destruct Hk as [Hk1 Hk2]. split; [|done]. cbn. unfold m1.
    rewrite buffer_write_at by (rewrite ?to_le_bytes_length; done). done. }
  set (m2 := write_at (N.to_nat (wb_ptr vb)) (prost_encode c) m1).
  assert (length (prost_encode c) = N.to_nat (wb_len vb)) as Hel by (rewrite Hlen; unfold encoded_len; lia).
  assert (length m2 = length (as_memory s)) as Hm2 by (unfold m2; rewrite write_at_length; lia).
  set (s2 := set_memory m2 s1).
  assert (key_at kb key s2) as Hk2.
  { destruct Hk1 as [Hk1 Hk2]. split; [|done]. cbn. unfold m2.
    rewrite buffer_write_at; [done|lia|by rewrite Hel]. }
  assert (buffer vb m2 = Ok (prost_encode c)) as Hv2.
  { rewrite buffer_in by (by rewrite (beyond_capacity_length (as_memory s))). f_equal. rewrite <- Hel.
    unfold m2. apply write_at_read. lia. }
  assert (encoded_len c mod u32_modulus = encoded_len c)%N as Hmod.
  { apply N.mod_small. unfold in_memory in Hvb. lia. }
  pose proof (set_output_run kb vb s2 Hp) as Hso. unfold given_output, given_text, given_channel in Hso.
  destruct Hk2 as [Hkb Hutf]. rewrite Hkb in Hso. cbn [result_ok] in Hso. rewrite Hutf in Hso.
  cbn [result_ok mbind option_bind] in Hso. cbn [as_memory s2 set_memory] in Hso. rewrite Hv2 in Hso.
  cbn [result_ok mbind option_bind] in Hso. rewrite prost_decode_encode in Hso. cbn in Hso.
  exists s1, s2. eexists. split_and!.
  - unfold Wasi.invoke. cbn [Wasi.handle]. unfold get_input_len. cbv [mbind sem_bind]. rewrite (read_key _ _ key) by done.
    unfold sem_ask, find_input. rewrite Hc. cbn [ok_or wasi map_err]. unfold set_item, put_memory, item_set.
    change (N.of_nat 4) with 4%N. rewrite Hat. done.
  - cbn [s1 set_memory as_memory]. unfold m1. rewrite Hmod.
    rewrite <- (to_le_bytes_length 4 (encoded_len c)) at 1. apply write_at_read. rewrite to_le_bytes_length. lia.
  - unfold Wasi.invoke. cbn [Wasi.handle]. unfold get_input. cbv [mbind sem_bind]. rewrite (read_key _ _ key) by done.
    unfold sem_ask, find_input. change (as_arguments s1) with (as_arguments s). rewrite Hc.
    cbn [ok_or wasi map_err]. unfold put_memory, encode_into. cbn [s1 set_memory as_memory].
    unfold buffer, buffer_put. rewrite (beyond_capacity_length (as_memory s)), Hcap by done. cbn [no_panic map_err mbind result_bind].
    rewrite Hlen, N.ltb_irrefl. done.
  - exact Hv2.
  - unfold Wasi.invoke. cbn [Wasi.handle]. by rewrite Hso.
  - done.
Qed.

(** ** Where attachments are mapped *)

Lemma link_at_run os name d p s content :
  ca_files (as_host s) !! d = Some content -> ho_hard_link os d p = None ->
  link_at os name d p s = (set_host_files (<[p := content]> (ca_files (as_host s))) s, Ok tt).
Proof. intros Hd Hl. unfold link_at, sem_ask. cbv [mbind sem_bind]. rewrite Hl, Hd. done. Qed.

(** A mapped attachment lands where its name leads.  When a guest maps an
    attachment by a descriptor of its own making, the downloaded content is
    linked at the attachment's name joined to the folder of the attachment
    sandbox, and the guest is told the name below [attachments].  Nothing looks at
    the name: for an absolute one the sandbox plays no part and the content is put
    at that path of the host; only for relative ones is the path below the
    folder as a text, with whatever [..] the name has. *)
Theorem mapping_follows_name os db pb a s host' downloaded content :
  let native := native_attachment_path_from_descriptor a (as_attachment_sandbox s) in
  let told := bytes_of (wasi_attachment_path_from_descriptor a) in
  buffer db (as_memory s) = Ok (prost_encode a) -> path_present os native s = false ->
  download_cached auth source (ho_cache_write os) (attachments_path (as_function_dir s)) a (as_host s) =
    (host', Ok downloaded) ->
  ca_files host' !! downloaded = Some content -> ho_hard_link os downloaded native = None ->
  whole_pages (as_memory s) -> (mem_size (as_memory s) < u32_modulus)%N -> in_memory (as_memory s) pb ->
  wb_len pb = N.of_nat (length told) ->
  (exists s', invoke os (MapFromDescriptor db 0 pb) s = (s', Ok 0%N) /\
     ca_files (as_host s') !! native = Some content /\ buffer pb (as_memory s') = Ok told) /\
  (is_absolute (att_name a) = true -> native = att_name a) /\
  (is_absolute (att_name a) = false -> String.prefix (host_path (as_attachment_sandbox s)) native = true).
Proof.
  intros native told Hdb Hpresent Hdl Hcontent Hlink Hpages Hlt Hpb Hlen. split; [|split].
  - apply (beyond_capacity_iff _ pb Hpages Hlt) in Hpb as Hcap. pose proof (in_memory_nat _ _ Hpb) as Hpn.
    set (s1 := set_host host' s).
    set (s2 := set_host_files (<[native := content]> (ca_files (as_host s1))) s1).
    exists (set_memory (write_at (N.to_nat (wb_ptr pb)) told (as_memory s)) s2). split_and!.
    + unfold Wasi.invoke. cbn [Wasi.handle]. change (negb (0 =? 0)%N) with false.
      unfold map_attachment_from_descriptor. cbv [mbind sem_bind]. rewrite decode_run, Hdb, prost_decode_encode.
      cbn [map_err]. unfold map_found. cbv [mbind sem_bind]. unfold sem_ask. fold native.
      unfold download_and_map_at. cbv [mbind sem_bind]. unfold sem_ask. rewrite Hpresent.
      unfold fetch_attachment. rewrite Hdl. cbn [map_err]. fold s1.
      rewrite (link_at_run os (att_name a) downloaded native s1 content) by done. fold s2.
      unfold write_buffer, put_memory, buffer_write, buffer, buffer_put. fold told.
      change (as_memory s2) with (as_memory s). rewrite Hcap. cbn [mbind result_bind].
      rewrite Hlen, N.eqb_refl. done.
    + cbn. apply lookup_insert_eq.
    + cbn [as_memory set_memory]. rewrite buffer_in.
      * f_equal. rewrite Hlen, Nat2N.id. apply write_at_read. lia.
      * rewrite (beyond_capacity_length (as_memory s)); [done|]. apply write_at_length. lia.
  - intros Habs. unfold native, native_attachment_path_from_descriptor, path_join. by rewrite Habs.
  - intros Hrel. unfold native, native_attachment_path_from_descriptor, path_join. rewrite Hrel.
    apply prefix_spec. destruct (needs_separator _); eauto.
Qed.
End wasi_props.

(** ** Whole executions *)
Section executions.
Context {DL : DigestLib} {UR : UrlLib} {RR : RegexReplace} {WP : WasmPtrLib} {HO : HashOrder} {WE : WasmEngine}.
Context {PC : Prost Channel} {PA : Prost Attachment} {PS : Prost StartProcessRequest}.
Context {S : Type}.
Variable auth : AuthenticationSource S.
Variable source : Source.
Variable display_utf8 : Utf8Error -> string.

(** C22: what an execution answers is what the guest handed over.  When
    [wasi_execute] answers, the module of the downloaded code had the entrypoint,
    its guest started with the arguments of the execution and no answers and
    ended without a trap or a panic; if it handed over no errors the answer is
    the stream of its outputs, the last one of each name, and otherwise its errors
    in order, one per line. *)
Theorem execution_outcome os self params arguments attachments c c' answer :
  wasi_execute auth source display_utf8 os self params arguments attachments c = (c', Ok answer) ->
  exists code module instance guest s0 s',
    module_new code = Ok module /\ instance_new module = Ok instance /\
    in_get_function instance (default "_start" (rp_entrypoint params)) = Ok guest /\
    as_arguments s0 = arguments /\ as_attachments s0 = attachments /\ as_memory s0 = initial_memory instance /\
    run_guest auth source guest s0 = (s', Ok None) /\
    let calls := guest_calls auth source guest s0 in
    answer = match errors_given calls with
             | [] => Ok (foldl set_stream stream_new (outputs_given calls))
             | errors => Err (str_join newline errors)
             end.
Proof.
  unfold wasi_execute. intros H.
  do 7 (apply sem_bind_Ok in H as (? & ? & _ & H)).
  apply sem_bind_Ok in H as (c1 & module & Hmod & H). apply sem_bind_Ok in H as (c2 & ? & _ & H).
  apply sem_bind_Ok in H as (c3 & instance & Hinst & H). apply sem_bind_Ok in H as (c4 & guest & Hguest & H).
  apply sem_bind_Ok in H as (c5 & host & _ & H). apply sem_bind_Ok in H as (c6 & s' & Hrun & H).
  unfold or_message, sem_lift in *. injection Hmod as _ Hmod%map_err_Ok. injection Hinst as _ Hinst%map_err_Ok.
  injection Hguest as _ Hguest%map_err_Ok. injection H as _ H%map_err_Ok.
  unfold call_entrypoint in Hrun. match type of Hrun with context [set_host ?h ?s] => set (s0 := set_host h s) in Hrun end.
  destruct (run_guest auth source guest s0) as [s1 [[trap|]|[]]] eqn:Hg; [done| |done]. injection Hrun as _ <-.
  eexists _, module, instance, guest, s0, s1. split_and!; [exact Hmod|done..|exact Hg|].
  pose proof (run_guest_answers auth source guest s0 (conj eq_refl eq_refl)) as Ha. rewrite Hg in Ha. cbn [fst] in Ha.
  destruct Ha as ([Hp1 Hp2] & Hr & He). unfold outcome, lock_get in H. rewrite Hp1, Hp2, Hr, He in H.
  cbn [mbind result_bind] in H. injection H as <-. cbn [app]. by destruct (errors_given _).
Qed.
End executions.

(** ** A concrete host *)
Module WasiExamples.
#[local] Existing Instance Concrete.text_digest.
#[local] Existing Instance Concrete.text_url.
#[local] Existing Instance key_order.

#[local] Instance no_regex : RegexReplace := {|
  RegexObject := unit; regex_new := fun _ => Ok tt; regex_replace_all := fun _ arg _ => arg |}.
#[local] Instance unaligned : WasmPtrLib.
Proof.
  refine {| wasm_deref size ptr width := if (ptr + width <=? size)%N then Some ptr else None |}.
  intros size ptr width at_. destruct (N.leb_spec (ptr + width) size); [by intros [= <-]|done].
Defined.

Definition no_auth : AuthenticationSource unit := MkAuthSource (fun _ => sem_lift (Err "no credentials")).
Definition guest_code : list byte := bytes_of "guest".
Definition served : Source := MkSource Ok (fun _ => Ok guest_code) (fun _ _ => Err (HttpTransport "offline")).
Definition os := MkHostOs (fun _ => false) (fun _ => None) (fun _ _ => None) Written (fun _ _ f => (f, None)) "linux"
  (fun _ _ _ => Err "no processes") (fun _ => Err "no network") (fun _ => Err "no sockets").
Definition no_cache : Cache (S := unit) := MkCache tt ∅.
Definition dir := MkFunctionDirectory "/f/attachments" "/f/cache" "/f/run".
Definition box (name : string) : Sandbox := MkSandbox _ ("/f/run/" +:+ name) tt name.
Definition yes : Channel := to_channel_one true.
Definition blank (m : Memory) : ApiState (S := unit) :=
  MkApiState (MkStream {[ "k" := yes ]}) [] (box "sandbox") (box "attachments") (box "cache")
    (lock_new stream_new) (lock_new []) dir m no_cache [].

(** The key at 0, its length at 8, the channel at 16. *)
Definition key_buffer : WasmString := MkBuffer 0 1.
Definition value_buffer : WasmBuffer := MkBuffer 16 (encoded_len yes).
Definition with_key : Memory := write_at 0 (bytes_of "k") one_page.

Lemma with_key_size : mem_size with_key = wasm_page.
Proof.
  unfold with_key, mem_size. rewrite write_at_length; [apply one_page_size|].
  pose proof one_page_size as H. unfold mem_size, wasm_page in H. cbn. lia.
Qed.

Lemma input_output_roundtrip_witness :
  exists s1 s2 s3,
    invoke no_auth served os (GetInputLen key_buffer 8%N) (blank with_key) = (s1, Ok 0%N) /\
    invoke no_auth served os (GetInput key_buffer value_buffer) s1 = (s2, Ok 0%N) /\
    invoke no_auth served os (SetOutput key_buffer value_buffer) s2 = (s3, Ok 0%N) /\
    lk_data (as_results s3) = MkStream {[ "k" := yes ]}.
Proof.
  assert (mem_size (as_memory (blank with_key)) = wasm_page) as Hsize by apply with_key_size.
  destruct (input_output_roundtrip no_auth served os (blank with_key) key_buffer "k" yes 8%N 8%N value_buffer)
    as (s1 & s2 & s3 & H1 & _ & H2 & _ & H3 & H4).
  - unfold whole_pages. rewrite Hsize. reflexivity.
  - rewrite Hsize. reflexivity.
  - split; reflexivity.
  - reflexivity.
  - split; [|reflexivity]. unfold buffer, beyond_capacity. rewrite Hsize. reflexivity.
  - rewrite Hsize. reflexivity.
  - left. cbn. lia.
  - unfold in_memory. rewrite Hsize. apply N.leb_le. vm_compute. reflexivity.
  - reflexivity.
  - left. cbn. lia.
  - exists s1, s2, s3. split; [exact H1|]. split; [exact H2|]. split; [exact H3|]. rewrite H4. reflexivity.
Defined.

(** A descriptor with an absolute name, at 0. *)
Definition intruder := MkAttachment "/etc/motd" (Some (MkAttachmentUrl "file:/x" 0)) ∅ (Some (MkChecksums "guest")) 0 None None.
Definition with_descriptor : Memory := write_at 0 (prost_encode intruder) one_page.
Definition descriptor_buffer : WasmBuffer := MkBuffer 0 (encoded_len intruder).
Definition path_buffer : WasmBuffer := MkBuffer 4096 21.

Lemma with_descriptor_fits : 0 + length (prost_encode intruder) <= length one_page.
Proof.
  pose proof one_page_size as H. unfold mem_size, wasm_page in H.
  assert ((N.of_nat (length (prost_encode intruder)) <=? 65536)%N = true) as Hl%N.leb_le by (vm_compute; exact eq_refl). lia.
Qed.
Lemma with_descriptor_size : mem_size with_descriptor = wasm_page.
Proof. unfold with_descriptor, mem_size. rewrite write_at_length; [apply one_page_size|apply with_descriptor_fits]. Qed.

Lemma mapping_follows_name_witness :
  exists s', invoke no_auth served os (MapFromDescriptor descriptor_buffer 0 path_buffer) (blank with_descriptor) = (s', Ok 0%N) /\
    ca_files (as_host s') !! "/etc/motd" = Some guest_code.
Proof.
  assert (mem_size (as_memory (blank with_descriptor)) = wasm_page) as Hsize by apply with_descriptor_size.
  assert (exists host' d, download_cached no_auth served Written "/f/attachments" intruder no_cache = (host', Ok d) /\
            ca_files host' !! d = Some guest_code) as (host' & d & Hd & Hc)
    by (eexists _, _; split; [vm_compute; reflexivity|vm_compute; reflexivity]).
  destruct (mapping_follows_name no_auth served os descriptor_buffer path_buffer intruder (blank with_descriptor)
              host' d guest_code) as ((s' & H1 & H2 & _) & H3 & _).
  - unfold buffer, beyond_capacity. rewrite Hsize.
    assert ((wasm_page mod u32_modulus <? u32_saturating_add (wb_ptr descriptor_buffer) (wb_len descriptor_buffer))%N = false) as ->
      by (vm_compute; exact eq_refl).
    apply (f_equal (@Ok panic (list byte))). cbn [descriptor_buffer wb_len wb_ptr]. unfold encoded_len. rewrite Nat2N.id.
    exact (write_at_read 0 _ _ with_descriptor_fits).
  - reflexivity.
  - exact Hd.
  - exact Hc.
  - reflexivity.
  - unfold whole_pages. rewrite Hsize. reflexivity.
  - rewrite Hsize. reflexivity.
  - unfold in_memory. rewrite Hsize. apply N.leb_le. vm_compute. reflexivity.
  - reflexivity.
  - exists s'. split; [exact H1|]. rewrite (H3 eq_refl) in H2. exact H2.
Defined.

(** A module whose guest writes an output and ends. *)
Definition prepared : Memory := bytes_of "k123456789abcdef" ++ prost_encode yes ++ replicate 100 HostExamples.not_text.
Definition guest : Guest :=
  Step (fun _ => prepared) (fun _ => Call os (SetOutput key_buffer value_buffer) (fun _ _ => Exit None)).
#[local] Instance engine : WasmEngine := {|
  WModule := unit; module_new := fun _ => Ok tt; wasi_import_object := fun _ => Ok tt;
  instance_new := fun _ => Ok (MkInstance [] (fun _ => Ok guest)) |}.
Definition launch := MkLaunchOs (MkExecOs (fun _ => None) None) (fun _ => None) (fun _ _ => None) Written (fun _ => None).
Definition parameters := MkRuntimeParameters dir "f" None (Some intruder) ∅ None.
Definition run_it := wasi_execute no_auth served (fun _ => EmptyString) launch wasi_runtime_new parameters stream_new [] no_cache.

Lemma execution_outcome_witness :
  exists s0, run_it.2 = Ok (Ok (foldl set_stream stream_new (outputs_given (guest_calls no_auth served guest s0)))) /\
    get_channel (foldl set_stream stream_new (outputs_given (guest_calls no_auth served guest s0))) "k" = Some yes.
Proof.
  destruct run_it as [c' r] eqn:Hrun.
  assert (exists v, run_it.2 = Ok (Ok v) /\ get_channel v "k" = Some yes) as (v & Hr & Hv)
    by (eexists; split; [vm_compute; reflexivity|vm_compute; reflexivity]).
  rewrite Hrun in Hr. cbn in Hr. subst r.
  destruct (execution_outcome no_auth served (fun _ => EmptyString) launch wasi_runtime_new parameters stream_new []
              no_cache c' (Ok v) Hrun) as (code & m & i & g & s0 & s' & _ & Hi & Hg & _ & _ & _ & _ & Ha).
  injection Hi as <-. injection Hg as <-. exists s0. cbv zeta in Ha.
  destruct (errors_given _) in Ha; [|discriminate Ha].
  apply (f_equal (fun r : result string ValueStream => match r with Ok x => x | Err _ => v end)) in Ha.
  cbv beta iota in Ha. cbn [snd]. rewrite <- Ha.
  split; [reflexivity|exact Hv].
Defined.
End WasiExamples.
