(* ===== verification/FilesystemSource.v ===== *)
(** * Runtimes from a folder (services/avery/src/runtime/filesystem_source.rs)

    A [FileSystemSource] offers the WASI modules and archives of a folder as
    runtimes.  Such a runtime is a module of its own, which gets the function to
    run as a [RuntimeContext] in a file of a folder mapped as [runtime-context]:
    [NestedWasiRuntime].

    [nested_prepare] is the part of its execution up to the start of the module,
    [nested_execute] the whole.  The folder's entries, the parsed checksum file and
    the answers of the operating system are arguments. *)
From S2P Require Import Prelude Interfaces Proto Stream Registry Executor Download WasmMemory WasiHost Wasi WasiRun SimpleCodec.
From Stdlib Require Import Ascii.

Record TOMLChecksums := MkTOMLChecksums { tc_sha256 : string; tc_executable_sha256 : option string }.
Definition checksums_from (toml_checksums : TOMLChecksums) : Checksums :=
  MkChecksums (default (tc_sha256 toml_checksums) (tc_executable_sha256 toml_checksums)).

Inductive FileSystemSourceError :=
| MissingChecksumFile (path : string)
| IOError (e : string)
| TOMLError (e : string).

(** [splitn(2, '.')]: what is before and after the first dot. *)
Definition split_name (filename : string) : string * option string :=
  match split_once "."%char filename with
  | Some (stem, extension) => (stem, Some extension)
  | None => (filename, None)
  end.

Record NestedOs := MkNestedOs {
  no_launch : LaunchOs;
  no_create : string -> option string;
  no_write_all : string -> option string;
  (** seconds since the epoch the executable was created, if known *)
  no_created : string -> option N;
  (** the url of a file with a query *)
  no_file_url : string -> string -> option string
}.
Definition nested_error (message : string) : RuntimeError := RuntimeError_ "nested-wasi" message.

Section filesystem_source.
Context {DL : DigestLib} {UR : UrlLib} {RR : RegexReplace} {WP : WasmPtrLib} {HO : HashOrder} {WE : WasmEngine}.
Context {PC : Prost Channel} {PA : Prost Attachment} {PS : Prost StartProcessRequest} {PX : Prost RuntimeContext}.
Context {S : Type}.
Variable auth : AuthenticationSource S.
Variable source : Source.
Variable display_utf8 : Utf8Error -> string.

(** ** The nested runtime *)
Record NestedWasiRuntime := MkNested {
  nw_wasi_runtime : WasiRuntime;
  nw_runtime_name : string;
  nw_runtime_executable : string;
  nw_runtime_checksums : Checksums;
  nw_runtime_context_folder : string
}.
Definition nested_new (name executable runtime_context_folder : string) (checksums : Checksums) : NestedWasiRuntime :=
  MkNested wasi_runtime_new name executable checksums runtime_context_folder.
Definition with_filesystem (host_path guest_path : string) (self : NestedWasiRuntime) : NestedWasiRuntime :=
  MkNested (with_host_dir guest_path host_path (nw_wasi_runtime self)) (nw_runtime_name self)
    (nw_runtime_executable self) (nw_runtime_checksums self) (nw_runtime_context_folder self).

Definition runtime_context (params : RuntimeParameters) : RuntimeContext :=
  MkRuntimeContext (rp_code params) (default EmptyString (rp_entrypoint params)) (rp_arguments params)
    (rp_function_name params).
Definition context_file (self : NestedWasiRuntime) : string := path_join (nw_runtime_context_folder self) "context".
(** [File::create] leaves an empty file, [write_all] fills it. *)
Definition write_file (path : string) (content : list byte) : execution (S := S) unit :=
  sem_modify (fun c => MkCache (ca_auth c) (<[path := content]> (ca_files c))).
Definition nested_prepare (os : NestedOs) (self : NestedWasiRuntime) (params : RuntimeParameters) : execution (S := S) unit :=
  _ ← sem_lift (map_err (fun e => StopError (nested_error ("Failed to create runtime context folder: " +:+ e)))
        (create_dir_all (lo_exec (no_launch os)) (nw_runtime_context_folder self)));
  _ ← sem_lift match no_create os (context_file self) with
        | Some e => Err (StopError (nested_error e))
        | None => Ok tt
        end;
  _ ← write_file (context_file self) [];
  _ ← sem_lift match no_write_all os (context_file self) with
        | Some e => Err (StopError (nested_error e))
        | None => Ok tt
        end;
  write_file (context_file self) (prost_encode (runtime_context params)).

Definition runtime_code (self : NestedWasiRuntime) (url : string) (created : N) : Attachment :=
  MkAttachment (nw_runtime_name self +:+ "-runtime-code") (Some (MkAttachmentUrl url (AuthMethod_to_i32 AMNone))) ∅
    (Some (nw_runtime_checksums self)) created (Some (MkPublisher "Unknown" "un@known.org")) None.
Definition nested_execute (os : NestedOs) (self : NestedWasiRuntime) (params : RuntimeParameters)
    (function_arguments : ValueStream) (function_attachments : list Attachment)
  : execution (S := S) (result string ValueStream) :=
  _ ← nested_prepare os self params;
  let runtime_timestamp := default 0%N (no_created os (nw_runtime_executable self)) in
  runtime_url ← sem_lift (ok_or (StopError (nested_error
        ("URL of runtime executable at " +:+ quoted (nw_runtime_executable self) +:+ " is invalid")))
        (no_file_url os (nw_runtime_executable self) ("checksum=" +:+ ck_sha256 (nw_runtime_checksums self))));
  wasi_execute auth source display_utf8 (no_launch os) (nw_wasi_runtime self)
    (MkRuntimeParameters (rp_function_dir params) (rp_function_name params) None
       (Some (runtime_code self runtime_url runtime_timestamp)) ∅ (rp_output_sink params))
    function_arguments function_attachments.

(** ** The source *)

(** A file that can become a runtime: the captures of [RuntimeWrapper]. *)
Record RuntimeFile := MkRuntimeFile { rf_name : string; rf_ext : string; rf_path : string; rf_checksums : Checksums }.
Record FileSystemSource := MkFileSystemSource { fs_runtimes : gmap string RuntimeFile; fs_cache_dir : string }.

Definition create_nested_wasi_runtime (name ext path : string) (directory_checksums : gmap string TOMLChecksums)
  : option (string * RuntimeFile) :=
  c ← directory_checksums !! (name +:+ "." +:+ ext);
  Some (name, MkRuntimeFile name ext path (checksums_from c)).

(** What scanning the folder answers: per entry its resolved path and file name,
    nothing for one that cannot be resolved. *)
Record DirEntry := MkDirEntry { de_path : string; de_file_name : string; de_is_dir : bool }.
Definition scan_entry (directory_checksums : gmap string TOMLChecksums) (e : option DirEntry)
  : option (string * RuntimeFile) :=
  e ← e;
  if de_is_dir e then None
  else
    let '(stem, extension) := split_name (de_file_name e) in
    ext ← extension;
    if bool_decide (ext = "tar.gz") || bool_decide (ext = "wasm")
    then create_nested_wasi_runtime stem ext (de_path e) directory_checksums else None.
(** Collecting into a hash map: a later entry of a name replaces an earlier. *)
Definition collect_map {V} (l : list (string * V)) : gmap string V := foldl (fun m p => <[p.1 := p.2]> m) ∅ l.
Definition filesystem_source_new (root : string) (checksum_file_exists : bool)
    (read_checksums : result FileSystemSourceError (gmap string TOMLChecksums))
    (read_dir : result FileSystemSourceError (list (option DirEntry)))
    (temp_dir : result FileSystemSourceError string) : result FileSystemSourceError FileSystemSource :=
  if checksum_file_exists then
    directory_checksums ← read_checksums;
    entries ← read_dir;
    cache_dir ← temp_dir;
    Ok (MkFileSystemSource (collect_map (omap (scan_entry directory_checksums) entries)) cache_dir)
  else Err (MissingChecksumFile root).

(** The call of a [RuntimeWrapper]: the runtime of a file, after unpacking its
    archive where that has not been done. *)
Record UnpackOs := MkUnpackOs {
  uo_exists : string -> bool;
  uo_unpack : string -> string -> Files -> Files * option string
}.
Definition folder_of (cache_dir : string) (f : RuntimeFile) : result panic string :=
  short ← str_slice_to 16 (ck_sha256 (rf_checksums f));
  Ok (path_join cache_dir (rf_name f +:+ "-" +:+ short)).
Definition unpack_runtime (os : UnpackOs) (path function_dir : string) : sem Files string unit :=
  fun files => if uo_exists os function_dir then (files, Ok tt)
    else let '(files', e) := uo_unpack os path function_dir files in
         (files', match e with Some e => Err e | None => Ok tt end).
Definition wrap_runtime (os : UnpackOs) (cache_dir : string) (f : RuntimeFile) (files : Files)
  : Files * result panic (option NestedWasiRuntime) :=
  match folder_of cache_dir f with
  | Err p => (files, Err p)
  | Ok function_dir =>
      let context_path := path_join function_dir "context" in
      let with_context := with_filesystem context_path "runtime-context" in
      if bool_decide (rf_ext f = "wasm")
      then (files, Ok (Some (with_context (nested_new (rf_name f) (rf_path f) context_path (rf_checksums f)))))
      else
        let '(files', r) := unpack_runtime os (rf_path f) function_dir files in
        (files', match r with
                 | Err _ => Ok None
                 | Ok _ =>
                     let nested := nested_new (rf_name f) (path_join function_dir (rf_name f +:+ ".wasm"))
                                     context_path (rf_checksums f) in
                     let fs := path_join function_dir "fs" in
                     Ok (Some (with_context (if uo_exists os fs then with_filesystem fs "runtime-fs" nested else nested)))
                 end)
  end.
Definition source_get (os : UnpackOs) (self : FileSystemSource) (name : string) (files : Files)
  : Files * result panic (option NestedWasiRuntime) :=
  match fs_runtimes self !! name with
  | None => (files, Ok None)
  | Some f => wrap_runtime os (fs_cache_dir self) f files
  end.
Definition source_list (self : FileSystemSource) : list string := hash_keys (fs_runtimes self).

(** ** Theorems *)
Lemma str_contains_char d c s :
  str_contains (String d EmptyString) (String c s) = Ascii.eqb c d || str_contains (String d EmptyString) s.
Proof.
  cbn [str_contains String.prefix]. destruct (Ascii.ascii_dec d c) as [<-|Hne].
  - rewrite Ascii.eqb_refl. by destruct s.
  - destruct (Ascii.eqb_spec c d) as [->|_]; done.
Qed.

(** The stem of a file name has no dot, the extension may. *)
Lemma split_name_iff filename stem ext :
  split_name filename = (stem, Some ext) <->
  filename = stem +:+ String "." ext /\ str_contains (String "." EmptyString) stem = false.
Proof.
  assert (split_name filename = (stem, Some ext) <-> split_once "."%char filename = Some (stem, ext)) as ->.
  { unfold split_name. destruct (split_once "."%char filename) as [[a b]|]; naive_solver. }
  revert stem. induction filename as [|c filename IH]; intros stem; cbn [split_once].
  - split; [done|]. by intros [H _]; destruct stem.
  - destruct (Ascii.eqb_spec c ".") as [->|Hc].
    + split; [by intros [= <- <-]|]. intros [H Hn]. destruct stem as [|d stem]; [by injection H as ->|].
      injection H as <- _. by rewrite str_contains_char, Ascii.eqb_refl in Hn.
    + destruct stem as [|d stem].
      * split; [|by intros [[= ? _] _]]. by destruct (split_once "."%char filename) as [[]|].
      * rewrite str_contains_char. specialize (IH stem). split.
        -- destruct (split_once "."%char filename) as [[a b]|]; [|done]. cbn. intros [= <- <- <-].
           destruct IH as [IH _]. destruct (IH eq_refl) as [-> ->]. split; [done|].
           rewrite orb_false_r. by apply Ascii.eqb_neq.
        -- intros [[= <- H] [_ Hn]%orb_false_iff]. destruct IH as [_ IH]. by rewrite IH.
Qed.

(** Preparing leaves the context of the function in the file of the runtime. *)
Lemma nested_prepare_Ok os self params c c' :
  nested_prepare os self params c = (c', Ok tt) ->
  ca_files c' = <[context_file self := prost_encode (runtime_context params)]> (ca_files c).
Proof.
  unfold nested_prepare, write_file, sem_lift, sem_modify. cbv [mbind sem_bind].
  destruct (create_dir_all _ _); cbn [map_err]; [|done]. destruct (no_create _ _); [done|].
  destruct (no_write_all _ _); [done|]. intros [= <-]. cbn. apply insert_insert_eq.
Qed.

Lemma source_get_context os self name files files' r :
  source_get os self name files = (files', Ok (Some r)) ->
  exists f function_dir, fs_runtimes self !! name = Some f /\ folder_of (fs_cache_dir self) f = Ok function_dir /\
    nw_runtime_context_folder r = path_join function_dir "context" /\
    host_dirs (nw_wasi_runtime r) !! "runtime-context" = Some (path_join function_dir "context").
Proof.
  unfold source_get. destruct (fs_runtimes self !! name) as [f|]; [|done]. unfold wrap_runtime.
  destruct (folder_of (fs_cache_dir self) f) as [d|] eqn:Hd; [|done]. intros H. exists f, d. split; [done|]. split; [done|].
  destruct (bool_decide (rf_ext f = "wasm")).
  - injection H as _ <-. cbn. by rewrite lookup_insert_eq.
  - destruct (unpack_runtime _ _ _ _) as [files1 [[]|e]]; [|done]. injection H as _ <-.
    destruct (uo_exists os _); cbn; by rewrite lookup_insert_eq.
Qed.

(** The executions of one runtime share its context file.  A runtime of the
    source tells its module which function to run in a file it maps as
    [runtime-context/context]; preparing an execution writes the function's code,
    entrypoint, arguments and name there, and reading it back gives them.  But
    every runtime the source gives for a name has that same file: when a second
    execution is prepared before the module of the first has read its context,
    what the first reads is the context of the second. *)
Theorem runtimes_share_context os1 os2 uos1 uos2 self name f1 f1' f2 f2' r1 r2 params1 params2 c c1 c1' c2 :
  source_get uos1 self name f1 = (f1', Ok (Some r1)) -> source_get uos2 self name f2 = (f2', Ok (Some r2)) ->
  nested_prepare os1 r1 params1 c = (c1, Ok tt) ->
  nested_prepare os2 r2 params2 c1' = (c2, Ok tt) ->
  let seen (c : Cache) (r : NestedWasiRuntime) :=
    folder ← host_dirs (nw_wasi_runtime r) !! "runtime-context";
    content ← ca_files c !! path_join folder "context";
    result_ok (prost_decode (T := RuntimeContext) content) in
  seen c1 r1 = Some (runtime_context params1) /\ seen c2 r1 = Some (runtime_context params2).
Proof.
  intros Hg1 Hg2 Hp1 Hp2 seen.
  destruct (source_get_context _ _ _ _ _ _ Hg1) as (f & d & Hf & Hd & Hc1 & Hm1).
  destruct (source_get_context _ _ _ _ _ _ Hg2) as (f' & d' & Hf' & Hd' & Hc2 & Hm2).
  assert (f' = f) as -> by congruence. assert (d' = d) as -> by congruence.
  apply nested_prepare_Ok in Hp1, Hp2. unfold seen, context_file in *. rewrite Hm1. cbn.
  rewrite Hp1, Hp2, Hc1, Hc2, !lookup_insert_eq. cbn. by rewrite !prost_decode_encode.
Qed.
End filesystem_source.

(** ** A concrete folder *)
Module SourceExamples.
#[local] Existing Instance key_order.
Definition launch := MkLaunchOs (MkExecOs (fun _ => None) None) (fun _ => None) (fun _ _ => None) Written (fun _ => None).
Definition os := MkNestedOs launch (fun _ => None) (fun _ => None) (fun _ => None) (fun p q => Some (p +:+ "?" +:+ q)).
Definition unpack_os := MkUnpackOs (fun _ => false) (fun _ _ f => (f, None)).
Definition folder : result FileSystemSourceError FileSystemSource :=
  filesystem_source_new "/runtimes" true (Ok {[ "python.wasm" := MkTOMLChecksums "0123456789abcdef" None ]})
    (Ok [None; Some (MkDirEntry "/runtimes/python.wasm" "python.wasm" false); Some (MkDirEntry "/runtimes/x" "x" true)])
    (Ok "/tmp/cache").
Definition from_folder : FileSystemSource := match folder with Ok s => s | Err _ => MkFileSystemSource ∅ EmptyString end.
Definition running (name : string) : RuntimeParameters :=
  MkRuntimeParameters (MkFunctionDirectory "/a" "/c" "/e") name None None ∅ None.

Lemma runtimes_share_context_witness :
  exists r c1 c2,
    source_get unpack_os from_folder "python" ∅ = (∅, Ok (Some r)) /\
    nested_prepare os r (running "first") (MkCache tt ∅) = (c1, Ok tt) /\
    nested_prepare os r (running "second") c1 = (c2, Ok tt) /\
    (folder ← host_dirs (nw_wasi_runtime r) !! "runtime-context";
     content ← ca_files c2 !! path_join folder "context";
     result_ok (prost_decode (T := RuntimeContext) content)) = Some (runtime_context (running "second")).
Proof.
  assert (exists r, source_get unpack_os from_folder "python" ∅ = (∅, Ok (Some r))) as [r Hr]
    by (eexists; vm_compute; reflexivity).
  destruct (nested_prepare os r (running "first") (MkCache tt ∅)) as [c1 e1] eqn:H1.
  destruct (nested_prepare os r (running "second") c1) as [c2 e2] eqn:H2.
  assert (e1 = Ok tt) as -> by (injection H1 as _ <-; reflexivity).
  assert (e2 = Ok tt) as -> by (injection H2 as _ <-; reflexivity).
  exists r, c1, c2. split; [exact Hr|]. split; [exact H1|]. split; [exact H2|].
  exact (proj2 (runtimes_share_context os os unpack_os unpack_os from_folder "python" ∅ ∅ ∅ ∅ r r (running "first")
           (running "second") _ c1 c1 c2 Hr Hr H1 H2)).
Defined.
End SourceExamples.
