(* ===== verification/AveryStart.v ===== *)
(** * How Avery starts, serves and ends (services/avery/src/run.rs, config.rs)

    [run] reads the configuration, makes the services from it, listens, says that it
    has started, serves until it is told to stop, and removes the socket it made.
    What differs between the systems is the record [System], of which [AveryUnix] and
    [AveryWindows] are the two instances.

    The world of a run is its environment, the socket files there are, the folders it
    has made for the time it runs, the token cache on disk and, on Windows, the states
    reported to the service manager.  The [config] crate, which merges sources, what
    the operating system answers and what happens while Avery serves are arguments.
    Logging and the thread pool's threads are not modelled. *)
From S2P Require Import Prelude Interfaces Json Proto Regex Registry ProxyRegistry Config HostServices.
From S2P Require Import Tokens TokenStore KeyStore ExpireMap OidcLogin Access AuthStart ProxyConnect RegistryApi Executor.
From S2P Require Import WasmMemory WasiHost Wasi WasiRun FilesystemSource.

(** ** Configuration *)
Record Auth := MkAuth {
  au_identity : IdentityProvider;
  au_scopes : gmap string AuthConfig;
  au_key_store : KeyStoreConfig;
  au_allow : AllowConfig
}.
Record RegistryEntry := MkRegistryEntry { re_name : string; re_url : string }.
Record AveryConfig := MkAveryConfig {
  vc_registries : list RegistryEntry;
  vc_conflict_resolution : ConflictResolutionMethod;
  (** [InternalRegistryConfig]: its version suffix *)
  vc_internal_registry : string;
  vc_runtime_directories : list string;
  vc_oidc_providers : gmap string OidcProvider;
  vc_auth : Auth
}.
(** The fields as the sources give them, already of their types. *)
Record RawAuth := MkRawAuth {
  ra_identity : option IdentityProvider;
  ra_scopes : option (gmap string AuthConfig);
  ra_key_store : option KeyStoreConfig;
  ra_allow : option AllowConfig
}.
Record RawAveryConfig := MkRawAveryConfig {
  rv_registries : option (list RegistryEntry);
  rv_conflict_resolution : option ConflictResolutionMethod;
  rv_internal_registry : option (option string);
  rv_runtime_directories : option (list string);
  rv_oidc_providers : option (gmap string OidcProviderConfig);
  rv_auth : option RawAuth
}.
Definition default_conflict_resolution : ConflictResolutionMethod := UsePriority.
Definition default_auth : Auth := MkAuth default_identity_provider ∅ default_key_store (MkAllowConfig []).
Definition auth_of (raw : RawAuth) : Auth :=
  MkAuth (default default_identity_provider (ra_identity raw)) (default ∅ (ra_scopes raw))
    (default default_key_store (ra_key_store raw)) (default (MkAllowConfig []) (ra_allow raw)).
Definition internal_registry_of (raw : option string) : string := default default_version_suffix raw.
Definition convert_providers (raw : gmap string OidcProviderConfig) : result string (gmap string OidcProvider) :=
  object_map <$> collect ((fun kp => (fun p => (kp.1, p)) <$> oidc_provider_try_from kp.2) <$> map_to_list raw).
Definition config_try_deserialize (raw : RawAveryConfig) : result string AveryConfig :=
  providers ← convert_providers (default ∅ (rv_oidc_providers raw));
  Ok (MkAveryConfig (default [] (rv_registries raw)) (default default_conflict_resolution (rv_conflict_resolution raw))
        (from_option internal_registry_of default_version_suffix (rv_internal_registry raw))
        (default [] (rv_runtime_directories raw)) providers (from_option auth_of default_auth (rv_auth raw))).
(** The [config] crate: the merged sources, read in an environment. *)
Class ConfigSources := { merge_sources : Environment -> list Source -> result string RawAveryConfig }.
Section configuration.
Context {CS : ConfigSources}.
Definition read_sources (env : Environment) (sources : list Source) : result string AveryConfig :=
  raw ← merge_sources env sources; config_try_deserialize raw.
Definition config_new (env : Environment) (s : Surroundings) : result string AveryConfig := read_sources env (config_sources s).
Definition new_with_toml_string (env : Environment) (cfg : string) : result string AveryConfig :=
  read_sources env [SourceText cfg; SourceEnvironment ENVIRONMENT_PREFIX].
Definition new_with_file (env : Environment) (path : string) : result string AveryConfig :=
  read_sources env [SourceFile path; SourceEnvironment ENVIRONMENT_PREFIX].
End configuration.

(** ** The world of a run *)
Section world.
Context {JT : JsonText}.
Record AveryWorld := MkAveryWorld {
  vw_env : Environment;
  vw_sockets : gset string;
  vw_temporary : list string;
  vw_cache : CacheFile;
  vw_reported : list ServiceStatus
}.
Definition set_env (e : Environment) (w : AveryWorld) : AveryWorld :=
  MkAveryWorld e (vw_sockets w) (vw_temporary w) (vw_cache w) (vw_reported w).
Definition set_sockets (s : gset string) (w : AveryWorld) : AveryWorld :=
  MkAveryWorld (vw_env w) s (vw_temporary w) (vw_cache w) (vw_reported w).
Definition set_temporary (l : list string) (w : AveryWorld) : AveryWorld :=
  MkAveryWorld (vw_env w) (vw_sockets w) l (vw_cache w) (vw_reported w).
Definition set_cache_file (f : CacheFile) (w : AveryWorld) : AveryWorld :=
  MkAveryWorld (vw_env w) (vw_sockets w) (vw_temporary w) f (vw_reported w).
#[export] Instance avery_reporting : Reporting AveryWorld.
Proof.
  refine {| reported := vw_reported; report s w :=
    MkAveryWorld (vw_env w) (vw_sockets w) (vw_temporary w) (vw_cache w) (vw_reported w ++ [s]) |}. done.
Defined.

(** What Avery listens on: a descriptor it was handed, its socket file, a pipe. *)
Inductive Listener := OnDescriptor (fd : Z) | OnSocket (path : string) | OnPipe (path : string).
(** The functions of the module [system].  A listener may come with something to
    do at the end. *)
Record System := MkSystem {
  sys_global_config_path : Environment -> option string;
  sys_user_config_path : Environment -> option string;
  sys_user_cache_path : Environment -> option string;
  sys_user_data_path : Environment -> option string;
  sys_default_runtime_dir : Environment -> string;
  sys_create_listener : sem AveryWorld string (Listener * option (AveryWorld -> AveryWorld))
}.
End world.

(** ** Starting *)

(** What [FileSystemSource::new] finds in a folder. *)
Record RuntimeFolder := MkRuntimeFolder {
  rf_checksum_file_exists : bool;
  rf_read_checksums : result FileSystemSourceError (gmap string TOMLChecksums);
  rf_read_dir : result FileSystemSourceError (list (option DirEntry))
}.
Record AveryOs := MkAveryOs {
  ao_exists : string -> bool;
  (** making a temporary folder whose name starts like this *)
  ao_tempdir : string -> result string string;
  ao_create_dir_all : string -> option string;
  ao_folder : string -> RuntimeFolder;
  ao_thread_pool : option string
}.
Definition display_source_error (e : FileSystemSourceError) : string :=
  match e with
  | MissingChecksumFile p => "Missing checksum file for directory: " +:+ p
  | IOError e => "IO error: " +:+ e
  | TOMLError e => "TOML read error: " +:+ e
  end.
Record AveryArgs := MkAveryArgs { av_config : option string }.
(** What a registry at the end of a connection answers, to requests with the tokens
    [ProxyConnect] puts into them. *)
Record RegistryAnswers := MkRegistryAnswers {
  an_list : Filters -> result Status (list Function_);
  an_list_versions : Filters -> result Status (list Function_);
  an_get : FunctionId -> result Status Function_
}.

Section run.
Context {DL : DigestLib} {JL : JwtLib} {EL : EncodingLib} {HO : HashOrder} {UL : UuidLib} {UR : UrlLib} {PL : EndpointLib} {JT : JsonText}.
Context {SV : SemVer} {RE : RegexEngine} {CS : ConfigSources}.
Variable identity_hash : IdentityProvider -> string.
Variable from_utf8 : list byte -> result string string.
Variable documents : DocumentService.
Variable answers : RegistryConnection -> RegistryAnswers.
(** The built-in runtime, and the source of the runtimes of a folder
    ([FilesystemSource]): a source as the execution service sees it. *)
Variable wasi : Runtime.
Variable folder_source : FileSystemSource -> RuntimeSource.
Variable sys : System.
Variable os : AveryOs.
Variable w : World.
Variable key_files : gmap string (list byte).

#[local] Abbreviation starting := (sem AveryWorld string).
Definition surroundings (env : Environment) : Surroundings :=
  MkSurroundings (ao_exists os) (sys_global_config_path sys env) (sys_user_config_path sys env).
Definition load_config (args : AveryArgs) (env : Environment) : result string AveryConfig :=
  match av_config args with
  | Some file => new_with_file env file
  | None => config_new env (surroundings env)
  end.
Definition external_registries (config : AveryConfig) : result string (list ExternalRegistry) :=
  collect ((fun reg =>
    MkExternal (re_name reg) <$>
      map_err (fun e => "Failed to parse url for external registry " +:+ quoted (re_name reg) +:+ ": " +:+ e) (url_parse (re_url reg)))
    <$> vc_registries config).
(** A folder that is removed when its owner is dropped. *)
Definition tempdir (prefix : string) : starting string :=
  fun w => match ao_tempdir os prefix with
           | Ok p => (set_temporary (vw_temporary w ++ [p]) w, Ok p)
           | Err e => (w, Err e)
           end.
Definition registry_service_new (config : AveryConfig) : starting RegistryService :=
  dir ← tempdir "avery-registry-attachments-"; mret (Registry.new (vc_internal_registry config) dir).
Definition user_data_path (env : Environment) : result string string :=
  ok_or "Failed to determine user data path for storing generated keys" (sys_user_data_path sys env).
(** The file of the token cache is in the data folder. *)
Definition cache_file (w : AveryWorld) : CacheFile :=
  let f := vw_cache w in
  MkCacheFile (sys_user_data_path sys (vw_env w)) (cf_create_dir_error f) (cf_open_error f) (cf_write_error f) (cf_content f).
Definition start_auth (config : AveryConfig) (aw : AveryWorld) : result string AuthService :=
  keystore_path ← user_data_path (vw_env aw);
  from_config identity_hash from_utf8 documents w (vc_oidc_providers config) (au_scopes (vc_auth config)) (au_identity (vc_auth config))
    (au_key_store (vc_auth config)) (au_allow (vc_auth config)) keystore_path key_files (cache_file aw).
Definition connection_of (c : RegistryConnection) : Connection :=
  MkConnection (cx_name c) (an_list (answers c)) (an_list_versions (answers c)) (an_get (answers c)).
Definition proxy_registry_new (external : list ExternalRegistry) (internal : RegistryService) (conflict : ConflictResolutionMethod)
  : result string ProxyRegistry :=
  connections ← map_err display_connect_error (connect_registries external);
  Ok (MkProxy internal (connection_of <$> connections) conflict).

(** The sources of runtimes: folders that are not there are passed over. *)
Definition runtime_directories (config : AveryConfig) (env : Environment) : list string :=
  vc_runtime_directories config ++ [sys_default_runtime_dir sys env].
Definition filesystem_source (d : string) : starting FileSystemSource :=
  let folder := ao_folder os d in
  _ ← sem_lift (if rf_checksum_file_exists folder then Ok tt else Err (display_source_error (MissingChecksumFile d)));
  checksums ← sem_lift (map_err display_source_error (rf_read_checksums folder));
  entries ← sem_lift (map_err display_source_error (rf_read_dir folder));
  cache_dir ← tempdir ".tmp";
  sem_lift (map_err display_source_error (filesystem_source_new d true (Ok checksums) (Ok entries) (Ok cache_dir))).
Fixpoint directory_sources (directories : list string) : starting (list FileSystemSource) :=
  match directories with
  | [] => mret []
  | d :: directories =>
      if ao_exists os d then source ← filesystem_source d; rest ← directory_sources directories; mret (source :: rest)
      else directory_sources directories
  end.
Definition runtime_sources (config : AveryConfig) : starting (list RuntimeSource) :=
  directories ← sem_ask (fun w => Ok (runtime_directories config (vw_env w)));
  sources ← directory_sources directories;
  mret (InternalRuntimeSource wasi :: (folder_source <$> sources)).
Definition functions_dir (env : Environment) : result string string :=
  p ← ok_or "Failed to get user cache path." ((fun p => path_join p "functions") <$> sys_user_cache_path sys env);
  match ao_create_dir_all os p with
  | Some e => Err ("Failed to create Avery cache directory: " +:+ e)
  | None => Ok p
  end.
Definition execution_service_new (registry : ProxyRegistry) (sources : list RuntimeSource) (root_dir : string)
  : result string (ExecutionService (R := ProxyRegistry)) :=
  match ao_thread_pool os with
  | Some e => Err ("Failed to create function execution thread pool: " +:+ e)
  | None => Ok (execution_new registry sources root_dir)
  end.

(** ** Serving *)

(** The authentication service is shared by all others, so it is part of the state. *)
#[local] Abbreviation running := (sem (AveryWorld * AuthService) string).
Definition on_world {A} (c : starting A) : running A :=
  fun '(w, auth) => let '(w, r) := c w in ((w, auth), r).
(** What the requests do while Avery serves, until it is told to stop or the listener
    ends.  The registry of the execution service is the one that is served. *)
Variable serve : Listener -> ExecutionService (R := ProxyRegistry) -> sem AuthService string unit.
Definition serving (listener : Listener) (services : ExecutionService (R := ProxyRegistry)) : running unit :=
  fun '(w, auth) => let '(auth, r) := serve listener services auth in ((w, auth), r).
Definition shutdown_cb (cleanup : option (AveryWorld -> AveryWorld)) : starting unit :=
  match cleanup with Some f => sem_modify f | None => mret tt end.

Definition services_new (config : AveryConfig) (external : list ExternalRegistry) (internal : RegistryService)
  : starting (ExecutionService (R := ProxyRegistry)) :=
  proxy_registry ← sem_lift (proxy_registry_new external internal (vc_conflict_resolution config));
  sources ← runtime_sources config;
  root_dir ← sem_ask (fun w => functions_dir (vw_env w));
  sem_lift (execution_service_new proxy_registry sources root_dir).
Definition listen_and_serve (started_callback : starting unit) (services : ExecutionService (R := ProxyRegistry)) : running unit :=
  '(listener, cleanup) ← on_world (sys_create_listener sys);
  _ ← on_world (fun w => let '(w, r) := started_callback w in (w, map_err (fun e => "Failed to signal startup done: " +:+ e) r));
  _ ← serving listener services;
  on_world (shutdown_cb cleanup).

(** Values that own something are dropped on every way out: the authentication
    service saves its tokens, folders are removed. *)
Definition dropping_auth (auth : AuthService) (c : running unit) : starting unit :=
  fun w => let '((w, auth), r) := c (w, auth) in
           (set_cache_file (cache_drop (ts_cache (as_token_store auth)) (cache_file w)) w, r).
Definition dropping_folders (c : starting unit) : starting unit :=
  fun w => let '(w', r) := c w in (set_temporary (vw_temporary w) w', r).
Definition run (args : AveryArgs) (started_callback : starting unit) : starting unit :=
  dropping_folders (
    config ← sem_ask (fun w => load_config args (vw_env w));
    external ← sem_lift (external_registries config);
    internal ← registry_service_new config;
    auth ← sem_ask (start_auth config);
    dropping_auth auth (
      services ← on_world (services_new config external internal);
      listen_and_serve started_callback services)).
(** The exit code of a run, which is what [main] ends with. *)
Definition run_with_tokio (args : AveryArgs) : sem AveryWorld Z unit :=
  fun w => let '(w, r) := run args (mret tt) w in (w, map_err (fun _ => 1%Z) r).
End run.
