(* ===== verification/AveryUnix.v ===== *)
(** * Avery on Unix (services/avery/src/unix.rs)

    Where the folders of a user are, the socket Avery listens on, which signals end it
    and what the process ends with.  [unix_system] is the [System] that [AveryStart]
    runs on.  Streams and accepting connections pass on what the operating system
    gives and are not modelled. *)
From S2P Require Import Prelude Registry Config AuthStart ExpireMap Access HostServices Executor AveryStart.

(** [std::env::var(..).ok()] *)
Definition env_var (name : string) (env : Environment) : option string := (env !! name) ≫= id.

Record UnixStart := MkUnixStart {
  us_pid : Z;
  (** the name of the current user *)
  us_username : option string;
  us_root : bool;
  (** listening on a descriptor, and on a path where there is no file yet *)
  us_from_fd : Z -> option string;
  us_bind : string -> option string;
  (** removing a socket file *)
  us_remove : string -> option string
}.

Section unix.
Context {JT : JsonText}.
Variable os : UnixStart.

(** ** Folders *)
Definition default_runtime_dir (env : Environment) : string := "/usr/share/avery/runtimes".
Definition user : option string := us_username os.
Definition global_config_path (env : Environment) : option string := Some "/etc/avery".
Definition user_runtime_path (env : Environment) : option string :=
  match env_var "XDG_RUNTIME_DIR" env with
  | Some p => Some (path_join p "avery.sock")
  | None => (fun username => "/tmp/avery-" +:+ username +:+ ".sock") <$> us_username os
  end.
Definition user_folder (xdg : string) (below_home : list string) (env : Environment) : option string :=
  (fun p => path_join p "avery") <$>
    match env_var xdg env with
    | Some p => Some p
    | None => (fun p => foldl path_join p below_home) <$> env_var "HOME" env
    end.
Definition user_config_path : Environment -> option string := user_folder "XDG_CONFIG_HOME" [".config"].
Definition user_cache_path : Environment -> option string := user_folder "XDG_CACHE_HOME" [".cache"].
Definition user_data_path : Environment -> option string := user_folder "XDG_DATA_HOME" [".local"; "share"].

(** ** Listening *)

(** [UnixListener::bind]: it makes the socket file, and fails where there is one. *)
Definition bind_socket (path : string) : sem AveryWorld string unit :=
  fun w => if bool_decide (path ∈ vw_sockets w) then (w, Err "Address already in use (os error 98)")
           else match us_bind os path with
                | Some e => (w, Err e)
                | None => (set_sockets ({[ path ]} ∪ vw_sockets w) w, Ok tt)
                end.
Definition take_systemd_sockets : sem AveryWorld string (list Z) :=
  fun w => let '(env, sockets) := get_systemd_sockets (us_pid os) (vw_env w) in (set_env env w, Ok sockets).
(** [std::fs::remove_file(socket_path).unwrap_or(())]: a failure is ignored. *)
Definition remove_file (path : string) : AveryWorld -> AveryWorld :=
  match us_remove os path with
  | Some _ => id
  | None => fun w => set_sockets (vw_sockets w ∖ {[ path ]}) w
  end.
Definition create_listener : sem AveryWorld string (Listener * option (AveryWorld -> AveryWorld)) :=
  sockets ← take_systemd_sockets;
  match sockets with
  | sock :: _ =>
      sem_lift match us_from_fd os sock with
               | Some e => Err ("Failed to convert Unix listener from std: " +:+ e)
               | None => Ok (OnDescriptor sock, None)
               end
  | [] =>
      socket_path ← sem_ask (fun w => ok_or "Failed to determine user socket path." (user_runtime_path (vw_env w)));
      _ ← bind_socket socket_path;
      mret (OnSocket socket_path, Some (remove_file socket_path))
  end.
Definition unix_system : System :=
  MkSystem global_config_path user_config_path user_cache_path user_data_path default_runtime_dir create_listener.

(** ** The end *)

(** When a signal comes, if ever, or why it cannot be waited for. *)
Inductive SignalArrival := ArrivesAt (t : N) | NeverArrives | CannotRegister.
Definition sig_term (s : SignalArrival) : option N := match s with ArrivesAt t => Some t | NeverArrives | CannotRegister => None end.
(** Waiting for Ctrl-C ends at once where it cannot be waited for. *)
Definition ctrl_c (s : SignalArrival) : option N :=
  match s with ArrivesAt t => Some t | NeverArrives => None | CannotRegister => Some 0%N end.
Definition shutdown_signal (interrupt terminate : SignalArrival) : option N :=
  match ctrl_c interrupt, sig_term terminate with
  | Some a, Some b => Some (N.min a b)
  | Some a, None => Some a
  | None, t => t
  end.
(** What the process does: nothing as root. *)
Definition bootstrap (run_with_tokio : sem AveryWorld Z unit) : sem AveryWorld Z unit :=
  if us_root os then sem_lift (Err 1%Z)
  else fun w => let '(w, r) := run_with_tokio w in (w, map_err (fun _ => 1%Z) r).
End unix.
