(* ===== verification/AveryProps.v ===== *)
(** * Properties of the start and end of Avery

    What a run on a Unix socket does in every case ([run_on_socket]): above all that
    the socket file is removed after a clean end only, so that after a failure no
    later run can listen ([failure_blocks_restart]); and which runtimes the services
    it starts with have ([started_runtimes]). *)
From S2P Require Import Prelude Interfaces Json Proto Regex Registry ProxyRegistry Config HostServices.
From S2P Require Import Tokens TokenStore KeyStore ExpireMap OidcLogin Access AuthStart ProxyConnect RegistryApi Executor.
From S2P Require Import WasmMemory WasiHost Wasi WasiRun FilesystemSource ProxyConnect AveryStart AveryUnix.

Section props.
Context {DL : DigestLib} {JL : JwtLib} {EL : EncodingLib} {HO : HashOrder} {UL : UuidLib} {UR : UrlLib} {PL : EndpointLib} {JT : JsonText}.
Context {SV : SemVer} {RE : RegexEngine} {CS : ConfigSources}.
Variable identity_hash : IdentityProvider -> string.
Variable from_utf8 : list byte -> result string string.
Variable documents : DocumentService.
Variable answers : RegistryConnection -> RegistryAnswers.
Variable wasi : Runtime.
Variable folder_source : FileSystemSource -> RuntimeSource.

(** ** Up to listening *)
Section prepared.
Variable sys : System.
Variable os : AveryOs.
Variable w : World.
Variable key_files : gmap string (list byte).
#[local] Abbreviation Services := (ExecutionService (R := ProxyRegistry)).

(** What is there of a world but temporary folders. *)
Record same_world (w1 w2 : AveryWorld) : Prop := {
  sw_env : vw_env w2 = vw_env w1;
  sw_sockets : vw_sockets w2 = vw_sockets w1;
  sw_cache : vw_cache w2 = vw_cache w1;
  sw_reported : vw_reported w2 = vw_reported w1
}.
#[export] Instance same_world_preorder : PreOrder same_world.
Proof. split; [done|]. intros a b c [] []. split; congruence. Qed.
Lemma same_bind {A B} (m : sem AveryWorld string A) (f : A -> sem AveryWorld string B) :
  (forall w, same_world w (m w).1) -> (forall a w, same_world w (f a w).1) -> forall w, same_world w ((m ≫= f) w).1.
Proof.
  intros Hm Hf w0. apply (sem_bind_inv (same_world w0)); [|intros a|done]; intros w1 H; (transitivity w1; [done|auto]).
Qed.
Lemma same_tempdir prefix w0 : same_world w0 (tempdir os prefix w0).1.
Proof. unfold tempdir. by destruct (ao_tempdir os prefix). Qed.
Lemma same_source d w0 : same_world w0 (filesystem_source os d w0).1.
Proof. unfold filesystem_source. repeat (apply same_bind; [done|intros ?]). apply same_bind; [apply same_tempdir|done]. Qed.
Lemma same_sources l w0 : same_world w0 (directory_sources os l w0).1.
Proof.
  revert w0. induction l as [|d l IH]; intros w0; [done|]. cbn [directory_sources]. destruct (ao_exists os d); [|apply IH].
  apply same_bind; [apply same_source|]. intros s. apply same_bind; [apply IH|done].
Qed.
Lemma same_services config external internal w0 : same_world w0 (services_new answers wasi folder_source sys os config external internal w0).1.
Proof.
  unfold services_new, runtime_sources. apply same_bind; [done|]. intros p.
  apply same_bind; [|intros s; by apply same_bind].
  apply same_bind; [done|]. intros l. apply same_bind; [apply same_sources|done].
Qed.

(** The part of a run before it listens. *)
Definition prepared (args : AveryArgs) : sem AveryWorld string (AuthService * Services) :=
  config ← sem_ask (fun w => load_config sys os args (vw_env w));
  external ← sem_lift (external_registries config);
  internal ← registry_service_new os config;
  auth ← sem_ask (start_auth identity_hash from_utf8 documents sys w key_files config);
  services ← services_new answers wasi folder_source sys os config external internal;
  mret (auth, services).
Lemma same_prepared args w0 : same_world w0 (prepared args w0).1.
Proof.
  unfold prepared, registry_service_new. apply same_bind; [done|]. intros config. apply same_bind; [done|]. intros external.
  apply same_bind; [apply same_bind; [apply same_tempdir|done]|]. intros internal. apply same_bind; [done|]. intros auth.
  apply same_bind; [apply same_services|done].
Qed.

Variable serve : Listener -> Services -> sem AuthService string unit.
(** A run that was prepared goes on with what was made. *)
Lemma run_prepared args started w0 :
  match prepared args w0 with
  | (w1, Ok (auth, services)) =>
      run identity_hash from_utf8 documents answers wasi folder_source sys os w key_files serve args started w0 =
      (let '(w2, r) := dropping_auth sys auth (listen_and_serve sys serve started services) w1 in
       (set_temporary (vw_temporary w0) w2, r))
  | (w1, Err e) =>
      exists w2, run identity_hash from_utf8 documents answers wasi folder_source sys os w key_files serve args started w0 = (w2, Err e) /\
        vw_env w2 = vw_env w0 /\ vw_sockets w2 = vw_sockets w0 /\ vw_temporary w2 = vw_temporary w0 /\ vw_reported w2 = vw_reported w0
  end.
Proof.
  pose proof (same_prepared args w0) as Hsame. revert Hsame.
  unfold run, prepared, dropping_folders, sem_ask, sem_lift. cbv [mbind sem_bind mret sem_ret].
  destruct (load_config sys os args (vw_env w0)) as [config|e]; [|intros _; by eexists].
  destruct (external_registries config) as [external|e]; [|intros _; by eexists].
  destruct (registry_service_new os config w0) as [w01 [internal|e]]; [|intros []; by eexists].
  destruct (start_auth _ _ _ sys w key_files config w01) as [auth|e]; [|intros []; by eexists].
  unfold dropping_auth, on_world.
  destruct (services_new _ _ _ _ _ _ _ _ w01) as [w02 [services|e]]; intros []; [|by eexists].
  by destruct (listen_and_serve sys serve started services (w02, auth)) as [[w3 auth3] r3].
Qed.
End prepared.

(** ** On a socket *)
Section socket.
Variable u : UnixStart.
#[local] Abbreviation Services := (ExecutionService (R := ProxyRegistry)).
#[local] Abbreviation sys := (unix_system u).

(** Removing the variables of systemd changes no folder. *)
Lemma env_var_kept name env : name <> "LISTEN_FDS" -> name <> "LISTEN_PID" ->
  env_var name (get_systemd_sockets (us_pid u) env).1 = env_var name env.
Proof.
  intros H1 H2. unfold get_systemd_sockets, env_var. destruct (x ← env !! "LISTEN_FDS" ≫= id; _); [|done]. cbn [fst].
  by rewrite !lookup_delete_ne.
Qed.
Lemma folders_kept env : let env' := (get_systemd_sockets (us_pid u) env).1 in
  user_runtime_path u env' = user_runtime_path u env /\ user_data_path env' = user_data_path env.
Proof. unfold user_runtime_path, user_data_path, user_folder. by rewrite !env_var_kept. Qed.

(** The socket files after a clean end: without this one if it can be removed. *)
Definition left_by_end (path : string) (sockets : gset string) : gset string :=
  match us_remove u path with None => sockets | Some _ => {[ path ]} ∪ sockets end.
(** How a run that was prepared ends, and which socket files there are then. *)
Definition socket_run (serve : Listener -> Services -> sem AuthService string unit) (path : string) (sockets : gset string)
    (auth : AuthService) (services : Services) : AuthService * result string unit * gset string :=
  if bool_decide (path ∈ sockets) then (auth, Err "Address already in use (os error 98)", sockets)
  else match us_bind u path with
       | Some e => (auth, Err e, sockets)
       | None =>
           let '(auth, r) := serve (OnSocket path) services auth in
           (auth, r, match r with Ok _ => left_by_end path sockets | Err _ => {[ path ]} ∪ sockets end)
       end.
Lemma listen_on_socket serve path auth services w1 :
  (get_systemd_sockets (us_pid u) (vw_env w1)).2 = [] -> user_runtime_path u (vw_env w1) = Some path ->
  let '(auth', r, sockets) := socket_run serve path (vw_sockets w1) auth services in
  exists w2, listen_and_serve sys serve (mret tt) services (w1, auth) = ((w2, auth'), r) /\
    vw_sockets w2 = sockets /\ cache_file sys w2 = cache_file sys w1.
Proof.
  intros Hnone Hpath. unfold socket_run, listen_and_serve, on_world. cbv [mbind sem_bind mret sem_ret].
  cbn [sys_create_listener unix_system]. unfold create_listener, take_systemd_sockets, bind_socket, sem_ask. cbv [mbind sem_bind mret sem_ret].
  destruct (folders_kept (vw_env w1)) as [Hrun Hdata].
  destruct (get_systemd_sockets (us_pid u) (vw_env w1)) as [env sockets] eqn:Hg. cbn [fst snd] in Hnone, Hrun, Hdata. subst sockets.
  cbn [vw_env set_env ok_or]. rewrite Hrun, Hpath. cbn [ok_or vw_sockets set_env].
  assert (forall s, cache_file sys (set_sockets s (set_env env w1)) = cache_file sys w1) as Hcache
    by (intros s; unfold cache_file; cbn; by rewrite Hdata).
  destruct (decide (path ∈ vw_sockets w1)) as [Hin|Hin].
  { rewrite !bool_decide_true by done. eexists. split; [reflexivity|]. split; [done|]. apply (Hcache (vw_sockets w1)). }
  rewrite !bool_decide_false by done. destruct (us_bind u path) as [e|].
  { eexists. split; [reflexivity|]. split; [done|]. apply (Hcache (vw_sockets w1)). }
  cbn [map_err]. unfold serving. destruct (serve (OnSocket path) services auth) as [auth' [[]|e]];
    (eexists; split; [reflexivity|]; split; [|unfold remove_file; cbn; try destruct (us_remove u path); apply Hcache]); [|done].
  unfold remove_file, left_by_end. cbn. destruct (us_remove u path); cbn; [done|set_solver].
Qed.

Variable os : AveryOs.
Variable w : World.
Variable key_files : gmap string (list byte).
Variable serve : Listener -> Services -> sem AuthService string unit.
#[local] Abbreviation prepared args := (prepared sys os w key_files args).
#[local] Abbreviation unix_run args := (run identity_hash from_utf8 documents answers wasi folder_source sys os w key_files serve args (mret tt)).

(** What a run does in every case.  If the services cannot be made it ends with the
    error.  Else it ends as [socket_run] says, with the tokens of its end saved.  The
    folders it made are gone. *)
Lemma run_on_socket args path w0 :
  (get_systemd_sockets (us_pid u) (vw_env w0)).2 = [] -> user_runtime_path u (vw_env w0) = Some path ->
  exists w1 r, unix_run args w0 = (w1, r) /\ vw_temporary w1 = vw_temporary w0 /\
    match (prepared args w0).2 with
    | Err e => r = Err e /\ vw_sockets w1 = vw_sockets w0
    | Ok (auth, services) =>
        let '(auth', r', sockets) := socket_run serve path (vw_sockets w0) auth services in
        r = r' /\ vw_sockets w1 = sockets /\ vw_cache w1 = cache_drop (ts_cache (as_token_store auth')) (cache_file sys w0)
    end.
Proof.
  intros Hnone Hpath. pose proof (run_prepared sys os w key_files serve args (mret tt) w0) as Hrun.
  pose proof (same_prepared sys os w key_files args w0) as Hsame.
  destruct (prepared args w0) as [w01 [[auth services]|e]]; cbn [fst snd] in *.
  - destruct Hsame as [He Hs Hc _]. rewrite <- He in Hnone, Hpath.
    pose proof (listen_on_socket serve path auth services w01 Hnone Hpath) as Hl. rewrite <- Hs.
    destruct (socket_run serve path (vw_sockets w01) auth services) as [[auth' r] sockets].
    destruct Hl as (w2 & Hl & Hs2 & Hc2). unfold dropping_auth in Hrun. rewrite Hl in Hrun.
    eexists _, r. split; [exact Hrun|]. split; [done|]. split; [done|]. split; [exact Hs2|]. cbn. rewrite Hc2.
    unfold cache_file. by rewrite He, Hc.
  - destruct Hrun as (w2 & Hrun & _ & Hs & Ht & _). by exists w2, (Err e).
Qed.
End socket.

#[local] Abbreviation unix_run u os w key_files serve args :=
  (run identity_hash from_utf8 documents answers wasi folder_source (unix_system u) os w key_files serve args (mret tt)).
(** Whether a start in this world listens on this socket file. *)
Definition on_socket (u : UnixStart) (path : string) (w0 : AveryWorld) : Prop :=
  (get_systemd_sockets (us_pid u) (vw_env w0)).2 = [] /\ user_runtime_path u (vw_env w0) = Some path.

(** C38: the socket file of Avery is removed by a clean end and by nothing else.  A run
    that ends well found no socket file and leaves none, unless removing it fails, which
    is ignored: then it is left by the clean end too.  A run that fails while it
    serves leaves it; and as long as it is there, every start that would listen on it
    fails, whatever its configuration, without removing it, so that the next one
    fails as well. *)
Theorem failure_blocks_restart u os w key_files serve args path w0 w1 r :
  on_socket u path w0 -> unix_run u os w key_files serve args w0 = (w1, r) ->
  (r = Ok tt -> (path ∉ vw_sockets w0) /\ (us_remove u path = None -> vw_sockets w1 = vw_sockets w0) /\
                (us_remove u path <> None -> vw_sockets w1 = {[ path ]} ∪ vw_sockets w0)) /\
  (forall auth services auth' e,
     (prepared (unix_system u) os w key_files args w0).2 = Ok (auth, services) -> path ∉ vw_sockets w0 -> us_bind u path = None ->
     serve (OnSocket path) services auth = (auth', Err e) -> r = Err e /\ path ∈ vw_sockets w1) /\
  (path ∈ vw_sockets w1 ->
     forall u' os' w' key_files' serve' args' w2, on_socket u' path w2 -> vw_sockets w2 = vw_sockets w1 ->
     exists e w3, unix_run u' os' w' key_files' serve' args' w2 = (w3, Err e) /\ vw_sockets w3 = vw_sockets w1).
Proof.
  intros [Hn Hp] Hrun. destruct (run_on_socket u os w key_files serve args path w0 Hn Hp) as (w1' & r' & Hrun' & _ & Hend).
  rewrite Hrun in Hrun'. injection Hrun' as <- <-. split_and!.
  - intros ->. destruct (prepared _ _ _ _ _ w0) as [w01 [[auth services]|e]]; cbn [snd] in Hend; [|by destruct Hend].
    unfold socket_run in Hend. case_bool_decide; [by destruct Hend|]. destruct (us_bind u path); [by destruct Hend|].
    destruct (serve _ services auth) as [auth' [[]|e]]; destruct Hend as (? & -> & _); [|discriminate].
    unfold left_by_end. split; [done|]. split; [by intros ->|]. by destruct (us_remove u path).
  - intros auth services auth' e Hprep Hin Hbind Hserve. rewrite Hprep in Hend. unfold socket_run in Hend.
    rewrite bool_decide_false, Hbind, Hserve in Hend by done. destruct Hend as (-> & -> & _). split; [done|set_solver].
  - intros Hin u' os' w' key_files' serve' args' w2 [Hn' Hp'] Hs.
    destruct (run_on_socket u' os' w' key_files' serve' args' path w2 Hn' Hp') as (w3 & r3 & Hrun3 & _ & Hend3). rewrite <- Hs in *.
    destruct (prepared _ _ _ _ _ w2) as [w21 [[auth services]|e]]; cbn [snd] in Hend3.
    + unfold socket_run in Hend3. rewrite bool_decide_true in Hend3 by done. destruct Hend3 as (-> & Hs3 & _). by eexists _, w3.
    + destruct Hend3 as [-> Hs3]. by exists e, w3.
Qed.

(** ** The runtimes of a start *)
Lemma directory_sources_run os l w0 w1 sources : directory_sources os l w0 = (w1, Ok sources) ->
  Forall2 (fun d s => exists cache_dir,
    filesystem_source_new d (rf_checksum_file_exists (ao_folder os d)) (rf_read_checksums (ao_folder os d))
      (rf_read_dir (ao_folder os d)) (Ok cache_dir) = Ok s) (filter (fun d => ao_exists os d = true) l) sources.
Proof.
  revert w0 w1 sources. induction l as [|d l IH]; intros w0 w1 sources H; [by injection H as _ <-|].
  cbn [directory_sources] in H. destruct (ao_exists os d) eqn:Hd.
  2: { rewrite filter_cons_False by by rewrite Hd. by eapply IH. }
  rewrite filter_cons_True by done. apply sem_bind_Ok in H as (w01 & s & Hs & (w02 & rest & Hr & [= _ <-])%sem_bind_Ok).
  constructor; [|by eapply IH]. unfold filesystem_source, sem_lift in Hs. cbv [mbind sem_bind] in Hs.
  destruct (rf_checksum_file_exists (ao_folder os d)); [|done].
  destruct (rf_read_checksums (ao_folder os d)) as [checksums|]; [|done].
  destruct (rf_read_dir (ao_folder os d)) as [entries|]; [|done]. cbn [map_err] in Hs.
  destruct (tempdir os ".tmp" w0) as [? [cache_dir|]]; [|done]. injection Hs as _ <-. by exists cache_dir.
Qed.
(** The built-in runtime cannot be replaced; another one is that of the first folder
    that gives it, of the configured ones in order and then the one of the system. *)
Lemma started_runtimes sys os config external internal w0 w1 services :
  services_new answers wasi folder_source sys os config external internal w0 = (w1, Ok services) ->
  exists sources,
    Forall2 (fun d s => exists cache_dir,
      filesystem_source_new d (rf_checksum_file_exists (ao_folder os d)) (rf_read_checksums (ao_folder os d))
        (rf_read_dir (ao_folder os d)) (Ok cache_dir) = Ok s)
      (filter (fun d => ao_exists os d = true) (runtime_directories sys config (vw_env w0))) sources /\
    forall name, lookup_runtime services name =
      if bool_decide (name = "wasi") then Ok wasi
      else ok_or (RuntimeNotFound name) (head (omap (fun s => src_get (folder_source s) name) sources)).
Proof.
  intros H. apply sem_bind_Ok in H as (w01 & proxy & [= <- _] & H). apply sem_bind_Ok in H as (w02 & all & Hs & H).
  apply sem_bind_Ok in H as (w03 & root & _ & [= _ H]).
  apply sem_bind_Ok in Hs as (w04 & l & [= <- <-] & (w05 & sources & Hd & [= _ <-])%sem_bind_Ok).
  exists sources. split; [by eapply directory_sources_run|]. intros name.
  unfold execution_service_new in H. destruct (ao_thread_pool os); [done|]. injection H as <-.
  unfold lookup_runtime. cbn [execution_new es_runtime_sources]. cbn [omap list_omap src_get InternalRuntimeSource].
  case_bool_decide; [done|]. f_equal. f_equal. clear. induction sources as [|s l IH]; [done|]. cbn. by rewrite IH.
Qed.
End props.

(** ** A machine without a configuration *)
Module AveryExamples.
Import Concrete.
#[local] Existing Instance derivative_engine.
#[local] Existing Instance key_order.
#[local] Existing Instance ConnectExamples.url_endpoint.
#[local] Existing Instance ConnectExamples.value_text.
#[local] Instance no_sources : ConfigSources := {|
  merge_sources := fun _ _ => Ok (MkRawAveryConfig None None None None None None) |}.
Definition unix : UnixStart := MkUnixStart 7 (Some "ada") false (fun _ => None) (fun _ => None) (fun _ => None).
Definition machine : AveryOs := MkAveryOs (fun _ => false) (fun p => Ok ("/tmp/" +:+ p +:+ "1")) (fun _ => None)
  (fun _ => MkRuntimeFolder false (Err (IOError "none")) (Err (IOError "none"))) None.
Definition nobody : RegistryConnection -> RegistryAnswers :=
  fun _ => MkRegistryAnswers (fun _ => Ok []) (fun _ => Ok []) (fun _ => Err (MkStatus CNotFound "none")).
Definition identity_runtime : Runtime := MkRuntime (fun _ args _ o => (o, Ok (Ok (Ok args)))).
Definition no_runtimes : FileSystemSource -> RuntimeSource := fun _ => MkRuntimeSource (fun _ => None) [] "file-system".
Definition avery (served : result string unit) : sem AveryWorld string unit :=
  run (fun _ => "0") (fun _ => Err "utf8") ConnectExamples.documents nobody identity_runtime no_runtimes (unix_system unix) machine
    ConnectExamples.world ∅ (fun _ _ auth => (auth, served)) (MkAveryArgs None) (mret tt).
(** A home, and no variable of systemd. *)
Definition home : AveryWorld :=
  MkAveryWorld {[ "HOME" := Some "/home/ada" ]} ∅ [] (MkCacheFile None None None None None) [].
Definition socket : string := "/tmp/avery-ada.sock".
Lemma failure_blocks_restart_witness :
  (avery (Ok tt) home).2 = Ok tt /\ vw_sockets (avery (Ok tt) home).1 = ∅ /\
  (avery (Err "transport error") home).2 = Err "transport error" /\
  exists e, (avery (Ok tt) (avery (Err "transport error") home).1).2 = Err e.
Proof.
  assert (on_socket unix socket home) as Hon by (split; vm_compute; reflexivity).
  assert ((avery (Ok tt) home).2 = Ok tt) as Hok by (vm_compute; reflexivity).
  split; [exact Hok|].
  destruct (failure_blocks_restart (fun _ => "0") (fun _ => Err "utf8") ConnectExamples.documents nobody identity_runtime no_runtimes
    unix machine ConnectExamples.world ∅ (fun _ _ auth => (auth, Ok tt)) (MkAveryArgs None) socket home
    (avery (Ok tt) home).1 (avery (Ok tt) home).2 Hon (surjective_pairing _)) as [Hclean _].
  split; [exact (proj1 (proj2 (Hclean Hok)) eq_refl)|].
  destruct (failure_blocks_restart (fun _ => "0") (fun _ => Err "utf8") ConnectExamples.documents nobody identity_runtime no_runtimes
    unix machine ConnectExamples.world ∅ (fun _ _ auth => (auth, Err "transport error")) (MkAveryArgs None) socket home
    (avery (Err "transport error") home).1 (avery (Err "transport error") home).2 Hon (surjective_pairing _)) as (_ & _ & Hblocked).
  split; [vm_compute; reflexivity|].
  destruct (Hblocked ltac:(apply (bool_decide_unpack _); vm_compute; exact I) unix machine ConnectExamples.world ∅
    (fun _ _ auth => (auth, Ok tt)) (MkAveryArgs None) (avery (Err "transport error") home).1) as (e & w3 & Hrun & _).
  - split; vm_compute; reflexivity.
  - reflexivity.
  - exists e. unfold avery at 1. rewrite Hrun. reflexivity.
Defined.
(** Started by systemd, nothing is left behind. *)
Definition activated : AveryWorld := set_env (<["LISTEN_FDS" := Some "1"]> (vw_env home)) home.
Example failure_when_activated : let (w1, r) := avery (Err "transport error") activated in
  r = Err "transport error" /\ vw_sockets w1 = ∅ /\ vw_env w1 = vw_env home.
Proof. vm_compute. split; [reflexivity|]. split; reflexivity. Qed.
End AveryExamples.
