(* ===== verification/Quinn.v ===== *)
(** * The Quinn registry service (services/quinn/src)

    Quinn is a registry of its own, behind the same protocol as the internal one:
    validation.rs, the conversions of storage_conversions.rs, the storage types of
    storage.rs, the memory backend of storage/memory.rs, the two attachment
    storages and the request handlers of registry.rs.

    The storage types [Publisher], [Runtime] and [Checksums] have the fields of the
    protocol's and are represented by them.  The memory backend's
    [HashMap<FunctionId, Function>] is the list of its values, one per id ([Eq] on
    versions ignores build metadata, as the keys do); the order in which the map
    is iterated is [MapValues].  The PostgreSQL backend is
    Postgres.v. *)
From S2P Require Import Prelude Interfaces Proto Regex Registry RegistryApi.
From Stdlib Require Import Ascii.

(** ** validation.rs *)
Inductive ValidationError :=
| FunctionNameTooLong (max len : nat)
| FunctionNameTooShort (min len : nat)
| FunctionNameContainsInvalidCharacters
| EmptyVersion
| InvalidSemanticVersion (version e : string)
| InvalidRegex (e : string).
Definition MAX_NAME_LEN : nat := 128.
Definition MIN_NAME_LEN : nat := 3.

(** [chars().count()]: the bytes that start a character. *)
Definition is_char_start (c : ascii) : bool := negb (in_range 128 191 c).
Definition char_count (s : string) : nat := length (List.filter is_char_start (chars s)).

(** The number of a [usize] in decimal. *)
Definition show_nat (n : nat) : string := pretty.pretty n.
Definition display_validation_error (e : ValidationError) : string :=
  match e with
  | FunctionNameTooLong m l => "Function name is too long! Max " +:+ show_nat m +:+ " characters. Name was " +:+ show_nat l +:+ " characters long."
  | FunctionNameTooShort m l => "Function name is too short! Min " +:+ show_nat m +:+ " characters. Name was " +:+ show_nat l +:+ " characters long."
  | FunctionNameContainsInvalidCharacters =>
      "Function name contains invalid characters. Only lower case characters, numbers and dashes are allowed"
  | EmptyVersion => "Version cannot be empty."
  | InvalidSemanticVersion v e => quoted v +:+ " is not a semantic version: " +:+ e +:+ ". See https://semver.org/"
  | InvalidRegex _ => "Invalid regex. This is an internal error."
  end.

(** The iteration order of a hash map whose values are given as a list. *)
Class MapValues := {
  map_values : forall {A : Type}, list A -> list A;
  map_values_perm : forall A (l : list A), map_values l ≡ₚ l
}.

Section quinn.
Context {SV : SemVer} {UL : UuidLib} {UR : UrlLib} {RE : RegexEngine} {HO : HashOrder} {MV : MapValues}.

Definition validate_name (name : string) : result ValidationError string :=
  if Nat.ltb MAX_NAME_LEN (char_count name) then Err (FunctionNameTooLong MAX_NAME_LEN (char_count name))
  else if Nat.ltb (char_count name) MIN_NAME_LEN then Err (FunctionNameTooShort MIN_NAME_LEN (char_count name))
  else if is_match name_pattern name then Ok name
  else Err FunctionNameContainsInvalidCharacters.
Definition validate_version (version : string) : result ValidationError Version :=
  if str_is_empty version then Err EmptyVersion
  else map_err (InvalidSemanticVersion version) (version_parse version).

(** ** storage.rs *)
Record SFunctionId := MkSFunctionId { si_name : string; si_version : Version }.
Record SChannelSpec := MkSChannelSpec { sc_description : string; sc_argument_type : ChannelType }.
Record SFunction := MkSFunction {
  sf_name : string;
  sf_version : Version;
  sf_runtime : RuntimeSpec;
  sf_required_inputs : gmap string SChannelSpec;
  sf_optional_inputs : gmap string SChannelSpec;
  sf_outputs : gmap string SChannelSpec;
  sf_metadata : gmap string string;
  sf_code : option uuid;
  sf_attachments : list uuid;
  sf_created_at : N;
  sf_publisher : Publisher;
  sf_signature : option (list byte)
}.
Record FunctionAttachmentData := MkFunctionAttachmentData {
  fad_name : string;
  fad_metadata : gmap string string;
  fad_checksums : Checksums;
  fad_publisher : Publisher;
  fad_signature : option (list byte)
}.
Record FunctionAttachment := MkFunctionAttachment { fa_id : uuid; fa_data : FunctionAttachmentData; fa_created_at : N }.
Record SOrdering := MkSOrdering { so_key : OrderingKey; so_reverse : bool; so_offset : N; so_limit : N }.
Definition default_sordering : SOrdering := MkSOrdering NameVersion false 0 100.
Record SFilters := MkSFilters {
  sl_name : string;
  sl_version_requirement : option VersionReq;
  sl_order : option SOrdering;
  sl_metadata : gmap string (option string);
  sl_publisher_email : string
}.

Inductive StorageError :=
| BackendError (e : string)
| VersionExists (name : string) (version : Version)
| InvalidUri (e : string)
| UnsupportedStorage (s : string)
| ConnectionError (e : string)
| InvalidAttachmentStorage (e : string)
| FunctionNotFound (id : string)
| AttachmentNotFound (id : string).
Definition display_storage_error (e : StorageError) : string :=
  match e with
  | BackendError e => "Storage backend error: " +:+ e
  | VersionExists n v => "Version " +:+ version_to_string v +:+ " already exists for " +:+ n
  | InvalidUri e => "Invalid storage URI: " +:+ e
  | UnsupportedStorage s => "Unsupported storage backend " +:+ quoted s
  | ConnectionError e => "Connection Error: " +:+ e
  | InvalidAttachmentStorage e => "Invalid attachment storage specification: " +:+ e
  | FunctionNotFound id => "Could not find function: " +:+ id
  | AttachmentNotFound id => "Could not find attachment: " +:+ id
  end.
(** [Display for FunctionId] uses [writeln]. *)
Definition display_function_id (id : SFunctionId) : string :=
  si_name id +:+ ":" +:+ version_to_string (si_version id) +:+ newline.
Definition status_from_storage_error (se : StorageError) : Status :=
  match se with
  | VersionExists _ _ => MkStatus CInvalidArgument (display_storage_error se)
  | FunctionNotFound _ | AttachmentNotFound _ => MkStatus CNotFound (display_storage_error se)
  | _ => MkStatus CUnknown ("Storage error: " +:+ display_storage_error se)
  end.

(** ** Attachment storages (storage/gcs.rs, storage/https.rs) *)
Record AttachmentStorage := MkAttachmentStorage {
  get_upload_url : FunctionAttachment -> result StorageError AttachmentUrl;
  get_download_url : FunctionAttachment -> result StorageError AttachmentUrl
}.
Definition GCSStorage (bucket_name : string) : AttachmentStorage :=
  MkAttachmentStorage
    (fun a => Ok (MkAttachmentUrl ("https://storage.googleapis.com/upload/storage/v1/b/" +:+ bucket_name +:+
       "/o?uploadType=media&name=" +:+ uuid_to_string (fa_id a)) (AuthMethod_to_i32 AMOauth2)))
    (fun a => Ok (MkAttachmentUrl ("https://storage.googleapis.com/storage/v1/b/" +:+ bucket_name +:+ "/o/" +:+
       uuid_to_string (fa_id a) +:+ "?alt=media") (AuthMethod_to_i32 AMOauth2))).
Definition https_url (base : Url) (auth_method : AuthMethod) (a : FunctionAttachment) : result StorageError AttachmentUrl :=
  url ← map_err InvalidUri (url_join base (uuid_to_string (fa_id a)));
  Ok (MkAttachmentUrl (url_to_string url) (AuthMethod_to_i32 auth_method)).
(** A url with what the [url] crate says of it. *)
Record BaseUrl := MkBaseUrl { bu_url : Url; bu_cannot_be_a_base : bool; bu_path : string }.
Definition ends_with_slash (s : string) : bool :=
  match String.get (str_len s - 1) s with Some c => Ascii.eqb c "/" | None => false end.
Definition HttpsStorage_new (base : BaseUrl) (auth : AuthMethod) : result StorageError AttachmentStorage :=
  if bu_cannot_be_a_base base || negb (ends_with_slash (bu_path base)) then
    Err (BackendError "Url provided to Https Storage can not be used as a base")
  else Ok (MkAttachmentStorage (https_url (bu_url base) auth) (https_url (bu_url base) auth)).
Definition create_attachment_storage (parse : string -> result string BaseUrl) (uri : string)
  : result StorageError AttachmentStorage :=
  uri ← map_err InvalidUri (parse uri);
  if bool_decide (url_scheme (bu_url uri) = "gcs") then
    bucket_name ← ok_or (InvalidAttachmentStorage "gcs attachment storage requires bucket name") (url_host (bu_url uri));
    Ok (GCSStorage bucket_name)
  else if bool_decide (url_scheme (bu_url uri) = "https") then HttpsStorage_new uri AMOauth2
  else Err (UnsupportedStorage (url_scheme (bu_url uri))).

(** ** storage_conversions.rs *)
Definition invalid {A} (msg : string) : result Status A := Err (MkStatus CInvalidArgument msg).
Definition check_empty (s field_name : string) : result Status string :=
  if str_is_empty s then invalid ("Field " +:+ quoted field_name +:+ " is required but was empty") else Ok s.
Definition function_id_try_from (value : FunctionId) : result Status SFunctionId :=
  version ← map_err (fun e => MkStatus CInvalidArgument ("Invalid semantic version " +:+ fid_version value +:+ ": " +:+ e))
              (version_parse (fid_version value));
  Ok (MkSFunctionId (fid_name value) version).
Definition ordering_from (o : Ordering) : SOrdering :=
  MkSOrdering (default NameVersion (OrderingKey_from_i32 (ord_key o))) (ord_reverse o) (ord_offset o)
    (N.min (if (ord_limit o =? 0)%N then 100 else ord_limit o) 1000).
Definition filters_try_from (req : Filters) : result Status SFilters :=
  version_requirement ← transpose ((fun e => map_err
      (fun err => MkStatus CInvalidArgument ("Invalid semantic version requirement " +:+ quoted e +:+ ": " +:+ err))
      (req_parse e)) <$> fl_version_requirement req);
  Ok (MkSFilters (fl_name req) version_requirement (ordering_from <$> fl_order req)
        ((fun v => if str_is_empty v then None else Some v) <$> fl_metadata req) (fl_publisher_email req)).
Definition runtime_try_from (value : RuntimeSpec) : result Status RuntimeSpec :=
  name ← check_empty (rs_name value) "runtime.name";
  Ok (MkRuntimeSpec name (rs_entrypoint value) (rs_arguments value)).
Definition channel_spec_try_from (value : ChannelSpec) : result Status SChannelSpec :=
  argument_type ← ok_or (MkStatus CInvalidArgument ("Input type " +:+ pretty.pretty (cs_type value) +:+ " is out of range for enum"))
                    (ChannelType_from_i32 (cs_type value));
  Ok (MkSChannelSpec (cs_description value) argument_type).
Definition channel_spec_from (value : SChannelSpec) : ChannelSpec :=
  MkChannelSpec (ChannelType_to_i32 (sc_argument_type value)) (sc_description value).
Definition specs_try_from (specs : gmap string ChannelSpec) : result Status (gmap string SChannelSpec) :=
  l ← collect ((fun '(k, cs) => c ← channel_spec_try_from cs; Ok (k, c)) <$> hash_iter specs);
  Ok (list_to_map l).
Definition to_uuid (id : AttachmentId) : result Status uuid :=
  map_err (fun e => MkStatus CInvalidArgument ("Invalid function attachment id " +:+ quoted (aid_uuid id) +:+ ": " +:+ e))
    (uuid_parse (aid_uuid id)).
Definition function_try_from (value : FunctionData) : result Status SFunction :=
  name ← map_err (fun e => MkStatus CInvalidArgument (display_validation_error e)) (validate_name (fd_name value));
  version ← map_err (fun e => MkStatus CInvalidArgument (display_validation_error e)) (validate_version (fd_version value));
  runtime ← ok_or (MkStatus CInvalidArgument "Registering a function requires a runtime") (fd_runtime value) ≫= runtime_try_from;
  required_inputs ← specs_try_from (fd_required_inputs value);
  optional_inputs ← specs_try_from (fd_optional_inputs value);
  outputs ← specs_try_from (fd_outputs value);
  code ← transpose (to_uuid <$> fd_code_attachment_id value);
  attachments ← collect (to_uuid <$> fd_attachment_ids value);
  publisher ← ok_or (MkStatus CInvalidArgument "Registering a function requires a publisher") (fd_publisher value);
  Ok (MkSFunction name version runtime required_inputs optional_inputs outputs (fd_metadata value) code attachments 0
        publisher (sig_signature <$> fd_signature value)).
Definition checksums_try_from (value : Checksums) : result Status Checksums :=
  sha256 ← check_empty (ck_sha256 value) "sha256"; Ok (MkChecksums sha256).
Definition attachment_data_try_from (value : AttachmentData) : result Status FunctionAttachmentData :=
  name ← check_empty (ad_name value) "name";
  checksums ← ok_or (MkStatus CInvalidArgument "Attachment requires checksums") (ad_checksums value) ≫= checksums_try_from;
  publisher ← ok_or (MkStatus CInvalidArgument "Attachment requires publisher") (ad_publisher value);
  Ok (MkFunctionAttachmentData name (ad_metadata value) checksums publisher (sig_signature <$> ad_signature value)).

(** ** storage/memory.rs *)
Record MemoryStorage := MkMemoryStorage {
  ms_functions : lock (list SFunction);
  ms_attachments : lock (gmap uuid FunctionAttachment)
}.
Definition memory_storage_new : MemoryStorage := MkMemoryStorage (lock_new []) (lock_new ∅).
Definition read_functions (self : MemoryStorage) : result StorageError (list SFunction) :=
  lock_get (fun e => BackendError ("Failed to acquire read lock for functions: " +:+ e)) (ms_functions self).
Definition same_function_id (id : SFunctionId) (f : SFunction) : bool :=
  bool_decide (sf_name f = si_name id) && version_eqb (sf_version f) (si_version id).
Definition find_id (id : SFunctionId) (fs : list SFunction) : option SFunction :=
  snd <$> list_find (fun f => same_function_id id f = true) fs.

Definition name_matches (group_versions : bool) (name : string) (function : SFunction) : bool :=
  (group_versions && bool_decide (sf_name function = name)) || str_contains name (sf_name function).
Definition requirement_matches (requirement : option VersionReq) (function : SFunction) : bool :=
  match requirement with Some r => req_matches r (sf_version function) | None => true end.
Definition group_latest (hashmap : gmap string SFunction) (function : SFunction) : gmap string SFunction :=
  match hashmap !! sf_name function with
  | Some entry =>
      if version_ltb (sf_version entry) (sf_version function) then <[sf_name function := function]> hashmap else hashmap
  | None => <[sf_name function := function]> hashmap
  end.
Definition metadata_matches (metadata : gmap string (option string)) (fun_ : SFunction) : bool :=
  forallb (fun '(k, v) => match v with
                          | None => bool_decide (is_Some (sf_metadata fun_ !! k))
                          | Some value => bool_decide (sf_metadata fun_ !! k = Some value)
                          end) (hash_iter metadata).
Definition hit_cmp (key : OrderingKey) : SFunction -> SFunction -> comparison :=
  match key with NameVersion => cmp_lex (cmp_on sf_name str_cmp) (cmp_rev (cmp_on sf_version version_cmp)) end.
Definition hits (fs : list SFunction) (filters : SFilters) (group_versions : bool) : list SFunction :=
  let funcs := List.filter (requirement_matches (sl_version_requirement filters))
                 (List.filter (name_matches group_versions (sl_name filters)) (map_values fs)) in
  let funcs := if group_versions then hash_values (foldl group_latest ∅ funcs) else funcs in
  List.filter (fun f => str_contains (sl_publisher_email filters) (pub_email (sf_publisher f)))
    (List.filter (metadata_matches (sl_metadata filters)) funcs).
Definition storage_list (self : MemoryStorage) (filters : SFilters) (group_versions : bool)
  : result StorageError (list SFunction) :=
  fs ← read_functions self;
  let order := default default_sordering (sl_order filters) in
  let sorted := sort_by (hit_cmp (so_key order)) (hits fs filters group_versions) in
  Ok (page (so_offset order) (so_limit order) (if so_reverse order then reverse sorted else sorted)).

Definition storage := sem MemoryStorage.
Definition set_created_at (now : N) (f : SFunction) : SFunction :=
  MkSFunction (sf_name f) (sf_version f) (sf_runtime f) (sf_required_inputs f) (sf_optional_inputs f) (sf_outputs f)
    (sf_metadata f) (sf_code f) (sf_attachments f) now (sf_publisher f) (sf_signature f).
Definition insert (now : N) (function_data : SFunction) : storage StorageError SFunction :=
  let id := MkSFunctionId (sf_name function_data) (sf_version function_data) in
  fs ← sem_ask (fun self => lock_get (fun e => BackendError ("Failed to acquire write lock for functions: " +:+ e)) (ms_functions self));
  match find_id id fs with
  | Some entry => sem_lift (Err (VersionExists (sf_name entry) (sf_version entry)))
  | None =>
      let function := set_created_at now function_data in
      _ ← sem_modify (fun self => MkMemoryStorage (lock_set (ms_functions self) (fs ++ [function])) (ms_attachments self));
      mret function
  end.
Definition insert_attachment (now : N) (id : uuid) (data : FunctionAttachmentData) : storage StorageError FunctionAttachment :=
  attachments ← sem_ask (fun self =>
      lock_get (fun e => BackendError ("Failed to acquire write lock for attachments: " +:+ e)) (ms_attachments self));
  let attachment := MkFunctionAttachment id data now in
  _ ← sem_modify (fun self => MkMemoryStorage (ms_functions self) (lock_set (ms_attachments self) (<[id := attachment]> attachments)));
  mret attachment.
Definition storage_get (self : MemoryStorage) (id : SFunctionId) : result StorageError SFunction :=
  functions ← read_functions self;
  ok_or (FunctionNotFound (display_function_id id)) (find_id id functions).
Definition storage_get_attachment (self : MemoryStorage) (id : uuid) : result StorageError FunctionAttachment :=
  attachments ← lock_get (fun e => BackendError ("Failed to acquire read lock for attachments: " +:+ e)) (ms_attachments self);
  ok_or (AttachmentNotFound (uuid_to_string id)) (attachments !! id).

(** ** registry.rs *)
Record QuinnService := MkQuinn { function_storage : MemoryStorage; attachment_storage : AttachmentStorage }.

Definition attachment_resolver (attachment_storage : AttachmentStorage) (att : FunctionAttachment) : Attachment :=
  MkAttachment (fad_name (fa_data att)) (result_ok (get_download_url attachment_storage att)) (fad_metadata (fa_data att))
    (Some (fad_checksums (fa_data att))) (fa_created_at att) (Some (fad_publisher (fa_data att)))
    (MkSignature <$> fad_signature (fa_data att)).
Definition resolve_function (self : QuinnService) (f : SFunction) : result StorageError Function_ :=
  let resolve id := attachment_resolver (attachment_storage self) <$> storage_get_attachment (function_storage self) id in
  code ← transpose (resolve <$> sf_code f);
  attachments ← collect (resolve <$> sf_attachments f);
  Ok (MkFunction (sf_name f) (version_to_string (sf_version f)) (sf_metadata f)
        (channel_spec_from <$> sf_required_inputs f) (channel_spec_from <$> sf_optional_inputs f)
        (channel_spec_from <$> sf_outputs f) code attachments (Some (sf_runtime f)) (sf_created_at f)
        (Some (sf_publisher f)) (MkSignature <$> sf_signature f)).

(** [try_join_all]: one failure fails the whole. *)
Definition quinn_list (group_versions : bool) (self : QuinnService) (request : Filters) : result Status (list Function_) :=
  filters ← filters_try_from request;
  map_err status_from_storage_error
    (functions ← storage_list (function_storage self) filters group_versions;
     collect (resolve_function self <$> functions)).
Definition quinn_get (self : QuinnService) (request : FunctionId) : result Status Function_ :=
  id ← function_id_try_from request;
  map_err status_from_storage_error
    (function ← storage_get (function_storage self) id; resolve_function self function).

Definition quinn_handler := sem QuinnService Status.
Definition on_storage {A} (h : storage StorageError A) : quinn_handler A :=
  fun self => let '(m, r) := h (function_storage self) in
    (MkQuinn m (attachment_storage self), map_err status_from_storage_error r).
Definition quinn_register (now : N) (request : FunctionData) : quinn_handler Function_ :=
  function ← sem_lift (function_try_from request);
  function ← on_storage (insert now function);
  sem_ask (fun self => map_err status_from_storage_error (resolve_function self function)).
Definition quinn_register_attachment (now : N) (id : uuid) (request : AttachmentData) : quinn_handler AttachmentHandle :=
  data ← sem_lift (attachment_data_try_from request);
  attachment ← on_storage (insert_attachment now id data);
  upload_url ← sem_ask (fun self => map_err status_from_storage_error (get_upload_url (attachment_storage self) attachment));
  mret (MkAttachmentHandle (Some (MkAttachmentId (uuid_to_string (fa_id attachment)))) (Some upload_url)).
Definition quinn_upload_streamed_attachment {A} : quinn_handler A :=
  sem_lift (Err (MkStatus CUnimplemented
    "The Quinn registry does not support uploading via streaming upload, use URL instead.")).

#[export] Instance quinn_api : RegistryApi QuinnService := {|
  api_list := quinn_list true; api_list_versions := quinn_list false; api_get := quinn_get |}.
End quinn.
