(* ===== verification/QuinnProps.v ===== *)
(** * Properties of the Quinn registry

    Registering stores what was sent and gives it back; a function with an unknown
    attachment is stored although its registration is refused, and then fails
    every listing it is part of; listing versions matches names by fragment. *)
From S2P Require Import Prelude Interfaces Proto Regex Registry RegistryApi Quinn.

Section quinn_props.
Context {SV : SemVer} {UL : UuidLib} {UR : UrlLib} {RE : RegexEngine} {HO : HashOrder} {MV : MapValues}.
Implicit Types self : QuinnService.
Implicit Types f : SFunction.

Definition stored self : list SFunction := lk_data (ms_functions (function_storage self)).
Definition known self : gmap uuid FunctionAttachment := lk_data (ms_attachments (function_storage self)).
Definition usable self : Prop :=
  lk_poisoned (ms_functions (function_storage self)) = false /\ lk_poisoned (ms_attachments (function_storage self)) = false.
Definition id_of f : SFunctionId := MkSFunctionId (sf_name f) (sf_version f).

(** ** Conversions *)
Lemma channel_spec_roundtrip cs c : channel_spec_try_from cs = Ok c -> channel_spec_from c = cs.
Proof.
  unfold channel_spec_try_from. intros H. inv_ok. subst c. apply ChannelType_from_Some in Hok.
  destruct cs as [t d]. cbn in *. by rewrite Hok.
Qed.

Lemma specs_roundtrip specs s : specs_try_from specs = Ok s -> channel_spec_from <$> s = specs.
Proof.
  unfold specs_try_from. intros H. inv_ok. rename a into l. subst s. apply collect_Ok in Hok.
  assert (Forall2 (fun p q => p.1 = q.1 /\ channel_spec_from q.2 = p.2) (hash_iter specs) l) as Hall.
  { revert l Hok. generalize (hash_iter specs) as k. induction k as [|[n cs] k IH]; intros [|q l] Hok; try discriminate Hok;
      [constructor|]. rewrite !fmap_cons in Hok. injection Hok as Hq Hl. constructor; [|by apply IH].
    apply bind_Ok_inv in Hq as (c & Hc & Hq). injection Hq as <-. cbn. by rewrite (channel_spec_roundtrip cs). }
  assert (l.*1 = (hash_iter specs).*1) as Hkeys.
  { clear Hok. induction Hall as [|p q k l [Hp _] _ IH]; [done|]. rewrite !fmap_cons, IH. by rewrite Hp. }
  assert (NoDup l.*1) as Hnd by (rewrite Hkeys; apply hash_iter_nodup).
  apply map_eq. intros n. rewrite lookup_fmap. apply option_eq. intros cs.
  rewrite <- elem_of_hash_iter. rewrite fmap_Some. split.
  - intros (c & Hc%elem_of_list_to_map_2 & ->). apply list_elem_of_lookup in Hc as [i Hi].
    destruct (Forall2_lookup_r _ _ _ _ _ Hall Hi) as ([n' cs'] & Hk & Hn & Hcs). cbn in *. subst.
    by apply list_elem_of_lookup_2 in Hk.
  - intros Hk. apply list_elem_of_lookup in Hk as [i Hi].
    destruct (Forall2_lookup_l _ _ _ _ _ Hall Hi) as ([n' c] & Hc & Hn & Hcs). cbn in *. subst.
    exists c. split; [|done]. apply elem_of_list_to_map_1; [done|]. by apply list_elem_of_lookup_2 in Hc.
Qed.

(** What a converted function keeps of its request. *)
Lemma function_try_from_Ok request f :
  function_try_from request = Ok f ->
  sf_name f = fd_name request /\ version_parse (fd_version request) = Ok (sf_version f) /\
  fd_runtime request = Some (sf_runtime f) /\
  channel_spec_from <$> sf_required_inputs f = fd_required_inputs request /\
  channel_spec_from <$> sf_optional_inputs f = fd_optional_inputs request /\
  channel_spec_from <$> sf_outputs f = fd_outputs request /\ sf_metadata f = fd_metadata request /\
  fd_publisher request = Some (sf_publisher f) /\ sf_signature f = sig_signature <$> fd_signature request /\
  length (sf_attachments f) = length (fd_attachment_ids request).
Proof.
  unfold function_try_from. intros H.
  apply bind_Ok_inv in H as (n & Hn%map_err_Ok & H). apply bind_Ok_inv in H as (v & Hv%map_err_Ok & H).
  apply bind_Ok_inv in H as (rt & Hrt & H). apply bind_Ok_inv in H as (ri & Hri & H).
  apply bind_Ok_inv in H as (oi & Hoi & H). apply bind_Ok_inv in H as (out & Hout & H).
  apply bind_Ok_inv in H as (code & _ & H). apply bind_Ok_inv in H as (atts & Hatts & H).
  apply bind_Ok_inv in H as (pub & Hpub%ok_or_Ok & H). injection H as <-. cbn.
  apply bind_Ok_inv in Hrt as (rt0 & Hrt0%ok_or_Ok & Hrt). unfold runtime_try_from in Hrt.
  apply bind_Ok_inv in Hrt as (rn & Hrn & Hrt). injection Hrt as <-.
  split_and!; [| |rewrite Hrt0; f_equal|by apply specs_roundtrip..|done|done|done|].
  - unfold validate_name in Hn. repeat case_match; congruence.
  - unfold validate_version in Hv. destruct (str_is_empty _); [done|]. by apply map_err_Ok in Hv.
  - unfold check_empty in Hrn. destruct rt0 as [n0 ? ?]. cbn in *. by destruct (str_is_empty n0); [|injection Hrn as <-].
  - apply collect_Ok, (f_equal length) in Hatts. by rewrite !length_fmap in Hatts.
Qed.

(** ** Storing *)
Lemma same_function_id_self f : same_function_id (id_of f) f = true.
Proof. unfold same_function_id. cbn. rewrite bool_decide_true by done. apply version_eqb_refl. Qed.

Lemma find_id_snoc id fs f :
  find_id id fs = None -> same_function_id id f = true -> find_id id (fs ++ [f]) = Some f.
Proof.
  unfold find_id. intros Hn Hf. induction fs as [|g fs IH]; cbn [app list_find] in *.
  - by rewrite decide_True.
  - destruct (decide _); [done|]. destruct (list_find _ fs) as [[i h]|] eqn:Hl; [done|].
    cbn in Hn. specialize (IH eq_refl). by destruct (list_find _ (fs ++ [f])) as [[j h]|].
Qed.

(** The service after an insertion. *)
Definition with_function self (now : N) f : QuinnService :=
  MkQuinn (MkMemoryStorage (lock_set (ms_functions (function_storage self)) (stored self ++ [set_created_at now f]))
             (ms_attachments (function_storage self))) (attachment_storage self).

Lemma quinn_register_run now request self f :
  usable self -> function_try_from request = Ok f ->
  quinn_register now request self =
  match find_id (id_of f) (stored self) with
  | Some g => (self, Err (status_from_storage_error (VersionExists (sf_name g) (sf_version g))))
  | None => (with_function self now f,
             map_err status_from_storage_error (resolve_function (with_function self now f) (set_created_at now f)))
  end.
Proof.
  intros [Hp _] Hf. unfold quinn_register, on_storage, insert, sem_lift, sem_ask, sem_modify.
  cbv [mbind sem_bind mret sem_ret]. rewrite Hf. unfold lock_get. rewrite Hp. unfold stored. fold (id_of f).
  destruct self as [m a]. cbn. by destruct (find_id (id_of f) (lk_data (ms_functions m))).
Qed.

Lemma resolve_ext self self' f :
  ms_attachments (function_storage self) = ms_attachments (function_storage self') ->
  attachment_storage self = attachment_storage self' -> resolve_function self f = resolve_function self' f.
Proof. intros H1 H2. unfold resolve_function, storage_get_attachment. by rewrite H1, H2. Qed.

Definition attachment_ids f : list uuid := sf_attachments f ++ option_list (sf_code f).

Lemma storage_get_attachment_run self id :
  usable self ->
  storage_get_attachment (function_storage self) id = ok_or (AttachmentNotFound (uuid_to_string id)) (known self !! id).
Proof. intros [_ Hp]. unfold storage_get_attachment, lock_get. by rewrite Hp. Qed.

Lemma collect_fmap_cases {A B E} (g : A -> result E B) l :
  (exists v, collect (g <$> l) = Ok v /\ Forall2 (fun a b => g a = Ok b) l v) \/
  (exists a e, a ∈ l /\ g a = Err e /\ collect (g <$> l) = Err e).
Proof.
  induction l as [|a l IH]; [left; by exists []|]. rewrite fmap_cons. cbn [collect].
  destruct (g a) as [b|e] eqn:Hg; [|right; exists a, e; set_solver]. cbn [mbind result_bind].
  destruct IH as [(v & -> & Hv)|(a' & e & Ha & He & ->)]; [left; exists (b :: v); by split; [|constructor]|].
  right. exists a', e. set_solver.
Qed.

(** A function can be shown exactly when its attachments are known. *)
Lemma resolve_function_cases self f :
  usable self ->
  ((forall id, id ∈ attachment_ids f -> is_Some (known self !! id)) /\ exists r, resolve_function self f = Ok r) \/
  (exists id, id ∈ attachment_ids f /\ known self !! id = None /\
     resolve_function self f = Err (AttachmentNotFound (uuid_to_string id))).
Proof.
  intros Hu. set (res id := attachment_resolver (attachment_storage self) <$> storage_get_attachment (function_storage self) id).
  assert (forall id, (is_Some (known self !! id) /\ exists a, res id = Ok a) \/
            (known self !! id = None /\ res id = Err (AttachmentNotFound (uuid_to_string id)))) as Hres.
  { intros id. unfold res. rewrite storage_get_attachment_run by done.
    destruct (known self !! id) as [a|]; cbn; [left; eauto|by right]. }
  unfold resolve_function. change (fun id => attachment_resolver _ <$> storage_get_attachment _ id) with res.
  assert ((forall id, id ∈ option_list (sf_code f) -> is_Some (known self !! id)) /\ (exists c, transpose (res <$> sf_code f) = Ok c) \/
          exists id, id ∈ option_list (sf_code f) /\ known self !! id = None /\
            transpose (res <$> sf_code f) = Err (AttachmentNotFound (uuid_to_string id))) as [[Hk [c ->]]|(id & Hid & Hk & ->)].
  { destruct (sf_code f) as [id|]; cbn; [|left; split; [set_solver|eauto]].
    destruct (Hres id) as [[Hk [a ->]]|[Hk ->]]; [left|right; exists id; set_solver].
    split; [|eauto]. intros id' ->%list_elem_of_singleton. done. }
  2: { right. exists id. unfold attachment_ids. set_solver. }
  cbn [mbind result_bind]. destruct (collect_fmap_cases res (sf_attachments f)) as [(v & -> & Hv)|(id & e & Hid & He & ->)].
  - left. split; [|cbn; eauto]. intros id [Hid|Hid]%elem_of_app; [|by apply Hk].
    apply list_elem_of_lookup in Hid as [i Hi]. destruct (Forall2_lookup_l _ _ _ _ _ Hv Hi) as (b & _ & Hb).
    destruct (Hres id) as [[? _]|[_ Herr]]; [done|congruence].
  - right. exists id. destruct (Hres id) as [[_ [a Ha]]|[Hn Herr]]; [congruence|].
    unfold attachment_ids. split_and!; [set_solver|done|]. cbn. congruence.
Qed.

(** A function with an unknown attachment breaks the listings.  When a valid
    function names an attachment that was never registered, its registration is
    refused as not found, and yet the function is stored: registering it again is
    refused because the version exists, getting it is refused as not found, and so is
    every listing whose page it is on, for all the other functions of the page
    too. *)
Theorem dangling_function_breaks_lists now request self f id :
  usable self -> function_try_from request = Ok f -> find_id (id_of f) (stored self) = None ->
  id ∈ attachment_ids f -> known self !! id = None ->
  exists self' e,
    quinn_register now request self = (self', Err e) /\ st_code e = CNotFound /\
    stored self' = stored self ++ [set_created_at now f] /\
    (forall now', exists e', quinn_register now' request self' = (self', Err e') /\ st_code e' = CInvalidArgument) /\
    (exists e', quinn_get self' (MkFunctionId (fd_name request) (fd_version request)) = Err e' /\ st_code e' = CNotFound) /\
    (forall group filters flt l, filters_try_from filters = Ok flt ->
       storage_list (function_storage self') flt group = Ok l -> set_created_at now f ∈ l ->
       exists e', quinn_list group self' filters = Err e' /\ st_code e' = CNotFound).
Proof.
  intros Hu Hf Hfresh Hid Hun. set (self' := with_function self now f). set (f' := set_created_at now f).
  assert (usable self') as Hu' by exact Hu.
  assert (forall g, id ∈ attachment_ids g -> exists i, resolve_function self' g = Err (AttachmentNotFound i)) as Hbad.
  { intros g Hg. destruct (resolve_function_cases self' g Hu') as [[Hall _]|(i & _ & _ & ->)]; [|eauto].
    destruct (Hall id Hg) as [a Ha]. change (known self' !! id) with (known self !! id) in Ha. congruence. }
  assert (find_id (id_of f) (stored self') = Some f') as Hfind
    by exact (find_id_snoc _ _ f' Hfresh (same_function_id_self f)).
  destruct (Hbad f' Hid) as [i Hi].
  exists self', (status_from_storage_error (AttachmentNotFound i)). split_and!; [|done|done| | |].
  - rewrite (quinn_register_run now request self f) by done. rewrite Hfresh. fold self' f'. by rewrite Hi.
  - intros now'. rewrite (quinn_register_run now' request self' f) by done. rewrite Hfind. eauto.
  - unfold quinn_get, function_id_try_from. cbn [fid_version fid_name].
    assert (version_parse (fd_version request) = Ok (sf_version f) /\ sf_name f = fd_name request) as [Hv Hn].
    { by destruct (function_try_from_Ok _ _ Hf) as (? & ? & _). }
    rewrite Hv. cbn [map_err mbind result_bind]. unfold storage_get, read_functions, lock_get.
    destruct Hu' as [Hp' _]. rewrite Hp'. cbn [mbind result_bind]. rewrite <- Hn.
    change (MkSFunctionId (sf_name f) (sf_version f)) with (id_of f).
    change (lk_data (ms_functions (function_storage self'))) with (stored self').
    rewrite Hfind. cbn [ok_or mbind result_bind]. rewrite Hi. cbn. eauto.
  - intros group filters flt l Hflt Hl Hin. unfold quinn_list. rewrite Hflt. cbn [mbind result_bind]. rewrite Hl. cbn [mbind result_bind].
    destruct (collect_fmap_cases (resolve_function self') l) as [(v & _ & Hv)|(g & e & _ & He & ->)].
    + apply list_elem_of_lookup in Hin as [j Hj]. destruct (Forall2_lookup_l _ _ _ _ _ Hv Hj) as (b & _ & Hb). congruence.
    + destruct (resolve_function_cases self' g Hu') as [[_ [r Hr]]|(k & _ & _ & Hk)]; [congruence|].
      assert (e = AttachmentNotFound (uuid_to_string k)) as -> by congruence. cbn. eauto.
Qed.

(** Registering and getting.  A valid function whose attachments are known and
    whose id is new is answered with the fields it was sent with and the time of
    registration, channel types included, and getting its name and version
    answers the same. *)
Theorem register_get_roundtrip now request self f :
  usable self -> function_try_from request = Ok f -> find_id (id_of f) (stored self) = None ->
  (forall id, id ∈ attachment_ids f -> is_Some (known self !! id)) ->
  exists self' r,
    quinn_register now request self = (self', Ok r) /\
    quinn_get self' (MkFunctionId (fd_name request) (fd_version request)) = Ok r /\
    fn_name r = fd_name request /\ version_parse (fd_version request) = Ok (sf_version f) /\
    fn_version r = version_to_string (sf_version f) /\
    fn_required_inputs r = fd_required_inputs request /\ fn_optional_inputs r = fd_optional_inputs request /\
    fn_outputs r = fd_outputs request /\ fn_metadata r = fd_metadata request /\ fn_runtime r = fd_runtime request /\
    fn_publisher r = fd_publisher request /\ fn_signature r = fd_signature request /\ fn_created_at r = now /\
    length (fn_attachments r) = length (fd_attachment_ids request).
Proof.
  intros Hu Hf Hfresh Hall. set (self' := with_function self now f). set (f' := set_created_at now f).
  assert (usable self') as Hu' by exact Hu.
  destruct (resolve_function_cases self' f' Hu') as [[_ [r Hr]]|(id & Hid & Hn & _)].
  2: { destruct (Hall id Hid) as [a Ha]. change (known self' !! id) with (known self !! id) in Hn. congruence. }
  assert (find_id (id_of f) (stored self') = Some f') as Hfind
    by exact (find_id_snoc _ _ f' Hfresh (same_function_id_self f)).
  exists self', r.
  assert (quinn_register now request self = (self', Ok r)) as Hreg.
  { rewrite (quinn_register_run now request self f) by done. rewrite Hfresh. fold self' f'. by rewrite Hr. }
  destruct (function_try_from_Ok _ _ Hf) as (Hn & Hv & Hrt & Hri & Hoi & Hout & Hmeta & Hpub & Hsig & Hlen).
  split; [done|]. split.
  { unfold quinn_get, function_id_try_from. cbn [fid_version fid_name]. rewrite Hv. cbn [map_err mbind result_bind].
    unfold storage_get, read_functions, lock_get. destruct Hu' as [Hp' _]. rewrite Hp'. cbn [mbind result_bind]. rewrite <- Hn.
    change (MkSFunctionId (sf_name f) (sf_version f)) with (id_of f).
    change (lk_data (ms_functions (function_storage self'))) with (stored self').
    rewrite Hfind. cbn [ok_or mbind result_bind]. by rewrite Hr. }
  unfold resolve_function in Hr. apply bind_Ok_inv in Hr as (code & _ & Hr). apply bind_Ok_inv in Hr as (atts & Hatts & Hr).
  injection Hr as <-. cbn. split_and!; try done.
  - rewrite Hsig. by destruct (fd_signature request) as [[]|].
  - apply collect_Ok, (f_equal length) in Hatts. rewrite !length_fmap in Hatts. cbn in Hatts. congruence.
Qed.

(** ** Listing versions *)
Lemma elem_of_filter_bool {A} (p : A -> bool) l x : x ∈ List.filter p l <-> p x = true /\ x ∈ l.
Proof. rewrite !list_elem_of_In, List.filter_In. tauto. Qed.

Lemma filter_length {A} (p : A -> bool) (l : list A) : length (List.filter p l) <= length l.
Proof. induction l as [|a l IH]; cbn; [done|]. destruct (p a); cbn; lia. Qed.

(** The versions listed for a name and nothing else. *)
Definition versions_of (name : string) : Filters := MkFilters name None ∅ (Some (MkOrdering 0 false 0 1000)) EmptyString.

Lemma metadata_matches_empty f : metadata_matches ∅ f = true.
Proof.
  unfold metadata_matches. apply forallb_forall. intros [k v] H%list_elem_of_In%elem_of_hash_iter.
  by rewrite lookup_empty in H.
Qed.

Lemma hits_versions fs flt name f :
  filters_try_from (versions_of name) = Ok flt ->
  f ∈ hits fs flt false <-> f ∈ fs /\ str_contains name (sf_name f) = true.
Proof.
  intros [= <-]. unfold hits. cbn [sl_version_requirement sl_name sl_metadata sl_publisher_email].
  rewrite !elem_of_filter_bool, map_values_perm. rewrite fmap_empty, metadata_matches_empty, str_contains_empty.
  unfold name_matches. cbn. tauto.
Qed.

Lemma storage_list_elem self flt l g :
  storage_list (function_storage self) flt false = Ok l -> g ∈ l -> g ∈ stored self.
Proof.
  unfold storage_list. intros H. apply bind_Ok_inv in H as (fs & Hfs & H). injection H as <-. intros Hg%page_elem_of.
  assert (g ∈ sort_by (hit_cmp (so_key (default default_sordering (sl_order flt)))) (hits fs flt false)) as Hs.
  { destruct (so_reverse _); [|done]. by rewrite reverse_Permutation in Hg. }
  rewrite sort_by_perm in Hs. unfold hits in Hs. rewrite !elem_of_filter_bool, map_values_perm in Hs.
  unfold read_functions, lock_get in Hfs. destruct (lk_poisoned _); [done|]. injection Hfs as <-. tauto.
Qed.

(** Quinn lists versions by name fragment.  The functions listed for a name
    are the versions of every function whose name contains it, where the protocol
    promises the name itself: as soon as a function is stored whose name properly
    contains some text, Quinn is not a registry that lists exact versions. *)
Theorem versions_by_fragment self f name :
  usable self -> f ∈ stored self -> str_contains name (sf_name f) = true ->
  (forall g id, g ∈ stored self -> id ∈ attachment_ids g -> is_Some (known self !! id)) ->
  length (stored self) <= 1000 ->
  (exists fs g, api_list_versions self (versions_of name) = Ok fs /\ g ∈ fs /\ fn_name g = sf_name f) /\
  (sf_name f <> name -> ~ ExactVersions self).
Proof.
  intros Hu Hf Hn Hall Hlen.
  assert (exists fs g, api_list_versions self (versions_of name) = Ok fs /\ g ∈ fs /\ fn_name g = sf_name f) as Hex.
  { cbn [api_list_versions quinn_api]. unfold quinn_list.
    destruct (filters_try_from (versions_of name)) as [flt|e] eqn:Hflt; [|done]. cbn [mbind result_bind].
    unfold storage_list, read_functions, lock_get. destruct Hu as [Hp Hp2]. rewrite Hp. cbn [mbind result_bind].
    change (lk_data (ms_functions (function_storage self))) with (stored self).
    set (srt := sort_by _ _). assert (srt ≡ₚ hits (stored self) flt false) as Hperm by apply sort_by_perm.
    assert (page (so_offset (default default_sordering (sl_order flt))) (so_limit (default default_sordering (sl_order flt)))
              (if so_reverse (default default_sordering (sl_order flt)) then reverse srt else srt) = srt) as ->.
    { injection Hflt as <-. change (page 0 1000 srt = srt). apply page_all. rewrite (Permutation_length Hperm).
      transitivity (length (stored self)); [|etrans; [exact Hlen|vm_compute; lia]]. unfold hits.
      do 4 (etrans; [apply filter_length|]). by rewrite (Permutation_length (map_values_perm _ _)). }
    destruct (collect_fmap_cases (resolve_function self) srt) as [(v & -> & Hv)|(g & e & Hg & He & _)].
    - assert (f ∈ srt) as Hin by (rewrite Hperm; by apply (hits_versions _ _ _ _ Hflt)).
      apply list_elem_of_lookup in Hin as [i Hi]. destruct (Forall2_lookup_l _ _ _ _ _ Hv Hi) as (r & Hr & Hres).
      exists v, r. split; [done|]. split; [by apply list_elem_of_lookup_2 in Hr|].
      unfold resolve_function in Hres. apply bind_Ok_inv in Hres as (c & _ & Hres). apply bind_Ok_inv in Hres as (a & _ & Hres).
      by injection Hres as <-.
    - rewrite Hperm in Hg. apply (hits_versions _ _ _ _ Hflt) in Hg as [Hg _].
      destruct (resolve_function_cases self g (conj Hp Hp2)) as [[_ [r Hr]]|(id & Hid & Hk & _)]; [congruence|].
      destruct (Hall g id Hg Hid). congruence. }
  split; [exact Hex|]. intros Hne Hexact. destruct Hex as (fs & g & Hl & Hg & Hgn).
  apply Hne. rewrite <- Hgn. exact (Hexact _ _ _ Hl Hg).
Qed.
End quinn_props.

(** ** A concrete service *)
Module QuinnExamples.
#[local] Existing Instance Concrete.text_semver.
#[local] Existing Instance Concrete.text_uuid.
#[local] Existing Instance Concrete.text_url.
#[local] Existing Instance derivative_engine.
#[local] Existing Instance key_order.
#[local] Instance in_order : MapValues := {| map_values := fun A l => l; map_values_perm := fun A l => Permutation_refl l |}.

Definition service : QuinnService := MkQuinn memory_storage_new (GCSStorage "bucket").
Definition number := MkChannelSpec 2 "a number".
Definition sum (attachments : list AttachmentId) := MkFunctionData "sum-it" "1" {[ "kind" := "math" ]} {[ "n" := number ]} ∅ ∅ None
  (Some (MkRuntimeSpec "wasi" EmptyString ∅)) attachments (Some (MkPublisher "Ada" "ada@example.com")) None.
Definition complete := sum [].
Definition dangling := sum [MkAttachmentId "#gone"].
Definition succeeded {A} (r : result Status A) : bool := is_ok r.

Lemma register_get_roundtrip_witness :
  exists r, (quinn_register 7 complete service).2 = Ok r /\ fn_required_inputs r = {[ "n" := number ]} /\ fn_created_at r = 7%N.
Proof.
  assert (match function_try_from complete with
          | Ok f => match attachment_ids f with [] => true | _ => false end
          | Err _ => false
          end = true) as Hok by (vm_compute; exact eq_refl).
  destruct (function_try_from complete) as [f|e] eqn:Hf; [|discriminate Hok].
  destruct (register_get_roundtrip 7 complete service f (conj eq_refl eq_refl) Hf eq_refl)
    as (s' & r & Hr & _ & _ & _ & _ & Hri & _ & _ & _ & _ & _ & _ & Hc & _).
  - intros id Hid. destruct (attachment_ids f); [inversion Hid|discriminate Hok].
  - exists r. rewrite Hr. split; [reflexivity|]. split; [exact Hri|exact Hc].
Defined.

Definition sums : Filters := MkFilters "sum" None ∅ None EmptyString.
Lemma dangling_function_breaks_lists_witness :
  let self' := (quinn_register 7 dangling service).1 in
  succeeded (quinn_register 7 dangling service).2 = false /\ length (stored self') = 1 /\
  exists e, quinn_list false self' sums = Err e /\ st_code e = CNotFound.
Proof.
  assert (match function_try_from dangling with
          | Ok f => existsb (fun id : string => bool_decide (id = "gone")) (attachment_ids f)
          | Err _ => false
          end = true) as Hok by (vm_compute; exact eq_refl).
  assert (match filters_try_from sums with
          | Ok flt => match storage_list (function_storage (quinn_register 7 dangling service).1) flt false with
                      | Ok (_ :: _) => true
                      | _ => false
                      end
          | Err _ => false
          end = true) as Hlist by (vm_compute; exact eq_refl).
  destruct (function_try_from dangling) as [f|e] eqn:Hf; [|discriminate Hok].
  apply existsb_exists in Hok as (id & Hid%list_elem_of_In & ->%bool_decide_eq_true).
  destruct (dangling_function_breaks_lists 7 dangling service f "gone" (conj eq_refl eq_refl) Hf eq_refl Hid eq_refl)
    as (s' & e & Hr & _ & Hs & _ & _ & Hl).
  cbv zeta. rewrite Hr in Hlist |- *. cbn [fst snd] in *. split; [reflexivity|]. split; [rewrite Hs; reflexivity|].
  destruct (filters_try_from sums) as [flt|e'] eqn:Hflt; [|discriminate Hlist].
  destruct (storage_list (function_storage s') flt false) as [[|g l]|e'] eqn:Hsl; [discriminate Hlist| |discriminate Hlist].
  apply (Hl false sums flt (g :: l) Hflt Hsl).
  assert (g ∈ stored s') as Hg by (apply (storage_list_elem s' flt (g :: l)); [exact Hsl|apply list_elem_of_In; left; reflexivity]).
  rewrite Hs in Hg. apply list_elem_of_singleton in Hg as <-. apply list_elem_of_In. left. reflexivity.
Defined.

Lemma versions_by_fragment_witness : ~ ExactVersions (quinn_register 7 complete service).1.
Proof.
  set (self := (quinn_register 7 complete service).1).
  assert (existsb (fun f => str_contains "sum" (sf_name f) && negb (bool_decide (sf_name f = "sum"))) (stored self) = true) as Hf
    by (vm_compute; exact eq_refl).
  apply existsb_exists in Hf as (f & Hf%list_elem_of_In & [Hn Hne%negb_true_iff%bool_decide_eq_false]%andb_true_iff).
  apply (versions_by_fragment self f "sum" (conj eq_refl eq_refl) Hf Hn); [| |exact Hne].
  - intros g id Hg Hid. exfalso. revert Hid.
    assert (forallb (fun g => match attachment_ids g with [] => true | _ => false end) (stored self) = true) as Hall
      by (vm_compute; exact eq_refl).
    rewrite forallb_forall in Hall. specialize (Hall g (proj1 (list_elem_of_In _ _) Hg)).
    destruct (attachment_ids g); [intros Hid; inversion Hid|discriminate Hall].
  - vm_compute. lia.
Defined.
End QuinnExamples.
