(* ===== verification/Postgres.v ===== *)
(** * The PostgreSQL backend of Quinn (services/quinn/src/storage/postgres.rs)

    The rows and their conversions, the operations of [PostgresStorage], and the
    tables and functions of storage/sql/create-tables.sql they call.  A statement
    that fails changes nothing.  [now] and the identifiers the database
    generates are arguments, and so is the order in which a query meets the rows
    it aggregates ([array_agg] of the attachments of a function has no [order by]).
    Not modelled: texts with a NUL byte, which the server refuses.  The identifiers and comparators of versions ([VersionFields]) and the
    collation are arguments. *)
From S2P Require Import Prelude Interfaces Proto Json Regex Registry RegistryApi Quinn.
From Stdlib Require Import Ascii.

(** ** The semver crates *)
Inductive ReqOp := OpLt | OpLte | OpGt | OpGte | OpEq.
Record Comparator := MkComparator { co_op : ReqOp; co_major : N; co_minor : N; co_patch : N; co_pre : list string }.
Definition with_sign (sign joined : string) : string := if str_is_empty joined then EmptyString else sign +:+ joined.
Definition version_text (major minor patch pre build : string) : string :=
  major +:+ "." +:+ minor +:+ "." +:+ patch +:+ pre +:+ build.
Class VersionFields `{SemVer} := {
  v_major : Version -> N;
  v_minor : Version -> N;
  v_patch : Version -> N;
  v_pre : Version -> list string;
  v_build : Version -> list string;
  (** A version is parsed back from its fields. *)
  version_parse_fields : forall v,
    version_parse (version_text (pretty.pretty (v_major v)) (pretty.pretty (v_minor v)) (pretty.pretty (v_patch v))
                     (with_sign "-" (str_join "." (v_pre v))) (with_sign "+" (str_join "." (v_build v)))) = Ok v;
  (** Versions that compare equal differ at most in their build. *)
  version_cmp_fields : forall a b, version_cmp a b = Eq <->
    v_major a = v_major b /\ v_minor a = v_minor b /\ v_patch a = v_patch b /\ v_pre a = v_pre b;
  (** [RangeSet::parse] of a requirement: the comparators of each range. *)
  req_ranges : VersionReq -> result string (list (list Comparator))
}.
Class Collation := { collate : string -> string -> comparison }.

(** ** Rows *)
Definition as_i32 (n : N) : Z := let m := (Z.of_N n mod 2 ^ 32)%Z in if (m <? 2 ^ 31)%Z then m else (m - 2 ^ 32)%Z.
Record DbVersion := MkDbVersion {
  dv_major : Z; dv_minor : Z; dv_patch : Z; dv_pre : option string; dv_build : option string
}.
#[export] Instance DbVersion_eq_dec : EqDecision DbVersion.
Proof. solve_decision. Defined.
Record DbChannelSpec := MkDbChannelSpec { dc_name : string; dc_description : string; dc_argument_type : ChannelType }.
Record DbRuntime := MkDbRuntime { dr_name : string; dr_entrypoint : string; dr_arguments : gmap string (option string) }.
Record VersionComparator := MkVersionComparator { vc_version : DbVersion; vc_op : string }.

Section postgres.
Context {SV : SemVer} {VF : VersionFields} {UL : UuidLib} {HO : HashOrder} {CO : Collation}.

Record DbPublisher := MkDbPublisher { dp_id : uuid; dp_name : string; dp_email : string }.
Record DbFunction := MkDbFunction {
  df_id : uuid;
  df_name : string;
  df_version : DbVersion;
  df_metadata : gmap string (option string);
  df_code : option uuid;
  df_required_inputs : list DbChannelSpec;
  df_optional_inputs : list DbChannelSpec;
  df_outputs : list DbChannelSpec;
  df_runtime : DbRuntime;
  df_created_at : N;
  df_publisher_id : uuid;
  df_signature : option (list byte)
}.
Record DbAttachment := MkDbAttachment {
  da_id : uuid;
  da_name : string;
  da_metadata : gmap string (option string);
  da_sha256 : string;
  da_created_at : N;
  da_publisher_id : uuid;
  da_signature : option (list byte)
}.
Record FunctionWithAttachments := MkFunctionWithAttachments {
  fwa_func : DbFunction; fwa_attachment_ids : list uuid; fwa_publisher : DbPublisher
}.
Record AttachmentWithPublisher := MkAttachmentWithPublisher { awp_attachment : DbAttachment; awp_publisher : DbPublisher }.

(** A failure: an error of the storage, or a panic ([unwrap] of a null value). *)
Inductive PgFailure := PgError (e : StorageError) | PgPanic.

(** ** Conversions *)
Definition joined (l : list string) : option string :=
  let s := str_join "." l in if str_is_empty s then None else Some s.
Definition db_version (v : Version) : DbVersion :=
  MkDbVersion (as_i32 (v_major v)) (as_i32 (v_minor v)) (as_i32 (v_patch v)) (joined (v_pre v)) (joined (v_build v)).
Definition signed (sign : string) (o : option string) : string :=
  match o with Some s => sign +:+ s | None => EmptyString end.
Definition version_try_from (v : DbVersion) : result string Version :=
  map_err (fun e => "Failed to parse semantic version from the PostgreSQL database: " +:+ e)
    (version_parse (version_text (pretty.pretty (dv_major v)) (pretty.pretty (dv_minor v)) (pretty.pretty (dv_patch v))
                      (signed "-" (dv_pre v)) (signed "+" (dv_build v)))).
Definition op_text (op : ReqOp) : string :=
  match op with OpLt => "<" | OpLte => "<=" | OpGt => ">" | OpGte => ">=" | OpEq => "=" end.
Definition fold_pre (pre : list string) : option string :=
  foldl (fun acc pred => Some (match acc with Some s => s +:+ "." | None => EmptyString end +:+ pred)) None pre.
Definition version_requirements (req : VersionReq) : result string (list VersionComparator) :=
  ranges ← map_err (fun e => "Failed to parse version requirement: " +:+ e) (req_ranges req);
  Ok ((fun c => MkVersionComparator
         (MkDbVersion (as_i32 (co_major c)) (as_i32 (co_minor c)) (as_i32 (co_patch c)) (fold_pre (co_pre c)) None)
         (op_text (co_op c))) <$> concat ranges).
Definition hstore (m : gmap string string) : gmap string (option string) := Some <$> m.
Definition unwrap_values (m : gmap string (option string)) : result PgFailure (gmap string string) :=
  if forallb (fun kv => match kv.2 with Some _ => true | None => false end) (map_to_list m)
  then Ok (omap (fun v => v) m) else Err PgPanic.
Definition channel_specs (specs : gmap string SChannelSpec) : list DbChannelSpec :=
  (fun kv => MkDbChannelSpec kv.1 (sc_description kv.2) (sc_argument_type kv.2)) <$> hash_iter specs.
Definition from_channel_specs (specs : list DbChannelSpec) : gmap string SChannelSpec :=
  object_map ((fun c => (dc_name c, MkSChannelSpec (dc_description c) (dc_argument_type c))) <$> specs).
Definition db_runtime (ee : RuntimeSpec) : DbRuntime :=
  MkDbRuntime (rs_name ee) (rs_entrypoint ee) (hstore (rs_arguments ee)).
Definition runtime_from (ee : DbRuntime) : result PgFailure RuntimeSpec :=
  arguments ← unwrap_values (dr_arguments ee);
  Ok (MkRuntimeSpec (dr_name ee) (dr_entrypoint ee) arguments).
Definition publisher_of (p : DbPublisher) : Publisher := MkPublisher (dp_name p) (dp_email p).
Definition function_try_from (f : FunctionWithAttachments) : result PgFailure SFunction :=
  let func := fwa_func f in
  version ← map_err (fun e => PgError (BackendError e)) (version_try_from (df_version func));
  runtime ← runtime_from (df_runtime func);
  metadata ← unwrap_values (df_metadata func);
  Ok (MkSFunction (df_name func) version runtime (from_channel_specs (df_required_inputs func))
        (from_channel_specs (df_optional_inputs func)) (from_channel_specs (df_outputs func)) metadata (df_code func)
        (fwa_attachment_ids f) (df_created_at func) (publisher_of (fwa_publisher f)) (df_signature func)).
Definition attachment_from (a : AttachmentWithPublisher) : result PgFailure FunctionAttachment :=
  let at_ := awp_attachment a in
  metadata ← unwrap_values (da_metadata at_);
  Ok (MkFunctionAttachment (da_id at_)
        (MkFunctionAttachmentData (da_name at_) metadata (MkChecksums (da_sha256 at_)) (publisher_of (awp_publisher a))
           (da_signature at_)) (da_created_at at_)).

(** ** The tables *)
Inductive SqlState := UNIQUE_VIOLATION | FOREIGN_KEY_VIOLATION | STRING_DATA_RIGHT_TRUNCATION | INVALID_ROW_COUNT.
#[export] Instance SqlState_eq_dec : EqDecision SqlState.
Proof. solve_decision. Defined.
Record Db := MkDb {
  db_publishers : list DbPublisher;
  db_functions : list DbFunction;
  db_attachments : list DbAttachment;
  db_links : list (uuid * uuid);
  db_down : option string
}.
Definition sql (A : Type) := sem Db SqlState A.
Definition raise {A} (e : SqlState) : sql A := sem_lift (Err e).

(** [varchar(n)]: at most [n] characters; spaces beyond are cut off. *)
Fixpoint split_chars (n : nat) (s : string) : string * string :=
  match s with
  | EmptyString => (EmptyString, EmptyString)
  | String c s' =>
      if is_char_start c then
        match n with
        | 0 => (EmptyString, s)
        | S n => let '(a, b) := split_chars n s' in (String c a, b)
        end
      else let '(a, b) := split_chars n s' in (String c a, b)
  end.
Definition all_spaces (s : string) : bool := forallb (fun c => Ascii.eqb c " ") (chars s).
Definition varchar (n : nat) (s : string) : result SqlState string :=
  let '(a, b) := split_chars n s in
  if all_spaces b then Ok a else Err STRING_DATA_RIGHT_TRUNCATION.
(** [char(n)]: filled up with spaces. *)
Fixpoint spaces (n : nat) : string := match n with 0 => EmptyString | S n => String " " (spaces n) end.
Definition bpchar (n : nat) (s : string) : result SqlState string :=
  s ← varchar n s; Ok (s +:+ spaces (n - char_count s)).
Definition opt_varchar (n : nat) (o : option string) : result SqlState (option string) :=
  transpose (varchar n <$> o).

(** The columns of the composite types of an argument. *)
Definition version_arg (v : DbVersion) : result SqlState DbVersion :=
  pre ← opt_varchar 256 (dv_pre v);
  build ← opt_varchar 256 (dv_build v);
  Ok (MkDbVersion (dv_major v) (dv_minor v) (dv_patch v) pre build).
Definition channel_spec_arg (c : DbChannelSpec) : result SqlState DbChannelSpec :=
  name ← varchar 128 (dc_name c);
  Ok (MkDbChannelSpec name (dc_description c) (dc_argument_type c)).
Definition runtime_arg (r : DbRuntime) : result SqlState DbRuntime :=
  name ← varchar 128 (dr_name r);
  entrypoint ← varchar 128 (dr_entrypoint r);
  Ok (MkDbRuntime name entrypoint (dr_arguments r)).

Definition insert_or_get_publisher (id : uuid) (name email : string) : sql DbPublisher :=
  name ← sem_lift (varchar 128 name);
  email ← sem_lift (varchar 128 email);
  ps ← sem_ask (fun db => Ok (db_publishers db));
  match list_find (fun p => dp_name p = name /\ dp_email p = email) ps with
  | Some (_, p) => mret p
  | None =>
      if bool_decide (id ∈ dp_id <$> ps) then raise UNIQUE_VIOLATION
      else
        let p := MkDbPublisher id name email in
        _ ← sem_modify (fun db => MkDb (ps ++ [p]) (db_functions db) (db_attachments db) (db_links db) (db_down db));
        mret p
  end.
Definition publisher_with (id : uuid) (db : Db) : option DbPublisher :=
  snd <$> list_find (fun p => dp_id p = id) (db_publishers db).
(** The row of the table, with its texts cut to the columns. *)
Definition function_row (f : DbFunction) : result SqlState DbFunction :=
  version ← version_arg (df_version f);
  required_inputs ← collect (channel_spec_arg <$> df_required_inputs f);
  optional_inputs ← collect (channel_spec_arg <$> df_optional_inputs f);
  outputs ← collect (channel_spec_arg <$> df_outputs f);
  runtime ← runtime_arg (df_runtime f);
  name ← varchar 128 (df_name f);
  Ok (MkDbFunction (df_id f) name version (df_metadata f) (df_code f) required_inputs optional_inputs outputs runtime
        (df_created_at f) (df_publisher_id f) (df_signature f)).
Definition insert_function (f : DbFunction) (attachment_ids : list uuid) : sql FunctionWithAttachments := fun db =>
  match function_row f with
  | Err e => (db, Err e)
  | Ok row =>
      if bool_decide (Exists (fun g => df_name g = df_name row /\ df_version g = df_version row) (db_functions db))
         || bool_decide (df_id row ∈ df_id <$> db_functions db)
      then (db, Err UNIQUE_VIOLATION)
      else match publisher_with (df_publisher_id row) db with
           | None => (db, Err FOREIGN_KEY_VIOLATION)
           | Some p =>
               if negb (bool_decide (NoDup attachment_ids)) then (db, Err UNIQUE_VIOLATION)
               else if forallb (fun a => bool_decide (a ∈ da_id <$> db_attachments db)) attachment_ids
               then (MkDb (db_publishers db) (db_functions db ++ [row]) (db_attachments db)
                       (db_links db ++ ((fun a => (df_id row, a)) <$> attachment_ids)) (db_down db),
                     Ok (MkFunctionWithAttachments row attachment_ids p))
               else (db, Err FOREIGN_KEY_VIOLATION)
           end
  end.
(** The order in which [array_agg] meets the attachments of a function (by the
    function's id) in one query: any permutation of them, see [aggregates]. *)
Definition Aggregation : Type := uuid -> list uuid -> list uuid.
Definition linked (db : Db) (row : DbFunction) : list uuid := snd <$> filter (fun l => l.1 = df_id row) (db_links db).
(** A row with what is joined to it: the publisher is always there. *)
Definition join_row (array_agg : Aggregation) (db : Db) (row : DbFunction) : option FunctionWithAttachments :=
  p ← publisher_with (df_publisher_id row) db;
  Some (MkFunctionWithAttachments row (array_agg (df_id row) (linked db row)) p).
Definition get_function (array_agg : Aggregation) (name : string) (version : DbVersion) : sql (list FunctionWithAttachments) :=
  version ← sem_lift (version_arg version);
  sem_ask (fun db => Ok (take 1 (omap (join_row array_agg db)
    (filter (fun row => df_name row = name /\ df_version row = version) (db_functions db))))).
Definition sql_insert_attachment (id : uuid) (now : N) (name : string) (metadata : gmap string (option string))
    (sha256 : string) (publisher_id : uuid) (signature : option (list byte)) : sql AttachmentWithPublisher := fun db =>
  match (sha256 ← bpchar 64 sha256; name ← varchar 128 name; Ok (sha256, name)) with
  | Err e => (db, Err e)
  | Ok (sha256, name) =>
      if bool_decide (id ∈ da_id <$> db_attachments db) then (db, Err UNIQUE_VIOLATION)
      else match publisher_with publisher_id db with
           | None => (db, Err FOREIGN_KEY_VIOLATION)
           | Some p =>
               let row := MkDbAttachment id name metadata sha256 now publisher_id signature in
               (MkDb (db_publishers db) (db_functions db) (db_attachments db ++ [row]) (db_links db) (db_down db),
                Ok (MkAttachmentWithPublisher row p))
           end
  end.
Definition sql_get_attachment (id : uuid) : sql (list AttachmentWithPublisher) :=
  sem_ask (fun db => Ok (take 1 (omap (fun row => MkAttachmentWithPublisher row <$> publisher_with (da_publisher_id row) db)
    (filter (fun row => da_id row = id) (db_attachments db))))).

(** *** Listing *)

(** Rows are compared column by column; a null is larger than any text. *)
Definition null_cmp (a b : option string) : comparison :=
  match a, b with
  | None, None => Eq
  | None, Some _ => Gt
  | Some _, None => Lt
  | Some a, Some b => collate a b
  end.
Definition db_version_cmp : DbVersion -> DbVersion -> comparison :=
  cmp_lex (cmp_on dv_major Z.compare) (cmp_lex (cmp_on dv_minor Z.compare) (cmp_lex (cmp_on dv_patch Z.compare)
    (cmp_lex (cmp_on dv_pre null_cmp) (cmp_on dv_build null_cmp)))).
Definition sql_lt (a b : DbVersion) : bool := match db_version_cmp a b with Lt => true | _ => false end.
Definition sql_le (a b : DbVersion) : bool := match db_version_cmp a b with Gt => false | _ => true end.
Definition sql_eq (a b : DbVersion) : bool := match db_version_cmp a b with Eq => true | _ => false end.
(** [None]: null, which [bool_and] leaves out. *)
Definition comparator_matches (version : DbVersion) (comparator : VersionComparator) : option bool :=
  let other := vc_version comparator in let op := vc_op comparator in
  if negb (String.eqb (default EmptyString (dv_pre version)) (default EmptyString (dv_pre other))) then Some false
  else if String.eqb op "=" || match dv_pre other with Some _ => true | None => false end then Some (sql_eq version other)
  else if String.eqb op "<" then Some (sql_lt version other)
  else if String.eqb op "<=" then Some (sql_le version other)
  else if String.eqb op ">" then Some (sql_lt other version)
  else if String.eqb op ">=" then Some (sql_le other version)
  else None.
Definition version_matches (version : DbVersion) (comparators : option (list VersionComparator)) : bool :=
  forallb (fun c => default true (comparator_matches version c)) (default [] comparators).

(** [s like p]: an underscore is one character, a percent sign any text, and a
    backslash takes the next character as it is. *)
Fixpoint drop_continuation (s : list ascii) : list ascii :=
  match s with c :: s' => if is_char_start c then s else drop_continuation s' | [] => [] end.
Fixpoint like (p s : list ascii) : bool :=
  match p with
  | [] => match s with [] => true | _ => false end
  | c :: p' =>
      if Ascii.eqb c "%" then
        (fix any (s : list ascii) : bool := like p' s || match s with [] => false | _ :: s' => any s' end) s
      else if Ascii.eqb c "_" then
        match s with [] => false | _ :: s' => like p' (drop_continuation s') end
      else if Ascii.eqb c (ascii_of_nat 92) then
        match p', s with d :: p'', e :: s' => Ascii.eqb d e && like p'' s' | _, _ => false end
      else match s with e :: s' => Ascii.eqb c e && like p' s' | [] => false end
  end.
Definition like_part (part s : string) : bool := like ("%"%char :: chars part ++ ["%"%char]) (chars s).

Record ListArguments := MkListArguments {
  la_name : string;
  la_metadata : gmap string (option string);
  la_offset : Z;
  la_limit : Z;
  la_order_by : string;
  la_reverse : bool;
  la_version_filters : option (list VersionComparator);
  la_publisher_email : string
}.
Definition selected (group_versions : bool) (args : ListArguments) (row : DbFunction) : bool :=
  (if group_versions then like_part (la_name args) (df_name row) else bool_decide (df_name row = la_name args))
  && version_matches (df_version row) (la_version_filters args).
(** [row_number() over (partition by name order by version desc)] *)
Definition row_number (rows : list DbFunction) (row : DbFunction) : nat :=
  S (length (List.filter (fun r => bool_decide (df_name r = df_name row) && sql_lt (df_version row) (df_version r)) rows)).
Definition contains_metadata (wanted have : gmap string (option string)) : bool :=
  forallb (fun kv => match kv.2 with
                     | None => bool_decide (is_Some (have !! kv.1))
                     | Some v => bool_decide (have !! kv.1 = Some (Some v))
                     end) (map_to_list wanted).
Definition list_order (order_by : string) (reverse : bool) : FunctionWithAttachments -> FunctionWithAttachments -> comparison :=
  let by_name := cmp_on (fun f => df_name (fwa_func f)) collate in
  let by_version := cmp_on (fun f => df_version (fwa_func f)) db_version_cmp in
  if String.eqb order_by "name_version" then
    if reverse then cmp_lex (cmp_rev by_name) by_version else cmp_lex by_name (cmp_rev by_version)
  else fun _ _ => Eq.
Definition list_functions_internal (array_agg : Aggregation) (args : ListArguments) (group_versions : bool) : sql (list FunctionWithAttachments) :=
  _ ← sem_lift (collect ((fun c => version_arg (vc_version c)) <$> default [] (la_version_filters args)));
  if (la_offset args <? 0)%Z || (la_limit args <? 0)%Z then raise INVALID_ROW_COUNT
  else sem_ask (fun db =>
    let rows := List.filter (selected group_versions args) (db_functions db) in
    let kept := List.filter (fun row => (Nat.eqb (row_number rows row) 1 || negb group_versions)
                               && contains_metadata (la_metadata args) (df_metadata row)) rows in
    let found := List.filter (fun f => like_part (la_publisher_email args) (dp_email (fwa_publisher f)))
                   (omap (join_row array_agg db) kept) in
    Ok (page (Z.to_N (la_offset args)) (Z.to_N (la_limit args))
          (sort_by (list_order (la_order_by args) (la_reverse args)) found))).

(** ** [PostgresStorage] *)
Definition pg (A : Type) := sem Db PgFailure A.
Definition backend {A} (text : string) : pg A := sem_lift (Err (PgError (BackendError text))).
Definition sql_text (e : SqlState) : string :=
  match e with
  | UNIQUE_VIOLATION => "db error: ERROR: duplicate key value violates unique constraint"
  | FOREIGN_KEY_VIOLATION => "db error: ERROR: insert or update on table violates foreign key constraint"
  | STRING_DATA_RIGHT_TRUNCATION => "db error: ERROR: value too long for type character varying"
  | INVALID_ROW_COUNT => "db error: ERROR: OFFSET must not be negative"
  end.
Definition query {A} (prefix : string) (q : sql A) : pg A := fun db =>
  let '(db', r) := q db in (db', map_err (fun e => PgError (BackendError (prefix +:+ sql_text e))) r).
Definition get_connection : pg unit := sem_ask (fun db =>
  match db_down db with
  | Some e => Err (PgError (BackendError ("Failed to obtain sql connection from pool: " +:+ e)))
  | None => Ok tt
  end).
Definition insert_publisher (id : uuid) (publisher : Publisher) : pg DbPublisher :=
  _ ← get_connection;
  query EmptyString (insert_or_get_publisher id (pub_name publisher) (pub_email publisher)).
Definition pg_insert (now : N) (publisher_id function_id : uuid) (function_data : SFunction) : pg SFunction :=
  _ ← get_connection;
  publisher ← insert_publisher publisher_id (sf_publisher function_data);
  let func := MkDbFunction function_id (sf_name function_data) (db_version (sf_version function_data))
    (hstore (sf_metadata function_data)) (sf_code function_data) (channel_specs (sf_required_inputs function_data))
    (channel_specs (sf_optional_inputs function_data)) (channel_specs (sf_outputs function_data))
    (db_runtime (sf_runtime function_data)) now (dp_id publisher) (sf_signature function_data) in
  row ← (fun db => let '(db', r) := insert_function func (sf_attachments function_data) db in
         (db', map_err (fun e => PgError
                 (if decide (e = UNIQUE_VIOLATION) then VersionExists (sf_name function_data) (sf_version function_data)
                  else BackendError (sql_text e))) r)) : pg FunctionWithAttachments;
  sem_lift (function_try_from row).
Definition pg_insert_attachment (now : N) (publisher_id attachment_id : uuid) (data : FunctionAttachmentData)
  : pg FunctionAttachment :=
  _ ← get_connection;
  publisher ← insert_publisher publisher_id (fad_publisher data);
  row ← query "Failed to insert attachment: " (sql_insert_attachment attachment_id now (fad_name data)
          (hstore (fad_metadata data)) (ck_sha256 (fad_checksums data)) (dp_id publisher) (fad_signature data));
  sem_lift (attachment_from row).
Definition pg_get (array_agg : Aggregation) (id : SFunctionId) : pg SFunction :=
  _ ← get_connection;
  rows ← query ("Failed to get function with id " +:+ display_function_id id +:+ ": ")
           (get_function array_agg (si_name id) (db_version (si_version id)));
  row ← sem_lift (ok_or (PgError (FunctionNotFound (display_function_id id))) (last rows));
  sem_lift (function_try_from row).
Definition pg_get_attachment (id : uuid) : pg FunctionAttachment :=
  _ ← get_connection;
  rows ← query ("Failed to get attachment with id " +:+ uuid_to_string id +:+ ": ") (sql_get_attachment id);
  row ← sem_lift (ok_or (PgError (AttachmentNotFound (uuid_to_string id))) (last rows));
  sem_lift (attachment_from row).
Definition as_i64 (n : N) : Z := let m := (Z.of_N n mod 2 ^ 64)%Z in if (m <? 2 ^ 63)%Z then m else (m - 2 ^ 64)%Z.
(** No comparators are given as null. *)
Definition version_filters (requirement : option VersionReq) : result PgFailure (option (list VersionComparator)) :=
  filters ← transpose ((fun vr => map_err (fun e => PgError (BackendError e)) (version_requirements vr)) <$> requirement);
  Ok (l ← filters; if decide (l = []) then None else Some l).
Definition pg_list_with (array_agg : Aggregation) (group_versions : bool) (filters : SFilters) : pg (list SFunction) :=
  let order := default default_sordering (sl_order filters) in
  _ ← get_connection;
  version_filters ← sem_lift (version_filters (sl_version_requirement filters));
  rows ← query "Failed to list functions: " (list_functions_internal array_agg
    (MkListArguments (sl_name filters) (sl_metadata filters) (as_i64 (so_offset order)) (as_i64 (so_limit order))
       (match so_key order with NameVersion => "name_version" end) (so_reverse order) version_filters
       (sl_publisher_email filters)) group_versions);
  sem_lift (collect (function_try_from <$> rows)).
Definition pg_list (array_agg : Aggregation) : SFilters -> pg (list SFunction) := pg_list_with array_agg true.
Definition pg_list_versions (array_agg : Aggregation) : SFilters -> pg (list SFunction) := pg_list_with array_agg false.

(** ** Starting *)

(** A server: what [tokio_postgres] makes of a url, why there is no pool of
    connections, why the file of the tables cannot be run, and the tables of the
    database if it has them. *)
Record PgServer := MkPgServer {
  ps_config : string -> option string;
  ps_pool : option string;
  ps_down : option string;
  ps_batch : option string;
  ps_tables : option Db
}.
Definition empty_db : Db := MkDb [] [] [] [] None.
Definition set_down (down : option string) (db : Db) : Db :=
  MkDb (db_publishers db) (db_functions db) (db_attachments db) (db_links db) down.
Definition pg_new (server : PgServer) (uri : string) : result StorageError unit :=
  match ps_config server uri, ps_pool server with
  | Some e, _ => Err (ConnectionError ("Invalid postgresql url: " +:+ e))
  | None, Some e => Err (ConnectionError ("Failed to create postgresql pool: " +:+ e))
  | None, None => Ok tt
  end.
(** Types and tables that exist are left as they are. *)
Definition create_tables (server : PgServer) : result StorageError Db :=
  match ps_down server, ps_batch server with
  | Some e, _ => Err (BackendError ("Failed to obtain sql connection from pool: " +:+ e))
  | None, Some e => Err (BackendError ("Failed to run database initialization: " +:+ e))
  | None, None => Ok (set_down None (default empty_db (ps_tables server)))
  end.
Definition pg_new_with_init (server : PgServer) (uri : string) : result StorageError Db :=
  _ ← pg_new server uri; create_tables server.
(** The publishers stay. *)
Definition clear_tables : sql unit := sem_modify (fun db => MkDb (db_publishers db) [] [] [] (db_down db)).

(** A start finds what an earlier one left. *)
Lemma start_keeps_rows server uri db db' : pg_new_with_init server uri = Ok db' -> ps_tables server = Some db ->
  db' = set_down None db.
Proof.
  unfold pg_new_with_init, pg_new, create_tables. destruct (ps_config server uri), (ps_pool server); try done. cbn.
  destruct (ps_down server), (ps_batch server); try done. by intros [= <-] ->.
Qed.
End postgres.
