(* ===== verification/PostgresProps.v ===== *)
(** * The PostgreSQL backend of Quinn against the one in memory *)
From S2P Require Import Prelude Interfaces Proto Json Regex Registry RegistryApi Quinn Postgres.
From Stdlib Require Import Ascii.

Section postgres_props.
Context {SV : SemVer} {VF : VersionFields} {UL : UuidLib} {HO : HashOrder} {CO : Collation}.
Implicit Types (db : Db) (f : SFunction) (v : Version).

(** ** Texts and columns *)
Definition fits (n : nat) (s : string) : bool := Nat.leb (char_count s) n.
Lemma char_count_cons c s : char_count (String c s) = (if is_char_start c then 1 else 0) + char_count s.
Proof. unfold char_count. cbn. by destruct (is_char_start c). Qed.
Lemma split_chars_fits n s : char_count s <= n -> split_chars n s = (s, EmptyString).
Proof.
  revert n. induction s as [|c s IH]; intros n; [done|]. rewrite char_count_cons. cbn [split_chars].
  destruct (is_char_start c).
  - destruct n as [|n]; [lia|]. intros H. rewrite IH by lia. done.
  - intros H. by rewrite IH by lia.
Qed.
Lemma varchar_fits n s : fits n s = true -> varchar n s = Ok s.
Proof. intros H. apply Nat.leb_le in H. unfold varchar. by rewrite split_chars_fits. Qed.
Lemma opt_varchar_fits n o : (forall s, o = Some s -> fits n s = true) -> opt_varchar n o = Ok o.
Proof. destruct o as [s|]; [|done]. intros H. unfold opt_varchar. cbn. by rewrite varchar_fits by by apply H. Qed.

(** ** Conversions there and back *)
Lemma unwrap_hstore m : unwrap_values (hstore m) = Ok m.
Proof.
  unfold unwrap_values, hstore. replace (forallb _ _) with true.
  - f_equal. apply map_eq. intros k. rewrite lookup_omap, lookup_fmap. by destruct (m !! k).
  - symmetry. apply forallb_forall. intros [k o] Hin%list_elem_of_In. apply elem_of_map_to_list in Hin.
    rewrite lookup_fmap in Hin. destruct (m !! k); [|done]. by injection Hin as <-.
Qed.
Lemma channel_specs_back m : from_channel_specs (channel_specs m) = m.
Proof.
  unfold from_channel_specs, channel_specs. rewrite <- list_fmap_compose.
  rewrite <- (object_map_hash_iter m) at 2. f_equal. rewrite <- (list_fmap_id (hash_iter m)) at 2.
  apply list_fmap_ext. intros i [k [d t]] _. done.
Qed.
Lemma runtime_back r : runtime_from (db_runtime r) = Ok r.
Proof. unfold runtime_from, db_runtime. cbn. rewrite unwrap_hstore. by destruct r. Qed.

(** *** Versions *)

(** Versions the columns hold: 31-bit numbers, a short pre-release and no build. *)
Definition version_fits v : bool :=
  (v_major v <? 2 ^ 31)%N && (v_minor v <? 2 ^ 31)%N && (v_patch v <? 2 ^ 31)%N
  && fits 256 (str_join "." (v_pre v)) && bool_decide (v_build v = []).
Lemma as_i32_small n : (n < 2 ^ 31)%N -> as_i32 n = Z.of_N n.
Proof.
  intros H. unfold as_i32. rewrite Z.mod_small by lia. cbn zeta. replace (Z.of_N n <? 2 ^ 31)%Z with true; [done|].
  symmetry. apply Z.ltb_lt. lia.
Qed.
Lemma pretty_of_N n : pretty.pretty (Z.of_N n) = pretty.pretty n.
Proof. by destruct n. Qed.
Lemma signed_joined sign l : signed sign (joined l) = with_sign sign (str_join "." l).
Proof. unfold joined, with_sign. cbn zeta. by destruct (str_is_empty (str_join "." l)). Qed.
Lemma version_back v :
  (v_major v < 2 ^ 31)%N -> (v_minor v < 2 ^ 31)%N -> (v_patch v < 2 ^ 31)%N -> version_try_from (db_version v) = Ok v.
Proof.
  intros H1 H2 H3. unfold version_try_from, db_version. cbn [dv_major dv_minor dv_patch dv_pre dv_build].
  rewrite !as_i32_small, !pretty_of_N, !signed_joined by done. by rewrite version_parse_fields.
Qed.
Lemma version_fits_bounds v :
  version_fits v = true -> (v_major v < 2 ^ 31)%N /\ (v_minor v < 2 ^ 31)%N /\ (v_patch v < 2 ^ 31)%N /\
    fits 256 (str_join "." (v_pre v)) = true /\ v_build v = [].
Proof.
  unfold version_fits. rewrite !andb_true_iff, !N.ltb_lt, bool_decide_eq_true. tauto.
Qed.
Lemma version_fits_back v : version_fits v = true -> version_try_from (db_version v) = Ok v.
Proof. intros (H1 & H2 & H3 & _)%version_fits_bounds. by apply version_back. Qed.
Lemma db_version_inj a b :
  version_fits a = true -> version_fits b = true -> db_version a = db_version b -> a = b.
Proof.
  intros Ha Hb Hab. apply version_fits_back in Ha, Hb. rewrite Hab, Hb in Ha. by injection Ha.
Qed.
Lemma version_eqb_db a b :
  version_fits a = true -> version_fits b = true -> (version_eqb a b = true <-> db_version a = db_version b).
Proof.
  intros Ha Hb. rewrite version_eqb_eq, version_cmp_fields. split.
  - intros (H1 & H2 & H3 & H4). unfold db_version. rewrite H1, H2, H3, H4.
    apply version_fits_bounds in Ha as (_ & _ & _ & _ & ->). by apply version_fits_bounds in Hb as (_ & _ & _ & _ & ->).
  - intros H. apply db_version_inj in H; [|done..]. by subst b.
Qed.
Lemma version_arg_fits v : version_fits v = true -> version_arg (db_version v) = Ok (db_version v).
Proof.
  intros (_ & _ & _ & Hp & Hb)%version_fits_bounds. unfold version_arg. rewrite !opt_varchar_fits; [done|..].
  - cbn. unfold joined. cbn zeta. destruct (str_is_empty _); [done|]. by intros s [= <-].
  - cbn. by rewrite Hb.
Qed.

(** ** Functions the tables hold *)
Definition specs_fit (m : gmap string SChannelSpec) : Prop := map_Forall (fun k _ => fits 128 k = true) m.
Record storable f : Prop := {
  st_name : fits 128 (sf_name f) = true;
  st_version : version_fits (sf_version f) = true;
  st_required : specs_fit (sf_required_inputs f);
  st_optional : specs_fit (sf_optional_inputs f);
  st_outputs : specs_fit (sf_outputs f);
  st_runtime : fits 128 (rs_name (sf_runtime f)) = true /\ fits 128 (rs_entrypoint (sf_runtime f)) = true;
  st_publisher : fits 128 (pub_name (sf_publisher f)) = true /\ fits 128 (pub_email (sf_publisher f)) = true
}.
Lemma collect_specs m : specs_fit m -> collect (channel_spec_arg <$> channel_specs m) = Ok (channel_specs m).
Proof.
  intros Hm. apply collect_Ok. unfold channel_specs. rewrite <- !list_fmap_compose. apply list_fmap_ext.
  intros i [k c] Hin%list_elem_of_lookup_2. apply elem_of_hash_iter in Hin. cbn. unfold channel_spec_arg. cbn.
  by rewrite varchar_fits by by apply (Hm k c).
Qed.
Definition function_of (now : N) (publisher_id function_id : uuid) f : DbFunction :=
  MkDbFunction function_id (sf_name f) (db_version (sf_version f)) (hstore (sf_metadata f)) (sf_code f)
    (channel_specs (sf_required_inputs f)) (channel_specs (sf_optional_inputs f)) (channel_specs (sf_outputs f))
    (db_runtime (sf_runtime f)) now publisher_id (sf_signature f).
Lemma function_row_fits now pid fid f : storable f -> function_row (function_of now pid fid f) = Ok (function_of now pid fid f).
Proof.
  intros [Hn Hv Hr Ho Hu [Hrn Hre] _]. unfold function_row, function_of. cbn -[collect].
  rewrite version_arg_fits by done. cbn -[collect]. rewrite !collect_specs by done. cbn. unfold runtime_arg. cbn.
  by rewrite !varchar_fits by done.
Qed.
Lemma function_back now fid ids p f :
  version_fits (sf_version f) = true -> publisher_of p = sf_publisher f ->
  function_try_from (MkFunctionWithAttachments (function_of now (dp_id p) fid f) ids p) =
  Ok (MkSFunction (sf_name f) (sf_version f) (sf_runtime f) (sf_required_inputs f) (sf_optional_inputs f) (sf_outputs f)
        (sf_metadata f) (sf_code f) ids now (sf_publisher f) (sf_signature f)).
Proof.
  intros Hv Hp. unfold function_try_from. cbn -[version_try_from unwrap_values runtime_from from_channel_specs channel_specs].
  rewrite version_fits_back by done. cbn -[unwrap_values runtime_from from_channel_specs channel_specs]. rewrite runtime_back.
  cbn -[unwrap_values from_channel_specs channel_specs]. rewrite unwrap_hstore.
  cbn -[from_channel_specs channel_specs]. by rewrite !channel_specs_back, Hp.
Qed.

(** ** The two backends side by side *)
Definition shown db (row : DbFunction) f : Prop :=
  version_fits (sf_version f) = true /\ df_name row = sf_name f /\ df_version row = db_version (sf_version f) /\
  exists p, publisher_with (df_publisher_id row) db = Some p /\
    function_try_from (MkFunctionWithAttachments row (linked db row) p) = Ok f.
Definition attachment_row db (row : DbAttachment) (a : FunctionAttachment) : Prop :=
  exists p, publisher_with (da_publisher_id row) db = Some p /\ attachment_from (MkAttachmentWithPublisher row p) = Ok a.
Record simulates (ms : MemoryStorage) db : Prop := {
  sm_functions_open : lk_poisoned (ms_functions ms) = false;
  sm_attachments_open : lk_poisoned (ms_attachments ms) = false;
  sm_up : db_down db = None;
  sm_functions : Forall2 (shown db) (db_functions db) (lk_data (ms_functions ms));
  sm_publishers : NoDup (dp_id <$> db_publishers db);
  sm_links : Forall (fun l => l.1 ∈ df_id <$> db_functions db) (db_links db);
  sm_attachments : Forall (fun row => exists a, attachment_row db row a /\ lk_data (ms_attachments ms) !! da_id row = Some a)
                     (db_attachments db);
  sm_known : forall id a, lk_data (ms_attachments ms) !! id = Some a -> id ∈ da_id <$> db_attachments db
}.

(** [db1] has the publishers of [db] and perhaps more. *)
Definition more_publishers db db1 : Prop :=
  (forall id p, publisher_with id db = Some p -> publisher_with id db1 = Some p) /\
  db_functions db1 = db_functions db /\ db_attachments db1 = db_attachments db /\ db_links db1 = db_links db /\
  db_down db1 = db_down db.
Lemma shown_more db db1 row f :
  (forall id p, publisher_with id db = Some p -> publisher_with id db1 = Some p) ->
  filter (fun l => l.1 = df_id row) (db_links db1) = filter (fun l => l.1 = df_id row) (db_links db) ->
  shown db row f -> shown db1 row f.
Proof.
  intros Hp Hl (Hv & Hn & Hdv & p & Hpw & Hf). split; [done|]. split; [done|]. split; [done|].
  exists p. split; [by apply Hp|]. unfold linked in *. by rewrite Hl.
Qed.
Lemma attachment_row_more db db1 row a :
  (forall id p, publisher_with id db = Some p -> publisher_with id db1 = Some p) ->
  attachment_row db row a -> attachment_row db1 row a.
Proof. intros Hp (p & Hpw & Ha). exists p. split; [by apply Hp|done]. Qed.
Lemma simulates_publishers ms db db1 :
  simulates ms db -> more_publishers db db1 -> NoDup (dp_id <$> db_publishers db1) -> simulates ms db1.
Proof.
  intros [H1 H2 H3 H4 H5 H6 H7 H8] (Hp & Hf & Ha & Hl & Hd) Hnd. split; [done|done|congruence|..|done| | |].
  - rewrite Hf. eapply Forall2_impl; [exact H4|]. intros row f. apply shown_more; [done|by rewrite Hl].
  - by rewrite Hf, Hl.
  - rewrite Ha. eapply Forall_impl; [exact H7|]. intros row (a & Hr & Hm). exists a. split; [|done].
    by eapply attachment_row_more.
  - by rewrite Ha.
Qed.

Lemma publisher_with_cons q ps fs ats ls down id :
  publisher_with id (MkDb (q :: ps) fs ats ls down) =
  if decide (dp_id q = id) then Some q else publisher_with id (MkDb ps fs ats ls down).
Proof.
  unfold publisher_with. cbn [db_publishers list_find]. destruct (decide (dp_id q = id)); [done|].
  by destruct (list_find _ ps) as [[i p]|].
Qed.
Lemma publisher_with_in ps fs ats ls down p :
  NoDup (dp_id <$> ps) -> p ∈ ps -> publisher_with (dp_id p) (MkDb ps fs ats ls down) = Some p.
Proof.
  induction ps as [|q ps IH]; [by intros _ []%elem_of_nil|]. rewrite fmap_cons, NoDup_cons, publisher_with_cons.
  intros [Hq Hps] [->|Hin]%elem_of_cons; [by rewrite decide_True|]. rewrite decide_False; [by apply IH|].
  intros Heq. apply Hq. rewrite Heq. by apply list_elem_of_fmap_2.
Qed.
Lemma publisher_with_app ps p fs ats ls down id q :
  publisher_with id (MkDb ps fs ats ls down) = Some q -> publisher_with id (MkDb (ps ++ [p]) fs ats ls down) = Some q.
Proof.
  induction ps as [|r ps IH]; [done|]. change ((r :: ps) ++ [p]) with (r :: (ps ++ [p])).
  rewrite !publisher_with_cons. destruct (decide _); [done|apply IH].
Qed.
Lemma insert_publisher_run id p0 db :
  db_down db = None -> NoDup (dp_id <$> db_publishers db) -> id ∉ (dp_id <$> db_publishers db) ->
  fits 128 (pub_name p0) = true -> fits 128 (pub_email p0) = true ->
  exists db1 p, insert_publisher id p0 db = (db1, Ok p) /\ publisher_of p = p0 /\
    publisher_with (dp_id p) db1 = Some p /\ more_publishers db db1 /\ NoDup (dp_id <$> db_publishers db1).
Proof.
  destruct db as [ps fs ats ls down]. cbn [db_down db_publishers]. intros -> Hnd Hid Hn He.
  unfold insert_publisher, mbind, sem_bind, get_connection, sem_ask, query. cbn [db_down].
  unfold insert_or_get_publisher, mbind, sem_bind, sem_lift, sem_ask. rewrite !varchar_fits by done. cbn [db_publishers].
  destruct (list_find _ ps) as [[i p]|] eqn:Hfind.
  - apply list_find_Some in Hfind as (Hi & [Hpn Hpe] & _). exists (MkDb ps fs ats ls None), p.
    split; [done|]. split; [destruct p, p0; cbn in *; by subst|].
    split; [|done]. apply publisher_with_in; [done|]. by eapply list_elem_of_lookup_2.
  - rewrite bool_decide_false by done. unfold sem_modify, mret, sem_ret. cbn [db_functions db_attachments db_links db_down].
    set (p := MkDbPublisher id (pub_name p0) (pub_email p0)). exists (MkDb (ps ++ [p]) fs ats ls None), p.
    assert (NoDup (dp_id <$> ps ++ [p])) as Hnd'.
    { rewrite fmap_app, NoDup_app. split; [done|]. split; [|apply NoDup_singleton].
      intros x Hx ->%list_elem_of_singleton. by apply Hid. }
    split; [done|]. split; [by destruct p0|]. split; [|split; [|done]].
    + apply publisher_with_in; [done|]. apply elem_of_app. right. by left.
    + split; [|done]. intros id' q. apply publisher_with_app.
Qed.

(** Looking a function up: the first row is the function that is found. *)
Lemma find_id_cons id f fs : find_id id (f :: fs) = if same_function_id id f then Some f else find_id id fs.
Proof.
  unfold find_id. cbn. destruct (decide _) as [H|H].
  - by rewrite H.
  - apply not_true_is_false in H. rewrite H. by destruct (list_find _ fs) as [[]|].
Qed.
Lemma same_function_row id f row db :
  version_fits (si_version id) = true -> shown db row f ->
  (same_function_id id f = true <-> df_name row = si_name id /\ df_version row = db_version (si_version id)).
Proof.
  intros Hid (Hv & Hn & Hdv & _). unfold same_function_id. rewrite andb_true_iff, bool_decide_eq_true.
  rewrite version_eqb_db by done. by rewrite Hn, Hdv.
Qed.
Lemma Forall2_impl_in {A B} (P Q : A -> B -> Prop) l k :
  (forall x y, x ∈ l -> P x y -> Q x y) -> Forall2 P l k -> Forall2 Q l k.
Proof.
  intros H. induction 1 as [|x y l k Hp Hl IH]; constructor; [apply H; [by left|done]|].
  apply IH. intros x' y' Hin. apply H. by right.
Qed.
Lemma find_rows id db rows fs :
  version_fits (si_version id) = true -> Forall2 (shown db) rows fs ->
  match find_id id fs with
  | Some f => exists row rest, filter (fun row => df_name row = si_name id /\ df_version row = db_version (si_version id)) rows
                = row :: rest /\ shown db row f /\ same_function_id id f = true
  | None => filter (fun row => df_name row = si_name id /\ df_version row = db_version (si_version id)) rows = []
  end.
Proof.
  intros Hid. induction 1 as [|row f rows fs Hs Hall IH]; [done|]. rewrite find_id_cons.
  pose proof (same_function_row id f row db Hid Hs) as Hsame. destruct (same_function_id id f) eqn:Hb.
  - exists row. rewrite filter_cons_True by by apply Hsame. eauto.
  - rewrite filter_cons_False; [apply IH|]. intros H. apply Hsame in H. done.
Qed.
Lemma same_function_eq id f :
  version_fits (si_version id) = true -> version_fits (sf_version f) = true -> same_function_id id f = true ->
  sf_name f = si_name id /\ sf_version f = si_version id.
Proof.
  intros H1 H2. unfold same_function_id. rewrite andb_true_iff, bool_decide_eq_true. intros [Hn Hv].
  split; [done|]. apply version_eqb_db in Hv; [|done..]. by apply db_version_inj.
Qed.

(** The attachments of a function come back in any order. *)
Definition aggregates (array_agg : Aggregation) : Prop := forall fid ids, array_agg fid ids ≡ₚ ids.
Definition with_attachments (ids : list uuid) f : SFunction :=
  MkSFunction (sf_name f) (sf_version f) (sf_runtime f) (sf_required_inputs f) (sf_optional_inputs f) (sf_outputs f)
    (sf_metadata f) (sf_code f) ids (sf_created_at f) (sf_publisher f) (sf_signature f).
Definition same_function f g : Prop := exists ids, g = with_attachments ids f /\ ids ≡ₚ sf_attachments f.
Lemma try_from_aggregated array_agg row ids p f :
  aggregates array_agg -> function_try_from (MkFunctionWithAttachments row ids p) = Ok f ->
  exists g, function_try_from (MkFunctionWithAttachments row (array_agg (df_id row) ids) p) = Ok g /\ same_function f g.
Proof.
  intros Hagg. unfold function_try_from. cbn [fwa_func fwa_attachment_ids fwa_publisher].
  destruct (map_err _ _) as [v|]; [|done]. cbn [mbind result_bind].
  destruct (runtime_from _) as [r|]; [|done]. cbn [mbind result_bind].
  destruct (unwrap_values _) as [m|]; [|done]. cbn [mbind result_bind]. intros [= <-].
  eexists. split; [done|]. exists (array_agg (df_id row) ids). split; [done|]. apply Hagg.
Qed.
Definition get_agrees (a : result StorageError SFunction) (b : result PgFailure SFunction) : Prop :=
  match a, b with
  | Ok f, Ok g => same_function f g
  | Err e, Err (PgError e') => e' = e
  | _, _ => False
  end.
Lemma pg_get_run array_agg ms db id :
  aggregates array_agg -> simulates ms db -> version_fits (si_version id) = true ->
  exists b, pg_get array_agg id db = (db, b) /\ get_agrees (storage_get ms id) b.
Proof.
  intros Hagg.
  intros [H1 _ Hup Hfs _ _ _ _] Hid. unfold pg_get, mbind, sem_bind, get_connection, sem_ask, query. rewrite Hup.
  unfold get_function, mbind, sem_bind, sem_lift, sem_ask. rewrite version_arg_fits by done. cbn [map_err].
  unfold storage_get, read_functions, lock_get. rewrite H1. cbn [mbind result_bind].
  pose proof (find_rows id db _ _ Hid Hfs) as Hf. destruct (find_id id _) as [f|].
  - destruct Hf as (row & rest & -> & (_ & _ & _ & p & Hp & Hok) & _). cbn [omap list_omap].
    unfold join_row at 1. rewrite Hp. cbn [mbind option_bind].
    change (last (take 1 (?fwa :: ?l))) with (Some fwa). cbn [ok_or map_err].
    destruct (try_from_aggregated array_agg _ _ _ _ Hagg Hok) as (g & -> & Hg). by exists (Ok g).
  - rewrite Hf. by eexists.
Qed.

(** What is inserted: the row, and its links. *)
Definition with_function db (row : DbFunction) (ids : list uuid) : Db :=
  MkDb (db_publishers db) (db_functions db ++ [row]) (db_attachments db)
    (db_links db ++ ((fun a => (df_id row, a)) <$> ids)) (db_down db).
Lemma links_of_new db fid :
  Forall (fun l => l.1 ∈ df_id <$> db_functions db) (db_links db) -> (fid ∉ (df_id <$> db_functions db)) ->
  filter (fun l => l.1 = fid) (db_links db) = [].
Proof.
  intros Hl Hn. induction Hl as [|l ls Hl Hls IH]; [done|]. rewrite filter_cons_False; [done|]. intros <-. by apply Hn.
Qed.
Lemma links_appended fid id (ids : list uuid) :
  filter (fun l : uuid * uuid => l.1 = id) ((fun a => (fid, a)) <$> ids) = if decide (fid = id) then (fun a => (fid, a)) <$> ids else [].
Proof.
  induction ids as [|a ids IH]; [by destruct (decide _)|]. rewrite fmap_cons, filter_cons, IH. cbn.
  by destruct (decide (fid = id)).
Qed.
Lemma linked_new db row ids :
  Forall (fun l => l.1 ∈ df_id <$> db_functions db) (db_links db) -> df_id row ∉ (df_id <$> db_functions db) ->
  linked (with_function db row ids) row = ids.
Proof.
  intros Hl Hn. unfold linked. cbn [with_function db_links]. rewrite filter_app, links_of_new, links_appended by done.
  rewrite decide_True by done. cbn [app]. by rewrite <- list_fmap_compose, list_fmap_id by done.
Qed.
Lemma shown_old db row ids row' f :
  row' ∈ db_functions db -> df_id row ∉ (df_id <$> db_functions db) -> shown db row' f -> shown (with_function db row ids) row' f.
Proof.
  intros Hin Hn. apply shown_more; [done|]. cbn [with_function db_links]. rewrite filter_app, links_appended.
  rewrite decide_False; [by rewrite app_nil_r|]. intros Heq. apply Hn. rewrite Heq. by apply list_elem_of_fmap_2.
Qed.

(** A name and version are free for the one when they are for the other. *)
Lemma free_agrees db fs f :
  version_fits (sf_version f) = true -> Forall2 (shown db) (db_functions db) fs ->
  (find_id (MkSFunctionId (sf_name f) (sf_version f)) fs = None <->
   bool_decide (Exists (fun g => df_name g = sf_name f /\ df_version g = db_version (sf_version f)) (db_functions db)) = false).
Proof.
  intros Hv Hfs. pose proof (find_rows (MkSFunctionId (sf_name f) (sf_version f)) db _ _ Hv Hfs) as Hf.
  cbn [si_name si_version] in Hf. rewrite bool_decide_eq_false. destruct (find_id _ _) as [g|].
  - destruct Hf as (row & rest & Hrows & _). split; [done|]. intros Hex. destruct Hex.
    assert (row ∈ filter (fun row => df_name row = sf_name f /\ df_version row = db_version (sf_version f)) (db_functions db))
      as [Hr Hin]%list_elem_of_filter by (rewrite Hrows; by left). apply Exists_exists. eauto.
  - split; [|done]. intros _ Hex. apply Exists_exists in Hex as (row & Hin & Hr).
    assert (row ∈ filter (fun row => df_name row = sf_name f /\ df_version row = db_version (sf_version f)) (db_functions db))
      as Hrow by by apply list_elem_of_filter. rewrite Hf in Hrow. by apply elem_of_nil in Hrow.
Qed.

Definition known_attachment ms (id : uuid) : Prop := is_Some (lk_data (ms_attachments ms) !! id).
Lemma all_known ms db ids :
  simulates ms db -> Forall (known_attachment ms) ids ->
  forallb (fun a => bool_decide (a ∈ da_id <$> db_attachments db)) ids = true.
Proof.
  intros Hs Hids. apply forallb_forall. intros a Ha%list_elem_of_In. rewrite Forall_forall in Hids.
  destruct (Hids a Ha) as [x Hx]. apply bool_decide_eq_true. by eapply sm_known.
Qed.
Lemma insert_run ms db now pid fid f :
  simulates ms db -> storable f -> NoDup (sf_attachments f) -> Forall (known_attachment ms) (sf_attachments f) ->
  (pid ∉ (dp_id <$> db_publishers db)) -> (fid ∉ (df_id <$> db_functions db)) ->
  exists ms' db' r, insert now f ms = (ms', r) /\ pg_insert now pid fid f db = (db', map_err PgError r) /\ simulates ms' db'.
Proof.
  intros Hs Hf Hnd Hk Hpid Hfid. pose proof Hf as [_ Hv _ _ _ _ [Hpn Hpe]].
  pose proof (all_known ms db _ Hs Hk) as Hknown. pose proof Hs as [Ho1 Ho2 Hup _ Hps _ _ _].
  destruct (insert_publisher_run pid (sf_publisher f) db Hup Hps Hpid Hpn Hpe) as (db1 & p & Hpub & Hpo & Hpw & Hmore & Hps1).
  pose proof (simulates_publishers _ _ _ Hs Hmore Hps1) as Hs1. destruct Hmore as (_ & Hfs1 & Has1 & Hls1 & Hdown1).
  pose proof (sm_functions _ _ Hs1) as Hsf1. pose proof (free_agrees db1 _ f Hv Hsf1) as Hfree.
  unfold insert, mbind at 1, sem_bind at 1, sem_ask, lock_get. rewrite Ho1. cbn [mbind result_bind].
  unfold pg_insert. unfold mbind, sem_bind. unfold get_connection at 1, sem_ask. rewrite Hup, Hpub.
  fold (function_of now (dp_id p) fid f). unfold insert_function. rewrite function_row_fits by done.
  cbn [function_of df_name df_version df_id df_publisher_id].
  destruct (find_id _ _) as [g|] eqn:Hfind.
  - destruct (bool_decide (Exists _ _)); [|discriminate (proj2 Hfree eq_refl)]. cbn [orb].
    exists ms, db1, (Err (VersionExists (sf_name g) (sf_version g))). split; [done|]. split; [|done].
    cbn [map_err]. rewrite decide_True by done. pose proof (find_rows (MkSFunctionId (sf_name f) (sf_version f)) db1 _ _ Hv Hsf1) as Hrows.
    rewrite Hfind in Hrows. destruct Hrows as (row & rest & _ & (Hgv & _) & Hsame).
    apply same_function_eq in Hsame as [-> ->]; [|done..]. done.
  - rewrite (proj1 Hfree eq_refl), bool_decide_false by by rewrite Hfs1. cbn [orb]. rewrite Hpw.
    rewrite bool_decide_true by done. cbn [negb]. rewrite Has1, Hknown. cbn [map_err].
    rewrite function_back by done. fold (set_created_at now f).
    set (row := function_of now (dp_id p) fid f).
    eexists _, (with_function db1 row (sf_attachments f)), (Ok (set_created_at now f)). split; [done|]. split.
    { unfold with_function, row. cbn. by rewrite Has1. }
    destruct Hs1 as [G1 G2 G3 G4 G5 G6 G7 G8].
    assert (df_id row ∉ df_id <$> db_functions db1) as Hfid1 by by rewrite Hfs1.
    split; cbn [ms_functions ms_attachments lk_data lk_poisoned lock_set with_function db_functions db_attachments db_down
                db_publishers db_links]; try done.
    + apply Forall2_app.
      * eapply Forall2_impl_in; [|exact G4]. intros row' g Hrow'. by apply shown_old.
      * constructor; [|constructor]. split; [done|]. split; [done|]. split; [done|].
        exists p. split; [done|]. rewrite linked_new by done. unfold row. by rewrite function_back.
    + apply Forall_app. split.
      * eapply Forall_impl; [exact G6|]. intros l Hl. rewrite fmap_app. apply elem_of_app. by left.
      * apply Forall_fmap, Forall_true. intros a. cbn. rewrite fmap_app. apply elem_of_app. right. by left.
Qed.


(** *** Requests, one after the other *)
Inductive request :=
| RInsert (now : N) (publisher_id function_id : uuid) (f : SFunction)
| RInsertAttachment (now : N) (publisher_id attachment_id : uuid) (d : FunctionAttachmentData)
| RGet (array_agg : Aggregation) (id : SFunctionId)
| RGetAttachment (id : uuid).
Definition answer : Type := SFunction + FunctionAttachment.
Definition in_memory (r : request) (ms : MemoryStorage) : MemoryStorage * result StorageError answer :=
  match r with
  | RInsert now _ _ f => let '(ms', a) := insert now f ms in (ms', inl <$> a)
  | RInsertAttachment now _ aid d => let '(ms', a) := insert_attachment now aid d ms in (ms', inr <$> a)
  | RGet _ id => (ms, inl <$> storage_get ms id)
  | RGetAttachment id => (ms, inr <$> storage_get_attachment ms id)
  end.
Definition in_postgres (r : request) db : Db * result PgFailure answer :=
  match r with
  | RInsert now pid fid f => let '(db', a) := pg_insert now pid fid f db in (db', inl <$> a)
  | RInsertAttachment now pid aid d => let '(db', a) := pg_insert_attachment now pid aid d db in (db', inr <$> a)
  | RGet array_agg id => let '(db', a) := pg_get array_agg id db in (db', inl <$> a)
  | RGetAttachment id => let '(db', a) := pg_get_attachment id db in (db', inr <$> a)
  end.
Lemma simulates_empty : simulates memory_storage_new empty_db.
Proof. split; try done; constructor. Qed.


(** ** Beyond the columns *)

(** Versions whose numbers differ by a multiple of 2^32 are one version in the
    tables. *)
Lemma as_i32_wraps n k : as_i32 (n + k * 2 ^ 32) = as_i32 n.
Proof.
  unfold as_i32. replace (Z.of_N (n + k * 2 ^ 32)) with (Z.of_N n + Z.of_N k * 2 ^ 32)%Z by lia.
  by rewrite Z.mod_add by lia.
Qed.
Definition with_version v f : SFunction :=
  MkSFunction (sf_name f) v (sf_runtime f) (sf_required_inputs f) (sf_optional_inputs f) (sf_outputs f)
    (sf_metadata f) (sf_code f) (sf_attachments f) (sf_created_at f) (sf_publisher f) (sf_signature f).
Lemma pg_get_same array_agg id v ms db f :
  aggregates array_agg -> simulates ms db -> version_fits v = true -> db_version (si_version id) = db_version v ->
  storage_get ms (MkSFunctionId (si_name id) v) = Ok f -> exists g, pg_get array_agg id db = (db, Ok g) /\ same_function f g.
Proof.
  intros Hagg Hs Hv Heq Hget.
  destruct (pg_get_run array_agg ms db (MkSFunctionId (si_name id) v) Hagg Hs Hv) as (b & Hrun & Hb). rewrite Hget in Hb.
  destruct b as [g|]; [|done]. exists g. split; [|done].
  revert Hrun. unfold pg_get, mbind, sem_bind. destruct (get_connection db) as [db0 [[]|e]]; [|done].
  unfold query. rewrite Heq. cbn [si_name si_version]. destruct (get_function _ _ _ db0) as [db1 [rows|e]]; [|done].
  cbn [map_err]. unfold sem_lift. by destruct (last rows).
Qed.
Lemma pg_insert_exists ms db now pid fid f ids :
  simulates ms db -> storable f -> (pid ∉ (dp_id <$> db_publishers db)) ->
  bool_decide (Exists (fun g => df_name g = sf_name f /\ df_version g = db_version (sf_version f)) (db_functions db)) = true
  \/ ((fid ∉ (df_id <$> db_functions db)) /\ ~ NoDup ids) ->
  exists db1 p, insert_publisher pid (sf_publisher f) db = (db1, Ok p) /\
    insert_function (function_of now (dp_id p) fid f) ids db1 = (db1, Err UNIQUE_VIOLATION).
Proof.
  intros Hs Hf Hpid Hor. pose proof Hf as [_ Hv _ _ _ _ [Hpn Hpe]]. pose proof Hs as [_ _ Hup _ Hps _ _ _].
  destruct (insert_publisher_run pid (sf_publisher f) db Hup Hps Hpid Hpn Hpe) as (db1 & p & Hpub & _ & Hpw & Hmore & _).
  destruct Hmore as (_ & Hfs1 & _ & _ & _). exists db1, p. split; [done|].
  unfold insert_function. rewrite function_row_fits by done. cbn [function_of df_name df_version df_id df_publisher_id].
  rewrite Hfs1. destruct Hor as [->|[Hfid Hnd]]; [done|]. destruct (bool_decide (Exists _ _)); [done|].
  rewrite bool_decide_false by done. cbn [orb]. rewrite Hpw. by rewrite bool_decide_false.
Qed.

(** A version number of 2^32 more is the same row: the function registered
    under the smaller version is answered for the larger one, which the backend
    in memory does not know, and registering the larger one is refused as a
    version that exists. *)
Theorem oversized_version_collides array_agg ms db f w k now pid fid :
  let v := sf_version f in
  aggregates array_agg -> simulates ms db -> storable f -> storage_get ms (MkSFunctionId (sf_name f) v) = Ok f ->
  (0 < k)%N -> v_major w = (v_major v + k * 2 ^ 32)%N -> v_minor w = v_minor v -> v_patch w = v_patch v ->
  v_pre w = v_pre v -> v_build w = [] -> (pid ∉ (dp_id <$> db_publishers db)) ->
  let id := MkSFunctionId (sf_name f) w in
  storage_get ms id = Err (FunctionNotFound (display_function_id id)) /\
  (exists g, pg_get array_agg id db = (db, Ok g) /\ same_function f g) /\
  (pg_insert now pid fid (with_version w f) db).2 = Err (PgError (VersionExists (sf_name f) w)).
Proof.
  intros v Hagg Hs Hf Hget Hk Hmaj Hmin Hpat Hpre Hbuild Hpid id. subst v. pose proof Hf as [_ Hv _ _ _ _ _].
  assert (db_version w = db_version (sf_version f)) as Heq.
  { unfold db_version. rewrite Hmaj, as_i32_wraps, Hmin, Hpat, Hpre, Hbuild.
    by apply version_fits_bounds in Hv as (_ & _ & _ & _ & ->). }
  pose proof Hs as [Ho1 _ Hup Hfs _ _ _ _]. split; [|split].
  - unfold storage_get, read_functions, lock_get. rewrite Ho1. cbn [mbind result_bind].
    destruct (find_id id _) as [g|] eqn:Hg; [|done]. exfalso.
    assert (version_cmp (sf_version g) w = Eq /\ version_fits (sf_version g) = true) as [Hc Hgv].
    { unfold find_id in Hg. apply fmap_Some in Hg as ([i g'] & Hg & ->). apply list_find_Some in Hg as (Hi & Hsame & _).
      unfold same_function_id in Hsame. apply andb_true_iff in Hsame as [_ Hsame]. apply version_eqb_eq in Hsame.
      split; [done|]. destruct (Forall2_lookup_r _ _ _ _ _ Hfs Hi) as (row & _ & Hgv & _). done. }
    apply version_cmp_fields in Hc as [Hm _]. apply version_fits_bounds in Hgv as [Hlt _]. rewrite Hm, Hmaj in Hlt. lia.
  - by apply (pg_get_same array_agg id (sf_version f) ms).
  - destruct (pg_insert_exists ms db now pid fid f (sf_attachments f) Hs Hf Hpid) as (db1 & p & Hpub & Hins).
    { left. destruct (bool_decide _) eqn:Hb; [done|]. apply (free_agrees db (lk_data (ms_functions ms)) f) in Hb; [|done..].
      unfold storage_get, read_functions, lock_get in Hget. rewrite Ho1 in Hget. cbn [mbind result_bind] in Hget.
      by rewrite Hb in Hget. }
    unfold pg_insert, mbind, sem_bind. unfold get_connection at 1, sem_ask. rewrite Hup.
    change (sf_publisher (with_version w f)) with (sf_publisher f). rewrite Hpub.
    cbn [with_version sf_version sf_name sf_metadata sf_code sf_required_inputs sf_optional_inputs sf_outputs sf_runtime
         sf_signature sf_attachments]. rewrite Heq. fold (function_of now (dp_id p) fid f).
    by rewrite Hins.
Qed.

(** A function that names an attachment twice is refused as a version that
    exists, although no function has its name and version, and the backend in
    memory registers it. *)
Theorem duplicate_attachment_refused array_agg ms db f now pid fid :
  aggregates array_agg -> simulates ms db -> storable f -> ~ NoDup (sf_attachments f) ->
  storage_get ms (MkSFunctionId (sf_name f) (sf_version f))
    = Err (FunctionNotFound (display_function_id (MkSFunctionId (sf_name f) (sf_version f)))) ->
  (pid ∉ (dp_id <$> db_publishers db)) -> (fid ∉ (df_id <$> db_functions db)) ->
  (insert now f ms).2 = Ok (set_created_at now f) /\
  (pg_insert now pid fid f db).2 = Err (PgError (VersionExists (sf_name f) (sf_version f))) /\
  (pg_get array_agg (MkSFunctionId (sf_name f) (sf_version f)) (pg_insert now pid fid f db).1).2
    = Err (PgError (FunctionNotFound (display_function_id (MkSFunctionId (sf_name f) (sf_version f))))).
Proof.
  intros Hagg Hs Hf Hnd Hget Hpid Hfid. pose proof Hf as [_ Hv _ _ _ _ [Hpn Hpe]]. pose proof Hs as [Ho1 Ho2 Hup Hfs Hps _ _ _].
  destruct (pg_insert_exists ms db now pid fid f (sf_attachments f) Hs Hf Hpid) as (db1 & p & Hpub & Hins); [by right|].
  destruct (insert_publisher_run pid (sf_publisher f) db Hup Hps Hpid Hpn Hpe) as (db1' & p' & Hpub' & _ & _ & Hmore & Hps1).
  rewrite Hpub in Hpub'. injection Hpub' as <- <-. pose proof (simulates_publishers _ _ _ Hs Hmore Hps1) as Hs1.
  assert (pg_insert now pid fid f db = (db1, Err (PgError (VersionExists (sf_name f) (sf_version f))))) as ->.
  { unfold pg_insert, mbind, sem_bind. unfold get_connection at 1, sem_ask. rewrite Hup, Hpub.
    fold (function_of now (dp_id p) fid f). by rewrite Hins. }
  cbn [fst snd]. split; [|split; [done|]].
  - unfold storage_get, read_functions, lock_get in Hget. rewrite Ho1 in Hget. cbn [mbind result_bind] in Hget.
    unfold insert, mbind, sem_bind, sem_ask, lock_get. rewrite Ho1. by destruct (find_id _ _).
  - destruct (pg_get_run array_agg ms db1 (MkSFunctionId (sf_name f) (sf_version f)) Hagg Hs1 Hv) as (b & -> & Hb). rewrite Hget in Hb. destruct b as [|[e|]]; try done.
    cbn in Hb |- *. by rewrite Hb.
Qed.
End postgres_props.

(** ** A concrete database *)
Module Ledger.
#[local] Existing Instance Concrete.text_uuid.
#[local] Existing Instance key_order.
#[local] Instance bytewise : Collation := {| collate := str_cmp |}.

(** Versions [n.0.0], by their number. *)
Fixpoint number (acc : N) (s : string) : option N :=
  match s with
  | EmptyString => None
  | String c s' =>
      if Ascii.eqb c "." then if String.eqb s' "0.0" then Some acc else None
      else d ← digit_value c; number (acc * 10 + d) s'
  end.
Lemma number_pretty_go n s t : number 0 (pretty.pretty_N_go n s +:+ t) = number n (s +:+ t).
Proof.
  revert s. induction (N.lt_wf_0 n) as [n _ IH]; intros s.
  destruct (decide (n = 0)%N) as [->|Hn]; [by rewrite pretty.pretty_N_go_0|].
  rewrite pretty.pretty_N_go_step by lia. rewrite IH by (apply N.div_lt; lia).
  change (String ?c s +:+ t) with (String c (s +:+ t)). cbn [number].
  pose proof (N.mod_lt n 10 ltac:(lia)) as Hd. pose proof (N.div_mod n 10 ltac:(lia)) as Hn'.
  assert (Ascii.eqb (pretty.pretty_N_char (n mod 10)) "." = false /\
          digit_value (pretty.pretty_N_char (n mod 10)) = Some (n mod 10)%N) as [-> ->].
  { generalize dependent (n mod 10)%N. intros d Hd _.
    assert (d = 0 \/ d = 1 \/ d = 2 \/ d = 3 \/ d = 4 \/ d = 5 \/ d = 6 \/ d = 7 \/ d = 8 \/ d = 9)%N as Hcases by lia.
    repeat destruct Hcases as [->|Hcases]; try (by vm_compute). subst d. by vm_compute. }
  cbn [mbind option_bind]. f_equal. lia.
Qed.
Definition parse_major (s : string) : result string N := ok_or "not a version" (number 0 s).
Lemma parse_major_pretty n : parse_major (pretty.pretty n +:+ ".0.0") = Ok n.
Proof.
  unfold parse_major, pretty.pretty, pretty.pretty_N. destruct (decide (n = 0)%N) as [->|Hn]; [by vm_compute|].
  rewrite number_pretty_go. done.
Qed.
#[local] Instance N_cmp_order : CmpOrder N.compare.
Proof. split; intros x y; [apply N.compare_antisym|]. intros z. rewrite !N.compare_le_iff. lia. Qed.
#[local] Instance major_semver : SemVer := {|
  Version := N;
  version_parse := parse_major;
  version_to_string := fun v => pretty.pretty v +:+ ".0.0";
  version_cmp := N.compare;
  version_push_pre := fun _ v => v;
  version_invalid := 0%N;
  VersionReq := N;
  req_parse := parse_major;
  req_parse_npm := parse_major;
  req_matches := N.eqb;
  version_cmp_order := N_cmp_order
|}.
#[local] Program Instance major_fields : VersionFields := {|
  v_major := fun v : N => v; v_minor := fun _ => 0%N; v_patch := fun _ => 0%N; v_pre := fun _ => []; v_build := fun _ => [];
  req_ranges := fun r => Ok [[MkComparator OpEq r 0 0 []]]
|}.
Next Obligation. intros v. exact (parse_major_pretty v). Qed.
Next Obligation. intros a b. cbn. rewrite N.compare_eq_iff. tauto. Qed.

Definition ada : Publisher := MkPublisher "Ada" "ada@example.com".
Definition sums (version : N) (attachments : list uuid) : SFunction :=
  MkSFunction "sum" version (MkRuntimeSpec "wasi" EmptyString {[ "a" := "b" ]}) {[ "n" := MkSChannelSpec "a number" CTInt ]} ∅ ∅
    {[ "kind" := "math" ]} None attachments 0 ada None.
Definition digest : string := "0123456789abcdef0123456789abcdef0123456789abcdef0123456789abcdef".
(** A database that aggregates the rows last to first. *)
Definition backwards : Aggregation := fun _ ids => reverse ids.
Definition in_order : Aggregation := fun _ ids => ids.
Definition code (name : string) : FunctionAttachmentData := MkFunctionAttachmentData name ∅ (MkChecksums digest) ada None.
Definition asked : request := RGet backwards (MkSFunctionId "sum" 1%N).
Definition requests : list request := [
  RInsertAttachment 5 "p1" "a1" (code "code");
  RInsertAttachment 5 "p2" "a2" (code "docs");
  RInsert 6 "p2" "f1" (sums 1 ["a1"; "a2"]);
  RInsert 7 "p3" "f2" (sums 1 []);
  RGetAttachment "a1";
  RGet backwards (MkSFunctionId "sum" 2%N);
  asked].
Definition after (n : nat) : MemoryStorage * Db :=
  foldl (fun s r => ((in_memory r s.1).1, (in_postgres r s.2).1)) (memory_storage_new, empty_db) (take n requests).

Lemma sums_storable v ids : (v < 2 ^ 31)%N -> storable (sums v ids).
Proof.
  intros Hv. constructor; cbn [sums sf_name sf_version sf_required_inputs sf_optional_inputs sf_outputs sf_runtime
    sf_publisher rs_name rs_entrypoint ada pub_name pub_email].
  - reflexivity.
  - unfold version_fits. cbn [v_major v_minor v_patch v_pre v_build major_fields].
    apply N.ltb_lt in Hv. rewrite Hv. reflexivity.
  - by apply map_Forall_singleton.
  - apply map_Forall_empty.
  - apply map_Forall_empty.
  - by split.
  - by split.
Qed.
Example refused_and_missing :
  (in_postgres (RInsert 7 "p3" "f2" (sums 1 [])) (after 3).2).2 = Err (PgError (VersionExists "sum" 1%N)) /\
  is_ok (in_postgres (RGet backwards (MkSFunctionId "sum" 2%N)) (after 5).2).2 = false.
Proof. split; vm_compute; reflexivity. Qed.

Definition one : MemoryStorage := (insert 0 (sums 1 []) memory_storage_new).1.
Definition one_db : Db := (pg_insert 0 "p1" "f1" (sums 1 []) empty_db).1.
Lemma one_simulates : simulates one one_db.
Proof.
  destruct (insert_run (UL := Concrete.text_uuid) memory_storage_new empty_db 0 "p1" "f1" (sums 1 []) simulates_empty) as (ms & db & r & H1 & H2 & Hs).
  - by apply sums_storable.
  - constructor.
  - constructor.
  - by apply not_elem_of_nil.
  - by apply not_elem_of_nil.
  - unfold one, one_db. rewrite H1, H2. exact Hs.
Qed.
Lemma oversized_version_collides_witness :
  is_ok (pg_get in_order (MkSFunctionId "sum" 4294967297%N) one_db).2 = true /\
  (pg_insert 9 "p2" "f2" (sums 4294967297 []) one_db).2 = Err (PgError (VersionExists "sum" 4294967297%N)).
Proof.
  destruct (oversized_version_collides (UL := Concrete.text_uuid) in_order one one_db (sums 1 []) 4294967297%N 1 9 "p2" "f2"
    (fun _ _ => reflexivity _) one_simulates (sums_storable 1 [] eq_refl)) as (_ & (g & Hget & _) & Hins); try reflexivity.
  - vm_compute. intros H. apply elem_of_cons in H as [H|H]; [discriminate H|]. by apply elem_of_nil in H.
  - split; [|exact Hins]. change (sf_name (sums 1 [])) with "sum" in Hget. by rewrite Hget.
Defined.
Lemma duplicate_attachment_refused_witness :
  (pg_insert 0 "p1" "f1" (sums 1 ["a1"; "a1"]) empty_db).2 = Err (PgError (VersionExists "sum" 1%N)).
Proof.
  refine (proj1 (proj2 (duplicate_attachment_refused (UL := Concrete.text_uuid) in_order memory_storage_new empty_db (sums 1 ["a1"; "a1"]) 0 "p1" "f1"
    (fun _ _ => reflexivity _) simulates_empty (sums_storable 1 _ eq_refl) _ eq_refl _ _))).
  - intros H. apply NoDup_cons in H as [H _]. apply H. by left.
  - by apply not_elem_of_nil.
  - by apply not_elem_of_nil.
Defined.
(** A version number of 2^31 is stored, but neither its registration nor its
    lookup can be answered. *)
Example large_version_unreadable :
  let db := (pg_insert 0 "p1" "f1" (sums 2147483648 []) empty_db) in
  is_ok db.2 = false /\ length (db_functions db.1) = 1 /\
  is_ok (pg_get in_order (MkSFunctionId "sum" 2147483648%N) db.1).2 = false /\
  is_ok (pg_list in_order (MkSFilters EmptyString None None ∅ EmptyString) db.1).2 = false.
Proof. vm_compute. done. Qed.
(** A filter with an underscore matches any character there. *)
Example underscore_is_a_wildcard :
  match (pg_list in_order (MkSFilters "s_m" None None ∅ EmptyString) one_db).2 with Ok l => length l | Err _ => 0 end = 1.
Proof. vm_compute. reflexivity. Qed.
End Ledger.
