(* ===== verification/QuinnConfig.v ===== *)
(** * Quinn's configuration (services/quinn/src/config.rs) and start (main.rs)

    A configuration names its secrets in its texts, as [{{type:value}}];
    [resolve_secrets] replaces each by what the resolver of its type answers, and
    [GcpSecretResolver] asks Google's services for it.  [start] is the start of the
    service up to the point where it listens.

    The [config] crate with its sources, HTTP, base64 and the serialisation of form
    data are classes; an effect is a request made, kept in the state ([list
    Request]), and what is answered may depend on the requests before.  The
    regular expression is the scanner [secret_match] over the characters of a text;
    its classes of white space and word characters have no character in common with
    each other or with the delimiters, so matching never goes back. *)
From S2P Require Import Prelude Interfaces Json Proto Regex Registry RegistryApi Text WasmMemory Quinn.
From stdpp Require Import pretty.
From Stdlib Require Import Ascii.

(** ** Errors *)
Inductive SecretResolveError :=
| SecretGeneric (message : string)
| FailedToFindResolver (type_ : string)
| FailedToResolveValue (value type_ message : string).

(** ** Secrets in a text *)
Record Captures := MkCaptures { cp_whole : list string; cp_type : list string; cp_value : list string }.

(** [Regex::replace]'s expansion of [$name] in the replacement, which leaves a text
    without a dollar sign alone. *)
Class RegexExpand := {
  regex_expand : string -> Captures -> string;
  expand_plain : forall r c, Forall (fun a => N_of_ascii a <> 36%N) (chars r) -> regex_expand r c = r
}.
(** [url::form_urlencoded::byte_serialize] *)
Definition form_char (c : ascii) : bool :=
  alnum c || in_range 65 90 c || bool_decide (c ∈ ["*"; "-"; "."; "_"; "+"; "%"]%char).
Class FormUrlencoded := {
  byte_serialize : list byte -> string;
  byte_serialize_chars : forall l, forallb form_char (chars (byte_serialize l)) = true
}.

(** A resolver of the type [sr_prefix]. *)
Record SecretResolver (W : Type) := MkResolver {
  sr_prefix : string;
  sr_resolve : string -> sem W SecretResolveError string
}.
Arguments MkResolver {W} _ _.
Arguments sr_prefix {W} _.
Arguments sr_resolve {W} _ _.

Section secrets.
Context {UT : UnicodeTables} {RE : RegexExpand} {FU : FormUrlencoded}.

Definition config_space (c : string) : bool := is_space (char_code c).
Definition word_char (c : string) : bool := is_word (char_code c).
(** [\w\.\-\?\&/_=] *)
Definition value_char (c : string) : bool :=
  word_char c || is_char 46 c || is_char 45 c || is_char 63 c || is_char 38 c || is_char 47 c || is_char 95 c || is_char 61 c.
(** One or more characters. *)
Definition some_of (p : string -> bool) (l : list string) : option (list string * list string) :=
  match span p l with ([], _) => None | (a, b) => Some (a, b) end.
Definition exactly (n : N) (l : list string) : option (list string) :=
  match l with c :: l => if is_char n c then Some l else None | [] => None end.
(** [\{\{\s*(?P<type>\w+):(?P<value>[\w\.\-\?\&/_=]+)\s*\}\}] at the start of a
    text: the captures and what follows. *)
Definition secret_match (l : list string) : option (Captures * list string) :=
  l1 ← exactly 123 l;
  l2 ← exactly 123 l1;
  '(type_, l3) ← some_of word_char (drop_while config_space l2);
  l4 ← exactly 58 l3;
  '(value, l5) ← some_of value_char l4;
  l6 ← exactly 125 (drop_while config_space l5);
  l7 ← exactly 125 l6;
  Some (MkCaptures (take (length l - length l7) l) type_ value, l7).
(** The first match in a text, with what is before and after it. *)
Fixpoint find_secret (l : list string) : option (list string * Captures * list string) :=
  match secret_match l with
  | Some (c, rest) => Some ([], c, rest)
  | None =>
      match l with
      | [] => None
      | x :: l => '(before, c, rest) ← find_secret l; Some (x :: before, c, rest)
      end
  end.
(** [captures_iter]; [fuel] is the number of characters. *)
Fixpoint captures_iter (fuel : nat) (l : list string) : list Captures :=
  match fuel, find_secret l with
  | S fuel, Some (_, c, rest) => c :: captures_iter fuel rest
  | _, _ => []
  end.
Definition captures_of (l : list string) : list Captures := captures_iter (length l) l.
(** [Regex::replace]: the first match of the text. *)
Definition regex_replace (acc : list string) (replacement : string) : list string :=
  match find_secret acc with
  | Some (before, c, after) => before ++ str_chars (regex_expand replacement c) ++ after
  | None => acc
  end.

Context {W : Type}.
Fixpoint try_fold_sem {A B} (f : A -> B -> sem W SecretResolveError A) (a : A) (l : list B) : sem W SecretResolveError A :=
  match l with
  | [] => mret a
  | b :: l => a ← f a b; try_fold_sem f a l
  end.
(** What a secret stands for. *)
Definition secret_of (resolvers : list (SecretResolver W)) (c : Captures) : sem W SecretResolveError string :=
  let t := str_of_chars (cp_type c) in
  resolver ← sem_lift (ok_or (FailedToFindResolver t) (snd <$> list_find (fun r => sr_prefix r = t) resolvers));
  sr_resolve resolver (str_of_chars (cp_value c)).
Definition as_replacement (is_uri : bool) (real_value : string) : string :=
  if is_uri then byte_serialize (bytes_of real_value) else real_value.
Definition resolve_step (resolvers : list (SecretResolver W)) (is_uri : bool) (acc : list string) (c : Captures)
  : sem W SecretResolveError (list string) :=
  real_value ← secret_of resolvers c;
  mret (regex_replace acc (as_replacement is_uri real_value)).
Definition resolve_secrets (content : string) (resolvers : list (SecretResolver W)) (is_uri : bool)
  : sem W SecretResolveError string :=
  let l := str_chars content in
  acc ← try_fold_sem (resolve_step resolvers is_uri) l (captures_of l);
  mret (str_of_chars acc).
End secrets.

(** ** Google's secrets *)
Record GcpRequest := MkGcpRequest { gr_url : string; gr_headers : list (string * string) }.
(** What [error_for_status] says of a response, and its body as JSON. *)
Record GcpResponse := MkGcpResponse { gs_status_error : option string; gs_json : result string Value }.
Class Internet := {
  client_error : list GcpRequest -> option string;
  url_error : string -> option string;
  send_request : list GcpRequest -> GcpRequest -> result string GcpResponse;
  base64_decode : string -> result string (list byte);
  utf8_error_text : list byte -> string
}.
Section gcp.
Context {IN : Internet}.
#[local] Abbreviation gcp := (sem (list GcpRequest) SecretResolveError).

Definition gcp_prefix : string := "gcp".
Definition create_resolve_error (message value : string) : SecretResolveError := FailedToResolveValue value gcp_prefix message.
Definition failing {A} (value message : string) (o : option string) (k : gcp A) : gcp A :=
  match o with Some e => sem_lift (Err (create_resolve_error (message +:+ e) value)) | None => k end.
Definition sent (request : GcpRequest) : sem (list GcpRequest) string GcpResponse :=
  fun log => (log ++ [request], send_request log request).
Definition gcp_map_err {E A} (f : E -> SecretResolveError) (c : sem (list GcpRequest) E A) : gcp A :=
  fun log => let '(log, r) := c log in (log, map_err f r).
(** A client, the url, the request, its status and its body, with the messages for
    each that fails. *)
Definition fetch_json (request : GcpRequest) (value client url_message obtain parse : string) : gcp Value :=
  log ← sem_ask Ok;
  failing value client (client_error log)
    (failing value url_message (url_error (gr_url request))
      (response ← gcp_map_err (fun e => create_resolve_error (obtain +:+ e) value)
         (response ← sent request;
          sem_lift (match gs_status_error response with Some e => Err e | None => Ok response end));
       sem_lift (map_err (fun e => create_resolve_error (parse +:+ e) value) (gs_json response)))).
(** [Value::get] *)
Definition json_get (v : Value) (k : string) : option Value := m ← object_of v; object_map m !! k.

Definition token_url : string :=
  "http://metadata.google.internal/computeMetadata/v1/instance/service-accounts/default/token?scopes=https://www.googleapis.com/auth/cloud-platform".
Definition token_request : GcpRequest := MkGcpRequest token_url [("Metadata-Flavor", "Google")].
Definition get_access_token : gcp string :=
  json ← fetch_json token_request EmptyString
    "Failed to create client to get gcp auth token: "
    "Failed parse gcp auth token url: "
    "Failed to obtain auth token from google apis: "
    "Failed to parse auth json payload from google apis: ";
  data ← sem_lift (ok_or (create_resolve_error "Failed to get data field from google apis auth request" EmptyString)
                     (json_get json "access_token"));
  sem_lift (ok_or (create_resolve_error "Failed to get access_token field from google apis auth token request to string" EmptyString)
              (value_as_str data)).

Definition secret_url (content : string) : string :=
  "https://secretmanager.googleapis.com/v1/" +:+ content +:+ ":access".
Definition secret_request (content access_token : string) : GcpRequest :=
  MkGcpRequest (secret_url content) [("Authorization", "Bearer " +:+ access_token)].
(** The secret in an answer. *)
Definition secret_in (content : string) (json : Value) : result SecretResolveError string :=
  let fail message := create_resolve_error message content in
  payload ← ok_or (fail "Failed to get payload field from google apis secret request") (json_get json "payload");
  data ← ok_or (fail "Failed to get data field from google apis secret request") (json_get payload "data");
  data ← ok_or (fail "Failed to get data field from google apis secret request to string") (value_as_str data);
  base64_content ← map_err (fun e => fail ("Failed to base64 decode secret from google apis secret request: " +:+ e)) (base64_decode data);
  map_err (fun _ => fail ("Failed to parse base64 content secret as string: " +:+ utf8_error_text base64_content)) (from_utf8 base64_content).
Definition gcp_resolve (content : string) : gcp string :=
  access_token ← get_access_token;
  json ← fetch_json (secret_request content access_token) content
    "Failed to create client to get gcp secret: "
    "Failed parse gcp secrets url: "
    "Failed to obtain secret from google apis: "
    "Failed to parse secret json payload from google apis: ";
  sem_lift (secret_in content json).
Definition GcpSecretResolver : SecretResolver (list GcpRequest) := MkResolver gcp_prefix gcp_resolve.
End gcp.

(** ** The configuration *)
Definition default_port : N := 50051.
Definition default_storage_uri : string := "memory://".
Record Configuration := MkConfiguration {
  functions_storage_uri : string; port : N; attachment_storage_uri : string }.
(** The values the [config] crate finds in its sources, and what they are as a
    text and as a [u64]. *)
Class ConfigCrate := {
  ConfigValue : Type;
  config_build : result string (gmap string ConfigValue);
  config_string : ConfigValue -> result string string;
  config_u64 : ConfigValue -> result string N
}.
Inductive ConfigError :=
| ConfigMessage (e : string)
| MissingField (name : string)
| Foreign (e : SecretResolveError).

Section config.
Context {UT : UnicodeTables} {RE : RegexExpand} {FU : FormUrlencoded} {IN : Internet} {CC : ConfigCrate}.

(** A field of the derived [Deserialize]: its value where there is one. *)
Definition config_field {A} (read : ConfigValue -> result string A) (values : gmap string ConfigValue) (name : string)
  : result ConfigError (option A) := map_err ConfigMessage (transpose (read <$> values !! name)).
(** Fields are read before one that is missing is reported. *)
Definition try_deserialize (values : gmap string ConfigValue) : result ConfigError Configuration :=
  functions ← config_field config_string values "functions_storage_uri";
  port ← config_field config_u64 values "port";
  attachments ← config_field config_string values "attachment_storage_uri";
  attachments ← ok_or (MissingField "attachment_storage_uri") attachments;
  Ok (MkConfiguration (default default_storage_uri functions) (default default_port port) attachments).
Definition resolved_uri (uri : string) : sem (list GcpRequest) ConfigError string :=
  fun log => let '(log, r) := resolve_secrets uri [GcpSecretResolver] true log in (log, map_err Foreign r).
Definition new_with_init : sem (list GcpRequest) ConfigError Configuration :=
  config ← sem_lift (values ← map_err ConfigMessage config_build; try_deserialize values);
  functions ← resolved_uri (functions_storage_uri config);
  attachments ← resolved_uri (attachment_storage_uri config);
  mret (MkConfiguration functions (port config) attachments).
End config.

(** ** Starting *)

Inductive StartError :=
| ConfigurationError (e : ConfigError)
| InvalidSocketAddress
| ServiceError (message : string).

(** [str::parse::<SocketAddr>] of [0.0.0.0:] and a port: digits, at most 65535. *)
Definition parse_port (s : string) : option N :=
  let l := chars s in
  if forallb digit l && negb (bool_decide (l = [])) then
    let n := foldl (fun v c => v * 10 + (N_of_ascii c - 48))%N 0%N l in
    if (n <=? 65535)%N then Some n else None
  else None.

Section start.
Context {UT : UnicodeTables} {RE : RegexExpand} {FU : FormUrlencoded} {IN : Internet} {CC : ConfigCrate}.
Context {SV : SemVer} {UL : UuidLib} {URL : UrlLib}.
Variable parse : string -> result string BaseUrl.
Context {D : Type}.
(** The storage of functions a service works on: [postgres.rs] connects to the
    database of the url. *)
Inductive FunctionBackend := MemoryBackend (m : MemoryStorage) | PostgresBackend (d : D).
Record Service := MkService { sv_functions : FunctionBackend; sv_attachments : AttachmentStorage }.
(** [PostgresStorage::new_with_init] *)
Variable postgres_new : BaseUrl -> result StorageError D.
(** The environment variable [PORT]. *)
Variable env_port : option string.

Definition create_storage (uri : string) : result StorageError (FunctionBackend) :=
  uri ← map_err InvalidUri (parse uri);
  let scheme := url_scheme (bu_url uri) in
  if bool_decide (scheme = "memory") then Ok (MemoryBackend memory_storage_new)
  else if bool_decide (scheme ∈ ["postgres"; "postgresql"]) then PostgresBackend <$> postgres_new uri
  else Err (UnsupportedStorage scheme).
Definition service_new (config : Configuration) : result string Service :=
  functions ← map_err (fun e => "Failed to create storage backend: " +:+ display_storage_error e)
                (create_storage (functions_storage_uri config));
  attachments ← map_err (fun e => "Failed to create attachment storage backed! " +:+ display_storage_error e)
                  (create_attachment_storage parse (attachment_storage_uri config));
  Ok (MkService functions attachments).
(** [run] until it serves, at the port it gives. *)
Definition start : sem (list GcpRequest) StartError (N * Service) :=
  fun log =>
    let '(log, r) := new_with_init log in
    (log, config ← map_err ConfigurationError r;
          addr ← ok_or InvalidSocketAddress (parse_port (default (pretty (port config)) env_port));
          svc ← map_err ServiceError (service_new config);
          Ok (addr, svc)).
End start.
