(* ===== verification/QuinnConfigProps.v ===== *)
(** * Properties of Quinn's configuration and start

    The secrets of a text are replaced in place and once each
    ([resolve_secrets_fills]) as long as no brace stands outside of them, Google is
    asked for a secret only with the token it gave before ([gcp_asks_with_token]),
    and where the service listens ([start_port]). *)
From S2P Require Import Prelude Interfaces Json Proto Regex Registry RegistryApi Text WasmMemory Quinn QuinnConfig.
From stdpp Require Import pretty.
From Stdlib Require Import Ascii.

(** ** Texts *)
Lemma span_app p l a b : span p l = (a, b) -> l = a ++ b.
Proof.
  revert a b. induction l as [|c l IH]; intros a b; cbn; [by intros [= <- <-]|].
  destruct (p c); [|by intros [= <- <-]]. destruct (span p l) as [a' b']. intros [= <- <-]. cbn. by rewrite <- (IH _ _ eq_refl).
Qed.
Lemma drop_while_suffix p l : exists a, l = a ++ drop_while p l.
Proof. unfold drop_while. destruct (span p l) as [a b] eqn:H. exists a. by apply span_app in H. Qed.
Lemma ascii_chars_list (l : list ascii) :
  Forall (fun c => in_range 128 191 c = false) l ->
  str_chars (String.string_of_list_ascii l) = (fun c => String c EmptyString) <$> l.
Proof.
  intros H. unfold str_chars. assert (grouped (String.string_of_list_ascii l) = (EmptyString, (fun c => String c EmptyString) <$> l)) as ->; [|done].
  induction H as [|c l Hc H IH]; [done|]. cbn [String.string_of_list_ascii grouped]. by rewrite IH, Hc.
Qed.
Lemma form_chars_ascii l : forallb form_char l = true ->
  Forall (fun c => in_range 128 191 c = false /\ N_of_ascii c <> 36%N /\ N_of_ascii c <> 123%N) l.
Proof.
  rewrite forallb_forall. intros H. apply Forall_forall. intros c Hc%list_elem_of_In. specialize (H c Hc).
  revert H. clear. destruct c as [[] [] [] [] [] [] [] []]; vm_compute; intros H; try discriminate H; split_and!; (reflexivity || discriminate).
Qed.

Section secrets.
Context {UT : UnicodeTables} {RE : RegexExpand} {FU : FormUrlencoded}.

(** ** Matches *)
Lemma exactly_suffix n l l' : exactly n l = Some l' -> exists c, l = [c] ++ l' /\ is_char n c = true.
Proof. destruct l as [|c l]; cbn; [done|]. destruct (is_char n c) eqn:H; [|done]. intros [= <-]. eauto. Qed.
Lemma some_of_suffix p l a b : some_of p l = Some (a, b) -> l = a ++ b.
Proof. unfold some_of. destruct (span p l) as [[|x a'] b'] eqn:H; intros [= <- <-]. by apply span_app in H. Qed.
Lemma secret_match_whole l c rest : secret_match l = Some (c, rest) -> l = cp_whole c ++ rest /\ length rest < length l.
Proof.
  unfold secret_match. intros H.
  destruct (exactly 123 l) as [l1|] eqn:H1; [|done]. cbn in H. destruct (exactly 123 l1) as [l2|] eqn:H2; [|done]. cbn in H.
  destruct (some_of word_char _) as [[t l3]|] eqn:H3; [|done]. cbn in H. destruct (exactly 58 l3) as [l4|] eqn:H4; [|done]. cbn in H.
  destruct (some_of value_char l4) as [[v l5]|] eqn:H5; [|done]. cbn in H.
  destruct (exactly 125 (drop_while config_space l5)) as [l6|] eqn:H6; [|done]. cbn in H.
  destruct (exactly 125 l6) as [l7|] eqn:H7; [|done]. cbn in H. injection H as <- <-. cbn [cp_whole].
  assert (exists a, l = a ++ l7 /\ 0 < length a) as (a & -> & Ha).
  { apply exactly_suffix in H1 as (c1 & -> & _), H2 as (c2 & -> & _), H4 as (c4 & -> & _), H6 as (c6 & H6 & _), H7 as (c7 & -> & _).
    apply some_of_suffix in H3, H5. destruct (drop_while_suffix config_space l2) as [s2 E2], (drop_while_suffix config_space l5) as [s5 E5].
    rewrite H3 in E2. rewrite H6 in E5. subst. eexists ([c1] ++ [c2] ++ s2 ++ t ++ [c4] ++ v ++ s5 ++ [c6] ++ [c7]).
    split; [by rewrite <- !app_assoc|cbn; lia]. }
  rewrite length_app, Nat.add_sub, take_app_length. split; [done|lia].
Qed.
Lemma find_secret_parts l before c rest :
  find_secret l = Some (before, c, rest) -> l = before ++ cp_whole c ++ rest /\ length rest < length l.
Proof.
  revert before. induction l as [|x l IH]; intros before H; [done|]. cbn [find_secret] in H.
  destruct (secret_match (x :: l)) as [[c' rest']|] eqn:Hm.
  - injection H as <- <- <-. by apply secret_match_whole in Hm.
  - destruct (find_secret l) as [[[b c'] r]|]; [|done]. cbn in H. injection H as <- <- <-.
    destruct (IH b eq_refl) as [Hl Hlen]. split; [by rewrite Hl at 1|cbn; lia].
Qed.
Definition no_brace (l : list string) : Prop := Forall (fun c => is_char 123 c = false) l.
Lemma find_secret_app d l : no_brace d -> find_secret (d ++ l) = '(b, c, r) ← find_secret l; Some (d ++ b, c, r).
Proof.
  induction 1 as [|x d Hx Hd IH]; cbn [app]; [by destruct (find_secret l) as [[[b c] r]|]|].
  cbn [find_secret]. assert (secret_match (x :: d ++ l) = None) as ->.
  { unfold secret_match. cbn [exactly]. by rewrite Hx. }
  rewrite IH. by destruct (find_secret l) as [[[b c] r]|].
Qed.

(** ** The reference *)

(** A text as its secrets, each with what is before it, and what is after the
    last. *)
Fixpoint template (fuel : nat) (l : list string) : list (list string * Captures) * list string :=
  match fuel, find_secret l with
  | S fuel, Some (before, c, rest) => let '(ps, tail) := template fuel rest in ((before, c) :: ps, tail)
  | _, _ => ([], l)
  end.
Definition template_of (content : string) := let l := str_chars content in template (length l) l.
Definition text_of (ps : list (list string * Captures)) (tail : list string) : list string :=
  concat ((fun p => p.1 ++ cp_whole p.2) <$> ps) ++ tail.
Context {W : Type}.
Fixpoint fill (resolvers : list (SecretResolver W)) (out : list string) (ps : list (list string * Captures)) (tail : list string)
  : sem W SecretResolveError (list string) :=
  match ps with
  | [] => mret (out ++ tail)
  | (before, c) :: ps =>
      real_value ← secret_of resolvers c;
      fill resolvers (out ++ before ++ str_chars (byte_serialize (bytes_of real_value))) ps tail
  end.

Lemma template_captures fuel l : captures_iter fuel l = (template fuel l).1.*2.
Proof.
  revert l. induction fuel as [|fuel IH]; intros l; [done|]. cbn [captures_iter template].
  destruct (find_secret l) as [[[b c] r]|]; [|done]. rewrite IH. by destruct (template fuel r).
Qed.
Lemma template_text fuel l : length l <= fuel ->
  text_of (template fuel l).1 (template fuel l).2 = l /\ find_secret (template fuel l).2 = None.
Proof.
  revert l. induction fuel as [|fuel IH]; intros l Hl.
  - destruct l; [done|cbn in Hl; lia].
  - cbn [template]. destruct (find_secret l) as [[[b c] r]|] eqn:H; [|done].
    destruct (find_secret_parts _ _ _ _ H) as [Hp Hlen]. destruct (IH r ltac:(lia)) as [Ht Hn].
    destruct (template fuel r) as [ps tail]. cbn [fst snd] in *. split; [|done].
    unfold text_of in *. rewrite fmap_cons. cbn [concat fst snd]. by rewrite <- !app_assoc, Ht, <- Hp.
Qed.
Lemma serialized_plain l c :
  no_brace (str_chars (byte_serialize l)) /\ regex_expand (byte_serialize l) c = byte_serialize l.
Proof.
  pose proof (form_chars_ascii _ (byte_serialize_chars l)) as H. split.
  - unfold no_brace. rewrite <- (String.string_of_list_ascii_of_string (byte_serialize l)), ascii_chars_list.
    + apply Forall_fmap. eapply Forall_impl; [exact H|]. intros a (_ & _ & Ha). unfold compose, is_char, char_code.
      by destruct (N_of_ascii a <? 128)%N eqn:E; cbn; apply N.eqb_neq; [|revert Ha E; destruct a as [[] [] [] [] [] [] [] []]; vm_compute].
    + eapply Forall_impl; [exact H|]. by intros a (Ha & _).
  - apply expand_plain. eapply Forall_impl; [exact H|]. by intros a (_ & Ha & _).
Qed.
Lemma resolve_step_run (resolvers : list (SecretResolver W)) acc c log :
  resolve_step resolvers true acc c log =
    match secret_of resolvers c log with
    | (log', Ok real) => (log', Ok (regex_replace acc (byte_serialize (bytes_of real))))
    | (log', Err e) => (log', Err e)
    end.
Proof. done. Qed.
Lemma resolve_fold (resolvers : list (SecretResolver W)) fuel d l log :
  no_brace d -> no_brace (concat (template fuel l).1.*1) ->
  try_fold_sem (resolve_step resolvers true) (d ++ l) (captures_iter fuel l) log =
  fill resolvers d (template fuel l).1 (template fuel l).2 log.
Proof.
  revert d l log. induction fuel as [|fuel IH]; intros d l log Hd Hb; [done|]. cbn [captures_iter template] in *.
  destruct (find_secret l) as [[[b c] r]|] eqn:Hf; [|done].
  destruct (template fuel r) as [ps tail] eqn:Ht. cbn [fst snd] in *. rewrite fmap_cons in Hb. cbn [concat fst] in Hb.
  apply Forall_app in Hb as [Hb Hps]. cbn [try_fold_sem fill]. cbv [mbind sem_bind]. rewrite resolve_step_run.
  destruct (secret_of resolvers c log) as [log' [real|e]]; [|done].
  unfold regex_replace. rewrite find_secret_app, Hf by done. cbn [mbind option_bind].
  destruct (serialized_plain (bytes_of real) c) as [Hs ->].
  replace ((d ++ b) ++ str_chars (byte_serialize (bytes_of real)) ++ r)
    with ((d ++ b ++ str_chars (byte_serialize (bytes_of real))) ++ r) by (by rewrite <- !app_assoc).
  specialize (IH (d ++ b ++ str_chars (byte_serialize (bytes_of real))) r log'). rewrite Ht in IH.
  apply IH; [|done]. unfold no_brace. by repeat apply Forall_app_2.
Qed.

(** Secrets are filled in where they stand.  The text of a configuration is its
    secrets and what is between them; where no opening brace stands between them,
    resolving puts the form-serialised value of each secret in its place, asking for
    the secrets in order, once per occurrence, and the first that fails is the error; the text
    after the last one has no secret. *)
Theorem resolve_secrets_fills (resolvers : list (SecretResolver W)) content log :
  let '(ps, tail) := template_of content in
  text_of ps tail = str_chars content /\ find_secret tail = None /\
  (no_brace (concat ps.*1) ->
   resolve_secrets content resolvers true log = (l ← fill resolvers [] ps tail; mret (str_of_chars l)) log).
Proof.
  unfold template_of. pose proof (template_text (length (str_chars content)) (str_chars content) ltac:(done)) as [Ht Hn].
  pose proof (resolve_fold resolvers (length (str_chars content)) [] (str_chars content) log (Forall_nil_2 _)) as Hf.
  destruct (template (length (str_chars content)) (str_chars content)) as [ps tail]. cbn [fst snd] in *.
  split_and!; [done..|]. intros Hb. unfold resolve_secrets, captures_of. cbv [mbind sem_bind]. rewrite <- (Hf Hb). done.
Qed.
Lemma resolve_none (resolvers : list (SecretResolver W)) is_uri content log :
  find_secret (str_chars content) = None ->
  resolve_secrets content resolvers is_uri log = (log, Ok (str_of_chars (str_chars content))).
Proof.
  intros H. unfold resolve_secrets, captures_of. destruct (length (str_chars content)) as [|n]; cbn [captures_iter]; [done|]. by rewrite H.
Qed.
End secrets.

(** ** Google's secrets *)
Section gcp.
Context {IN : Internet}.

Lemma fetch_json_requests request value client url obtain parse log :
  let '(log', r) := fetch_json request value client url obtain parse log in
  (log' = log /\ is_ok r = false) \/ log' = log ++ [request].
Proof.
  unfold fetch_json, failing, gcp_map_err, sent, sem_ask, sem_lift. cbv [mbind sem_bind].
  destruct (client_error log) as [e|]; [by left|]. destruct (url_error (gr_url request)) as [e|]; [by left|].
  destruct (send_request log request) as [response|e]; cbn; [|by right].
  destruct (gs_status_error response); cbn; by right.
Qed.
Lemma get_access_token_requests log :
  let '(log', r) := get_access_token log in (log' = log /\ is_ok r = false) \/ log' = log ++ [token_request].
Proof.
  unfold get_access_token. cbv [mbind sem_bind]. pose proof (fetch_json_requests token_request EmptyString
    "Failed to create client to get gcp auth token: " "Failed parse gcp auth token url: "
    "Failed to obtain auth token from google apis: " "Failed to parse auth json payload from google apis: " log) as H.
  destruct (fetch_json _ _ _ _ _ _ log) as [log' [json|e]]; [|by destruct H as [[-> _]| ->]; auto].
  destruct H as [[_ H]| ->]; [done|]. unfold sem_lift. destruct (json_get json "access_token") as [d|]; cbn; by right.
Qed.

(** Google is asked for a secret only with the token it has just given.  Resolving
    makes no request or asks for a token; only when a token was given does it ask for
    the secret, once, with this token, and a value is only what that answer holds. *)
Theorem gcp_asks_with_token content log :
  let '(log', r) := gcp_resolve content log in
  match (get_access_token log).2 with
  | Err e => r = Err e /\ (log' = log \/ log' = log ++ [token_request])
  | Ok token =>
      (log' = log ++ [token_request] /\ is_ok r = false) \/
      (log' = log ++ [token_request; secret_request content token] /\
       forall value, r = Ok value -> exists response json,
         send_request (log ++ [token_request]) (secret_request content token) = Ok response /\
         gs_status_error response = None /\ gs_json response = Ok json /\ secret_in content json = Ok value)
  end.
Proof.
  pose proof (get_access_token_requests log) as Ht. unfold gcp_resolve. cbv [mbind sem_bind].
  destruct (get_access_token log) as [log1 [token|e]]; cbn [snd]; [|by destruct Ht as [[-> _]| ->]; auto].
  destruct Ht as [[_ H]| ->]; [done|].
  unfold fetch_json, failing, gcp_map_err, sent, sem_ask, sem_lift. cbv [mbind sem_bind].
  destruct (client_error _) as [e|]; cbn; [by left|]. destruct (url_error _) as [e|]; cbn; [by left|].
  destruct (send_request (log ++ [token_request]) (secret_request content token)) as [response|e] eqn:Hs;
    [|cbn; right; rewrite <- app_assoc; split; [done|by intros value [=]]].
  destruct (gs_status_error response) eqn:He; cbn; rewrite ?He; cbn; [right; rewrite <- app_assoc; split; [done|by intros value [=]]|].
  destruct (gs_json response) as [json|e] eqn:Hj; cbn; rewrite ?Hj; cbn; right; rewrite <- app_assoc; (split; [done|]); intros value H; [|done].
  by exists response, json.
Qed.
End gcp.

(** ** Starting *)
Lemma parse_port_pretty n : parse_port (pretty n) = if (n <=? 65535)%N then Some n else None.
Proof.
  destruct (decide (n = 0)%N) as [->|Hn]; [reflexivity|].
  assert (pretty n = pretty_N_go n "") as -> by (unfold pretty, pretty_N; by rewrite decide_False).
  destruct (pretty_go_chars n EmptyString ltac:(lia)) as (l & Hl & Hne & Hd & Hv). unfold parse_port. rewrite Hl, app_nil_r, Hd.
  rewrite bool_decide_eq_false_2 by done. cbn [andb negb]. unfold decimal_value in Hv. by rewrite Hv.
Qed.

Section start.
Context {UT : UnicodeTables} {RE : RegexExpand} {FU : FormUrlencoded} {IN : Internet} {CC : ConfigCrate}.
Context {SV : SemVer} {UL : UuidLib} {URL : UrlLib}.
Variable parse : string -> result string BaseUrl.
Context {D : Type}.
Variable postgres_new : BaseUrl -> result StorageError D.

(** The configuration a service starts with, without secrets in it. *)
Definition configured (values : gmap string ConfigValue) (functions : option string) (p : option N) (attachments : string) : Prop :=
  config_build = Ok values /\
  transpose (config_string <$> values !! "functions_storage_uri") = Ok functions /\
  transpose (config_u64 <$> values !! "port") = Ok p /\
  transpose (config_string <$> values !! "attachment_storage_uri") = Ok (Some attachments) /\
  find_secret (str_chars (default default_storage_uri functions)) = None /\ find_secret (str_chars attachments) = None.
Definition plain_uri (uri : string) : string := str_of_chars (str_chars uri).
Lemma configured_new values functions p attachments log :
  configured values functions p attachments ->
  new_with_init log = (log, Ok (MkConfiguration (plain_uri (default default_storage_uri functions)) (default default_port p) (plain_uri attachments))).
Proof.
  intros (Hb & Hf & Hp & Ha & Hsf & Hsa). unfold new_with_init, resolved_uri, sem_lift. cbv [mbind sem_bind].
  rewrite Hb. cbn [map_err mbind result_bind]. unfold try_deserialize, config_field. rewrite Hf, Hp, Ha.
  cbn [map_err mbind result_bind ok_or functions_storage_uri port attachment_storage_uri].
  rewrite (resolve_none _ _ _ _ Hsf). cbn [map_err]. by rewrite (resolve_none _ _ _ _ Hsa).
Qed.

(** Where Quinn starts to listen.  Without secrets in the configuration and
    without the variable PORT, a service is started at the configured port,
    50051 by default, on the storages of the configured addresses, in memory by
    default, and asks nobody; any port above 65535, which the configuration accepts,
    is an invalid address, before a storage is opened. *)
Theorem start_port values functions p attachments log :
  configured values functions p attachments ->
  start parse postgres_new None log =
    (log, if (default default_port p <=? 65535)%N then
            svc ← map_err ServiceError (service_new parse postgres_new
              (MkConfiguration (plain_uri (default default_storage_uri functions)) (default default_port p) (plain_uri attachments)));
            Ok (default default_port p, svc)
          else Err InvalidSocketAddress).
Proof.
  intros H. unfold start. rewrite (configured_new _ _ _ _ _ H). cbn [map_err mbind result_bind port default].
  rewrite parse_port_pretty. by destruct (default default_port p <=? 65535)%N.
Qed.
End start.

(** ** A concrete configuration *)
Module ConfigExamples.
#[local] Existing Instance ascii_tables.
#[local] Instance no_expand : RegexExpand := {| regex_expand r _ := r; expand_plain r c _ := eq_refl |}.

Definition hex (n : N) : ascii := ascii_of_N (if n <? 10 then 48 + n else 55 + n)%N.
Definition form_byte (b : byte) : list ascii :=
  let c := ascii_of_byte b in
  let n := N_of_ascii c in
  if form_char c && negb (bool_decide (c ∈ ["+"; "%"]%char)) then [c]
  else if (n =? 32)%N then ["+"%char] else ["%"%char; hex (n / 16); hex (n mod 16)].
Lemma form_byte_chars b : forallb form_char (form_byte b) = true.
Proof. destruct b; vm_compute; reflexivity. Qed.
#[local] Instance form_data : FormUrlencoded.
Proof.
  refine {| byte_serialize l := String.string_of_list_ascii (l ≫= form_byte) |}.
  intros l. unfold chars. rewrite String.list_ascii_of_string_of_list_ascii.
  induction l as [|b l IH]; [done|]. rewrite bind_cons, forallb_app, IH, form_byte_chars. done.
Defined.

(** A metadata server with a token, and one secret behind it. *)
Definition answer (v : Value) : result string GcpResponse := Ok (MkGcpResponse None (Ok v)).
#[local] Instance cloud : Internet := {|
  client_error _ := None; url_error _ := None;
  send_request _ r :=
    if bool_decide (gr_url r = token_url) then answer (VObject [("access_token", VString "t")])
    else if bool_decide (gr_headers r = [("Authorization", "Bearer t")])
    then answer (VObject [("payload", VObject [("data", VString "a b@c")])])
    else Ok (MkGcpResponse (Some "403") (Ok VNull));
  base64_decode s := Ok (bytes_of s); utf8_error_text _ := "invalid utf-8" |}.

Definition uri : string := "postgres://quinn:{{ gcp:projects/p/secrets/s }}@db/quinn".
Lemma resolve_secrets_fills_witness :
  (resolve_secrets uri [GcpSecretResolver] true []).2 = Ok "postgres://quinn:a+b%40c@db/quinn".
Proof.
  pose proof (resolve_secrets_fills [GcpSecretResolver] uri []) as H.
  destruct (template_of uri) as [ps tail] eqn:E. destruct H as (_ & _ & H).
  assert (ps = (template_of uri).1 /\ tail = (template_of uri).2) as [-> ->] by (rewrite E; split; reflexivity).
  rewrite H; [vm_compute; reflexivity|]. apply Forall_forall. intros c Hc.
  assert (Forall (fun c => is_char 123 c = false) (concat (template_of uri).1.*1)) as Hall.
  { vm_compute. repeat constructor. }
  exact (proj1 (Forall_forall _ _) Hall c Hc).
Defined.

(** A brace outside of a secret: the value of the second secret goes into the first
    place that looks like one, and the second stays. *)
Definition mock_resolver : SecretResolver unit :=
  MkResolver "mock" (fun v => sem_lift (if bool_decide (v = "a") then Ok "A" else Ok "B")).
Example nested_secret_misplaced :
  (resolve_secrets "{{x:{{mock:a}}}}{{mock:b}}" [mock_resolver] true tt).2 = Ok "B{{mock:b}}".
Proof. vm_compute. reflexivity. Qed.

Lemma gcp_asks_with_token_witness :
  (gcp_resolve "projects/p/secrets/s" []).1 = [token_request; secret_request "projects/p/secrets/s" "t"] /\
  (gcp_resolve "projects/p/secrets/s" []).2 = Ok "a b@c" /\
  exists json, send_request [token_request] (secret_request "projects/p/secrets/s" "t") = Ok (MkGcpResponse None (Ok json)).
Proof.
  pose proof (gcp_asks_with_token "projects/p/secrets/s" []) as H.
  destruct (gcp_resolve "projects/p/secrets/s" []) as [log r] eqn:E.
  assert (r = Ok "a b@c") as -> by (transitivity (gcp_resolve "projects/p/secrets/s" []).2; [rewrite E; reflexivity|vm_compute; reflexivity]).
  assert ((get_access_token []).2 = Ok "t") as Ht by (vm_compute; reflexivity). rewrite Ht in H.
  destruct H as [[_ H]|[-> H]]; [discriminate H|]. destruct (H _ eq_refl) as ([status body] & json & H1 & H2 & H3 & _).
  cbn [gs_status_error gs_json] in H2, H3. subst. split; [reflexivity|]. split; [reflexivity|]. exists json. exact H1.
Defined.

#[local] Existing Instance Concrete.text_url.
#[local] Existing Instance Concrete.text_uuid.
#[local] Instance sources : ConfigCrate := {|
  ConfigValue := string + N; config_build := Ok {[ "attachment_storage_uri" := inl "gcs://bucket"; "port" := inr 65536%N ]};
  config_string v := match v with inl s => Ok s | inr _ => Err "invalid type" end;
  config_u64 v := match v with inr n => Ok n | inl _ => Err "invalid type" end |}.
Definition parse_base (s : string) : result string BaseUrl := (fun u => MkBaseUrl u false "/") <$> url_parse s.
Lemma start_port_witness :
  (start (SV := Concrete.text_semver) parse_base (fun _ => Err (ConnectionError "no database") : result StorageError unit)
    None []).2 = Err InvalidSocketAddress.
Proof.
  rewrite (start_port (SV := Concrete.text_semver) parse_base (fun _ => Err (ConnectionError "no database"))
    {[ "attachment_storage_uri" := inl "gcs://bucket"; "port" := inr 65536%N ]} None (Some 65536%N) "gcs://bucket" []).
  - reflexivity.
  - split_and!; reflexivity.
Defined.
End ConfigExamples.
