(* ===== verification/WinText.v ===== *)
(** * Text operations of the Windows installer library

    The string methods windows-install's registry.rs uses: splitting on a
    character, [lines], [ends_with], removing every occurrence of a text
    ([replace(pat, "")]) and [escape_default].  Strings are UTF-8 bytes. *)
From S2P Require Import Prelude.
From Stdlib Require Import Ascii.

Definition semicolon : ascii := ";"%char.
Definition backslash : ascii := ascii_of_nat 92.
Definition line_feed : ascii := ascii_of_nat 10.

(** [s.split(c)]: every piece, the empty ones included. *)
Fixpoint str_split (sep : ascii) (s : string) : list string :=
  match s with
  | EmptyString => [EmptyString]
  | String c s' =>
      if Ascii.eqb c sep then EmptyString :: str_split sep s'
      else match str_split sep s' with
           | piece :: rest => String c piece :: rest
           | [] => [String c EmptyString]
           end
  end.
(** [s.lines()]: no last line after a final line feed, and no carriage return
    before one. *)
Fixpoint drop_last_empty (l : list string) : list string :=
  match l with
  | [] => []
  | [s] => if str_is_empty s then [] else [s]
  | s :: l' => s :: drop_last_empty l'
  end.
Fixpoint strip_cr (s : string) : string :=
  match s with
  | EmptyString => EmptyString
  | String c EmptyString => if (N_of_ascii c =? 13)%N then EmptyString else s
  | String c s' => String c (strip_cr s')
  end.
Definition str_lines (s : string) : list string := strip_cr <$> drop_last_empty (str_split line_feed s).

Definition str_ends_with (pat s : string) : bool :=
  (str_len pat <=? str_len s) && String.eqb (String.substring (str_len s - str_len pat) (str_len pat) s) pat.

(** [s.replace(pat, "")] for a [pat] that is not empty: [skip] characters of an
    occurrence are still to be dropped. *)
Fixpoint remove_skipping (pat : string) (skip : nat) (s : string) : string :=
  match s with
  | EmptyString => EmptyString
  | String c s' =>
      match skip with
      | Datatypes.S skip => remove_skipping pat skip s'
      | 0 => if String.prefix pat s then remove_skipping pat (str_len pat - 1) s'
             else String c (remove_skipping pat 0 s')
      end
  end.
Definition str_remove (pat s : string) : string := remove_skipping pat 0 s.

(** ** [escape_default] *)
Definition hex_digit (n : N) : ascii := ascii_of_N (if (n <? 10)%N then 48 + n else 87 + n).
Fixpoint hex_from (fuel : nat) (n : N) (acc : string) : string :=
  match fuel with
  | 0 => acc
  | Datatypes.S fuel =>
      let acc := String (hex_digit (n mod 16)) acc in
      if (n <? 16)%N then acc else hex_from fuel (n / 16) acc
  end.
Definition to_hex (n : N) : string := hex_from 8 n EmptyString.
(** The code points of a text. *)
Definition continuation (n : N) (c : ascii) : N := (n * 64 + N_of_ascii c mod 64)%N.
Fixpoint code_points (s : string) : list N :=
  match s with
  | EmptyString => []
  | String c s' =>
      let n := N_of_ascii c in
      if (n <? 128)%N then n :: code_points s'
      else match s' with
           | String c1 s1 =>
               if (n <? 224)%N then continuation (n mod 32) c1 :: code_points s1
               else match s1 with
                    | String c2 s2 =>
                        if (n <? 240)%N then continuation (continuation (n mod 16) c1) c2 :: code_points s2
                        else match s2 with
                             | String c3 s3 =>
                                 continuation (continuation (continuation (n mod 8) c1) c2) c3 :: code_points s3
                             | EmptyString => []
                             end
                    | EmptyString => []
                    end
           | EmptyString => []
           end
  end.
Definition bs (s : string) : string := String backslash s.
Definition escape_char (n : N) : string :=
  if (n =? 9)%N then bs "t"
  else if (n =? 13)%N then bs "r"
  else if (n =? 10)%N then bs "n"
  else if (n =? 39)%N || (n =? 34)%N || (n =? 92)%N then bs (String (ascii_of_N n) EmptyString)
  else if (32 <=? n)%N && (n <=? 126)%N then String (ascii_of_N n) EmptyString
  else bs "u{" +:+ to_hex n +:+ "}".
Definition escape_default (s : string) : string := foldr (fun n acc => escape_char n +:+ acc) EmptyString (code_points s).

(** ** Lemmas *)
Definition lacks (c : ascii) (s : string) : bool := forallb (fun d => negb (Ascii.eqb d c)) (String.list_ascii_of_string s).

Lemma str_app_assoc a b c : (a +:+ b) +:+ c = a +:+ (b +:+ c).
Proof. induction a as [|x a IH]; [done|exact (f_equal (String x) IH)]. Qed.
Lemma str_app_nil a : a +:+ EmptyString = a.
Proof. induction a as [|x a IH]; [done|exact (f_equal (String x) IH)]. Qed.
Lemma str_len_app a b : str_len (a +:+ b) = str_len a + str_len b.
Proof. induction a as [|x a IH]; [done|exact (f_equal Datatypes.S IH)]. Qed.
Lemma str_app_inj a b b' : a +:+ b = a +:+ b' -> b = b'.
Proof. induction a as [|x a IH]; [done|]. intros H. injection H as H. by apply IH. Qed.

Lemma lacks_app c a b : lacks c (a +:+ b) = lacks c a && lacks c b.
Proof. induction a as [|x a IH]; [done|]. cbn. rewrite <- andb_assoc. exact (f_equal (andb _) IH). Qed.
Lemma lacks_cons c d s : lacks c (String d s) = negb (Ascii.eqb d c) && lacks c s.
Proof. done. Qed.

Lemma str_split_not_nil sep s : str_split sep s <> [].
Proof. destruct s as [|c s]; cbn; [done|]. destruct (Ascii.eqb c sep); [done|]. by destruct (str_split sep s). Qed.
Lemma str_split_lacks sep s : lacks sep s = true -> str_split sep s = [s].
Proof.
  induction s as [|c s IH]; [done|]. rewrite lacks_cons. intros [Hc Hs]%andb_true_iff. cbn.
  apply negb_true_iff in Hc. by rewrite Hc, IH.
Qed.
Lemma str_split_app sep a b :
  lacks sep a = true -> str_split sep (a +:+ String sep b) = a :: str_split sep b.
Proof.
  induction a as [|c a IH]; intros Ha.
  - change (EmptyString +:+ ?x) with x. cbn [str_split]. by rewrite Ascii.eqb_refl.
  - rewrite lacks_cons in Ha. apply andb_true_iff in Ha as [Hc Ha]. apply negb_true_iff in Hc.
    change (String c a +:+ ?x) with (String c (a +:+ x)). cbn [str_split]. by rewrite Hc, IH.
Qed.
(** Joining and splitting. *)
Lemma str_split_join sep l :
  l <> [] -> Forall (fun s => lacks sep s = true) l -> str_split sep (str_join (String sep EmptyString) l) = l.
Proof.
  induction l as [|a [|b l] IH]; [done|..]; intros _ Hl; inversion Hl as [|? ? Ha Hl']; subst.
  - by apply str_split_lacks.
  - cbn [str_join]. change (String sep EmptyString +:+ ?x) with (String sep x).
    rewrite str_split_app by done. f_equal. by apply IH.
Qed.
Lemma str_join_split sep s : str_join (String sep EmptyString) (str_split sep s) = s.
Proof.
  induction s as [|c s IH]; [done|]. cbn [str_split]. destruct (Ascii.eqb_spec c sep) as [->|Hc].
  - cbn [str_join]. pose proof (str_split_not_nil sep s). destruct (str_split sep s) as [|p r] eqn:Hs; [done|].
    cbn [str_join] in *. rewrite IH. done.
  - pose proof (str_split_not_nil sep s). destruct (str_split sep s) as [|p r] eqn:Hs; [done|].
    destruct r; cbn [str_join] in *; by rewrite <- IH.
Qed.
Lemma str_split_pieces sep s : Forall (fun p => lacks sep p = true) (str_split sep s).
Proof.
  induction s as [|c s IH]; cbn; [by repeat constructor|]. destruct (Ascii.eqb c sep) eqn:Hc; [by constructor|].
  pose proof (str_split_not_nil sep s). destruct (str_split sep s) as [|p r]; [done|].
  inversion IH as [|? ? Hp Hr]; subst. constructor; [|done]. rewrite lacks_cons, Hc. done.
Qed.

(** ** Removing an entry of a list of texts *)
Lemma prefix_refl_app a b : String.prefix a (a +:+ b) = true.
Proof. apply prefix_spec. by exists b. Qed.
Lemma prefix_lacks c a e s :
  lacks c a = true -> s = EmptyString \/ (exists s', s = String c s') ->
  String.prefix a (e +:+ s) = String.prefix a e.
Proof.
  intros Ha Hs. revert e Ha. induction a as [|x a IH]; intros e Ha; [by destruct e, s|].
  rewrite lacks_cons in Ha. apply andb_true_iff in Ha as [Hx Ha].
  destruct e as [|y e].
  - change (EmptyString +:+ s) with s. destruct Hs as [->|[s' ->]]; [done|]. cbn.
    destruct (ascii_dec x c) as [->|]; [|done]. by rewrite Ascii.eqb_refl in Hx.
  - change (String y e +:+ s) with (String y (e +:+ s)). cbn. destruct (ascii_dec x y); [by apply IH|done].
Qed.

Lemma remove_skip pat a s : remove_skipping pat (str_len a) (a +:+ s) = remove_skipping pat 0 s.
Proof. induction a as [|c a IH]; [by destruct s|exact IH]. Qed.
Lemma remove_copy c pat e s :
  lacks c e = true -> remove_skipping (String c pat) 0 (e +:+ s) = e +:+ remove_skipping (String c pat) 0 s.
Proof.
  induction e as [|d e IH]; intros He; [done|]. rewrite lacks_cons in He. apply andb_true_iff in He as [Hd He].
  change (String d e +:+ ?x) with (String d (e +:+ x)). cbn [remove_skipping String.prefix].
  destruct (ascii_dec c d) as [->|]; [by rewrite Ascii.eqb_refl in Hd|]. by rewrite IH.
Qed.

(** What is left of the entry [e] and the separator before it. *)
Definition entry_rest (c : ascii) (loc e : string) : string :=
  if String.prefix loc e then String.substring (str_len loc) (str_len e - str_len loc) e else String c e.
Fixpoint entries_rest (c : ascii) (loc : string) (es : list string) : string :=
  match es with [] => EmptyString | e :: es => entry_rest c loc e +:+ entries_rest c loc es end.
Fixpoint separated (c : ascii) (es : list string) : string :=
  match es with [] => EmptyString | e :: es => String c (e +:+ separated c es) end.

Lemma join_separated c e es : str_join (String c EmptyString) (e :: es) = e +:+ separated c es.
Proof.
  revert e. induction es as [|e' es IH]; intros e; [by rewrite str_app_nil|].
  cbn [str_join separated]. change (String c EmptyString +:+ ?x) with (String c x). f_equal. f_equal. apply IH.
Qed.
Lemma substring_all e : String.substring 0 (str_len e) e = e.
Proof. induction e as [|c e IH]; [done|exact (f_equal (String c) IH)]. Qed.
Lemma substring_drop a r : String.substring (str_len a) (str_len (a +:+ r) - str_len a) (a +:+ r) = r.
Proof.
  induction a as [|c a IH]; [|exact IH]. change (EmptyString +:+ r) with r. cbn [str_len].
  rewrite Nat.sub_0_r. apply substring_all.
Qed.
Lemma separated_head c es : separated c es = EmptyString \/ exists s, separated c es = String c s.
Proof. destruct es; [by left|right; eexists; reflexivity]. Qed.

Lemma remove_separated c loc es :
  lacks c loc = true -> Forall (fun e => lacks c e = true) es ->
  remove_skipping (String c loc) 0 (separated c es) = entries_rest c loc es.
Proof.
  intros Hloc. induction 1 as [|e es He Hes IH]; [done|]. cbn [separated entries_rest].
  cbn [remove_skipping String.prefix]. destruct (ascii_dec c c) as [_|]; [|done].
  rewrite (prefix_lacks c) by (done || apply separated_head). unfold entry_rest.
  destruct (String.prefix loc e) eqn:Hp.
  - apply prefix_spec in Hp as [r ->]. rewrite substring_drop. rewrite lacks_app in He.
    apply andb_true_iff in He as [_ Hr]. rewrite str_app_assoc. cbn [str_len]. rewrite Nat.sub_succ, Nat.sub_0_r.
    rewrite remove_skip, remove_copy by done. by rewrite IH.
  - rewrite remove_copy by done. by rewrite IH.
Qed.

(** Removing [loc] with the separator before it from separated entries: an entry
    that [loc] begins loses it, and is joined to the one before. *)
Lemma remove_entries c loc e0 es :
  lacks c loc = true -> Forall (fun e => lacks c e = true) (e0 :: es) ->
  str_remove (String c loc) (str_join (String c EmptyString) (e0 :: es)) = e0 +:+ entries_rest c loc es.
Proof.
  intros Hloc Hes. inversion Hes as [|? ? He0 Hes']; subst. rewrite join_separated. unfold str_remove.
  rewrite remove_copy by done. by rewrite remove_separated.
Qed.

Lemma entries_rest_exact c loc es :
  (forall e, e ∈ es -> String.prefix loc e = true -> e = loc) ->
  entries_rest c loc es = separated c (filter (fun e => e <> loc) es).
Proof.
  induction es as [|e es IH]; intros H; [done|]. cbn [entries_rest]. unfold entry_rest.
  rewrite IH by set_solver. destruct (String.prefix loc e) eqn:Hp.
  - rewrite (H e) by (done || set_solver). rewrite filter_cons_False by (intros Hne; by apply Hne).
    rewrite Nat.sub_diag. assert (forall n s, String.substring n 0 s = EmptyString) as ->; [|done].
    intros n s. revert n. induction s as [|x s IHs]; intros [|n]; cbn; done || apply IHs.
  - rewrite filter_cons_True; [done|]. intros ->. pose proof (prefix_refl_app loc EmptyString) as Hr.
    rewrite str_app_nil in Hr. congruence.
Qed.
Lemma ends_with_spec pat s : str_ends_with pat s = true <-> exists a, s = a +:+ pat.
Proof.
  unfold str_ends_with. rewrite andb_true_iff, Nat.leb_le, String.eqb_eq. split.
  - intros [Hle Hsub]. exists (String.substring 0 (str_len s - str_len pat) s). rewrite <- Hsub at 2.
    clear Hsub. assert (forall n, n <= str_len s ->
      s = String.substring 0 n s +:+ String.substring n (str_len s - n) s) as H.
    { clear. induction s as [|c s IH]; intros [|n] Hn; cbn in *; try lia; try done.
      - exact (f_equal (String c) (eq_sym (substring_all s))).
      - exact (f_equal (String c) (IH n ltac:(lia))). }
    rewrite (H (str_len s - str_len pat)) at 1 by lia. do 2 f_equal. lia.
  - intros [a ->]. rewrite str_len_app. split; [lia|].
    replace (str_len a + str_len pat - str_len pat) with (str_len a) by lia.
    pose proof (substring_drop a pat) as H. rewrite str_len_app in H. by replace (str_len a + str_len pat - str_len a) with (str_len pat) in H by lia.
Qed.

Lemma separated_app c a b : separated c (a ++ b) = separated c a +:+ separated c b.
Proof.
  induction a as [|x a IH]; [done|]. cbn [app separated]. rewrite IH.
  exact (f_equal (String c) (eq_sym (str_app_assoc _ _ _))).
Qed.
Lemma join_member c e0 l1 e l2 :
  str_join (String c EmptyString) (e0 :: l1 ++ e :: l2) =
  (e0 +:+ separated c l1 +:+ String c EmptyString) +:+ e +:+ separated c l2.
Proof. rewrite join_separated, separated_app. cbn [separated]. by rewrite !str_app_assoc. Qed.
(** An entry after the first that [loc] begins makes [loc] occur in the whole. *)
Lemma join_contains c loc e0 e es :
  e ∈ es -> String.prefix loc e = true -> str_contains loc (str_join (String c EmptyString) (e0 :: es)) = true.
Proof.
  intros (l1 & l2 & ->)%list_elem_of_split [r ->]%prefix_spec. rewrite join_member.
  apply str_contains_spec. exists (e0 +:+ separated c l1 +:+ String c EmptyString), (r +:+ separated c l2).
  by rewrite !str_app_assoc.
Qed.
Lemma filter_none (loc : string) (es : list string) : loc ∉ es -> filter (fun e => e <> loc) es = es.
Proof.
  induction es as [|e es IH]; [done|]. intros Hno. rewrite filter_cons_True by set_solver.
  by rewrite IH by set_solver.
Qed.
