(* ===== verification/WinRegistry.v ===== *)
(** * The Windows registry editor of the installer (libraries/rust/windows-install/src/registry.rs)

    [RegistryEditor] works on any [RegistryKey]: opening, creating and deleting
    keys, reading and writing their values, and transactions.  The two
    implementations of the trait are [MemoryKey] of the module [mock], modelled
    here, and [RegKey] of the winreg crate.  The folder listing of a
    deletion and regular expressions are arguments. *)
From S2P Require Import Prelude Json WinText.
From Stdlib Require Import Ascii.

(** ** Fallible steps *)
Inductive IoErrorKind := IoNotFound | IoOther.
Record IoError := MkIoError { io_kind : IoErrorKind; io_text : string }.
(** [IoError::from_raw_os_error(2)] *)
Definition os_error_2 : IoError := MkIoError IoNotFound "The system cannot find the file specified. (os error 2)".

Definition sem_map_err {T E F A} (f : E -> F) (m : sem T E A) : sem T F A :=
  fun s => let '(s', r) := m s in (s', map_err f r).
(** [Result::or_else] *)
Definition sem_or_else {T E F A} (m : sem T E A) (h : E -> sem T F A) : sem T F A :=
  fun s => match m s with
           | (s', Ok a) => (s', Ok a)
           | (s', Err e) => h e s'
           end.
Fixpoint sem_try_for_each {T E A} (f : A -> sem T E unit) (l : list A) : sem T E unit :=
  match l with
  | [] => mret tt
  | a :: l' => _ ← f a; sem_try_for_each f l'
  end.

(** ** Names *)
Definition ENVIRONMENT_KEY : string := "SYSTEM\CurrentControlSet\Control\Session Manager\Environment".
Definition PENDING_REMOVAL_KEY : string := "SYSTEM\CurrentControlSet\Control\Session Manager".
Definition UNINSTALL_KEY : string := "SOFTWARE\Microsoft\Windows\CurrentVersion\Uninstall".
Definition PENDING_OPERATIONS : string := "PendingFileRenameOperations".
(** [REGSAM] *)
Definition KEY_READ : N := 131097.
Definition KEY_WRITE : N := 131078.

Inductive RegistryError :=
| FailedToRegister (e : IoError)
| FailedToDeregister (e : IoError)
| FailedToAddToPath (e : IoError)
| FailedToRemoveFromPath (e : IoError)
| FailedToRegisterUninstaller (e : IoError)
| FailedToDeregisterUninstaller (e : IoError)
| FailedToCancelFileDeletion (e : string)
| FailedToSetFileDeletion (e : string)
| FailedToGetFileDeletion (e : IoError)
| RegistryKeyError (e : IoError)
| FailedToRegisterApplication (name : string) (e : IoError)
| FailedToDeregisterApplication (name : string) (e : IoError)
| FailedToAcquireTransaction (e : IoError)
| FailedToRollbackTransaction (e : IoError) (original : string)
| FailedToCommitTransaction (e : IoError)
| InstallFileError (what : string) (e : IoError).
Definition display_registry_error (e : RegistryError) : string :=
  match e with
  | FailedToRegister e => "Failed to register Firm: " +:+ io_text e
  | FailedToDeregister e => "Failed to deregister Firm: " +:+ io_text e
  | FailedToAddToPath e => "Failed to add Firm to PATH: " +:+ io_text e
  | FailedToRemoveFromPath e => "Failed to remove Firm from PATH: " +:+ io_text e
  | FailedToRegisterUninstaller e => "Failed to register uninstaller: " +:+ io_text e
  | FailedToDeregisterUninstaller e => "Failed to deregister uninstaller: " +:+ io_text e
  | FailedToCancelFileDeletion e => "Failed to cancel file deletion: " +:+ e
  | FailedToSetFileDeletion e => "Failed to set file deletion: " +:+ e
  | FailedToGetFileDeletion e => "Failed to get file deletion: " +:+ io_text e
  | RegistryKeyError e => "Registry key error: " +:+ io_text e
  | FailedToRegisterApplication name e =>
      "Failed to register application " +:+ quoted name +:+ ": " +:+ io_text e
  | FailedToDeregisterApplication name e =>
      "Failed to deregister application " +:+ quoted name +:+ ": " +:+ io_text e
  | FailedToAcquireTransaction e => "Failed to get registry transaction: " +:+ io_text e
  | FailedToRollbackTransaction e original =>
      "Failed to rollback transaction: " +:+ io_text e +:+ ". Original Error: " +:+ original
  | FailedToCommitTransaction e => "Failed to commit transaction: " +:+ io_text e
  | InstallFileError what e => "Install file error: " +:+ what +:+ ": " +:+ io_text e
  end.
(** [From<RegistryError> for u32]: exit codes. *)
Definition exit_code (e : RegistryError) : N :=
  match e with
  | FailedToRegister _ => 10 | FailedToDeregister _ => 11
  | FailedToAddToPath _ => 12 | FailedToRemoveFromPath _ => 13
  | FailedToRegisterUninstaller _ => 14 | FailedToDeregisterUninstaller _ => 15
  | FailedToCancelFileDeletion _ => 17 | RegistryKeyError _ => 18
  | FailedToRegisterApplication _ _ => 19 | FailedToDeregisterApplication _ _ => 20
  | FailedToAcquireTransaction _ => 21 | FailedToRollbackTransaction _ _ => 22
  | FailedToCommitTransaction _ => 23 | InstallFileError _ _ => 24
  | FailedToSetFileDeletion _ => 25 | FailedToGetFileDeletion _ => 26
  end%N.

(** ** The traits

    [T] is the registry the keys and transactions belong to. *)
Class RegistryKey (T : Type) := {
  rkey : Type;
  rtransaction : Type;
  create_subkey : rkey -> string -> sem T IoError rkey;
  set_value : rkey -> string -> string -> sem T IoError unit;
  open_subkey : rkey -> string -> sem T IoError rkey;
  delete_subkey_all : rkey -> string -> sem T IoError unit;
  open_subkey_with_flags : rkey -> string -> N -> sem T IoError rkey;
  get_value : rkey -> string -> sem T IoError string;
  create_subkey_with_flags : rkey -> string -> N -> sem T IoError rkey;
  enum_values : rkey -> sem T IoError (gmap string string);
  get_transaction : rkey -> sem T IoError rtransaction;
  open_subkey_transacted_with_flags : rkey -> string -> N -> rtransaction -> sem T IoError rkey;
  create_subkey_transacted_with_flags : rkey -> string -> N -> rtransaction -> sem T IoError rkey;
  commit : rtransaction -> sem T IoError unit;
  rollback : rtransaction -> sem T IoError unit
}.

(** ** Folders

    What [read_dir] finds: files, and folders with their entries. *)
Inductive Folder :=
| FFile
| FFolder (entries : result IoError (list (result IoError (string * Folder)))).
Definition child (path name : string) : string := path +:+ String backslash name.
Fixpoint get_folder_paths (path : string) (f : Folder) : result IoError (list string) :=
  match f with
  | FFile => Err (MkIoError IoOther "The directory name is invalid. (os error 267)")
  | FFolder entries =>
      entries ← entries;
      lists ← (fix each (l : list (result IoError (string * Folder))) : result IoError (list (list string)) :=
                 match l with
                 | [] => Ok []
                 | Err e :: _ => Err e
                 | Ok (name, node) :: l' =>
                     paths ← match node with
                             | FFile => Ok [child path name]
                             | FFolder _ => get_folder_paths (child path name) node
                             end;
                     rest ← each l';
                     Ok (paths :: rest)
                 end) entries;
      Ok (concat lists ++ [path])
  end.

(** [Regex::new] and [is_match]. *)
Class RegexCrate := { regex_new : string -> result string (string -> bool) }.

Section editor.
Context {T : Type} {RK : RegistryKey T} {HO : HashOrder} {RC : RegexCrate}.

Record RegistryEditor := MkRegistryEditor {
  re_registry : rkey;
  re_get_folder_paths : string -> result IoError (list string)
}.
Definition edit := sem T RegistryError.

Definition editor_transaction (self : RegistryEditor) : edit rtransaction :=
  sem_map_err FailedToAcquireTransaction (get_transaction (re_registry self)).
(** The step is evaluated before; its result decides how the transaction ends. *)
Definition apply_transaction {A} (step : edit A) (transaction : rtransaction) : edit A :=
  v ← sem_or_else step (fun e1 =>
        _ ← sem_map_err (fun e2 => FailedToRollbackTransaction e2 (display_registry_error e1)) (rollback transaction);
        sem_lift (Err e1));
  _ ← sem_map_err FailedToCommitTransaction (commit transaction);
  mret v.

(** ** Install files *)
Definition not_found {A} (e : IoError) (h : sem T IoError A) : sem T IoError A :=
  match io_kind e with IoNotFound => h | IoOther => sem_lift (Err e) end.
Definition install_files_of (key : rkey) : sem T IoError (list string) :=
  sem_or_else (install_files ← get_value key "InstallFiles"; mret (str_split semicolon install_files))
    (fun e => not_found e (_ ← set_value key "InstallFiles" EmptyString; mret [])).
Definition get_install_files (self : RegistryEditor) (name : string) : edit (list string) :=
  transaction ← editor_transaction self;
  apply_transaction
    (sem_map_err (InstallFileError ("Failed to get install files for " +:+ name))
       (key ← open_subkey_transacted_with_flags (re_registry self) "SOFTWARE" KEY_READ transaction;
        key ← create_subkey key name;
        install_files_of key))
    transaction.
Definition register_install_file (self : RegistryEditor) (name file : string) : edit unit :=
  files ← get_install_files self name;
  let install_files := files ++ [file] in
  sem_map_err (InstallFileError ("Failed to register install files for " +:+ name))
    (key ← open_subkey (re_registry self) "SOFTWARE";
     key ← create_subkey key name;
     set_value key "InstallFiles" (str_join ";" install_files)).
Definition clear_install_files (self : RegistryEditor) (name : string) : edit unit :=
  transaction ← editor_transaction self;
  apply_transaction
    (sem_map_err (InstallFileError ("Failed to clean install files for " +:+ name))
       (key ← open_subkey_transacted_with_flags (re_registry self) "SOFTWARE" KEY_READ transaction;
        key ← open_subkey key name;
        delete_subkey_all key "InstallFiles"))
    transaction.

(** ** Applications and uninstallers *)
Definition set_values (key : rkey) (values : gmap string string) : sem T IoError unit :=
  sem_try_for_each (fun kv => set_value key kv.1 kv.2) (hash_iter values).
Definition register_application (self : RegistryEditor) (name exe_path : string)
    (additional_data : gmap string string) : edit unit :=
  sem_map_err (FailedToRegisterApplication name)
    (key ← open_subkey (re_registry self) "SOFTWARE";
     key ← create_subkey key name;
     _ ← set_value key "InstallPath" exe_path;
     set_values key additional_data).
Definition deregister_application (self : RegistryEditor) (name : string) : edit unit :=
  sem_map_err (FailedToDeregisterApplication name)
    (key ← open_subkey_with_flags (re_registry self) "SOFTWARE" KEY_WRITE;
     delete_subkey_all key name).
Definition find_application (self : RegistryEditor) (name : string) : edit (gmap string string) :=
  sem_map_err RegistryKeyError
    (key ← open_subkey (re_registry self) "SOFTWARE";
     key ← open_subkey key name;
     enum_values key).
Definition register_uninstaller (self : RegistryEditor) (name display_name uninstall_string : string)
    (extra_values : gmap string string) : edit unit :=
  sem_map_err FailedToRegisterUninstaller
    (key ← open_subkey (re_registry self) UNINSTALL_KEY;
     uninstaller ← create_subkey_with_flags key name (N.lor KEY_READ KEY_WRITE);
     _ ← set_value uninstaller "DisplayName" display_name;
     _ ← set_value uninstaller "UninstallString" uninstall_string;
     set_values uninstaller extra_values).
Definition deregister_uninstaller (self : RegistryEditor) (name : string) : edit unit :=
  sem_map_err FailedToDeregisterUninstaller
    (key ← open_subkey_with_flags (re_registry self) UNINSTALL_KEY KEY_WRITE;
     delete_subkey_all key name).

(** ** The PATH *)
Definition extended_path (old_path location : string) : option string :=
  if str_contains location old_path then None else Some (old_path +:+ ";" +:+ location).
Definition reduced_path (old_path location : string) : option string :=
  if str_ends_with location old_path || str_contains (";" +:+ location +:+ ";") old_path
  then Some (str_remove (";" +:+ location) old_path) else None.
Definition edit_path (self : RegistryEditor) (wrap : IoError -> RegistryError) (f : string -> option string) : edit unit :=
  transaction ← editor_transaction self;
  apply_transaction
    (sem_map_err wrap
       (key ← open_subkey_transacted_with_flags (re_registry self) ENVIRONMENT_KEY (N.lor KEY_READ KEY_WRITE) transaction;
        old_path ← get_value key "Path";
        match f old_path with
        | Some path => set_value key "Path" path
        | None => mret tt
        end))
    transaction.
Definition add_to_path (self : RegistryEditor) (location : string) : edit unit :=
  edit_path self FailedToAddToPath (fun old_path => extended_path old_path location).
Definition remove_from_path (self : RegistryEditor) (location : string) : edit unit :=
  edit_path self FailedToRemoveFromPath (fun old_path => reduced_path old_path location).

(** ** Deletions at the next start *)
Definition pending_entries (remove_entry : string) : list string :=
  filter (fun entry => str_is_empty entry = false) (str_lines remove_entry).
Definition or_when_missing {A} (m : sem T IoError A) (a : A) : sem T IoError A :=
  sem_or_else m (fun e => not_found e (mret a)).
Definition get_pending_deletions (self : RegistryEditor) (transaction : rtransaction) : edit (list string) :=
  op_key ← sem_map_err FailedToGetFileDeletion
    (or_when_missing
       (key ← open_subkey_transacted_with_flags (re_registry self) PENDING_REMOVAL_KEY (N.lor KEY_READ KEY_WRITE) transaction;
        mret (Some key)) None);
  remove_entry ← match op_key with
    | Some key => sem_map_err FailedToGetFileDeletion (or_when_missing (get_value key PENDING_OPERATIONS) EmptyString)
    | None => mret EmptyString
    end;
  mret (pending_entries remove_entry).
Definition pending_text (pending_deletions : list string) : string :=
  foldl (fun acc entry => acc +:+ entry +:+ newline +:+ newline) EmptyString pending_deletions.
Definition set_pending_deletions (self : RegistryEditor) (pending_deletions : list string)
    (transaction : rtransaction) : edit unit :=
  key ← sem_map_err (fun e => FailedToSetFileDeletion (io_text e))
    (create_subkey_transacted_with_flags (re_registry self) PENDING_REMOVAL_KEY (N.lor KEY_READ KEY_WRITE) transaction);
  sem_map_err (fun e => FailedToSetFileDeletion (io_text e))
    (set_value key PENDING_OPERATIONS (pending_text pending_deletions)).

Definition deletion_pattern (path : string) : string := "^\\\?\?\\" +:+ escape_default path +:+ ".*".
Definition cancel_pending_deletions (self : RegistryEditor) (path : string) : edit unit :=
  transaction ← editor_transaction self;
  apply_transaction
    (regex ← sem_lift (map_err (fun e => FailedToCancelFileDeletion ("Failed to create regex: " +:+ e))
                         (regex_new (deletion_pattern path)));
     paths ← get_pending_deletions self transaction;
     set_pending_deletions self (filter (fun path => (regex : string -> bool) path = false) paths) transaction)
    transaction.
Definition deletion_entry (path : string) : string := "\??\" +:+ path.
Definition mark_paths_for_delete (self : RegistryEditor) (paths : list string) : edit unit :=
  transaction ← editor_transaction self;
  apply_transaction
    (deletion_content ← get_pending_deletions self transaction;
     set_pending_deletions self (deletion_content ++ (deletion_entry <$> paths)) transaction)
    transaction.
Definition mark_for_delete (self : RegistryEditor) (path : string) : edit unit :=
  paths ← sem_lift (map_err (fun e => FailedToSetFileDeletion
      ("Failed to get files and folders for " +:+ quoted path +:+ ": " +:+ io_text e))
      (re_get_folder_paths self path));
  mark_paths_for_delete self paths.
End editor.

(** ** The registry in memory *)
Section memory.
Record MemoryEntry := MkMemoryEntry { values : gmap string string }.
Definition memory_default : MemoryEntry := MkMemoryEntry ∅.
(** All keys by their path; a [MemoryKey] is a path into them. *)
Abbreviation Memory := (gmap string MemoryEntry).

Definition memory_create_subkey (self path : string) : sem Memory IoError string :=
  fun m => (match m !! child self path with
            | Some _ => m
            | None => <[child self path := memory_default]> m
            end, Ok (child self path)).
Definition memory_set_value (self name value : string) : sem Memory IoError unit :=
  fun m => (<[self := MkMemoryEntry (<[name := value]> (values (default memory_default (m !! self))))]> m, Ok tt).
Definition memory_open_subkey (self name : string) : sem Memory IoError string :=
  sem_ask (fun m => ok_or os_error_2 (_ ← m !! child self name; Some (child self name))).
Definition memory_delete_subkey_all (self name : string) : sem Memory IoError unit :=
  fun m => (delete (child self name) m, ok_or os_error_2 (_ ← m !! child self name; Some tt)).
Definition memory_get_value (self name : string) : sem Memory IoError string :=
  sem_ask (fun m => ok_or os_error_2 (entry ← m !! self; values entry !! name)).
Definition memory_enum_values (self : string) : sem Memory IoError (gmap string string) :=
  sem_ask (fun m => values <$> ok_or os_error_2 (m !! self)).
(** A transaction in memory does nothing. *)
Definition FakeTransaction : Type := unit.

#[export] Instance MemoryKey : RegistryKey Memory := {|
  rkey := string;
  rtransaction := FakeTransaction;
  create_subkey := memory_create_subkey;
  set_value := memory_set_value;
  open_subkey := memory_open_subkey;
  delete_subkey_all := memory_delete_subkey_all;
  open_subkey_with_flags := fun self name _ => memory_open_subkey self name;
  get_value := memory_get_value;
  create_subkey_with_flags := fun self name _ => memory_create_subkey self name;
  enum_values := memory_enum_values;
  get_transaction := fun _ => mret tt;
  open_subkey_transacted_with_flags := fun self name _ _ => memory_open_subkey self name;
  create_subkey_transacted_with_flags := fun self name _ _ =>
    _ ← memory_create_subkey self name; memory_open_subkey self name;
  commit := fun _ => mret tt;
  rollback := fun _ => mret tt
|}.
End memory.
