(* ===== verification/WinRegistryProps.v ===== *)
(** * Properties of the Windows registry editor

    How a transaction ends for any registry, and, on the registry in memory,
    what editing the PATH, the deletions of the next start and the install files
    leaves. *)
From S2P Require Import Prelude Json WinText WinRegistry.
From Stdlib Require Import Ascii.

(** ** Transactions *)
Section transactions.
Context {T : Type} {RK : RegistryKey T}.

(** How a transaction ended. *)
Definition committed (transaction : rtransaction) (s1 s2 : T) : Prop := commit transaction s1 = (s2, Ok tt).
Definition rolled_back (transaction : rtransaction) (s1 s2 : T) : Prop := rollback transaction s1 = (s2, Ok tt).

(** On every registry, a value comes out of a transaction only if the step
    gave it and the commit that followed worked; an error that is the step's own
    comes out only after a rollback that worked; any other error tells which of
    the two failed, and a failed rollback still names the error of the step. *)
Theorem apply_transaction_ends {A} (step : edit A) (transaction : rtransaction) s s' (r : result RegistryError A) :
  apply_transaction step transaction s = (s', r) ->
  match step s, r with
  | (s1, Ok v), Ok v' => v' = v /\ committed transaction s1 s'
  | (s1, Ok v), Err e => exists io, commit transaction s1 = (s', Err io) /\ e = FailedToCommitTransaction io
  | (s1, Err e1), Ok _ => False
  | (s1, Err e1), Err e =>
      (e = e1 /\ rolled_back transaction s1 s') \/
      exists io, rollback transaction s1 = (s', Err io) /\ e = FailedToRollbackTransaction io (display_registry_error e1)
  end.
Proof.
  unfold apply_transaction, sem_or_else, sem_map_err, committed, rolled_back, mbind, sem_bind.
  destruct (step s) as [s1 [v|e1]].
  - destruct (commit transaction s1) as [s2 [[]|io]]; cbn; intros [= <- <-]; eauto.
  - destruct (rollback transaction s1) as [s2 [[]|io]]; cbn; intros [= <- <-]; eauto.
Qed.
End transactions.

Section memory_props.
Context {HO : HashOrder} {RC : RegexCrate}.
Abbreviation Memory := (gmap string MemoryEntry).
Implicit Types (m : Memory) (self : RegistryEditor (T := Memory)).

Definition key_of self (name : string) : string := child (re_registry self : string) name.
(** The values of a key. *)
Definition values_at self m (name : string) : option (gmap string string) := values <$> m !! key_of self name.
Definition write_value self (name value text : string) m : Memory :=
  <[key_of self name := MkMemoryEntry (<[value := text]> (default ∅ (values_at self m name)))]> m.

Lemma memory_set_at self m name value text :
  memory_set_value (key_of self name) value text m = (write_value self name value text m, Ok tt).
Proof. unfold memory_set_value, write_value, values_at. by destruct (m !! key_of self name). Qed.

Lemma write_value_read self m name value text :
  values_at self (write_value self name value text m) name ≫= (.!! value) = Some text.
Proof. unfold values_at, write_value. rewrite lookup_insert_eq. cbn. by rewrite lookup_insert_eq. Qed.
Lemma write_value_other self m name value text k :
  k <> key_of self name -> write_value self name value text m !! k = m !! k.
Proof. intros Hk. unfold write_value. by rewrite lookup_insert_ne. Qed.
Lemma write_write self m name value t1 t2 :
  write_value self name value t2 (write_value self name value t1 m) = write_value self name value t2 m.
Proof.
  unfold write_value, values_at. rewrite lookup_insert_eq. cbn. by rewrite !insert_insert_eq.
Qed.

(** A transaction in memory is just its step. *)
Lemma memory_transaction {A} self (step : unit -> edit (T := Memory) A) m :
  (transaction ← editor_transaction self; apply_transaction (step transaction) transaction) m = step tt m.
Proof.
  unfold apply_transaction, editor_transaction, sem_or_else, sem_map_err, sem_lift, mbind, sem_bind, mret, sem_ret.
  cbn [get_transaction commit rollback MemoryKey]. unfold mret, sem_ret. cbn [map_err].
  by destruct (step tt m) as [m' [a|e]].
Qed.

(** ** The PATH *)

(** The PATH a registry holds. *)
Definition path_of self m : option string := values_at self m ENVIRONMENT_KEY ≫= (.!! "Path").
Definition set_path self (p : string) m : Memory := write_value self ENVIRONMENT_KEY "Path" p m.

Lemma edit_path_memory self wrap f m p :
  path_of self m = Some p ->
  edit_path self wrap f m = (match f p with Some p' => set_path self p' m | None => m end, Ok tt).
Proof.
  intros Hp. unfold path_of, values_at in Hp.
  destruct (m !! key_of self ENVIRONMENT_KEY) as [entry|] eqn:Hm; [|done]. cbn in Hp.
  assert (memory_open_subkey (re_registry self) ENVIRONMENT_KEY m = (m, Ok (key_of self ENVIRONMENT_KEY))) as Hopen.
  { unfold memory_open_subkey, sem_ask. fold (key_of self ENVIRONMENT_KEY). by rewrite Hm. }
  assert (memory_get_value (key_of self ENVIRONMENT_KEY) "Path" m = (m, Ok p)) as Hget.
  { unfold memory_get_value, sem_ask. rewrite Hm. cbn. by rewrite Hp. }
  unfold edit_path. rewrite memory_transaction. unfold sem_map_err, mbind, sem_bind.
  cbn [open_subkey_transacted_with_flags get_value set_value MemoryKey]. rewrite Hopen, Hget.
  destruct (f p) as [p'|]; [|done]. unfold set_path. by rewrite memory_set_at.
Qed.

Lemma path_of_set self m p : path_of self (set_path self p m) = Some p.
Proof. apply write_value_read. Qed.

(** The entries of a PATH. *)
Definition path_entries (p : string) : list string := str_split semicolon p.
Definition path_text (es : list string) : string := str_join ";" es.

Lemma path_text_entries p : path_text (path_entries p) = p.
Proof. apply str_join_split. Qed.

Lemma reduced_entries e0 es loc :
  lacks semicolon loc = true -> Forall (fun e => lacks semicolon e = true) (e0 :: es) ->
  (forall e, e ∈ es -> String.prefix loc e = true -> e = loc) ->
  default (path_text (e0 :: es)) (reduced_path (path_text (e0 :: es)) loc) =
  path_text (e0 :: filter (fun e => e <> loc) es).
Proof.
  intros Hloc Hes Hpre. unfold reduced_path, path_text. rewrite join_separated, join_separated.
  destruct (str_ends_with loc _ || str_contains _ _) eqn:Hc; cbn [default from_option].
  - change (";" +:+ loc) with (String semicolon loc). rewrite <- join_separated.
    rewrite remove_entries by done. by rewrite entries_rest_exact.
  - rewrite filter_none; [done|]. apply orb_false_iff in Hc as [Hend Hmid].
    intros (l1 & l2 & ->)%list_elem_of_split. rewrite <- join_separated, join_member in Hend, Hmid.
    destruct l2 as [|y l2]; cbn [separated] in Hend, Hmid.
    + apply not_true_iff_false in Hend. apply Hend, ends_with_spec. eexists. by rewrite str_app_nil.
    + apply not_true_iff_false in Hmid. apply Hmid, str_contains_spec.
      exists (e0 +:+ separated semicolon l1), (y +:+ separated semicolon l2). by rewrite !str_app_assoc.
Qed.

(** Removing a location from the PATH takes out exactly the entries equal to
    it, wherever they are but at the front, and changes nothing else in the
    registry, provided that no entry merely begins with the location: such an
    entry loses its beginning and is joined to the entry before it. *)
Theorem remove_from_path_entries self m p e0 es loc :
  path_of self m = Some p -> path_entries p = e0 :: es -> lacks semicolon loc = true ->
  (forall e, e ∈ es -> String.prefix loc e = true -> e = loc) ->
  exists m', remove_from_path self loc m = (m', Ok tt) /\
    path_of self m' = Some (path_text (e0 :: filter (fun e => e <> loc) es)) /\
    forall k, k <> key_of self ENVIRONMENT_KEY -> m' !! k = m !! k.
Proof.
  intros Hp He Hloc Hpre. unfold remove_from_path. rewrite (edit_path_memory _ _ _ _ _ Hp).
  pose proof (str_split_pieces semicolon p) as Hes. unfold path_entries in He. rewrite He in Hes.
  pose proof (reduced_entries e0 es loc Hloc Hes Hpre) as Hred.
  assert (path_text (e0 :: es) = p) as Ht by (rewrite <- He; apply path_text_entries). rewrite Ht in Hred.
  eexists. split; [reflexivity|]. destruct (reduced_path p loc) as [p'|]; rewrite <- Hred; unfold default, from_option, id.
  - split; [apply path_of_set|]. intros k Hk. by apply write_value_other.
  - done.
Qed.

Lemma prefix_self loc : String.prefix loc loc = true.
Proof. pose proof (prefix_refl_app loc EmptyString) as H. by rewrite str_app_nil in H. Qed.
Lemma path_text_snoc es loc : es <> [] -> path_text (es ++ [loc]) = path_text es +:+ ";" +:+ loc.
Proof.
  destruct es as [|e0 es]; [done|]. intros _. unfold path_text. cbn [app].
  rewrite !join_separated, separated_app. cbn [separated]. by rewrite str_app_nil, str_app_assoc.
Qed.

(** A location that occurs nowhere, added and taken out again. *)
Lemma extend_reduce p loc :
  str_contains loc p = false -> lacks semicolon loc = true ->
  default (p +:+ ";" +:+ loc) (reduced_path (p +:+ ";" +:+ loc) loc) = p /\
  p +:+ ";" +:+ loc = path_text (path_entries p ++ [loc]).
Proof.
  intros Hno Hloc. pose proof (str_split_pieces semicolon p) as Hes. pose proof (path_text_entries p) as Ht.
  unfold path_entries in *. destruct (str_split semicolon p) as [|e0 es] eqn:He; [by apply str_split_not_nil in He|].
  assert (forall e, e ∈ es -> String.prefix loc e = true -> False) as Hin.
  { intros e Hin Hpr. pose proof (join_contains semicolon loc e0 e es Hin Hpr) as Hc.
    unfold path_text in Ht. change (String semicolon EmptyString) with ";" in Hc. congruence. }
  assert (p +:+ ";" +:+ loc = path_text ((e0 :: es) ++ [loc])) as Ht1 by by rewrite path_text_snoc, Ht.
  split; [|done]. rewrite Ht1. cbn [app]. rewrite reduced_entries; [|done|..].
  - rewrite filter_app, filter_cons_False, filter_nil, app_nil_r by (intros Hne; by apply Hne).
    rewrite filter_none; [done|]. intros Hl. by apply (Hin loc Hl), prefix_self.
  - inversion Hes; subst. constructor; [done|]. apply Forall_app; auto.
  - intros e [Hl|Hl]%elem_of_app Hpr; [by destruct (Hin e Hl Hpr)|set_solver].
Qed.

(** Adding a location that occurs nowhere in the PATH and removing it again
    leaves the registry as it was; in between the PATH has it as its last
    entry. *)
Theorem path_add_remove self m p loc :
  path_of self m = Some p -> str_contains loc p = false -> lacks semicolon loc = true ->
  exists m1 m2, add_to_path self loc m = (m1, Ok tt) /\ path_of self m1 = Some (path_text (path_entries p ++ [loc])) /\
    remove_from_path self loc m1 = (m2, Ok tt) /\ path_of self m2 = Some p /\
    forall k, k <> key_of self ENVIRONMENT_KEY -> m2 !! k = m !! k.
Proof.
  intros Hp Hno Hloc. unfold add_to_path. rewrite (edit_path_memory _ _ _ _ _ Hp). unfold extended_path. rewrite Hno.
  destruct (extend_reduce p loc Hno Hloc) as [Hback Htext].
  set (m1 := set_path self (p +:+ ";" +:+ loc) m).
  assert (path_of self m1 = Some (p +:+ ";" +:+ loc)) as Hp1 by apply path_of_set.
  exists m1. eexists. split; [done|]. split; [by rewrite Hp1, Htext|]. unfold remove_from_path.
  rewrite (edit_path_memory _ _ _ _ _ Hp1). split; [reflexivity|].
  destruct (reduced_path (p +:+ ";" +:+ loc) loc) as [p'|]; unfold default, from_option, id in Hback.
  - rewrite <- Hback at 1. split; [apply path_of_set|]. intros k Hk. unfold m1, set_path. by rewrite !write_value_other.
  - split; [by rewrite Hp1, Hback|]. intros k Hk. unfold m1, set_path. by rewrite !write_value_other.
Qed.
(** ** Deletions at the next start *)

Definition carriage_return : ascii := ascii_of_nat 13.
(** A text that is one line of the registry value. *)
Definition one_line (e : string) : bool :=
  negb (str_is_empty e) && lacks line_feed e && lacks carriage_return e.

Lemma strip_cr_lacks e : lacks carriage_return e = true -> strip_cr e = e.
Proof.
  induction e as [|c e IH]; [done|]. rewrite lacks_cons. intros [Hc He]%andb_true_iff.
  destruct e as [|d e].
  - cbn. destruct (N_of_ascii c =? 13)%N eqn:Hn; [|done]. apply N.eqb_eq in Hn.
    assert (c = carriage_return) as ->; [|by rewrite Ascii.eqb_refl in Hc].
    unfold carriage_return. rewrite <- (ascii_N_embedding c), Hn. done.
  - change (strip_cr (String c (String d e))) with (String c (strip_cr (String d e))). by rewrite IH.
Qed.

(** What [lines] makes of the text [set_pending_deletions] writes. *)
Fixpoint pending_chunks (l : list string) : string :=
  match l with [] => EmptyString | e :: l => e +:+ newline +:+ newline +:+ pending_chunks l end.
Lemma pending_text_chunks l : pending_text l = pending_chunks l.
Proof.
  unfold pending_text. change (pending_chunks l) with (EmptyString +:+ pending_chunks l).
  generalize EmptyString. induction l as [|e l IH]; intros acc; cbn [foldl pending_chunks]; [by rewrite str_app_nil|].
  rewrite IH. by rewrite !str_app_assoc.
Qed.
Lemma chunks_split l :
  Forall (fun e => one_line e = true) l ->
  str_split line_feed (pending_chunks l) = concat ((fun e => [e; EmptyString]) <$> l) ++ [EmptyString].
Proof.
  induction 1 as [|e l He Hl IH]; [done|]. cbn [pending_chunks].
  unfold one_line in He. rewrite !andb_true_iff in He. destruct He as [[_ He] _].
  change (newline +:+ newline +:+ pending_chunks l) with (String line_feed (String line_feed (pending_chunks l))).
  rewrite str_split_app by done. rewrite <- (str_app_nil EmptyString) at 1.
  change (String line_feed (pending_chunks l)) with (EmptyString +:+ String line_feed (pending_chunks l)).
  rewrite str_split_app by done. rewrite fmap_cons. cbn [concat app]. by rewrite IH.
Qed.
Lemma drop_last_empty_snoc l : drop_last_empty (l ++ [EmptyString]) = l.
Proof. induction l as [|s l IH]; [done|]. destruct l as [|t l]; [done|]. cbn [app drop_last_empty] in *. by rewrite IH. Qed.

Lemma pending_roundtrip l :
  Forall (fun e => one_line e = true) l -> pending_entries (pending_text l) = l.
Proof.
  intros Hl. unfold pending_entries, str_lines. rewrite pending_text_chunks, chunks_split, drop_last_empty_snoc by done.
  induction Hl as [|e l He Hl IH]; [done|]. unfold one_line in He. rewrite !andb_true_iff, negb_true_iff in He.
  destruct He as [[Hne _] Hcr].
  rewrite fmap_cons. cbn [concat app]. rewrite !fmap_cons, strip_cr_lacks by done.
  rewrite filter_cons_True by done. rewrite filter_cons_False by (by cbn). by rewrite IH.
Qed.

(** The entries a registry holds: none when the key or the value is missing. *)
Definition pending_value self m : string :=
  default EmptyString (values_at self m PENDING_REMOVAL_KEY ≫= (.!! PENDING_OPERATIONS)).
Definition pending self m : list string := pending_entries (pending_value self m).
Definition set_pending self (l : list string) m : Memory :=
  write_value self PENDING_REMOVAL_KEY PENDING_OPERATIONS (pending_text l) m.

Lemma get_pending_memory self m t : get_pending_deletions self t m = (m, Ok (pending self m)).
Proof.
  unfold get_pending_deletions, or_when_missing, sem_or_else, sem_map_err, mbind, sem_bind, mret, sem_ret.
  cbn [open_subkey_transacted_with_flags get_value MemoryKey].
  unfold pending, pending_value, values_at, memory_open_subkey, memory_get_value, sem_ask, mbind, option_bind.
  fold (key_of self PENDING_REMOVAL_KEY).
  destruct (m !! key_of self PENDING_REMOVAL_KEY) as [entry|] eqn:Hm; cbn; [|done].
  rewrite Hm. cbn. by destruct (values entry !! PENDING_OPERATIONS).
Qed.

Lemma set_pending_memory self l t m : set_pending_deletions self l t m = (set_pending self l m, Ok tt).
Proof.
  unfold set_pending_deletions, sem_map_err, mbind, sem_bind.
  cbn [create_subkey_transacted_with_flags set_value MemoryKey].
  unfold mbind, sem_bind, memory_create_subkey, memory_open_subkey, sem_ask. fold (key_of self PENDING_REMOVAL_KEY).
  destruct (m !! key_of self PENDING_REMOVAL_KEY) as [entry|] eqn:Hm.
  - rewrite Hm. cbn [mbind option_bind ok_or map_err]. by rewrite memory_set_at.
  - rewrite lookup_insert_eq. cbn [mbind option_bind ok_or map_err]. rewrite memory_set_at.
    unfold set_pending, write_value, values_at. rewrite lookup_insert_eq, insert_insert_eq, Hm. done.
Qed.

Lemma pending_set self l m : Forall (fun e => one_line e = true) l -> pending self (set_pending self l m) = l.
Proof.
  intros Hl. unfold pending, pending_value, set_pending. rewrite write_value_read. by apply pending_roundtrip.
Qed.

Lemma mark_paths_memory self paths m :
  mark_paths_for_delete self paths m = (set_pending self (pending self m ++ (deletion_entry <$> paths)) m, Ok tt).
Proof.
  unfold mark_paths_for_delete. rewrite memory_transaction. unfold mbind, sem_bind.
  by rewrite get_pending_memory, set_pending_memory.
Qed.
Lemma cancel_memory self path m re :
  regex_new (deletion_pattern path) = Ok re ->
  cancel_pending_deletions self path m =
  (set_pending self (filter (fun e => re e = false) (pending self m)) m, Ok tt).
Proof.
  intros Hre. unfold cancel_pending_deletions. rewrite memory_transaction. unfold sem_lift, mbind, sem_bind.
  rewrite Hre. cbn [map_err]. by rewrite get_pending_memory, set_pending_memory.
Qed.
(** *** Patterns *)

(** Characters that stand for themselves in a pattern, a question mark and a
    backslash once a backslash is before them. *)
Definition plain_char (c : ascii) : bool :=
  let n := N_of_ascii c in
  (48 <=? n)%N && (n <=? 58)%N || (65 <=? n)%N && (n <=? 90)%N || (97 <=? n)%N && (n <=? 122)%N
  || (n =? 32)%N || (n =? 95)%N || (n =? 45)%N || (n =? 92)%N.
Definition plain_text (s : string) : bool := forallb plain_char (String.list_ascii_of_string s).
Definition quoted_char (c : ascii) : bool := (N_of_ascii c =? 92)%N || (N_of_ascii c =? 63)%N.
Fixpoint regex_quote (s : string) : string :=
  match s with
  | EmptyString => EmptyString
  | String c s => if quoted_char c then String backslash (String c (regex_quote s)) else String c (regex_quote s)
  end.
(** What the regex crate documents of a quoted text between [^] and [.*]: it
    matches the texts that begin with it. *)
Definition matches_literals : Prop :=
  forall path, plain_text path = true ->
    exists re, regex_new ("^" +:+ regex_quote (deletion_entry path) +:+ ".*") = Ok re /\
      forall s, re s = String.prefix (deletion_entry path) s.

Lemma escape_plain s : plain_text s = true -> escape_default s = regex_quote s.
Proof.
  induction s as [|c s IH]; [done|]. cbn [plain_text String.list_ascii_of_string forallb].
  unfold plain_text. cbn [String.list_ascii_of_string forallb]. intros [Hc Hs]%andb_true_iff.
  unfold escape_default in *. cbn [code_points].
  assert ((N_of_ascii c <? 128)%N = true) as ->.
  { apply N.ltb_lt. unfold plain_char in Hc. rewrite !orb_true_iff, !andb_true_iff, !N.leb_le, !N.eqb_eq in Hc. lia. }
  cbn [foldr]. rewrite (IH Hs). cbn [regex_quote].
  destruct c as [[] [] [] [] [] [] [] []]; vm_compute in Hc; done || reflexivity.
Qed.
Lemma pattern_quoted path :
  plain_text path = true -> deletion_pattern path = "^" +:+ regex_quote (deletion_entry path) +:+ ".*".
Proof. intros Hp. unfold deletion_pattern. by rewrite escape_plain. Qed.

(** ** Folders *)

(** Everything listed of a folder begins with its path, which comes last. *)
Lemma folder_paths path f l :
  get_folder_paths path f = Ok l ->
  (exists l', l = l' ++ [path]) /\ Forall (fun p => String.prefix path p = true) l.
Proof.
  revert f path l. fix IH 1. intros f path l H. destruct f as [|[es|e]]; [done| |done]. cbn in H.
  apply bind_Ok_inv in H as (lists & H & [= <-]).
  split; [by eexists|]. apply Forall_app. split; [|by repeat constructor; apply prefix_self].
  revert lists H. induction es as [|[[name node]|e] es IHes]; intros lists H; [by injection H as <-|..|done].
  apply bind_Ok_inv in H as (paths & Hp & H). apply bind_Ok_inv in H as (rest & Hr & [= <-]).
  cbn [concat]. apply Forall_app. split; [|exact (IHes _ Hr)].
  assert (Forall (fun p => String.prefix (child path name) p = true) paths) as Hall.
  { pose proof (IH node (child path name) paths) as IHn. destruct node as [|entries'].
    - injection Hp as <-. repeat constructor. apply prefix_self.
    - by apply IHn. }
  eapply Forall_impl; [exact Hall|]. intros p [r ->]%prefix_spec. unfold child. rewrite str_app_assoc.
  apply prefix_refl_app.
Qed.
Lemma one_line_entry p : one_line p = true -> one_line (deletion_entry p) = true.
Proof.
  unfold one_line, deletion_entry. rewrite !andb_true_iff. intros [[_ Hl] Hc]. rewrite !lacks_app, Hl, Hc.
  repeat split; by vm_compute.
Qed.
Lemma filter_marked path (re : string -> bool) l :
  (forall s, re s = String.prefix (deletion_entry path) s) ->
  Forall (fun p => String.prefix path p = true) l ->
  filter (fun e => re e = false) (deletion_entry <$> l) = [].
Proof.
  intros Hre. induction 1 as [|p l Hp Hl IH]; [done|]. rewrite fmap_cons, filter_cons_False; [done|].
  rewrite Hre. apply prefix_spec in Hp as [r ->]. unfold deletion_entry. rewrite <- str_app_assoc, prefix_refl_app. done.
Qed.

(** Marking a folder for deletion adds its contents, and at last the folder
    itself, to the deletions of the next start; cancelling the deletions of the
    folder takes them out again, with every older entry below a path that
    begins with the folder's, and keeps the others in order.  Nothing else in
    the registry changes.  This holds of paths whose characters stand for
    themselves in a regular expression. *)
Theorem mark_then_cancel self path f l m :
  matches_literals -> plain_text path = true ->
  re_get_folder_paths self path = get_folder_paths path f -> get_folder_paths path f = Ok l ->
  Forall (fun e => one_line e = true) l -> Forall (fun e => one_line e = true) (pending self m) ->
  exists m1 m2, mark_for_delete self path m = (m1, Ok tt) /\
    pending self m1 = pending self m ++ (deletion_entry <$> l) /\ last l = Some path /\
    cancel_pending_deletions self path m1 = (m2, Ok tt) /\
    pending self m2 = filter (fun e => String.prefix (deletion_entry path) e = false) (pending self m) /\
    forall k, k <> key_of self PENDING_REMOVAL_KEY -> m2 !! k = m !! k.
Proof.
  intros Hlit Hplain Hpaths Hl Hlines Hold.
  destruct (Hlit path Hplain) as (re & Hnew & Hre). rewrite <- pattern_quoted in Hnew by done.
  destruct (folder_paths path f l Hl) as [[l' Hlast] Hunder].
  assert (Forall (fun e => one_line e = true) (pending self m ++ (deletion_entry <$> l))) as Hall.
  { apply Forall_app. split; [done|]. apply Forall_fmap. eapply Forall_impl; [exact Hlines|]. apply one_line_entry. }
  assert (mark_for_delete self path m = (set_pending self (pending self m ++ (deletion_entry <$> l)) m, Ok tt)) as Hmark.
  { unfold mark_for_delete, sem_lift, mbind, sem_bind. rewrite Hpaths, Hl. cbn [map_err]. apply mark_paths_memory. }
  eexists _, _. split; [exact Hmark|]. rewrite pending_set by done. split; [done|].
  split; [by rewrite Hlast, last_snoc|]. split; [by apply cancel_memory|].
  rewrite (pending_set self (pending self m ++ _) m) by done. rewrite filter_app, (filter_marked path re l Hre Hunder), app_nil_r.
  assert (filter (fun e => re e = false) (pending self m) =
          filter (fun e => String.prefix (deletion_entry path) e = false) (pending self m)) as Hf.
  { apply list_filter_iff. intros e. by rewrite Hre. }
  rewrite Hf. split.
  - apply pending_set. apply Forall_forall. intros e [_ He]%list_elem_of_filter. by apply (proj1 (Forall_forall _ _) Hold).
  - intros k Hk. unfold set_pending. by rewrite !write_value_other.
Qed.

(** ** Install files *)
Definition app_key self (name : string) : string := child (key_of self "SOFTWARE") name.
(** The value [InstallFiles] of an application. *)
Definition installed self m (name : string) : option string :=
  (values <$> m !! app_key self name) ≫= (.!! "InstallFiles").
Definition write_installed self (name text : string) m : Memory :=
  <[app_key self name :=
      MkMemoryEntry (<["InstallFiles" := text]> (default ∅ (values <$> m !! app_key self name)))]> m.

Lemma installed_write self name text m : installed self (write_installed self name text m) name = Some text.
Proof. unfold installed, write_installed. rewrite lookup_insert_eq. cbn. by rewrite lookup_insert_eq. Qed.

Lemma software_app self name : app_key self name <> key_of self "SOFTWARE".
Proof.
  unfold app_key, child. intros H. apply (f_equal str_len) in H. rewrite str_len_app in H. cbn [str_len] in H. lia.
Qed.
Lemma software_write self name text m :
  is_Some (m !! key_of self "SOFTWARE") -> is_Some (write_installed self name text m !! key_of self "SOFTWARE").
Proof. intros H. unfold write_installed. rewrite lookup_insert_ne; [done|]. apply software_app. Qed.

(** Creating the key of the application and then writing its value. *)
Lemma create_write self name text m :
  is_Some (m !! key_of self "SOFTWARE") ->
  (key ← memory_open_subkey (re_registry self) "SOFTWARE"; key ← memory_create_subkey key name;
   memory_set_value key "InstallFiles" text) m = (write_installed self name text m, Ok tt).
Proof.
  intros [entry Hs]. unfold memory_open_subkey, memory_create_subkey, memory_set_value, sem_ask, mbind, sem_bind.
  fold (key_of self "SOFTWARE"). rewrite Hs. cbn [mbind option_bind ok_or]. fold (app_key self name).
  unfold write_installed. destruct (m !! app_key self name) as [e|] eqn:Hm.
  - by rewrite Hm.
  - by rewrite lookup_insert_eq, insert_insert_eq.
Qed.

Lemma get_install_memory self name m :
  is_Some (m !! key_of self "SOFTWARE") ->
  get_install_files self name m =
  match installed self m name with
  | Some text => (m, Ok (str_split semicolon text))
  | None => (write_installed self name EmptyString m, Ok [])
  end.
Proof.
  intros [entry Hs]. unfold get_install_files. rewrite memory_transaction.
  unfold install_files_of, not_found, sem_map_err, sem_or_else, mbind, sem_bind, mret, sem_ret.
  cbn [open_subkey_transacted_with_flags create_subkey get_value set_value MemoryKey].
  unfold memory_open_subkey, memory_create_subkey, memory_get_value, memory_set_value, sem_ask.
  fold (key_of self "SOFTWARE"). rewrite Hs. cbn [mbind option_bind ok_or]. fold (app_key self name).
  unfold installed, write_installed. destruct (m !! app_key self name) as [e|] eqn:Hm.
  - rewrite Hm. cbn. destruct (values e !! "InstallFiles"); [done|]. cbn. by rewrite Hm.
  - rewrite lookup_insert_eq. cbn. rewrite lookup_empty. cbn. by rewrite lookup_insert_eq, insert_insert_eq.
Qed.

Lemma register_install_memory self name file m :
  is_Some (m !! key_of self "SOFTWARE") ->
  register_install_file self name file m =
  (write_installed self name
     (str_join ";" (match installed self m name with Some text => str_split semicolon text | None => [] end ++ [file])) m,
   Ok tt).
Proof.
  intros Hs. unfold register_install_file, mbind at 1, sem_bind at 1. rewrite get_install_memory by done.
  unfold sem_map_err. cbn [open_subkey create_subkey set_value MemoryKey].
  destruct (installed self m name) as [text|].
  - by rewrite create_write.
  - rewrite create_write by by apply software_write. f_equal. unfold write_installed.
    rewrite lookup_insert_eq, insert_insert_eq. cbn. by rewrite insert_insert_eq.
Qed.

Lemma register_all self name done_ files m :
  is_Some (m !! key_of self "SOFTWARE") -> Forall (fun f => lacks semicolon f = true) (done_ ++ files) ->
  installed self m name = (if done_ is [] then None else Some (str_join ";" done_)) ->
  exists m', sem_try_for_each (register_install_file self name) files m = (m', Ok tt) /\
    is_Some (m' !! key_of self "SOFTWARE") /\
    installed self m' name = (if done_ ++ files is [] then None else Some (str_join ";" (done_ ++ files))).
Proof.
  revert done_ m. induction files as [|file files IH]; intros done_ m Hs Hall Hin.
  - exists m. by rewrite app_nil_r.
  - cbn [sem_try_for_each]. unfold mbind at 1, sem_bind at 1. rewrite register_install_memory by done.
    assert (match installed self m name with Some text => str_split semicolon text | None => [] end = done_) as ->.
    { rewrite Hin. destruct done_ as [|d ds]; [done|]. change ";" with (String semicolon EmptyString).
      apply str_split_join; [done|]. by apply Forall_app in Hall as [Hall _]. }
    rewrite (cons_middle file done_ files) in *. rewrite app_assoc in Hall |- *.
    apply IH; [by apply software_write|done|]. rewrite installed_write. by destruct done_.
Qed.

(** Install files registered one after the other are read back in order;
    but asking before any was registered makes the next answer one file without
    a name, and clearing them always fails, because they are a value of the
    application's key and not the key below it that is deleted. *)
Theorem install_files_kept self name m files :
  is_Some (m !! key_of self "SOFTWARE") -> installed self m name = None ->
  files <> [] -> Forall (fun f => lacks semicolon f = true) files ->
  m !! child (app_key self name) "InstallFiles" = None ->
  (exists m', sem_try_for_each (register_install_file self name) files m = (m', Ok tt) /\
     get_install_files self name m' = (m', Ok files)) /\
  (get_install_files self name m).2 = Ok [] /\
  (get_install_files self name (get_install_files self name m).1).2 = Ok [EmptyString] /\
  is_ok (clear_install_files self name m).2 = false.
Proof.
  intros Hs Hnone Hne Hall Hsub. split; [|split; [|split]].
  - destruct (register_all self name [] files m Hs Hall Hnone) as (m' & Hrun & Hs' & Hin). exists m'. split; [done|].
    rewrite get_install_memory, Hin by done. cbn [app]. destruct files as [|f fs]; [done|].
    change ";" with (String semicolon EmptyString). by rewrite str_split_join.
  - rewrite get_install_memory by done. by rewrite Hnone.
  - rewrite (get_install_memory self name m) by done. rewrite Hnone. cbn [fst].
    rewrite get_install_memory by (by apply software_write). by rewrite installed_write.
  - unfold clear_install_files. rewrite memory_transaction. destruct Hs as [entry Hs].
    unfold sem_map_err, mbind, sem_bind. cbn [open_subkey_transacted_with_flags open_subkey delete_subkey_all MemoryKey].
    unfold memory_open_subkey, memory_delete_subkey_all, sem_ask. fold (key_of self "SOFTWARE"). rewrite Hs.
    cbn [mbind option_bind ok_or]. fold (app_key self name). destruct (m !! app_key self name); [|done].
    cbn [mbind option_bind ok_or]. by rewrite Hsub.
Qed.
End memory_props.

(** ** Witnesses *)
Module Installer.
#[local] Existing Instance key_order.

(** Patterns of a quoted text; parentheses only group. *)
Fixpoint unquote (s : string) : string :=
  match s with
  | EmptyString => EmptyString
  | String c s' =>
      if (N_of_ascii c =? 92)%N then match s' with String d s'' => String d (unquote s'') | EmptyString => EmptyString end
      else if (N_of_ascii c =? 46)%N then EmptyString
      else if (N_of_ascii c =? 40)%N || (N_of_ascii c =? 41)%N then unquote s'
      else String c (unquote s')
  end.
#[local] Instance grouping_regex : RegexCrate := {|
  regex_new := fun pattern =>
    match pattern with String _ pattern => Ok (String.prefix (unquote pattern)) | EmptyString => Err "empty" end |}.

Lemma unquote_quote s t :
  forallb (fun c => plain_char c || (N_of_ascii c =? 63)%N) (String.list_ascii_of_string s) = true ->
  unquote (regex_quote s +:+ t) = s +:+ unquote t.
Proof.
  induction s as [|c s IH]; [done|]. cbn [String.list_ascii_of_string forallb]. intros [Hc Hs]%andb_true_iff.
  specialize (IH Hs). change (String c s +:+ ?x) with (String c (s +:+ x)). rewrite <- IH.
  destruct c as [[] [] [] [] [] [] [] []]; vm_compute in Hc; done || reflexivity.
Qed.
Lemma grouping_literals : matches_literals.
Proof.
  intros path Hp. eexists. split; [reflexivity|]. intros s. f_equal.
  rewrite unquote_quote; [apply str_app_nil|]. unfold deletion_entry.
  change (forallb ?f (String.list_ascii_of_string ("\??\" +:+ path))) with
    (forallb f (String.list_ascii_of_string path)).
  unfold plain_text in Hp. rewrite forallb_forall in Hp |- *. intros c Hc. by rewrite (Hp c Hc).
Qed.

Definition machine : RegistryEditor (T := gmap string MemoryEntry) :=
  MkRegistryEditor (T := gmap string MemoryEntry) "HKLM"
    (fun path => get_folder_paths path (FFolder (Ok [Ok ("avery.exe", FFile); Ok ("lib", FFolder (Ok [Ok ("a.dll", FFile)]))]))).
Definition registry (path : string) : gmap string MemoryEntry :=
  {[ "HKLM\SYSTEM\CurrentControlSet\Control\Session Manager\Environment" := MkMemoryEntry {[ "Path" := path ]};
     "HKLM\SYSTEM\CurrentControlSet\Control\Session Manager" :=
       MkMemoryEntry {[ PENDING_OPERATIONS := "\??\C:\Temp\a.tmp" +:+ newline +:+ newline ]};
     "HKLM\SOFTWARE" := memory_default ]}.
Definition removed (path loc : string) : option string :=
  path_of machine (remove_from_path machine loc (registry path)).1.

(** A folder whose name extends another's breaks the PATH when that is removed. *)
Example removing_joins_entries : removed "C:\Windows;C:\Firm;C:\Firmware;D:\x" "C:\Firm" = Some "C:\Windowsware;D:\x".
Proof. vm_compute. reflexivity. Qed.
(** Deletions below a path with parentheses are not cancelled. *)
Example parentheses_not_cancelled :
  let m := (mark_for_delete machine "C:\Program Files (x86)\Firm" (registry "C:\Windows")).1 in
  length (pending machine m) = 5 /\
  length (pending machine (cancel_pending_deletions machine "C:\Program Files (x86)\Firm" m).1) = 5.
Proof. vm_compute. done. Qed.

Lemma remove_from_path_entries_witness :
  removed "C:\Windows;C:\Firm;D:\x;C:\Firm" "C:\Firm" = Some "C:\Windows;D:\x" /\
  exists m', remove_from_path machine "C:\Firm" (registry "C:\Windows;C:\Firm;D:\x") = (m', Ok tt).
Proof.
  split; [vm_compute; reflexivity|].
  destruct (remove_from_path_entries machine (registry "C:\Windows;C:\Firm;D:\x") "C:\Windows;C:\Firm;D:\x"
    "C:\Windows" ["C:\Firm"; "D:\x"] "C:\Firm" eq_refl eq_refl eq_refl) as (m' & Hm' & _).
  - intros e He Hp. apply elem_of_cons in He as [->|He]; [reflexivity|]. apply list_elem_of_singleton in He as ->. discriminate.
  - exists m'. exact Hm'.
Defined.

Lemma path_add_remove_witness : exists m1 m2,
  add_to_path machine "C:\Firm" (registry "C:\Windows;D:\x") = (m1, Ok tt) /\
  path_of machine m1 = Some "C:\Windows;D:\x;C:\Firm" /\ path_of machine m2 = Some "C:\Windows;D:\x".
Proof.
  destruct (path_add_remove machine (registry "C:\Windows;D:\x") "C:\Windows;D:\x" "C:\Firm" eq_refl eq_refl eq_refl)
    as (m1 & m2 & H1 & H2 & _ & H3 & _).
  exists m1, m2. split; [exact H1|]. split; [exact H2|exact H3].
Defined.

Lemma mark_then_cancel_witness : exists m1 m2,
  mark_for_delete machine "C:\Firm" (registry "C:\Windows") = (m1, Ok tt) /\
  pending machine m1 = ["\??\C:\Temp\a.tmp"; "\??\C:\Firm\avery.exe"; "\??\C:\Firm\lib\a.dll"; "\??\C:\Firm\lib"; "\??\C:\Firm"] /\
  pending machine m2 = ["\??\C:\Temp\a.tmp"].
Proof.
  destruct (mark_then_cancel machine "C:\Firm"
    (FFolder (Ok [Ok ("avery.exe", FFile); Ok ("lib", FFolder (Ok [Ok ("a.dll", FFile)]))]))
    ["C:\Firm\avery.exe"; "C:\Firm\lib\a.dll"; "C:\Firm\lib"; "C:\Firm"] (registry "C:\Windows")
    grouping_literals eq_refl eq_refl eq_refl) as (m1 & m2 & H1 & H2 & _ & _ & H3 & _).
  - repeat constructor.
  - vm_compute. repeat constructor.
  - exists m1, m2. split; [exact H1|]. split; [exact H2|exact H3].
Defined.

Lemma install_files_kept_witness : exists m',
  sem_try_for_each (register_install_file machine "Firm") ["C:\Firm\avery.exe"; "C:\Firm\lomax.exe"] (registry "C:\Windows")
  = (m', Ok tt) /\ get_install_files machine "Firm" m' = (m', Ok ["C:\Firm\avery.exe"; "C:\Firm\lomax.exe"]) /\
  is_ok (clear_install_files machine "Firm" (registry "C:\Windows")).2 = false.
Proof.
  destruct (install_files_kept machine "Firm" (registry "C:\Windows") ["C:\Firm\avery.exe"; "C:\Firm\lomax.exe"])
    as ((m' & H1 & H2) & _ & _ & H3).
  - by eexists.
  - reflexivity.
  - discriminate.
  - repeat constructor.
  - reflexivity.
  - exists m'. split; [exact H1|]. split; [exact H2|exact H3].
Defined.

Lemma apply_transaction_ends_witness : exists s',
  apply_transaction (RK := MemoryKey) (sem_lift (Err (FailedToSetFileDeletion "no"))) tt (registry "x")
    = (s', Err (A := unit) (FailedToSetFileDeletion "no")) /\
  rolled_back (RK := MemoryKey) tt (registry "x") s'.
Proof.
  exists (registry "x"). split; [reflexivity|].
  destruct (apply_transaction_ends (RK := MemoryKey) (A := unit)
    (sem_lift (Err (FailedToSetFileDeletion "no"))) tt (registry "x") (registry "x") _ eq_refl) as [[_ H]|(io & H & _)].
  - exact H.
  - discriminate.
Defined.
End Installer.
