(* ===== verification/WinService.v ===== *)
(** * Windows services (libraries/rust/windows-install/src/service.rs, service_manager.rs)

    Creating, opening, starting, stopping, deleting and enumerating services,
    over the calls of the Windows API they make ([WinApi]).  A call that gives
    NULL or 0 gives [None] or [false] here, and its reason is asked for with
    [get_last_error].  What [EnumServicesStatusW] writes to its buffer is its
    answer [EnumAnswer]; names are given and found as UTF-16 units up to a
    zero.  Handles are not closed: nothing depends on it. *)
From S2P Require Import Prelude WinText.
From Stdlib Require Import Ascii.

(** ** Steps that may not end

    [None]: the step has not ended with the fuel given. *)
Definition io (W E A : Type) : Type := W -> option (W * result E A).
#[export] Instance io_ret {W E} : MRet (io W E) := fun _ a w => Some (w, Ok a).
#[export] Instance io_bind {W E} : MBind (io W E) := fun _ _ f m w =>
  match m w with
  | Some (w', Ok a) => f a w'
  | Some (w', Err e) => Some (w', Err e)
  | None => None
  end.
Definition io_sem {W E A} (m : sem W E A) : io W E A := fun w => Some (m w).
Definition io_map_err {W E F A} (f : E -> F) (m : io W E A) : io W F A :=
  fun w => match m w with Some (w', r) => Some (w', map_err f r) | None => None end.
(** [unwrap_or_else] on the error. *)
Definition io_catch {W E F A} (m : io W E A) (h : E -> io W F A) : io W F A :=
  fun w => match m w with
           | Some (w', Ok a) => Some (w', Ok a)
           | Some (w', Err e) => h e w'
           | None => None
           end.
Fixpoint io_try_for_each {W E A} (f : A -> io W E unit) (l : list A) : io W E unit :=
  match l with
  | [] => mret tt
  | a :: l' => _ ← f a; io_try_for_each f l'
  end.

(** ** Wide strings *)
Definition utf16 (n : N) : list N :=
  if (n <? 65536)%N then [n]
  else [55296 + (n - 65536) / 1024; 56320 + (n - 65536) mod 1024]%N.
Definition encode_wide (s : string) : list N := code_points s ≫= utf16.
Definition win_string (s : string) : list N := encode_wide s ++ [0%N].

Definition high_surrogate (u : N) : bool := (55296 <=? u)%N && (u <? 56320)%N.
Definition low_surrogate (u : N) : bool := (56320 <=? u)%N && (u <? 57344)%N.
Definition replacement : N := 65533.
(** [to_string_lossy]: half a pair becomes the replacement character. *)
Fixpoint decode_wide (l : list N) : list N :=
  match l with
  | [] => []
  | u :: l' =>
      if high_surrogate u then
        match l' with
        | v :: l'' =>
            if low_surrogate v then (65536 + (u - 55296) * 1024 + (v - 56320))%N :: decode_wide l''
            else replacement :: decode_wide l'
        | [] => [replacement]
        end
      else if low_surrogate u then replacement :: decode_wide l'
      else u :: decode_wide l'
  end.
Definition ch (n : N) : string := String (ascii_of_N n) EmptyString.
Definition utf8 (n : N) : string :=
  if (n <? 128)%N then ch n
  else if (n <? 2048)%N then ch (192 + n / 64) +:+ ch (128 + n mod 64)
  else if (n <? 65536)%N then ch (224 + n / 4096) +:+ ch (128 + n / 64 mod 64) +:+ ch (128 + n mod 64)
  else ch (240 + n / 262144) +:+ ch (128 + n / 4096 mod 64) +:+ ch (128 + n / 64 mod 64) +:+ ch (128 + n mod 64).
Definition of_code_points (l : list N) : string := foldr (fun n acc => utf8 n +:+ acc) EmptyString l.
Fixpoint until_zero (l : list N) : list N :=
  match l with
  | [] => []
  | u :: l' => if (u =? 0)%N then [] else u :: until_zero l'
  end.
(** The text at a pointer: the units in memory from there on. *)
Definition parse_str_ptr (str_ptr : list N) : string := of_code_points (decode_wide (until_zero str_ptr)).

(** ** The Windows API *)
Record EnumAnswer := MkEnumAnswer {
  es_ok : bool;
  es_required : N;
  es_services : list (list N);
  es_resume : N
}.
Class WinApi (W : Type) := {
  sc_handle : Type;
  get_last_error : W -> N;
  open_sc_manager : N -> W -> W * option sc_handle;
  open_service : sc_handle -> list N -> N -> W -> W * option sc_handle;
  create_service_w : sc_handle -> list N -> list N -> N -> N -> N -> N -> list N -> W -> W * option sc_handle;
  delete_service_w : sc_handle -> W -> W * bool;
  start_service_w : sc_handle -> W -> W * bool;
  control_service : sc_handle -> N -> W -> W * bool;
  query_service_status : sc_handle -> W -> W * option N;
  enum_services_status : sc_handle -> N -> N -> N -> N -> W -> W * EnumAnswer;
  instant_now : W -> N;
  thread_sleep : N -> W -> W
}.
Definition ERROR_MORE_DATA : N := 234.
Definition ERROR_SERVICE_DOES_NOT_EXIST : N := 1060.
Definition ERROR_SERVICE_NOT_ACTIVE : N := 1062.
Definition DELETE : N := 65536.
Definition GENERIC_ALL : N := 268435456.
Definition SC_MANAGER_CREATE_SERVICE : N := 2.
Definition SC_MANAGER_ENUMERATE_SERVICE : N := 4.
Definition SERVICE_QUERY_STATUS : N := 4.
Definition SERVICE_START : N := 16.
Definition SERVICE_STOP : N := 32.
Definition SERVICE_AUTO_START : N := 2.
Definition SERVICE_ERROR_NORMAL : N := 1.
Definition SERVICE_USER_OWN_PROCESS : N := 80.
Definition SERVICE_WIN32_OWN_PROCESS : N := 16.
Definition SERVICE_STATE_ALL : N := 3.
Definition SERVICE_CONTROL_STOP : N := 1.
Definition SERVICE_STOPPED : N := 1.

(** ** service.rs *)
Inductive ServiceError :=
| ServiceDoesNotExist (name : string)
| WinApiError
| FailedToCreateService (name : string)
| FailedToGetService (name : string)
| FailedToStartService (name : string)
| FailedToDeleteService (name : string)
| FailedToGetServiceStatus (name : string)
| TimedOutStoppingService (seconds : N) (name : string)
| FailedToStopService (name : string)
| FailedToGetServiceManager
| FailedToLookupServices.
Definition service_exit_code (e : ServiceError) : N :=
  match e with
  | ServiceDoesNotExist _ => 30 | WinApiError => 31 | FailedToCreateService _ => 32
  | FailedToGetService _ => 33 | FailedToStartService _ => 34 | FailedToDeleteService _ => 35
  | FailedToGetServiceStatus _ => 36 | TimedOutStoppingService _ _ => 37 | FailedToStopService _ => 38
  | FailedToGetServiceManager => 39 | FailedToLookupServices => 40
  end%N.

Section services.
Context {W : Type} {WA : WinApi W}.

Record WinHandle := MkWinHandle { wh_name : string; wh_handle : sc_handle }.
Definition answer {A B} (call : W -> W * A) (f : A -> W -> result ServiceError B) : sem W ServiceError B :=
  fun w => let '(w', a) := call w in (w', f a w').
Definition succeeded (e : ServiceError) (call : W -> W * bool) : sem W ServiceError unit :=
  answer call (fun b _ => if b : bool then Ok tt else Err e).

Definition get_service_manager (permissions : N) : sem W ServiceError WinHandle :=
  answer (open_sc_manager permissions) (fun h _ =>
    match h with
    | Some h => Ok (MkWinHandle "Service Manager" h)
    | None => Err FailedToGetServiceManager
    end).
Definition get_service_handle (manager_handle : WinHandle) (name : string) : sem W ServiceError WinHandle :=
  answer (open_service (wh_handle manager_handle) (win_string name)
            (N.lor DELETE (N.lor SERVICE_START (N.lor SERVICE_STOP SERVICE_QUERY_STATUS))))
    (fun h w =>
       match h with
       | Some h => Ok (MkWinHandle name h)
       | None => if (get_last_error w =? ERROR_SERVICE_DOES_NOT_EXIST)%N then Err (ServiceDoesNotExist name)
                 else Err (FailedToGetService name)
       end).
(** Arguments are added to the quoted path of the program. *)
Definition service_command (path : string) (args : list string) : string :=
  foldl (fun acc arg => acc +:+ " " +:+ arg) (quoted path) args.
Definition create_service (name path : string) (handle : WinHandle) (args : list string) (service_type : N)
  : sem W ServiceError WinHandle :=
  answer (create_service_w (wh_handle handle) (win_string name) (win_string name) (N.lor GENERIC_ALL SERVICE_START)
            service_type SERVICE_AUTO_START SERVICE_ERROR_NORMAL (win_string (service_command path args)))
    (fun h _ =>
       match h with
       | Some h => Ok (MkWinHandle name h)
       | None => Err (FailedToCreateService name)
       end).
Definition delete_service (service : WinHandle) : sem W ServiceError unit :=
  succeeded (FailedToDeleteService (wh_name service)) (delete_service_w (wh_handle service)).
Definition start_service (service : WinHandle) : sem W ServiceError unit :=
  succeeded (FailedToStartService (wh_name service)) (start_service_w (wh_handle service)).
Definition get_service_status (service : WinHandle) : sem W ServiceError N :=
  answer (query_service_status (wh_handle service)) (fun s _ =>
    ok_or (FailedToGetServiceStatus (wh_name service)) s).

(** *** Stopping: at most ten seconds, in nanoseconds of the clock *)
Definition TIMEOUT_SECONDS : N := 10.
Definition seconds (n : N) : N := n * 1000000000.
Definition poll_interval : N := 100 * 1000000.
Fixpoint wait_stopped (fuel : nat) (service : WinHandle) (timeout : N) : io W ServiceError unit :=
  match fuel with
  | 0 => fun _ => None
  | Datatypes.S fuel =>
      state ← io_sem (get_service_status service);
      running ← io_sem (sem_ask (fun w => Ok (negb (state =? SERVICE_STOPPED)%N && (instant_now w <? timeout)%N)));
      if running : bool then
        _ ← io_sem (sem_modify (thread_sleep poll_interval));
        wait_stopped fuel service timeout
      else mret tt
  end.
Definition control_stop (service : WinHandle) : sem W ServiceError unit :=
  answer (control_service (wh_handle service) SERVICE_CONTROL_STOP) (fun ok w =>
    if negb ok && negb (get_last_error w =? ERROR_SERVICE_NOT_ACTIVE)%N
    then Err (FailedToStopService (wh_name service)) else Ok tt).
Definition stop_service (fuel : nat) (service : WinHandle) : io W ServiceError unit :=
  _ ← io_sem (control_stop service);
  timeout ← io_sem (sem_ask (fun w => Ok (instant_now w + seconds TIMEOUT_SECONDS)%N));
  _ ← wait_stopped fuel service timeout;
  io_sem (sem_ask (fun w =>
    if (timeout <? instant_now w)%N then Err (TimedOutStoppingService TIMEOUT_SECONDS (wh_name service)) else Ok tt)).

(** *** Enumerating user services *)
Record UserServiceEnumerator := MkEnumerator {
  en_manager : WinHandle;
  en_buffer : list WinHandle;
  en_resume : N;
  en_required : N
}.
(** The handles of the services that can be opened. *)
Fixpoint open_all (manager : WinHandle) (names : list (list N)) (w : W) : W * list WinHandle :=
  match names with
  | [] => (w, [])
  | name :: names' =>
      let '(w1, r) := get_service_handle manager (parse_str_ptr name) w in
      let '(w2, handles) := open_all manager names' w1 in
      (w2, match r with Ok h => h :: handles | Err _ => handles end)
  end.
(** The required size and the page, updated by the call, and the services. *)
Definition list_services (manager_handle : WinHandle) (required page : N)
  : W -> W * ((N * N) * result ServiceError (list WinHandle)) :=
  fun w =>
    let '(w1, a) := enum_services_status (wh_handle manager_handle) SERVICE_USER_OWN_PROCESS SERVICE_STATE_ALL
                      required page w in
    if negb (es_ok a) && negb (get_last_error w1 =? ERROR_MORE_DATA)%N
    then (w1, ((es_required a, es_resume a), Err FailedToLookupServices))
    else let '(w2, handles) := open_all manager_handle (es_services a) w1 in
         (w2, ((es_required a, es_resume a), Ok handles)).
Definition enumerator_try_new (manager_handle : WinHandle) : sem W ServiceError UserServiceEnumerator :=
  fun w =>
    let '(w1, a) := enum_services_status (wh_handle manager_handle) SERVICE_USER_OWN_PROCESS SERVICE_STATE_ALL 0 0 w in
    if negb (es_ok a) && (get_last_error w1 =? ERROR_MORE_DATA)%N then
      let '(w2, ((required, resume), r)) := list_services manager_handle (es_required a) (es_resume a) w1 in
      (w2, (fun buffer => MkEnumerator manager_handle buffer resume required) <$> r)
    else (w1, Err FailedToLookupServices).
(** [buffer.pop()]: the last one. *)
Definition pop (l : list WinHandle) : option (WinHandle * list WinHandle) :=
  match rev l with [] => None | h :: l' => Some (h, rev l') end.
Definition enumerator_next (self : UserServiceEnumerator) : W -> W * (UserServiceEnumerator * option WinHandle) :=
  fun w =>
    match pop (en_buffer self) with
    | Some (h, buffer) => (w, (MkEnumerator (en_manager self) buffer (en_resume self) (en_required self), Some h))
    | None =>
        let '(w', ((required, resume), r)) := list_services (en_manager self) (en_required self) (en_resume self) w in
        let buffer := match r with Ok l => l | Err _ => [] end in
        match pop buffer with
        | Some (h, buffer) => (w', (MkEnumerator (en_manager self) buffer resume required, Some h))
        | None => (w', (MkEnumerator (en_manager self) buffer resume required, None))
        end
    end.
Fixpoint enumerate (fuel : nat) (self : UserServiceEnumerator) : io W ServiceError (list WinHandle) :=
  match fuel with
  | 0 => fun _ => None
  | Datatypes.S fuel =>
      next ← io_sem (fun w => let '(w', next) := enumerator_next self w in (w', Ok next));
      match next with
      | (_, None) => mret []
      | (self', Some h) => handles ← enumerate fuel self'; mret (h :: handles)
      end
  end.
Definition get_services (fuel : nat) (service_manager : WinHandle) (filter_ : string) : io W ServiceError (list WinHandle) :=
  enumerator ← io_sem (enumerator_try_new service_manager);
  services ← enumerate fuel enumerator;
  mret (filter (fun n => String.prefix filter_ (wh_name n) = true) services).

Definition start_service_list (services : list WinHandle) : io W ServiceError unit :=
  io_try_for_each (fun s => io_sem (start_service s)) services.

(** ** service_manager.rs *)
Definition service_stop (fuel : nat) (self : WinHandle) : io W ServiceError WinHandle :=
  _ ← stop_service fuel self; mret self.
Definition service_start (self : WinHandle) : io W ServiceError unit := io_sem (start_service self).
Definition service_delete (self : WinHandle) : io W ServiceError unit := io_sem (delete_service self).
Definition service_manager_try_new : io W ServiceError WinHandle :=
  io_sem (get_service_manager (N.lor SC_MANAGER_ENUMERATE_SERVICE (N.lor DELETE SC_MANAGER_CREATE_SERVICE))).
Definition manager_get_service (self : WinHandle) (name : string) : io W ServiceError WinHandle :=
  io_sem (get_service_handle self name).
Definition start_services (fuel : nat) (self : WinHandle) (filter_ : string) : io W ServiceError unit :=
  services ← get_services fuel self filter_;
  io_try_for_each (fun s => io_sem (start_service s)) services.
Definition manager_get_services (fuel : nat) (self : WinHandle) (filter_ : string) : io W ServiceError (list WinHandle) :=
  get_services fuel self filter_.
Definition stop_services (fuel : nat) (self : WinHandle) (filter_ : string) : io W ServiceError unit :=
  services ← get_services fuel self filter_;
  io_try_for_each (stop_service fuel) services.
Definition manager_start_service (self : WinHandle) (name : string) : io W ServiceError unit :=
  service ← io_sem (get_service_handle self name); io_sem (start_service service).
Definition manager_stop_service (fuel : nat) (self : WinHandle) (name : string) : io W ServiceError unit :=
  service ← io_sem (get_service_handle self name); stop_service fuel service.
Definition manager_delete_service (self : WinHandle) (name : string) : io W ServiceError unit :=
  service ← io_sem (get_service_handle self name); io_sem (delete_service service).
Definition create_user_service (self : WinHandle) (name path : string) (args : list string) : io W ServiceError WinHandle :=
  io_sem (create_service name path self args SERVICE_USER_OWN_PROCESS).
Definition create_system_service (self : WinHandle) (name path : string) (args : list string) : io W ServiceError WinHandle :=
  io_sem (create_service name path self args SERVICE_WIN32_OWN_PROCESS).
End services.

(** ** Stopping ends *)
Section stopping.
Context {W : Type} {WA : WinApi W}.
Variable service : WinHandle.

(** The clock does not go back, and sleeping takes at least as long as asked. *)
Class Clock : Prop := {
  status_forward : forall h w, (instant_now w <= instant_now (query_service_status h w).1)%N;
  sleep_forward : forall n w, (instant_now w + n <= instant_now (thread_sleep n w))%N
}.
Context {CL : Clock}.

(** How waiting ends: the last poll saw the service stopped or was too late, or
    a poll failed. *)
Definition waited (timeout : N) (w' : W) (r : result ServiceError unit) : Prop :=
  exists w0 state, query_service_status (wh_handle service) w0 = (w', state) /\
    match state with
    | None => r = Err (FailedToGetServiceStatus (wh_name service))
    | Some state => r = Ok tt /\ (state = SERVICE_STOPPED \/ (timeout <= instant_now w')%N)
    end.

Lemma wait_ends fuel timeout w :
  (timeout <= instant_now w + N.of_nat fuel * poll_interval)%N ->
  exists w' r, wait_stopped (Datatypes.S fuel) service timeout w = Some (w', r) /\ waited timeout w' r.
Proof.
  revert w. induction fuel as [|fuel IH]; intros w Hw; remember (Datatypes.S _) as n eqn:Hn; rewrite Hn;
    cbn [wait_stopped]; subst n; unfold mbind, io_bind, io_sem, get_service_status, answer, sem_ask, sem_modify;
    pose proof (status_forward (wh_handle service) w) as Hc;
    destruct (query_service_status (wh_handle service) w) as [w1 [state|]] eqn:Hq; cbn [ok_or fst] in *;
    try (eexists _, _; split; [done|]; by exists w, None).
  - replace (instant_now w1 <? timeout)%N with false by (symmetry; apply N.ltb_ge; lia). rewrite andb_false_r.
    eexists _, _. split; [done|]. exists w, (Some state). split; [done|]. split; [done|]. right. lia.
  - destruct (negb (state =? SERVICE_STOPPED)%N && (instant_now w1 <? timeout)%N) eqn:Hr.
    + apply IH. pose proof (sleep_forward poll_interval w1). lia.
    + eexists _, _. split; [done|]. exists w, (Some state). split; [done|]. split; [done|].
      apply andb_false_iff in Hr as [Hr|Hr]; [left|right].
      * by apply negb_false_iff, N.eqb_eq in Hr.
      * by apply N.ltb_ge in Hr.
Qed.

(** Stopping a service always ends: after at most 101 polls it is answered
    that the control was refused, that a poll failed, that it took more than ten
    seconds, or that the service is stopped, which a poll saw unless the last one
    came exactly at the end of the ten seconds.  A service that the last poll saw
    stopped after the ten seconds is reported as not stopped. *)
Theorem stop_service_ends fuel w :
  101 <= fuel ->
  exists w' r, stop_service fuel service w = Some (w', r) /\
    let w1 := (control_stop service w).1 in
    let timeout := (instant_now w1 + seconds TIMEOUT_SECONDS)%N in
    match r with
    | Ok _ => exists w0 state, query_service_status (wh_handle service) w0 = (w', Some state) /\
                (state = SERVICE_STOPPED \/ instant_now w' = timeout) /\ (instant_now w' <= timeout)%N
    | Err e => (control_stop service w = (w', Err e) /\ e = FailedToStopService (wh_name service)) \/
               (e = FailedToGetServiceStatus (wh_name service) /\
                exists w0, query_service_status (wh_handle service) w0 = (w', None)) \/
               (e = TimedOutStoppingService TIMEOUT_SECONDS (wh_name service) /\ (timeout < instant_now w')%N)
    end.
Proof.
  intros Hf. unfold stop_service. unfold mbind at 1, io_bind at 1, io_sem at 1.
  destruct (control_stop service w) as [w1 [[]|e]] eqn:Hc; cbn [fst].
  2: { eexists _, _. split; [done|]. left. split; [done|]. revert Hc. unfold control_stop, answer.
       destruct (control_service _ _ w) as [w2 ok]. destruct (_ && _); by intros [= _ <-]. }
  unfold mbind at 1, io_bind at 1, io_sem at 1, sem_ask at 1.
  set (timeout := (instant_now w1 + seconds TIMEOUT_SECONDS)%N). unfold mbind, io_bind.
  destruct (wait_ends (fuel - 1) timeout w1) as (w' & r & Hw & w0 & state & Hq & Hr).
  { unfold timeout, seconds, TIMEOUT_SECONDS, poll_interval. lia. }
  replace (Datatypes.S (fuel - 1)) with fuel in Hw by lia. rewrite Hw. destruct state as [state|].
  - destruct Hr as [-> Hs]. unfold io_sem, sem_ask. eexists _, _. split; [done|].
    destruct (timeout <? instant_now w')%N eqn:Hl.
    + right. right. split; [done|]. by apply N.ltb_lt.
    + apply N.ltb_ge in Hl. exists w0, state. split; [done|]. split; [|done]. destruct Hs as [Hs|Hs]; [by left|right; lia].
  - subst r. eexists _, _. split; [done|]. right. left. split; [done|]. by exists w0.
Qed.
End stopping.

(** ** Witness *)
Module Scm.
(** A service that never stops; a poll takes a nanosecond of the clock, which is
    the state. *)
#[local] Instance busy : WinApi N := {|
  sc_handle := unit;
  get_last_error := fun _ => 0%N;
  open_sc_manager := fun _ w => (w, Some tt);
  open_service := fun _ _ _ w => (w, Some tt);
  create_service_w := fun _ _ _ _ _ _ _ _ w => (w, Some tt);
  delete_service_w := fun _ w => (w, true);
  start_service_w := fun _ w => (w, true);
  control_service := fun _ _ w => (w, true);
  query_service_status := fun _ w => ((w + 1)%N, Some 3%N);
  enum_services_status := fun _ _ _ _ _ w => (w, MkEnumAnswer true 0 [] 0);
  instant_now := fun w => w;
  thread_sleep := fun n w => (w + n)%N
|}.
Lemma busy_clock : Clock.
Proof. constructor; intros; cbn; lia. Qed.
Definition avery : WinHandle := MkWinHandle "Avery" (tt : sc_handle).

Lemma stop_service_ends_witness : exists w' r,
  stop_service 101 avery 5%N = Some (w', r) /\ r = Err (TimedOutStoppingService 10 "Avery").
Proof.
  destruct (stop_service_ends avery (CL := busy_clock) 101 5%N (le_n 101)) as (w' & r & Hr & _).
  exists w', r. split; [exact Hr|].
  assert (snd <$> stop_service 101 avery 5%N = Some (Err (TimedOutStoppingService 10 "Avery"))) as H
    by (vm_compute; reflexivity).
  rewrite Hr in H. injection H as H. exact H.
Defined.

(** Without a user service on the machine the services cannot be looked up. *)
Example no_user_service : snd <$> get_services 3 avery "Avery_" 0%N = Some (Err FailedToLookupServices).
Proof. vm_compute. reflexivity. Qed.
End Scm.
