(* ===== verification/AveryWindows.v ===== *)
(** * Avery on Windows (services/avery/src/windows.rs)

    Folders, the name of the user, the security descriptor of the pipe, the stream of
    connections over a chain of pipe instances ([pipe_stream]), and the service
    ([avery_service]).  [windows_system] is the [System] that [AveryStart] runs on.
    Variables and paths are Unicode; reading and writing of a pipe are the operating
    system's. *)
From S2P Require Import Prelude Interfaces Json Proto Regex Registry ProxyRegistry Config HostServices WinText WinService.
From S2P Require Import Tokens TokenStore KeyStore ExpireMap OidcLogin Access AuthStart ProxyConnect RegistryApi Executor.
From S2P Require Import FilesystemSource ProxyConnect AveryStart AveryProps.
From Stdlib Require Import Ascii.

(** [Path::join] with a relative path. *)
Definition win_separated (dir : string) : bool :=
  match String.get (str_len dir - 1) dir with
  | Some c => Ascii.eqb c "\" || Ascii.eqb c "/"
  | None => true
  end.
Definition win_join (dir name : string) : string := if win_separated dir then dir +:+ name else dir +:+ "\" +:+ name.
Definition variable (name : string) (env : Environment) : option string := (env !! name) ≫= id.

(** ** Folders *)
Definition default_runtime_dir (env : Environment) : string :=
  foldl win_join (default "C:\ProgramData" (variable "PROGRAMDATA" env)) ["Firm"; "avery"; "runtimes"].
Definition global_config_path (env : Environment) : option string := (fun p => win_join p "Firm") <$> variable "PROGRAMDATA" env.
Definition user_config_path (env : Environment) : option string :=
  (fun p => foldl win_join p ["avery"; "config"]) <$> variable "LOCALAPPDATA" env.
Definition user_cache_path (env : Environment) : option string :=
  (fun p => foldl win_join p ["avery"; "cache"]) <$> variable "LOCALAPPDATA" env.
Definition user_data_path (env : Environment) : option string := (fun p => win_join p "avery") <$> variable "LOCALAPPDATA" env.

(** ** The pipe *)
Record PipeOs := MkPipeOs {
  (** the units of the user name [GetUserNameW] writes, before the zero *)
  po_user_name : option (list N);
  po_last_error : string;
  (** [LocalAlloc] and [InitializeSecurityDescriptor] *)
  po_local_alloc : option N;
  po_initialize : N -> bool;
  (** making the first instance of a pipe with this name *)
  po_create_first : string -> option string
}.
Definition get_user (os : PipeOs) : option string := (fun units => of_code_points (decode_wide units)) <$> po_user_name os.
Record Security := MkSecurity { sec_descriptor : N; sec_inherit_handle : bool }.
Definition security_try_new (os : PipeOs) : result string Security :=
  match po_local_alloc os with
  | None => Err "Failed to allocate security descriptor"
  | Some descriptor =>
      if po_initialize os descriptor then Ok (MkSecurity descriptor false) else Err "Failed to initialize security descriptor"
  end.
Definition create_listener {JT : JsonText} (os : PipeOs) : sem AveryWorld string (Listener * option (AveryWorld -> AveryWorld)) :=
  username ← sem_lift (ok_or ("Failed to determine windows user name: " +:+ po_last_error os) (get_user os));
  let pipe_path := "\\.\pipe\avery-" +:+ username in
  _ ← sem_lift (security_try_new os);
  sem_lift match po_create_first os pipe_path with
           | Some e => Err ("Failed to create named pipe: " +:+ e)
           | None => Ok (OnPipe pipe_path, None)
           end.
Definition windows_system {JT : JsonText} (os : PipeOs) : System :=
  MkSystem global_config_path user_config_path user_cache_path user_data_path default_runtime_dir (create_listener os).

(** What happens to the open instance: a client connects or waiting for one fails; then
    the next instance is made or not. *)
Record PipeEvent := MkPipeEvent { pe_connect : bool; pe_create : option string }.
(** The stream: the instances whose clients are served, and an error that ends it. *)
Fixpoint pipe_stream (server : N) (events : list PipeEvent) : list (result string N) :=
  match events with
  | [] => []
  | e :: events =>
      if pe_connect e then
        match pe_create e with
        | Some error => [Err error]
        | None => Ok server :: pipe_stream (server + 1) events
        end
      else []
  end.
(** The clients served so far. *)
Fixpoint clients_served (events : list PipeEvent) : nat :=
  match events with
  | MkPipeEvent true None :: events => S (clients_served events)
  | _ => 0
  end.

(** Clients are served in the order they connect, each on its own instance, up to the
    first instance that cannot be waited on or followed by another one: the client of
    such an instance has connected and is dropped with an error of the stream. *)
Lemma pipe_stream_serves server events :
  pipe_stream server events =
    ((fun i => Ok (server + N.of_nat i)%N) <$> seq 0 (clients_served events)) ++
    match drop (clients_served events) events with
    | MkPipeEvent true (Some error) :: _ => [Err error]
    | _ => []
    end.
Proof.
  revert server. induction events as [|[[] [error|]] events IH]; intros server; cbn; try done.
  rewrite IH. f_equal; [f_equal; lia|]. f_equal.
  rewrite <- fmap_S_seq, <- list_fmap_compose. apply list_fmap_ext. intros i x _. cbn. f_equal. lia.
Qed.
(** Once the stream has ended nothing that happens to pipes brings a client. *)
Lemma pipe_stream_over server events more : clients_served events < length events ->
  pipe_stream server (events ++ more) = pipe_stream server events.
Proof.
  revert server. induction events as [|[[] [error|]] events IH]; intros server H; cbn in *; [lia|done| |done..].
  f_equal. apply IH. lia.
Qed.

(** ** The service *)
Section service.
Context {DL : DigestLib} {JL : JwtLib} {EL : EncodingLib} {HO : HashOrder} {UL : UuidLib} {UR : UrlLib} {PL : EndpointLib} {JT : JsonText}.
Context {SV : SemVer} {RE : RegexEngine} {CS : ConfigSources}.
Variable identity_hash : IdentityProvider -> string.
Variable from_utf8 : list byte -> result string string.
Variable documents : DocumentService.
Variable answers : RegistryConnection -> RegistryAnswers.
Variable wasi : Runtime.
Variable folder_source : FileSystemSource -> RuntimeSource.
Variable pipes : PipeOs.
Variable services : ServiceOs.
Variable os : AveryOs.
Variable w : World.
Variable key_files : gmap string (list byte).
#[local] Abbreviation Services := (ExecutionService (R := ProxyRegistry)).
#[local] Abbreviation sys := (windows_system pipes).
Definition windows_run (serve : Listener -> Services -> sem AuthService string unit) (args : AveryArgs)
    (started : sem AveryWorld string unit) : sem AveryWorld string unit :=
  run identity_hash from_utf8 documents answers wasi folder_source sys os w key_files serve args started.
Definition avery_service (serve : Listener -> Services -> sem AuthService string unit) (args : AveryArgs) : sem AveryWorld ProcessEnd unit :=
  service_main "Avery" services (windows_run serve args).
Definition avery_bootstrap (serve : Listener -> Services -> sem AuthService string unit) (service : bool) (args : AveryArgs)
  : sem AveryWorld ProcessEnd unit :=
  bootstrap "Avery" services service (windows_run serve args)
    (run_with_tokio identity_hash from_utf8 documents answers wasi folder_source sys os w key_files serve args).

(** Whether a start gets as far as saying that it runs. *)
Definition gets_to_run (args : AveryArgs) (aw : AveryWorld) : bool :=
  is_ok (prepared identity_hash from_utf8 documents answers wasi folder_source sys os w key_files args aw).2 &&
  is_ok (create_listener pipes aw).2.
Lemma create_listener_run : exists r, (forall aw, create_listener pipes aw = (aw, r)) /\ forall l c, r = Ok (l, c) -> c = None.
Proof.
  unfold create_listener, sem_lift. cbv [mbind sem_bind]. destruct (get_user pipes) as [user|]; [|by eexists]. cbn [ok_or].
  destruct (security_try_new pipes); [|by eexists]. eexists. split; [done|]. intros l c.
  destruct (po_create_first pipes _); [done|]. by intros [= _ <-].
Qed.
Definition running_reported (args : AveryArgs) (aw : AveryWorld) : list ServiceStatus :=
  if gets_to_run args aw && bool_decide (so_set_status services ServiceRunning = None) then [MkServiceStatus ServiceRunning 0] else [].
Lemma windows_run_reports serve args aw :
  vw_reported (windows_run serve args (started_callback services) aw).1 = vw_reported aw ++ running_reported args aw.
Proof.
  unfold windows_run, running_reported, gets_to_run. destruct create_listener_run as (rl & Hl & Hc).
  pose proof (run_prepared identity_hash from_utf8 documents answers wasi folder_source sys os w key_files serve args (started_callback services) aw) as Hrun.
  pose proof (same_prepared identity_hash from_utf8 documents answers wasi folder_source sys os w key_files args aw) as [_ _ _ Hrep].
  destruct (prepared _ _ _ _ _ _ _ _ _ _ args aw) as [w1 [[auth ex]|e]]; cbn [fst snd is_ok andb] in *.
  2: { destruct Hrun as (w2 & -> & _ & _ & _ & Hr). cbn. by rewrite Hr, app_nil_r. }
  rewrite Hrun, Hl, <- Hrep. unfold dropping_auth, listen_and_serve, on_world. cbv [mbind sem_bind mret sem_ret].
  cbn [sys_create_listener windows_system]. rewrite Hl.
  destruct rl as [[l c]|e]; cbn [is_ok andb snd]; [|cbn; by rewrite app_nil_r].
  unfold started_callback, set_service_status. rewrite (Hc l c eq_refl).
  destruct (so_set_status services ServiceRunning) as [e|]; cbn [map_err]; [cbn; by rewrite app_nil_r|].
  unfold serving. by destruct (serve l ex auth) as [auth' [[]|e]].
Qed.

Definition stopped_reported : list ServiceStatus :=
  if bool_decide (so_set_status services ServiceStopped = None) then [MkServiceStatus ServiceStopped 0] else [].
(** Whether the service gets to its run: the logger, the handler of control events and
    the asynchronous runtime are there. *)
Definition reaches_run : bool :=
  bool_decide (so_logger services = None) && bool_decide (so_register services = None) && bool_decide (so_runtime services = None).

(** C39: everything the service manager of Windows gets to know of a service.  Where the
    logger cannot be made (the process ends by a panic), or the handler of control
    events or the runtime, it is told nothing.  Otherwise it is told that the service
    runs, exactly if the start got that far, and then that it stopped, in each case
    unless reporting that fails; always with the exit code of success, and without a
    difference by what serving came to: a service that failed looks like one that was
    told to stop. *)
Theorem failed_service_reported_stopped serve args aw :
  vw_reported (avery_service serve args aw).1 =
    vw_reported aw ++ (if reaches_run then running_reported args aw ++ stopped_reported else []) /\
  ((avery_service serve args aw).2 = Ok tt <-> so_logger services = None).
Proof.
  unfold avery_service, service_main, reaches_run. destruct (so_logger services) as [e|]; cbn [fst snd].
  { rewrite bool_decide_false by done. cbn. by rewrite app_nil_r. }
  destruct (so_register services) as [e|]; [cbn; by rewrite app_nil_r|].
  destruct (so_runtime services) as [e|]; [cbn; by rewrite app_nil_r|]. rewrite !bool_decide_true by done. cbn [andb fst snd].
  split; [|done]. rewrite app_assoc, <- windows_run_reports with (serve := serve). unfold set_service_status at 1, stopped_reported.
  destruct (so_set_status services ServiceStopped) as [e|]; [by rewrite app_nil_r|done].
Qed.
End service.

(** ** A service *)
Module WindowsExamples.
Import Concrete.
#[local] Existing Instance derivative_engine.
#[local] Existing Instance key_order.
#[local] Existing Instance ConnectExamples.url_endpoint.
#[local] Existing Instance ConnectExamples.value_text.
#[local] Existing Instance AveryExamples.no_sources.
(** A user called ada. *)
Definition pipes : PipeOs := MkPipeOs (Some [97; 100; 97]%N) "0" (Some 4096%N) (fun _ => true) (fun _ => None).
Definition manager : ServiceOs := MkServiceOs None None None None (fun _ => None).
Definition computer : AveryWorld :=
  MkAveryWorld {[ "LOCALAPPDATA" := Some "C:\Users\ada\AppData\Local" ]} ∅ [] (MkCacheFile None None None None None) [].
Definition served (services : ServiceOs) (r : result string unit) : AveryWorld * result ProcessEnd unit :=
  avery_service (fun _ => "0") (fun _ => Err "utf8") ConnectExamples.documents AveryExamples.nobody AveryExamples.identity_runtime
    AveryExamples.no_runtimes pipes services AveryExamples.machine ConnectExamples.world ∅ (fun _ _ auth => (auth, r)) (MkAveryArgs None) computer.
Lemma failed_service_reported_stopped_witness :
  vw_reported (served manager (Err "transport error")).1 = [MkServiceStatus ServiceRunning 0; MkServiceStatus ServiceStopped 0] /\
  vw_reported (served manager (Ok tt)).1 = vw_reported (served manager (Err "transport error")).1.
Proof.
  pose proof (fun serve => failed_service_reported_stopped (fun _ => "0") (fun _ => Err "utf8") ConnectExamples.documents
    AveryExamples.nobody AveryExamples.identity_runtime AveryExamples.no_runtimes pipes manager AveryExamples.machine
    ConnectExamples.world ∅ serve (MkAveryArgs None) computer) as H.
  unfold served. split.
  - rewrite (proj1 (H _)). vm_compute. reflexivity.
  - by rewrite !(fun serve => proj1 (H serve)).
Defined.
(** Without its logger the service panics and reports nothing. *)
Example no_logger :
  let services := MkServiceOs (Some "access denied") None None None (fun _ => None) in
  vw_reported (served services (Ok tt)).1 = [] /\
  (served services (Ok tt)).2 = Err (Panicked "Failed to create windows event logger for Avery: access denied").
Proof. split; vm_compute; reflexivity. Qed.
Example folders : let env := vw_env computer in
  default_runtime_dir env = "C:\ProgramData\Firm\avery\runtimes" /\ user_cache_path env = Some "C:\Users\ada\AppData\Local\avery\cache" /\
  get_user pipes = Some "ada".
Proof. vm_compute. repeat split; reflexivity. Qed.
End WindowsExamples.
