(* ===== verification/Installer.v ===== *)
(** * The Windows installer of Firm (clients/firm-windows-installer/src/main.rs)

    [install], [uninstall] and [upgrade], over the registry editor, the
    services and the log sources of windows-install.  The archive the installer
    carries and the entries the tar crate finds in it, the disk, the
    environment and the keys of the winreg crate are the operations of
    [Windows].  Messages to the log and the terminal are left out. *)
From S2P Require Import Prelude Json WinText WinRegistry WinService.
From Stdlib Require Import Ascii.

(** ** Windows paths

    A path that begins with two backslashes is taken as one with a prefix. *)
Definition slash : ascii := "/"%char.
Definition colon : ascii := ":"%char.
Definition is_sep (c : ascii) : bool := Ascii.eqb c backslash || Ascii.eqb c slash.
Definition is_letter (c : ascii) : bool :=
  let n := N_of_ascii c in ((65 <=? n) && (n <=? 90) || (97 <=? n) && (n <=? 122))%N.
(** The drive of a path, and the rest. *)
Definition split_drive (p : string) : option (string * string) :=
  match p with
  | String c (String d p') =>
      if is_letter c && Ascii.eqb d colon then Some (String c (String d EmptyString), p') else None
  | _ => None
  end.
Definition has_root (p : string) : bool := match p with String c _ => is_sep c | EmptyString => false end.
Definition has_share (p : string) : bool :=
  match p with String c (String d _) => Ascii.eqb c backslash && Ascii.eqb d backslash | _ => false end.
Fixpoint ends_with_sep (p : string) : bool :=
  match p with
  | EmptyString => false
  | String c EmptyString => is_sep c
  | String _ p' => ends_with_sep p'
  end.
(** [Path::join] *)
Definition path_join (base p : string) : string :=
  if has_share p then p
  else match split_drive p with
       | Some _ => p
       | None =>
           let drive := match split_drive base with Some (drive, rest) => Some (drive, rest) | None => None end in
           if has_root p then match drive with Some (drive, _) => drive +:+ p | None => p end
           else if str_is_empty base || ends_with_sep base || match drive with Some (_, EmptyString) => true | _ => false end
           then base +:+ p
           else base +:+ String backslash p
       end.
(** [Path::components]: repeated separators and inner dots are dropped. *)
Fixpoint pieces (p : string) : list string :=
  match p with
  | EmptyString => [EmptyString]
  | String c p' =>
      if is_sep c then EmptyString :: pieces p'
      else match pieces p' with
           | piece :: rest => String c piece :: rest
           | [] => [String c EmptyString]
           end
  end.
Definition dotless (l : list string) : list string :=
  filter (fun piece => negb (str_is_empty piece || String.eqb piece ".") = true) l.
Definition root_dir : string := String backslash EmptyString.
Definition components (p : string) : list string :=
  let '(prefix, rest) := match split_drive p with Some (drive, rest) => ([drive], rest) | None => ([], p) end in
  prefix ++
  match pieces rest with
  | first :: more =>
      if has_root rest then root_dir :: dotless more
      else if String.eqb first "." then "." :: dotless more else dotless (first :: more)
  | [] => []
  end.
Fixpoint list_prefix (l1 l2 : list string) : bool :=
  match l1, l2 with
  | [], _ => true
  | a :: l1', b :: l2' => String.eqb a b && list_prefix l1' l2'
  | _, [] => false
  end.
Definition path_starts_with (p base : string) : bool := list_prefix (components base) (components p).
(** [Path::file_name]: the last component, when it is a name. *)
Definition file_name (p : string) : option string :=
  match rev (components p), split_drive p with
  | [_], Some _ => None
  | last :: _, _ =>
      if String.eqb last "." || String.eqb last ".." || String.eqb last root_dir then None else Some last
  | [], _ => None
  end.

(** ** What the installer asks of Windows *)
(** [TarOther]: any other type, by its debug text. *)
Inductive EntryType := TarDirectory | TarRegular | TarOther (name : string).
Inductive Unpacked := UnpackedFile | UnpackedOther.
Class Windows (W : Type) := {
  #[global] windows_keys :: RegistryKey W;
  #[global] windows_api :: WinApi W;
  HKEY_LOCAL_MACHINE : rkey;
  delete_subkey : rkey -> string -> sem W IoError unit;
  read_folder : string -> W -> Folder;
  create_dir_all : string -> sem W IoError unit;
  remove_file : string -> sem W IoError unit;
  copy_file : string -> string -> sem W IoError unit;
  path_exists : string -> W -> bool;
  current_exe : W -> result IoError string;
  env_var : string -> W -> option string;
  tar_entry : Type;
  archive_entries : result IoError (list (result IoError tar_entry));
  entry_type : tar_entry -> EntryType;
  entry_path : tar_entry -> result IoError string;
  entry_unpack : tar_entry -> string -> sem W IoError Unpacked;
  entry_unpack_in : tar_entry -> string -> sem W IoError bool
}.
(** The version the installer was built as ([env!("version")]). *)
Class BuildVersion := { build_version : string }.

Section installer.
Context {W : Type} {WN : Windows W} {HO : HashOrder} {RC : RegexCrate} {BV : BuildVersion}.

(** ** Log sources (windows-install event_viewer.rs) *)
Definition EVENT_LOG_SOURCES : string := "SYSTEM\CurrentControlSet\Services\EventLog\Application".
Inductive EventLogError :=
| FailedToAddLogSource (name exe_path : string) (e : IoError)
| FailedToRemoveLogSource (name : string) (e : IoError).
Definition event_log_exit_code (e : EventLogError) : N :=
  match e with FailedToAddLogSource _ _ _ => 50 | FailedToRemoveLogSource _ _ => 51 end.
Definition add_log_source (name exe_path : string) : sem W EventLogError unit :=
  sem_map_err (FailedToAddLogSource name exe_path)
    (cur_ver ← open_subkey HKEY_LOCAL_MACHINE EVENT_LOG_SOURCES;
     app_key ← create_subkey cur_ver name;
     set_value app_key "EventMessageFile" exe_path).
Definition remove_log_source (name : string) : sem W EventLogError unit :=
  sem_map_err (FailedToRemoveLogSource name)
    (cur_ver ← open_subkey HKEY_LOCAL_MACHINE EVENT_LOG_SOURCES;
     delete_subkey cur_ver name).

(** ** main.rs *)
Definition AVERY : string := "Avery".
Definition LOMAX : string := "Lomax".
Definition APPLICATION_NAME : string := "Firm".
Definition DEFAULT_FIRM_BIN_PATH : string := "C:\Program Files\Firm".
Definition DEFAULT_FIRM_DATA_PATH : string := "C:\ProgramData\Firm".

Inductive InstallerError :=
| FailedToCopyFile (file : string) (e : IoError)
| FailedToFindCurrentExe (e : IoError)
| ArchiveError (e : string)
| ArgumentError (e : string)
| CreateLogError (e : string)
| IServiceError (e : ServiceError)
| IRegistryError (e : RegistryError)
| IEventLogError (e : EventLogError)
| IIoError (e : IoError).
Definition installer_exit_code (e : InstallerError) : N :=
  match e with
  | FailedToCopyFile _ _ => 1
  | FailedToFindCurrentExe _ => 3
  | ArchiveError _ => 4
  | CreateLogError _ => 5
  | IServiceError e => service_exit_code e
  | IRegistryError e => exit_code e
  | IEventLogError e => event_log_exit_code e
  | ArgumentError _ => 6
  | IIoError _ => 7
  end%N.

Inductive InstallLogLevel := LogSilent | LogInfo | LogWarning | LogError | LogDebug.
Definition log_level_from_str (log_level : string) : result InstallerError InstallLogLevel :=
  let l := lowercase log_level in
  if String.eqb l "silent" then Ok LogSilent
  else if String.eqb l "info" then Ok LogInfo
  else if String.eqb l "warning" then Ok LogWarning
  else if String.eqb l "error" then Ok LogError
  else if String.eqb l "debug" then Ok LogDebug
  else Err (ArgumentError (log_level +:+ " is not a valid log level.")).

Inductive InstallOperation :=
| Install (install_path data_path : option string)
| Uninstall
| Upgrade.

(** [RegistryEditor::new()]; folders are listed as they are when asked for. *)
Definition editor (w : W) : RegistryEditor (T := W) :=
  MkRegistryEditor HKEY_LOCAL_MACHINE (fun path => get_folder_paths path (read_folder path w)).
Definition with_editor {A} (f : RegistryEditor (T := W) -> sem W RegistryError A) : sem W RegistryError A :=
  fun w => f (editor w) w.

Definition find_firm (default_program_files default_program_data : W -> string) : W -> W * (string * string) :=
  fun w =>
    match with_editor (fun reg_edit => find_application reg_edit APPLICATION_NAME) w with
    | (w', Ok entries) =>
        (w', (default (default_program_files w') (entries !! "InstallPath"),
              default (default_program_data w') (entries !! "DataPath")))
    | (w', Err _) => (w', (default_program_files w', default_program_data w'))
    end.
Definition default_path_from_env (key default_ : string) (w : W) : string :=
  match env_var key w with
  | Some appdata => path_join appdata APPLICATION_NAME
  | None => default_
  end.
Definition find_installed : W -> W * (string * string) :=
  find_firm (default_path_from_env "PROGRAMFILES" DEFAULT_FIRM_BIN_PATH)
            (default_path_from_env "PROGRAMDATA" DEFAULT_FIRM_DATA_PATH).

(** *** Copying *)
Definition entry_text (e : tar_entry) : string :=
  match entry_path e with Ok p => p | Err _ => EmptyString end.
Definition unpack_entry (entry : tar_entry) (install_path : string) : sem W InstallerError string :=
  sem_map_err (FailedToCopyFile (entry_text entry))
    (_ ← create_dir_all install_path;
     path ← sem_lift (entry_path entry);
     name ← sem_lift (ok_or (MkIoError IoOther ("File " +:+ quoted (entry_text entry) +:+ " is missing name"))
                        (file_name path));
     let file_path := path_join install_path name in
     unpack ← entry_unpack entry file_path;
     sem_lift (match unpack with
               | UnpackedFile => Ok file_path
               | UnpackedOther =>
                   Err (MkIoError IoOther ("Entry " +:+ quoted (entry_text entry) +:+ " is not a file."))
               end)).
Definition unpack_data_entry (entry : tar_entry) (data_path : string) : sem W InstallerError string :=
  sem_map_err (FailedToCopyFile (entry_text entry))
    (_ ← create_dir_all data_path;
     _ ← entry_unpack_in entry data_path;
     path ← sem_lift (entry_path entry);
     mret (path_join data_path path)).
Definition is_program (entry : tar_entry) : bool :=
  match entry_path entry with
  | Ok p => path_starts_with p (path_join "." "bin")
  | Err _ => false
  end.
(** One entry of the archive: nothing for a folder. *)
Definition copy_entry (install_path data_path : string)
    (entry_res : result IoError tar_entry) : W -> W * option (result InstallerError string) :=
  fun w =>
    match entry_res with
    | Err e => (w, Some (Err (ArchiveError (io_text e))))
    | Ok entry =>
        match entry_type entry with
        | TarDirectory => (w, None)
        | TarRegular =>
            let '(w', r) := (if is_program entry then unpack_entry entry install_path
                             else unpack_data_entry entry data_path) w in
            (w', Some r)
        | TarOther t =>
            (w, Some (Err (ArchiveError ("Entry " +:+ quoted (entry_text entry) +:+
                                         " is of unsupported type " +:+ quoted t +:+ " "))))
        end
    end.
Definition copy_installer (install_path : string) : sem W InstallerError string :=
  installer_source ← sem_ask (fun w => map_err FailedToFindCurrentExe (current_exe w));
  let installer_destination := path_join install_path "install.exe" in
  _ ← sem_map_err (FailedToCopyFile "install.exe") (copy_file installer_source installer_destination);
  mret installer_destination.
Fixpoint copy_entries (install_path data_path : string) (entries : list (result IoError tar_entry))
  : W -> W * list (result InstallerError string) :=
  fun w =>
    match entries with
    | [] => let '(w', r) := copy_installer install_path w in (w', [r])
    | entry :: entries' =>
        let '(w1, r) := copy_entry install_path data_path entry w in
        let '(w2, rs) := copy_entries install_path data_path entries' w1 in
        (w2, match r with Some r => r :: rs | None => rs end)
    end.
Definition copy_files (install_path data_path : string) : W -> W * list (result InstallerError string) :=
  match archive_entries with
  | Err e => fun w => (w, [Err (ArchiveError (io_text e))])
  | Ok entries => copy_entries install_path data_path entries
  end.

(** *** Registering the copied files: all of them, then the first error *)
Fixpoint register_results (results : list (result InstallerError string)) : W -> W * list (result InstallerError unit) :=
  fun w =>
    match results with
    | [] => (w, [])
    | file_result :: results' =>
        let '(w1, r) := match file_result with
                        | Ok file => sem_map_err IRegistryError
                                       (with_editor (fun reg_edit => register_install_file reg_edit APPLICATION_NAME file)) w
                        | Err e => (w, Err e)
                        end in
        let '(w2, rs) := register_results results' w1 in
        (w2, r :: rs)
    end.
Definition register_copied (results : list (result InstallerError string)) : sem W InstallerError unit :=
  fun w => let '(w', rs) := register_results results w in (w', (fun _ => tt) <$> collect rs).

Definition get_config_arg (path name : string) (w : W) : string :=
  let config_path := path_join path name in
  if path_exists config_path w then "--config " +:+ quoted config_path else EmptyString.

(** *** Uninstalling, as far as possible *)
(** [pass_result!]: an error is only logged. *)
Definition pass_result {E A} (m : sem W E A) (w : W) : W := (m w).1.
Definition io_pass_result {E A} (m : io W E A) (w : W) : option W := fst <$> m w.

Definition remove_service (fuel : nat) (manager : WinHandle) (name : string) : io W ServiceError unit :=
  service ← manager_get_service manager name;
  service ← service_stop fuel service;
  service_delete service.
Definition remove_services (fuel : nat) (w : W) : option W :=
  match service_manager_try_new w with
  | Some (w1, Ok manager) =>
      w2 ← io_pass_result (stop_services fuel manager (AVERY +:+ "_")) w1;
      w3 ← io_pass_result (remove_service fuel manager LOMAX) w2;
      io_pass_result (remove_service fuel manager AVERY) w3
  | Some (w1, Err _) => Some w1
  | None => None
  end.
(** A file that cannot be removed now is removed at the next start. *)
Definition remove_or_mark (file : string) : sem W RegistryError unit :=
  sem_or_else (remove_file file) (fun _ => with_editor (fun reg_edit => mark_paths_for_delete reg_edit [file])).
Definition remove_files (exe_path : string) : W -> W :=
  fun w =>
    match with_editor (fun reg_edit => get_install_files reg_edit APPLICATION_NAME) w with
    | (w1, Ok files) => pass_result (sem_try_for_each remove_or_mark files) w1
    | (w1, Err _) => pass_result (with_editor (fun reg_edit => mark_for_delete reg_edit exe_path)) w1
    end.
Definition uninstall (fuel : nat) (w : W) : option W :=
  w ← remove_services fuel w;
  let w := pass_result (remove_log_source AVERY) w in
  let w := pass_result (remove_log_source LOMAX) w in
  let '(w, (exe_path, _)) := find_installed w in
  let w := pass_result (with_editor (fun reg_edit => remove_from_path reg_edit exe_path)) w in
  let w := remove_files exe_path w in
  let w := pass_result (with_editor (fun reg_edit => deregister_application reg_edit APPLICATION_NAME)) w in
  Some (pass_result (with_editor (fun reg_edit => deregister_uninstaller reg_edit APPLICATION_NAME)) w).

(** *** Installing *)
Definition create_services (install_path data_path : string) (manager : WinHandle) : io W ServiceError unit :=
  avery_config ← io_sem (sem_ask (fun w => Ok (get_config_arg data_path "avery.toml" w)));
  _ ← create_user_service manager AVERY (path_join install_path "avery.exe") ["--service"; avery_config];
  lomax_config ← io_sem (sem_ask (fun w => Ok (get_config_arg data_path "lomax.toml" w)));
  lomax_service ← create_system_service manager LOMAX (path_join install_path "lomax.exe") ["--service"; lomax_config];
  service_start lomax_service.
Definition additional_data (data_path : string) : gmap string string :=
  <["DataPath" := data_path]> (<["Version" := build_version]> ∅).
Definition extra_info (install_path : string) : gmap string string :=
  <["InstallLocation" := install_path]> (<["DisplayVersion" := build_version]>
    (<["URLInfoAbout" := "https://github.com/goodbyekansas/firm"]> ∅)).
Definition install_steps (install_path data_path : string) (results : list (result InstallerError string))
  : io W InstallerError unit :=
  _ ← io_sem (register_copied results);
  _ ← io_sem (sem_map_err IEventLogError (add_log_source AVERY (path_join install_path "avery.exe")));
  _ ← io_sem (sem_map_err IEventLogError (add_log_source LOMAX (path_join install_path "lomax.exe")));
  manager ← io_map_err IServiceError service_manager_try_new;
  _ ← io_map_err IServiceError (create_services install_path data_path manager);
  _ ← io_sem (sem_map_err IRegistryError (with_editor (fun reg_edit => add_to_path reg_edit install_path)));
  _ ← io_sem (sem_map_err IRegistryError (with_editor (fun reg_edit =>
        register_application reg_edit APPLICATION_NAME install_path (additional_data data_path))));
  io_sem (sem_map_err IRegistryError (with_editor (fun reg_edit =>
    register_uninstaller reg_edit APPLICATION_NAME APPLICATION_NAME (install_path +:+ "\install.exe uninstall")
      (extra_info install_path)))).
Definition install (fuel : nat) (install_path data_path : string) : io W InstallerError unit :=
  fun w =>
    let w := pass_result (with_editor (fun reg_edit => cancel_pending_deletions reg_edit install_path)) w in
    let '(w, results) := copy_files install_path data_path w in
    match install_steps install_path data_path results w with
    | Some (w', Err e) => w'' ← uninstall fuel w'; Some (w'', Err e)
    | done_ => done_
    end.
Definition upgrade (fuel : nat) : io W InstallerError unit :=
  fun w =>
    let '(w, (exe_path, data_path)) := find_installed w in
    w ← uninstall fuel w;
    (_ ← install fuel exe_path data_path;
     manager ← io_map_err IServiceError service_manager_try_new;
     io_map_err IServiceError (start_services fuel manager (AVERY +:+ "_"))) w.

(** [main] after the arguments are read: the exit code of a failure. *)
Definition run_operation (fuel : nat) (operation : InstallOperation) : io W N unit :=
  io_map_err installer_exit_code
    (match operation with
     | Install install_path data_path =>
         fun w => install fuel
           (default (default_path_from_env "PROGRAMFILES" DEFAULT_FIRM_BIN_PATH w) install_path)
           (default (default_path_from_env "PROGRAMDATA" DEFAULT_FIRM_DATA_PATH w) data_path) w
     | Upgrade => upgrade fuel
     | Uninstall => fun w => w' ← uninstall fuel w; Some (w', Ok tt)
     end).
End installer.
