(* ===== verification/InstallerProps.v ===== *)
(** * Theorems about the Windows installer

    A machine whose registry may refuse writes and whose copies may fail half-way is an
    instance of the interfaces of [Installer] ([machine_windows]); on it an
    installation ends and is undone where it fails ([failed_install_cleans]), and,
    where nothing refuses a write, what a successful one leaves is recorded
    ([installed_recorded]). *)
From S2P Require Import Prelude Json WinText WinRegistry WinRegistryProps WinService Installer.
From Stdlib Require Import Ascii.

(** ** A machine

    The registry in memory, the files that exist, and a service manager of
    any kind.  Writes to the registry can be refused key by key, and a copy that
    fails can leave a part of the file. *)
Record Machine (O : Type) := MkMachine { m_registry : gmap string MemoryEntry; m_disk : gset string; m_os : O }.
Arguments MkMachine {O} _ _ _.
Arguments m_registry {O} _.
Arguments m_disk {O} _.
Arguments m_os {O} _.
(** An entry of the archive, and how unpacking it ends. *)
Record ArchiveEntry := MkArchiveEntry {
  ae_path : result IoError string;
  ae_type : EntryType;
  ae_unpack : string -> result IoError Unpacked;
  ae_unpack_in : string -> result IoError bool
}.
(** What does not change while the installer runs. *)
Record Setup (O : Type) := MkSetup {
  s_root : string;
  s_folder : string -> gset string -> Folder;
  s_locked : string -> bool;
  (** keys that may not be written, and below which none is made or deleted *)
  s_denied : string -> bool;
  (** whether a copy to this place that fails leaves a part of the file there *)
  s_torn : string -> bool;
  s_create : string -> result IoError unit;
  s_copy : string -> string -> result IoError unit;
  s_exe : result IoError string;
  s_env : string -> option string;
  s_archive : result IoError (list (result IoError ArchiveEntry))
}.
Arguments s_root {O} _.
Arguments s_folder {O} _ _ _.
Arguments s_locked {O} _ _.
Arguments s_denied {O} _ _.
Arguments s_torn {O} _ _.
Arguments s_create {O} _ _.
Arguments s_copy {O} _ _ _.
Arguments s_exe {O} _.
Arguments s_env {O} _ _.
Arguments s_archive {O} _.

Section machine.
Context {O : Type} {WA : WinApi O} {HO : HashOrder} {RC : RegexCrate} {BV : BuildVersion} (setup : Setup O).
Abbreviation M := (Machine O).

Definition set_registry (m : gmap string MemoryEntry) (w : M) : M := MkMachine m (m_disk w) (m_os w).
Definition set_disk (d : gset string) (w : M) : M := MkMachine (m_registry w) d (m_os w).
Definition set_os (o : O) (w : M) : M := MkMachine (m_registry w) (m_disk w) o.
Definition in_registry {E A} (m : sem (gmap string MemoryEntry) E A) : sem M E A :=
  fun w => let '(r, a) := m (m_registry w) in (set_registry r w, a).
Definition in_os {A} (call : O -> O * A) (w : M) : M * A :=
  let '(o, a) := call (m_os w) in (set_os o w, a).
Definition on_disk {A} (r : result IoError A) (f : A -> gset string -> gset string) : sem M IoError A :=
  fun w => match r with Ok a => (set_disk (f a (m_disk w)) w, Ok a) | Err e => (w, Err e) end.
(** Writing a file: a failure may leave a part of it. *)
Definition write_file {A} (path : string) (r : result IoError A) (f : A -> gset string -> gset string) : sem M IoError A :=
  fun w => match r with
           | Ok a => (set_disk (f a (m_disk w)) w, Ok a)
           | Err e => (if s_torn setup path then set_disk ({[path]} ∪ m_disk w) w else w, Err e)
           end.

Definition access_denied : IoError := MkIoError IoOther "Access is denied. (os error 5)".
(** A write to a key. *)
Definition guarded {A} (k : string) (m : sem (gmap string MemoryEntry) IoError A) : sem (gmap string MemoryEntry) IoError A :=
  if s_denied setup k then sem_lift (Err access_denied) else m.
Definition guarded_create (k n : string) : sem (gmap string MemoryEntry) IoError string :=
  fun r => match r !! child k n with
           | Some _ => (r, Ok (child k n))
           | None => guarded k (memory_create_subkey k n) r
           end.
Definition GuardedKey : RegistryKey (gmap string MemoryEntry) := {|
  rkey := string;
  rtransaction := FakeTransaction;
  create_subkey := guarded_create;
  set_value := fun k n v => guarded k (memory_set_value k n v);
  open_subkey := memory_open_subkey;
  delete_subkey_all := fun k n => guarded k (memory_delete_subkey_all k n);
  open_subkey_with_flags := fun k n _ => memory_open_subkey k n;
  get_value := memory_get_value;
  create_subkey_with_flags := fun k n _ => guarded_create k n;
  enum_values := memory_enum_values;
  get_transaction := fun _ => mret tt;
  open_subkey_transacted_with_flags := fun k n _ _ => memory_open_subkey k n;
  create_subkey_transacted_with_flags := fun k n _ _ => guarded_create k n;
  commit := fun _ => mret tt;
  rollback := fun _ => mret tt
|}.

#[export] Instance machine_keys : RegistryKey M := {|
  rkey := string;
  rtransaction := FakeTransaction;
  create_subkey := fun k n => in_registry (@create_subkey _ GuardedKey k n);
  set_value := fun k n v => in_registry (@set_value _ GuardedKey k n v);
  open_subkey := fun k n => in_registry (@open_subkey _ GuardedKey k n);
  delete_subkey_all := fun k n => in_registry (@delete_subkey_all _ GuardedKey k n);
  open_subkey_with_flags := fun k n f => in_registry (@open_subkey_with_flags _ GuardedKey k n f);
  get_value := fun k n => in_registry (@get_value _ GuardedKey k n);
  create_subkey_with_flags := fun k n f => in_registry (@create_subkey_with_flags _ GuardedKey k n f);
  enum_values := fun k => in_registry (@enum_values _ GuardedKey k);
  get_transaction := fun k => in_registry (@get_transaction _ GuardedKey k);
  open_subkey_transacted_with_flags := fun k n f t => in_registry (@open_subkey_transacted_with_flags _ GuardedKey k n f t);
  create_subkey_transacted_with_flags := fun k n f t => in_registry (@create_subkey_transacted_with_flags _ GuardedKey k n f t);
  commit := fun t => in_registry (@commit _ GuardedKey t);
  rollback := fun t => in_registry (@rollback _ GuardedKey t)
|}.
#[export] Instance machine_api : WinApi M := {|
  sc_handle := sc_handle (W := O);
  get_last_error := fun w => get_last_error (m_os w);
  open_sc_manager := fun p => in_os (open_sc_manager p);
  open_service := fun h n a => in_os (open_service h n a);
  create_service_w := fun h n d a t s e p => in_os (create_service_w h n d a t s e p);
  delete_service_w := fun h => in_os (delete_service_w h);
  start_service_w := fun h => in_os (start_service_w h);
  control_service := fun h c => in_os (control_service h c);
  query_service_status := fun h => in_os (query_service_status h);
  enum_services_status := fun h t s r p => in_os (enum_services_status h t s r p);
  instant_now := fun w => instant_now (m_os w);
  thread_sleep := fun n w => set_os (thread_sleep n (m_os w)) w
|}.
#[export] Instance machine_windows : Windows M := {|
  windows_keys := machine_keys;
  windows_api := machine_api;
  HKEY_LOCAL_MACHINE := s_root setup : @rkey _ machine_keys;
  delete_subkey := fun k n => in_registry (guarded k (memory_delete_subkey_all k n));
  read_folder := fun p w => s_folder setup p (m_disk w);
  create_dir_all := fun p => on_disk (s_create setup p) (fun _ d => d);
  remove_file := fun p w =>
    if s_locked setup p then (w, Err access_denied)
    else if decide (p ∈ m_disk w) then (set_disk (m_disk w ∖ {[p]}) w, Ok tt) else (w, Err os_error_2);
  copy_file := fun a b => write_file b (s_copy setup a b) (fun _ d => {[b]} ∪ d);
  path_exists := fun p w => bool_decide (p ∈ m_disk w);
  current_exe := fun _ => s_exe setup;
  env_var := fun key _ => s_env setup key;
  tar_entry := ArchiveEntry;
  archive_entries := s_archive setup;
  entry_type := ae_type;
  entry_path := ae_path;
  entry_unpack := fun e p => write_file p (ae_unpack e p) (fun u d => match u with UnpackedFile => {[p]} ∪ d | UnpackedOther => d end);
  entry_unpack_in := fun e base =>
    match ae_path e with
    | Ok p => write_file (path_join base p) (ae_unpack_in e base) (fun inside d => if inside : bool then {[path_join base p]} ∪ d else d)
    | Err _ => on_disk (ae_unpack_in e base) (fun _ d => d)
    end
|}.

(** ** Steps on the registry of the machine *)
Definition zoomed {E A} (m' : sem M E A) (m : sem (gmap string MemoryEntry) E A) : Prop :=
  forall w, m' w = in_registry m w.

Lemma set_get_registry w : set_registry (m_registry w) w = w.
Proof. by destruct w. Qed.

Lemma zoomed_in {E A} (m : sem (gmap string MemoryEntry) E A) : zoomed (in_registry m) m.
Proof. done. Qed.
Lemma zoomed_bind {E A B} (m' : sem M E A) m (f' : A -> sem M E B) f :
  zoomed m' m -> (forall a, zoomed (f' a) (f a)) -> zoomed (m' ≫= f') (m ≫= f).
Proof.
  intros Hm Hf w. unfold mbind, sem_bind, in_registry. rewrite Hm. unfold in_registry.
  destruct (m (m_registry w)) as [r [a|e]]; [|done].
  rewrite Hf. unfold in_registry. cbn [m_registry set_registry]. by destruct (f a r).
Qed.
Lemma zoomed_lift {E A} (r : result E A) : zoomed (sem_lift r) (sem_lift r).
Proof. intros w. unfold in_registry, sem_lift. by rewrite set_get_registry. Qed.
Lemma zoomed_ret {E A} (a : A) : zoomed (E := E) (mret a) (mret a).
Proof. apply zoomed_lift. Qed.
Lemma zoomed_map_err {E F A} (f : E -> F) (m' : sem M E A) m :
  zoomed m' m -> zoomed (sem_map_err f m') (sem_map_err f m).
Proof. intros Hm w. unfold sem_map_err, in_registry. rewrite Hm. unfold in_registry. by destruct (m _). Qed.
Lemma zoomed_or_else {E F A} (m' : sem M E A) m (h' : E -> sem M F A) h :
  zoomed m' m -> (forall e, zoomed (h' e) (h e)) -> zoomed (sem_or_else m' h') (sem_or_else m h).
Proof.
  intros Hm Hh w. unfold sem_or_else, in_registry. rewrite Hm. unfold in_registry.
  destruct (m (m_registry w)) as [r [a|e]]; [done|]. rewrite Hh. unfold in_registry. cbn [m_registry set_registry].
  by destruct (h e r).
Qed.
Lemma zoomed_each {E A} (f' : A -> sem M E unit) f l :
  (forall a, zoomed (f' a) (f a)) -> zoomed (sem_try_for_each f' l) (sem_try_for_each f l).
Proof.
  intros Hf. induction l as [|a l IH]; cbn [sem_try_for_each]; [apply zoomed_ret|].
  apply zoomed_bind; [apply Hf|done].
Qed.

(** The editor of the machine works on the memory of its registry. *)
Definition guarded_editor (d : gset string) : @RegistryEditor _ GuardedKey :=
  @MkRegistryEditor _ GuardedKey (s_root setup) (fun path => get_folder_paths path (s_folder setup path d)).
(** The same where nothing is refused. *)
Definition memory_editor (d : gset string) : RegistryEditor (T := gmap string MemoryEntry) :=
  MkRegistryEditor (s_root setup : @rkey _ MemoryKey) (fun path => get_folder_paths path (s_folder setup path d)).
Abbreviation ed w := (editor (WN := machine_windows) w).

Lemma zoomed_transaction {A} w (step' : FakeTransaction -> edit (T := M) A) (step : FakeTransaction -> edit (T := gmap string MemoryEntry) A) :
  (forall t, zoomed (step' t) (step t)) ->
  zoomed (t ← editor_transaction (ed w); apply_transaction (step' t) t)
         (t ← editor_transaction (guarded_editor (m_disk w)); apply_transaction (step t) t).
Proof.
  intros Hs. apply zoomed_bind; [apply zoomed_map_err, zoomed_in|]. intros t.
  unfold apply_transaction. apply zoomed_bind.
  - apply zoomed_or_else; [apply Hs|]. intros e. apply zoomed_bind; [apply zoomed_map_err, zoomed_in|].
    intros _. apply zoomed_lift.
  - intros v. apply zoomed_bind; [apply zoomed_map_err, zoomed_in|]. intros _. apply zoomed_ret.
Qed.
Lemma zoomed_not_found {A} e (h' : sem M IoError A) h : zoomed h' h -> zoomed (not_found e h') (not_found e h).
Proof. intros Hh. unfold not_found. destruct (io_kind e); [done|]. apply zoomed_lift. Qed.

Ltac zoom_step :=
  match goal with
  | |- zoomed (mbind _ _) _ => apply zoomed_bind; [|intros ?]
  | |- zoomed (sem_map_err _ _) _ => apply zoomed_map_err
  | |- zoomed (sem_or_else _ _) _ => apply zoomed_or_else; [|intros ?]
  | |- zoomed (sem_try_for_each _ _) _ => apply zoomed_each; intros ?
  | |- zoomed (not_found _ _) _ => apply zoomed_not_found
  | |- zoomed (mret _) _ => apply zoomed_ret
  | |- zoomed (sem_lift _) _ => apply zoomed_lift
  | |- zoomed (match ?o with _ => _ end) _ => destruct o
  | |- _ => apply zoomed_in
  end.
Ltac zoom := first [apply zoomed_transaction; intros ?|idtac]; repeat zoom_step.

Lemma zoomed_get_install w name : zoomed (get_install_files (ed w) name) (get_install_files (guarded_editor (m_disk w)) name).
Proof. unfold get_install_files, install_files_of. zoom. Qed.
Lemma zoomed_register_install w name file :
  zoomed (register_install_file (ed w) name file) (register_install_file (guarded_editor (m_disk w)) name file).
Proof. unfold register_install_file. apply zoomed_bind; [apply zoomed_get_install|]. intros ?. zoom. Qed.
Lemma zoomed_register_application w name exe data :
  zoomed (register_application (ed w) name exe data) (register_application (guarded_editor (m_disk w)) name exe data).
Proof. unfold register_application, set_values. zoom. Qed.
Lemma zoomed_deregister_application w name :
  zoomed (deregister_application (ed w) name) (deregister_application (guarded_editor (m_disk w)) name).
Proof. unfold deregister_application. zoom. Qed.
Lemma zoomed_find_application w name :
  zoomed (find_application (ed w) name) (find_application (guarded_editor (m_disk w)) name).
Proof. unfold find_application. zoom. Qed.
Lemma zoomed_register_uninstaller w name display uninstall_string extra :
  zoomed (register_uninstaller (ed w) name display uninstall_string extra)
         (register_uninstaller (guarded_editor (m_disk w)) name display uninstall_string extra).
Proof. unfold register_uninstaller, set_values. zoom. Qed.
Lemma zoomed_deregister_uninstaller w name :
  zoomed (deregister_uninstaller (ed w) name) (deregister_uninstaller (guarded_editor (m_disk w)) name).
Proof. unfold deregister_uninstaller. zoom. Qed.
Lemma zoomed_edit_path w wrap f : zoomed (edit_path (ed w) wrap f) (edit_path (guarded_editor (m_disk w)) wrap f).
Proof. unfold edit_path. zoom. Qed.
Lemma zoomed_mark_paths w paths :
  zoomed (mark_paths_for_delete (ed w) paths) (mark_paths_for_delete (guarded_editor (m_disk w)) paths).
Proof. unfold mark_paths_for_delete, get_pending_deletions, set_pending_deletions, or_when_missing. zoom. Qed.
Lemma zoomed_cancel w path :
  zoomed (cancel_pending_deletions (ed w) path) (cancel_pending_deletions (guarded_editor (m_disk w)) path).
Proof.
  unfold cancel_pending_deletions, get_pending_deletions, set_pending_deletions, or_when_missing. zoom.
Qed.

(** ** Services touch neither the registry nor the disk *)
Definition rest (w : M) := (m_registry w, m_disk w).
Definition quiet {E A} (m : io M E A) : Prop := forall w w' r, m w = Some (w', r) -> rest w' = rest w.

Lemma in_os_rest {A} (call : O -> O * A) w : rest (in_os call w).1 = rest w.
Proof. unfold in_os. by destruct (call (m_os w)). Qed.
Lemma quiet_answer {A B} (call : O -> O * A) (f : A -> M -> result ServiceError B) :
  quiet (io_sem (answer (in_os call) f)).
Proof.
  intros w w' r. unfold io_sem, answer. pose proof (in_os_rest call w) as Hr. destruct (in_os call w) as [w1 a].
  by intros [= <- <-].
Qed.
Lemma quiet_ask {E A} (f : M -> result E A) : quiet (io_sem (sem_ask f)).
Proof. by intros w w' r [= <- <-]. Qed.
Lemma quiet_ret {E A} (a : A) : quiet (E := E) (mret a).
Proof. by intros w w' r [= <- <-]. Qed.
Lemma quiet_bind {E A B} (m : io M E A) (f : A -> io M E B) :
  quiet m -> (forall a, quiet (f a)) -> quiet (m ≫= f).
Proof.
  intros Hm Hf w w' r. unfold mbind, io_bind. destruct (m w) as [[w1 [a|e]]|] eqn:H; [| |done].
  - intros Hw. rewrite (Hf _ _ _ _ Hw). by apply (Hm _ _ _ H).
  - intros [= <- <-]. by apply (Hm _ _ _ H).
Qed.
Lemma quiet_map_err {E F A} (f : E -> F) (m : io M E A) : quiet m -> quiet (io_map_err f m).
Proof. intros Hm w w' r. unfold io_map_err. destruct (m w) as [[w1 r1]|] eqn:H; [|done]. intros [= <- <-]. by apply (Hm _ _ _ H). Qed.
Lemma quiet_each {E A} (f : A -> io M E unit) l : (forall a, quiet (f a)) -> quiet (io_try_for_each f l).
Proof.
  intros Hf. induction l as [|a l IH]; [apply quiet_ret|]. cbn [io_try_for_each]. apply quiet_bind; [done|]. by intros [].
Qed.
Lemma quiet_wait fuel service timeout : quiet (wait_stopped (W := M) fuel service timeout).
Proof.
  induction fuel as [|fuel IH]; [done|]. cbn [wait_stopped].
  apply quiet_bind; [apply quiet_answer|]. intros state. apply quiet_bind; [apply quiet_ask|].
  intros []; [|apply quiet_ret]. apply quiet_bind; [|by intros _]. by intros w w' r [= <- <-].
Qed.
Lemma quiet_stop fuel service : quiet (stop_service (W := M) fuel service).
Proof.
  unfold stop_service. apply quiet_bind; [apply quiet_answer|]. intros _.
  apply quiet_bind; [apply quiet_ask|]. intros timeout. apply quiet_bind; [apply quiet_wait|]. intros _. apply quiet_ask.
Qed.
Lemma open_all_rest manager names w : rest (open_all (W := M) manager names w).1 = rest w.
Proof.
  revert w. induction names as [|name names IH]; intros w; [done|]. cbn [open_all].
  destruct (get_service_handle manager (parse_str_ptr name) w) as [w1 r] eqn:H.
  specialize (IH w1). destruct (open_all manager names w1) as [w2 hs]. cbn [fst] in *. rewrite IH.
  refine (quiet_answer _ _ w w1 r _). unfold io_sem. by rewrite <- H.
Qed.
Lemma list_services_rest manager required page w : rest (list_services (W := M) manager required page w).1 = rest w.
Proof.
  unfold list_services. cbn [enum_services_status machine_api].
  match goal with |- context[in_os ?c w] => pose proof (in_os_rest c w) as Hr; destruct (in_os c w) as [w1 a] end.
  destruct (_ && _); [done|]. pose proof (open_all_rest manager (es_services a) w1) as Ho.
  destruct (open_all _ _ w1) as [w2 hs]. cbn [fst] in *. congruence.
Qed.
Lemma quiet_try_new manager : quiet (io_sem (enumerator_try_new (W := M) manager)).
Proof.
  intros w w' r. unfold io_sem, enumerator_try_new. cbn [enum_services_status machine_api].
  match goal with |- context[in_os ?c w] => pose proof (in_os_rest c w) as Hr; destruct (in_os c w) as [w1 a] end.
  destruct (_ && _); [|by intros [= <- <-]].
  pose proof (list_services_rest manager (es_required a) (es_resume a) w1) as Hl.
  destruct (list_services _ _ _ w1) as [w2 [[q p] l]]. intros [= <- <-]. cbn [fst] in *. congruence.
Qed.
Lemma quiet_enumerate fuel self : quiet (enumerate (W := M) fuel self).
Proof.
  revert self. induction fuel as [|fuel IH]; intros self; [done|]. cbn [enumerate]. apply quiet_bind.
  - intros w w' r. unfold io_sem, enumerator_next. destruct (pop (en_buffer self)) as [[h b]|]; [by intros [= <- <-]|].
    pose proof (list_services_rest (en_manager self) (en_required self) (en_resume self) w) as Hl.
    destruct (list_services _ _ _ w) as [w1 [[q p] l]]. cbn [fst] in Hl.
    destruct (pop _) as [[h b]|]; by intros [= <- <-].
  - intros [self' [h|]]; [|apply quiet_ret]. apply quiet_bind; [apply IH|]. intros hs. apply quiet_ret.
Qed.
Lemma quiet_get_services fuel manager f : quiet (get_services (W := M) fuel manager f).
Proof.
  unfold get_services. apply quiet_bind; [apply quiet_try_new|]. intros e.
  apply quiet_bind; [apply quiet_enumerate|]. intros hs. apply quiet_ret.
Qed.
Lemma quiet_stop_services fuel manager f : quiet (stop_services (W := M) fuel manager f).
Proof. unfold stop_services. apply quiet_bind; [apply quiet_get_services|]. intros l. apply quiet_each, quiet_stop. Qed.
Lemma quiet_remove_service fuel manager name : quiet (remove_service (WN := machine_windows) fuel manager name).
Proof.
  unfold remove_service, service_stop. apply quiet_bind; [apply quiet_answer|]. intros s.
  apply quiet_bind; [|intros s'; apply quiet_answer].
  apply quiet_bind; [apply quiet_stop|]. intros _. apply quiet_ret.
Qed.
Lemma quiet_create_services install_path data_path manager :
  quiet (create_services (WN := machine_windows) install_path data_path manager).
Proof.
  unfold create_services. repeat (apply quiet_bind; [first [apply quiet_ask|apply quiet_answer]|intros ?]).
  apply quiet_answer.
Qed.
Lemma io_pass_rest {E A} (m : io M E A) w w' : quiet m -> io_pass_result m w = Some w' -> rest w' = rest w.
Proof.
  intros Hm. unfold io_pass_result. destruct (m w) as [[w1 r]|] eqn:H; cbn; [|done]. intros [= <-]. by apply (Hm _ _ _ H).
Qed.
Lemma remove_services_rest fuel w w' : remove_services (WN := machine_windows) fuel w = Some w' -> rest w' = rest w.
Proof.
  unfold remove_services, service_manager_try_new, io_sem, get_service_manager.
  destruct (answer _ _ w) as [w1 r] eqn:Ha.
  assert (rest w1 = rest w) as H1.
  { refine (quiet_answer _ _ w w1 r _). unfold io_sem. by rewrite <- Ha. }
  destruct r as [manager|e]; [|by intros [= <-]].
  intros (w2 & H2 & (w3 & H3 & H4)%bind_Some)%bind_Some.
  apply io_pass_rest in H2; [|apply quiet_stop_services]. apply io_pass_rest in H3; [|apply quiet_remove_service].
  apply io_pass_rest in H4; [|apply quiet_remove_service]. congruence.
Qed.

(** Here too a transaction is just its step. *)
Lemma guarded_transaction {A} d (step : unit -> edit (T := gmap string MemoryEntry) A) m :
  (t ← editor_transaction (guarded_editor d); apply_transaction (step t) t) m = step tt m.
Proof.
  unfold apply_transaction, editor_transaction, sem_or_else, sem_map_err, sem_lift, mbind, sem_bind, mret, sem_ret.
  cbn [get_transaction commit rollback GuardedKey]. unfold mret, sem_ret. cbn [map_err].
  by destruct (step tt m) as [m' [a|e]].
Qed.

(** ** Keys and what is kept below them *)
Definition hklm : string := s_root setup.
Definition software_key : string := child hklm "SOFTWARE".
Definition firm_key : string := child software_key APPLICATION_NAME.
Definition registered_text (m : gmap string MemoryEntry) : option string :=
  (values <$> m !! firm_key) ≫= (.!! "InstallFiles").
(** The files the registry lists for Firm. *)
Definition registered_files (m : gmap string MemoryEntry) : list string :=
  match registered_text m with Some text => str_split semicolon text | None => [] end.

(** Steps that keep the list of files and the key of applications. *)
Definition kept (m m' : gmap string MemoryEntry) : Prop :=
  (is_Some (m !! software_key) -> is_Some (m' !! software_key)) /\ registered_text m' = registered_text m.
#[export] Instance kept_preorder : PreOrder kept.
Proof.
  split; [by intros m; split|]. intros m1 m2 m3 [H1 E1] [H2 E2]. split; [by intros H; apply H2, H1|congruence].
Qed.
(** Steps whose changes are of a kind. *)
Section respects.
Variable R : relation (gmap string MemoryEntry).
Context `{!PreOrder R}.
Definition respects {E A} (m : sem (gmap string MemoryEntry) E A) : Prop := forall r, R r (m r).1.

Lemma respects_ask {E A} (f : gmap string MemoryEntry -> result E A) : respects (sem_ask f).
Proof. intros r. cbn. reflexivity. Qed.
Lemma respects_lift {E A} (a : result E A) : respects (sem_lift a).
Proof. intros r. cbn. reflexivity. Qed.
Lemma respects_ret {E A} (a : A) : respects (E := E) (mret a).
Proof. intros r. cbn. reflexivity. Qed.
Lemma respects_bind {E A B} (m : sem (gmap string MemoryEntry) E A) (f : A -> sem (gmap string MemoryEntry) E B) :
  respects m -> (forall a, respects (f a)) -> respects (m ≫= f).
Proof.
  intros Hm Hf r. unfold mbind, sem_bind. specialize (Hm r). destruct (m r) as [r1 [a|e]]; [|done].
  etransitivity; [exact Hm|apply Hf].
Qed.
Lemma respects_map_err {E F A} (f : E -> F) (m : sem (gmap string MemoryEntry) E A) :
  respects m -> respects (sem_map_err f m).
Proof. intros Hm r. unfold sem_map_err. specialize (Hm r). by destruct (m r). Qed.
Lemma respects_when_missing {A} (m : sem (gmap string MemoryEntry) IoError A) a : respects m -> respects (or_when_missing m a).
Proof.
  intros Hm r. unfold or_when_missing, sem_or_else. specialize (Hm r). destruct (m r) as [r1 [b|e]]; [done|].
  unfold not_found. by destruct (io_kind e).
Qed.
Lemma respects_each {E A} (f : A -> sem (gmap string MemoryEntry) E unit) l :
  (forall a, a ∈ l -> respects (f a)) -> respects (sem_try_for_each f l).
Proof.
  induction l as [|a l IH]; intros Hf; [apply respects_ret|]. cbn [sem_try_for_each]. apply respects_bind.
  - apply Hf. left.
  - intros _. apply IH. intros a' Ha'. apply Hf. by right.
Qed.
Lemma respects_open {A} (k n : string) (f : string -> sem (gmap string MemoryEntry) IoError A) :
  respects (f (child k n)) -> respects (memory_open_subkey k n ≫= f).
Proof.
  intros Hf r. unfold mbind, sem_bind, memory_open_subkey, sem_ask.
  destruct (r !! child k n); [apply Hf|cbn; reflexivity].
Qed.
Lemma respects_guarded {A} k (m : sem (gmap string MemoryEntry) IoError A) : respects m -> respects (guarded k m).
Proof. intros Hm r. unfold guarded. destruct (s_denied setup k); [cbn; reflexivity|apply Hm]. Qed.
Lemma respects_transaction {A} d (step : unit -> edit (T := gmap string MemoryEntry) A) :
  respects (step tt) -> respects (t ← editor_transaction (guarded_editor d); apply_transaction (step t) t).
Proof. intros Hs r. rewrite guarded_transaction. apply Hs. Qed.
End respects.
Abbreviation keeps := (respects kept).

Lemma kept_insert r k entry : k <> firm_key -> kept r (<[k := entry]> r).
Proof.
  intros Hk. split; [|unfold registered_text; by rewrite lookup_insert_ne].
  intros Hs. destruct (decide (k = software_key)) as [->|Hne]; [by rewrite lookup_insert_eq|by rewrite lookup_insert_ne].
Qed.
Lemma keeps_created k n : keeps (memory_create_subkey k n).
Proof.
  intros r. unfold memory_create_subkey. cbn [fst]. destruct (r !! child k n) eqn:Hr; [reflexivity|]. split.
  - intros Hs. destruct (decide (child k n = software_key)) as [->|Hne]; [by rewrite lookup_insert_eq|].
    by rewrite lookup_insert_ne.
  - unfold registered_text. destruct (decide (child k n = firm_key)) as [<-|Hne]; [|by rewrite lookup_insert_ne].
    by rewrite lookup_insert_eq, Hr.
Qed.
Lemma respects_create {E A} (R : relation (gmap string MemoryEntry)) `{!PreOrder R} (e : IoError -> E) (k n : string)
    (f : string -> sem (gmap string MemoryEntry) E A) :
  respects R (memory_create_subkey k n) -> respects R (f (child k n)) -> respects R (sem_map_err e (guarded_create k n) ≫= f).
Proof.
  intros Hc Hf r. unfold mbind, sem_bind, sem_map_err, guarded_create, guarded. destruct (r !! child k n) eqn:Hr; [apply Hf|].
  destruct (s_denied setup k); [cbn; reflexivity|]. specialize (Hc r). unfold memory_create_subkey in *. rewrite Hr in *.
  etransitivity; [exact Hc|apply Hf].
Qed.
Lemma map_err_id {T E A} (m : sem T E A) s : sem_map_err id m s = m s.
Proof. unfold sem_map_err. by destruct (m s) as [s' []]. Qed.
Lemma keeps_create {A} (k n : string) (f : string -> sem (gmap string MemoryEntry) IoError A) :
  keeps (f (child k n)) -> keeps (guarded_create k n ≫= f).
Proof.
  intros Hf r. pose proof (respects_create kept id k n f (keeps_created k n) Hf r) as H. revert H.
  unfold mbind, sem_bind. by rewrite map_err_id.
Qed.
Lemma keeps_set k n v : k <> firm_key \/ n <> "InstallFiles" -> keeps (guarded k (memory_set_value k n v)).
Proof.
  intros Hk. apply (respects_guarded kept). intros r. unfold memory_set_value. cbn [fst]. destruct (decide (k = firm_key)) as [->|Hne]; [|by apply kept_insert].
  destruct Hk as [?|Hn]; [done|]. split.
  - intros Hs. rewrite lookup_insert_ne; [done|]. intros Heq. apply (f_equal str_len) in Heq. revert Heq.
    unfold firm_key, child. rewrite str_len_app. cbn [str_len]. lia.
  - unfold registered_text. rewrite lookup_insert_eq. cbn. rewrite lookup_insert_ne by congruence.
    unfold default. by destruct (r !! firm_key).
Qed.
Lemma keeps_delete k n : child k n <> firm_key -> child k n <> software_key -> keeps (guarded k (memory_delete_subkey_all k n)).
Proof.
  intros H1 H2. apply (respects_guarded kept). intros r. unfold memory_delete_subkey_all. cbn [fst]. split.
  - by rewrite lookup_delete_ne.
  - unfold registered_text. by rewrite lookup_delete_ne.
Qed.

Ltac other_key :=
  unfold firm_key, software_key, hklm, child; rewrite ?str_app_assoc; intros Heq;
  apply str_app_inj in Heq; vm_compute in Heq; discriminate Heq.

(** *** The operations of the installer keep the list *)
Section kept_operations.
Variable d : gset string.
Abbreviation self := (guarded_editor d).

Lemma keeps_edit_path wrap f : keeps (edit_path self wrap f).
Proof.
  unfold edit_path. apply (respects_transaction kept), (respects_map_err kept). apply (respects_open kept). apply (respects_bind kept); [apply (respects_ask kept)|].
  intros old. destruct (f old); [|apply (respects_ret kept)]. apply keeps_set. left. other_key.
Qed.
Lemma keeps_cancel path : keeps (cancel_pending_deletions self path).
Proof.
  unfold cancel_pending_deletions. apply (respects_transaction kept), (respects_bind kept); [apply (respects_lift kept)|].
  intros re. apply (respects_bind kept).
  - unfold get_pending_deletions. apply (respects_bind kept).
    { apply (respects_map_err kept), (respects_when_missing kept), (respects_open kept), (respects_ret kept). }
    intros [key|]; (apply (respects_bind kept); [|intros ?; apply (respects_ret kept)]); [|apply (respects_ret kept)].
    apply (respects_map_err kept), (respects_when_missing kept), (respects_ask kept).
  - intros paths. unfold set_pending_deletions. apply (respects_create kept); [apply keeps_created|].
    apply (respects_map_err kept), keeps_set. left. other_key.
Qed.
Lemma keeps_find : keeps (find_application self APPLICATION_NAME).
Proof. unfold find_application. apply (respects_map_err kept). apply (respects_open kept), (respects_open kept), (respects_ask kept). Qed.
Lemma keeps_set_values k data : k <> firm_key \/ data !! "InstallFiles" = None -> keeps (set_values (RK := GuardedKey) k data).
Proof.
  intros Hk. unfold set_values. apply (respects_each kept). intros [n v] Hin. apply keeps_set. destruct Hk as [Hk|Hd]; [by left|].
  right. cbn. intros ->. apply elem_of_hash_iter in Hin. congruence.
Qed.
Lemma keeps_register_application exe data :
  data !! "InstallFiles" = None -> keeps (register_application self APPLICATION_NAME exe data).
Proof.
  intros Hd. unfold register_application. apply (respects_map_err kept). apply (respects_open kept), keeps_create.
  apply (respects_bind kept); [apply keeps_set; by right|]. intros _. apply keeps_set_values. by right.
Qed.
Lemma keeps_register_uninstaller display uninstall_string extra :
  keeps (register_uninstaller self APPLICATION_NAME display uninstall_string extra).
Proof.
  unfold register_uninstaller. apply (respects_map_err kept). apply (respects_open kept), keeps_create.
  repeat (apply (respects_bind kept); [apply keeps_set; left; other_key|intros _]). apply keeps_set_values. left. other_key.
Qed.
End kept_operations.

(** *** What the installer keeps its lists with is written as in memory

    The keys of the two lists may be written: the files of Firm, and the deletions of
    the next start. *)
Definition pending_key : string := child hklm PENDING_REMOVAL_KEY.
Definition lists_writable : Prop := Forall (fun k => s_denied setup k = false) [hklm; software_key; firm_key; pending_key].
Section agreement.
Hypothesis Hwritable : lists_writable.
Definition agree {E A} (m m' : sem (gmap string MemoryEntry) E A) : Prop := forall r, m r = m' r.

Lemma writable k : k ∈ [hklm; software_key; firm_key; pending_key] -> s_denied setup k = false.
Proof. intros Hk. unfold lists_writable in Hwritable. rewrite Forall_forall in Hwritable. by apply Hwritable. Qed.
Lemma agree_same {E A} (m : sem (gmap string MemoryEntry) E A) : agree m m.
Proof. by intros r. Qed.
Lemma agree_map_err {E F A} (f : E -> F) (m m' : sem (gmap string MemoryEntry) E A) :
  agree m m' -> agree (sem_map_err f m) (sem_map_err f m').
Proof. intros Hm r. unfold sem_map_err. by rewrite Hm. Qed.
Lemma agree_or_else {E F A} (m m' : sem (gmap string MemoryEntry) E A) (h h' : E -> sem (gmap string MemoryEntry) F A) :
  agree m m' -> (forall e, agree (h e) (h' e)) -> agree (sem_or_else m h) (sem_or_else m' h').
Proof. intros Hm Hh r. unfold sem_or_else. rewrite Hm. destruct (m' r) as [r1 [a|e]]; [done|apply Hh]. Qed.
Lemma agree_bind {E A B} (m m' : sem (gmap string MemoryEntry) E A) (f f' : A -> sem (gmap string MemoryEntry) E B) :
  agree m m' -> (forall a, agree (f a) (f' a)) -> agree (m ≫= f) (m' ≫= f').
Proof. intros Hm Hf r. unfold mbind, sem_bind. rewrite Hm. destruct (m' r) as [r1 [a|e]]; [apply Hf|done]. Qed.
Lemma agree_open {A} k n (f f' : string -> sem (gmap string MemoryEntry) IoError A) :
  agree (f (child k n)) (f' (child k n)) -> agree (memory_open_subkey k n ≫= f) (memory_open_subkey k n ≫= f').
Proof. intros Hf r. unfold mbind, sem_bind, memory_open_subkey, sem_ask. destruct (r !! child k n); [apply Hf|done]. Qed.
Lemma agree_created k n : s_denied setup k = false -> agree (guarded_create k n) (memory_create_subkey k n).
Proof. intros Hk r. unfold guarded_create, guarded, memory_create_subkey. rewrite Hk. by destruct (r !! child k n). Qed.
Lemma agree_create {A} k n (f f' : string -> sem (gmap string MemoryEntry) IoError A) :
  s_denied setup k = false -> agree (f (child k n)) (f' (child k n)) -> agree (guarded_create k n ≫= f) (memory_create_subkey k n ≫= f').
Proof. intros Hk Hf r. unfold mbind, sem_bind. rewrite agree_created by done. unfold memory_create_subkey. apply Hf. Qed.
Lemma agree_guarded {A} k (m : sem (gmap string MemoryEntry) IoError A) : s_denied setup k = false -> agree (guarded k m) m.
Proof. intros Hk r. unfold guarded. by rewrite Hk. Qed.

Lemma agree_transaction {A} d (step step' : unit -> edit (T := gmap string MemoryEntry) A) :
  agree (step tt) (step' tt) ->
  agree (t ← editor_transaction (guarded_editor d); apply_transaction (step t) t)
        (t ← editor_transaction (memory_editor d); apply_transaction (step' t) t).
Proof. intros Hs r. rewrite guarded_transaction, memory_transaction. apply Hs. Qed.
Lemma agree_get_install d :
  agree (get_install_files (guarded_editor d) APPLICATION_NAME) (get_install_files (memory_editor d) APPLICATION_NAME).
Proof.
  unfold get_install_files. apply (agree_transaction d), agree_map_err, agree_open, agree_create; [apply writable; set_solver|]. unfold install_files_of.
  apply agree_or_else; [apply agree_same|]. intros e. unfold not_found. destruct (io_kind e); [|apply agree_same].
  apply agree_bind; [|intros _; apply agree_same]. apply agree_guarded, writable. set_solver.
Qed.
Lemma agree_register_install d file :
  agree (register_install_file (guarded_editor d) APPLICATION_NAME file) (register_install_file (memory_editor d) APPLICATION_NAME file).
Proof.
  unfold register_install_file. apply agree_bind; [apply agree_get_install|]. intros files.
  apply agree_map_err, agree_open, agree_create; [apply writable; set_solver|]. apply agree_guarded, writable. set_solver.
Qed.
Lemma agree_mark_paths d paths :
  agree (mark_paths_for_delete (guarded_editor d) paths) (mark_paths_for_delete (memory_editor d) paths).
Proof.
  unfold mark_paths_for_delete. apply (agree_transaction d), agree_bind; [apply agree_same|]. intros content r.
  rewrite set_pending_memory. unfold set_pending_deletions, sem_map_err, mbind, sem_bind.
  cbn [create_subkey_transacted_with_flags set_value GuardedKey].
  rewrite agree_created by (apply writable; set_solver). unfold memory_create_subkey. cbn [map_err].
  rewrite agree_guarded by (apply writable; set_solver).
  unfold set_pending, write_value, memory_set_value, values_at, memory_default.
  change (child (re_registry (guarded_editor d)) PENDING_REMOVAL_KEY) with (key_of (memory_editor d) PENDING_REMOVAL_KEY).
  destruct (r !! key_of (memory_editor d) PENDING_REMOVAL_KEY) as [entry|] eqn:Hr; cbn [map_err].
  - by rewrite Hr.
  - by rewrite lookup_insert_eq, insert_insert_eq.
Qed.
Lemma agree_deregister d :
  agree (deregister_application (guarded_editor d) APPLICATION_NAME) (deregister_application (memory_editor d) APPLICATION_NAME).
Proof.
  unfold deregister_application. apply agree_map_err, agree_open, agree_guarded, writable. set_solver.
Qed.
End agreement.

(** Steps of the machine that keep the list, and the disk. *)
Definition steady (w w' : M) : Prop := kept (m_registry w) (m_registry w') /\ m_disk w' = m_disk w.
#[export] Instance steady_preorder : PreOrder steady.
Proof. split; [by intros w; split|]. intros w1 w2 w3 [K1 D1] [K2 D2]. split; [by etransitivity|congruence]. Qed.
Definition keeps_list {E A} (m : io M E A) : Prop := forall w w' r, m w = Some (w', r) -> steady w w'.
Lemma quiet_keeps {E A} (m : io M E A) : quiet m -> keeps_list m.
Proof. intros Hm w w' r H. apply Hm in H. unfold steady. by injection H as -> ->. Qed.
Lemma keeps_list_bind {E A B} (m : io M E A) (f : A -> io M E B) :
  keeps_list m -> (forall a, keeps_list (f a)) -> keeps_list (m ≫= f).
Proof.
  intros Hm Hf w w' r. unfold mbind, io_bind. destruct (m w) as [[w1 [a|e]]|] eqn:H; [| |done].
  - intros Hw. etransitivity; [by apply (Hm _ _ _ H)|by apply (Hf _ _ _ _ Hw)].
  - intros [= <- <-]. by apply (Hm _ _ _ H).
Qed.
Lemma keeps_list_map {E F A} (f : E -> F) (m' : sem M E A) m :
  zoomed m' m -> keeps m -> keeps_list (io_sem (sem_map_err f m')).
Proof.
  intros Hz Hm w w' r. unfold io_sem, sem_map_err. rewrite Hz. unfold in_registry. specialize (Hm (m_registry w)).
  destruct (m (m_registry w)) as [r1 a]. by intros [= <- <-].
Qed.
Lemma keeps_list_editor {F A} (f : RegistryError -> F) (op' : RegistryEditor (T := M) -> sem M RegistryError A) op :
  (forall w, zoomed (op' (ed w)) (op (guarded_editor (m_disk w)))) -> (forall d, keeps (op (guarded_editor d))) ->
  keeps_list (io_sem (sem_map_err f (with_editor (WN := machine_windows) op'))).
Proof.
  intros Hz Hm w w' r. unfold with_editor. intros H.
  exact (keeps_list_map f (op' (ed w)) _ (Hz w) (Hm (m_disk w)) w w' r H).
Qed.
Lemma zoomed_add_log name exe :
  zoomed (add_log_source (WN := machine_windows) name exe)
    (sem_map_err (FailedToAddLogSource name exe)
       (k ← memory_open_subkey hklm EVENT_LOG_SOURCES; k ← guarded_create k name;
        guarded k (memory_set_value k "EventMessageFile" exe))).
Proof. unfold add_log_source. zoom. Qed.
Lemma zoomed_remove_log name :
  zoomed (remove_log_source (WN := machine_windows) name)
    (sem_map_err (FailedToRemoveLogSource name)
       (k ← memory_open_subkey hklm EVENT_LOG_SOURCES; guarded k (memory_delete_subkey_all k name))).
Proof. unfold remove_log_source. zoom. Qed.


(** Steps that keep what a key holds. *)
Definition same_at (k : string) : relation (gmap string MemoryEntry) := fun m m' => m' !! k = m !! k.
#[export] Instance same_at_preorder k : PreOrder (same_at k).
Proof. split; [done|]. intros m1 m2 m3 H1 H2. unfold same_at in *. congruence. Qed.
Lemma same_delete k k' n : child k' n <> k -> respects (same_at k) (guarded k' (memory_delete_subkey_all k' n)).
Proof.
  intros Hk. apply (respects_guarded (same_at k)). intros r. unfold same_at, memory_delete_subkey_all. cbn [fst].
  by rewrite lookup_delete_ne.
Qed.

(** ** What installing and uninstalling leave *)
Section cleaning.
Hypothesis Hwritable : lists_writable.
Definition listing (files : list string) (w : M) : Prop :=
  is_Some (m_registry w !! software_key) /\ forall f, f ∈ files -> f ∈ registered_files (m_registry w).
Lemma listing_kept files w w' : steady w w' -> listing files w -> listing files w'.
Proof. intros [[Hs Ht] _] [H1 H2]. split; [by apply Hs|]. unfold registered_files in *. by rewrite Ht. Qed.

Definition copied (results : list (result InstallerError string)) : list string := omap result_ok results.

Lemma firm_is_app d : firm_key = app_key (memory_editor d) APPLICATION_NAME.
Proof. done. Qed.
Lemma registered_after d file m :
  is_Some (m !! software_key) -> lacks semicolon file = true ->
  exists m', register_install_file (memory_editor d) APPLICATION_NAME file m = (m', Ok tt) /\
    is_Some (m' !! software_key) /\ registered_files m' = registered_files m ++ [file].
Proof.
  intros Hs Hf. rewrite register_install_memory by done. eexists. split; [done|]. split; [by apply software_write|].
  unfold registered_files, registered_text. change ((values <$> ?m !! firm_key) ≫= (.!! "InstallFiles")) with
    (installed (memory_editor d) m APPLICATION_NAME). rewrite installed_write.
  change ";" with (String semicolon EmptyString). apply str_split_join; [by intros [_ [=]]%app_nil|].
  apply Forall_app. split; [|by repeat constructor]. destruct (installed _ m _); [apply str_split_pieces|constructor].
Qed.
Lemma register_results_spec results w :
  is_Some (m_registry w !! software_key) -> Forall (fun f => lacks semicolon f = true) (copied results) ->
  exists w', register_results (WN := machine_windows) results w = (w', map (fun r => (fun _ => tt) <$> r) results) /\
    is_Some (m_registry w' !! software_key) /\ m_disk w' = m_disk w /\ m_os w' = m_os w /\
    registered_files (m_registry w') = registered_files (m_registry w) ++ copied results.
Proof.
  revert w. induction results as [|[file|e] results IH]; intros w Hs Hf; cbn [register_results].
  - exists w. unfold copied. cbn. by rewrite app_nil_r.
  - unfold copied in Hf. cbn in Hf. apply Forall_cons in Hf as [Hf Hfs].
    unfold sem_map_err, with_editor. rewrite zoomed_register_install. unfold in_registry. rewrite agree_register_install by done.
    destruct (registered_after (m_disk w) file (m_registry w) Hs Hf) as (m' & -> & Hs' & Hr).
    destruct (IH (set_registry m' w) Hs' Hfs) as (w' & Hw & Hs'' & Hd & Ho & Hr'). exists w'.
    cbn [map_err map]. rewrite Hw. split; [done|]. split; [done|]. split; [done|]. split; [done|].
    rewrite Hr'. cbn [m_registry set_registry]. rewrite Hr, <- app_assoc. done.
  - destruct (IH w Hs Hf) as (w' & Hw & Hr). exists w'. rewrite Hw. done.
Qed.
Lemma additional_data_names data_path : additional_data data_path !! "InstallFiles" = None.
Proof. unfold additional_data. by rewrite !lookup_insert_ne, lookup_empty. Qed.
Lemma log_keeps name exe :
  name = AVERY \/ name = LOMAX ->
  keeps_list (io_sem (sem_map_err IEventLogError (add_log_source (WN := machine_windows) name exe))).
Proof.
  intros Hn. eapply keeps_list_map; [apply zoomed_add_log|].
  apply (respects_map_err kept), (respects_open kept), keeps_create, keeps_set. left. destruct Hn as [-> | ->]; other_key.
Qed.
Lemma manager_keeps : keeps_list (io_map_err IServiceError (service_manager_try_new (W := M))).
Proof. apply quiet_keeps, quiet_map_err, quiet_answer. Qed.
Lemma services_keep install_path data_path manager :
  keeps_list (io_map_err IServiceError (create_services (WN := machine_windows) install_path data_path manager)).
Proof. apply quiet_keeps, quiet_map_err, quiet_create_services. Qed.
Lemma install_steps_list install_path data_path results w w' r :
  is_Some (m_registry w !! software_key) -> Forall (fun f => lacks semicolon f = true) (copied results) ->
  install_steps (WN := machine_windows) install_path data_path results w = Some (w', r) ->
  listing (copied results) w' /\ m_disk w' = m_disk w.
Proof.
  intros Hs Hf. destruct (register_results_spec results w Hs Hf) as (w1 & Hw & Hs1 & Hd & _ & Hr). rewrite <- Hd.
  unfold install_steps. unfold mbind at 1, io_bind at 1. unfold io_sem at 1, register_copied. rewrite Hw.
  assert (listing (copied results) w1) as H1.
  { split; [done|]. intros f Hin. rewrite Hr. apply elem_of_app. by right. }
  destruct (collect _) as [u|e]; cbn [fmap result_fmap]; [|by intros [= <- <-]].
  intros Hrest. assert (steady w1 w') as Hk; [|split; [exact (listing_kept _ w1 w' Hk H1)|apply Hk]].
  revert Hrest. generalize w1 w' r. clear.
  match goal with |- forall w w' r, ?m w = _ -> _ => change (keeps_list m) end.
  apply keeps_list_bind; [apply log_keeps; by left|]. intros _.
  apply keeps_list_bind; [apply log_keeps; by right|]. intros _.
  apply keeps_list_bind; [apply manager_keeps|]. intros manager.
  apply keeps_list_bind; [apply services_keep|]. intros _.
  apply keeps_list_bind.
  { exact (keeps_list_editor _ _ (fun e => add_to_path e install_path) (fun w => zoomed_edit_path w _ _)
             (fun d => keeps_edit_path d _ _)). }
  intros _. apply keeps_list_bind.
  - exact (keeps_list_editor _ _ (fun e => register_application e APPLICATION_NAME install_path (additional_data data_path))
      (fun w => zoomed_register_application w _ _ _)
      (fun d => keeps_register_application d _ _ (additional_data_names _))).
  - intros _. exact (keeps_list_editor _ _ (fun e => register_uninstaller e APPLICATION_NAME APPLICATION_NAME
        (install_path +:+ "\install.exe uninstall") (extra_info install_path))
      (fun w => zoomed_register_uninstaller w _ _ _ _) (fun d => keeps_register_uninstaller d _ _ _)).
Qed.

(** *** Pending deletions *)
Definition pending_deletions (m : gmap string MemoryEntry) : list string := pending (memory_editor ∅) m.

Lemma split_between sep a b : str_split sep (a +:+ String sep b) = str_split sep a ++ str_split sep b.
Proof.
  induction a as [|c a IH].
  - change (EmptyString +:+ ?x) with x. cbn [str_split]. by rewrite Ascii.eqb_refl.
  - change (String c a +:+ ?x) with (String c (a +:+ x)). cbn [str_split]. rewrite IH.
    destruct (Ascii.eqb c sep); [done|]. pose proof (str_split_not_nil sep a) as Hn. by destruct (str_split sep a).
Qed.
Lemma chunk_piece e l : one_line e = true -> e ∈ l -> e ∈ str_split line_feed (pending_chunks l).
Proof.
  intros He Hin. induction Hin as [|? ? ? Hin IH]; cbn [pending_chunks];
    change (newline +:+ newline +:+ ?x) with (String line_feed (String line_feed x));
    rewrite split_between; apply elem_of_app.
  - left. rewrite str_split_lacks; [by left|]. unfold one_line in He. by rewrite !andb_true_iff in He; destruct He as [[_ ?] _].
  - right. change (String line_feed ?x) with (EmptyString +:+ String line_feed x). rewrite split_between.
    apply elem_of_app. right. by apply IH.
Qed.
Lemma drop_last_keeps e l : e ∈ l -> str_is_empty e = false -> e ∈ drop_last_empty l.
Proof.
  intros Hin He. induction l as [|a l IH]; [by apply elem_of_nil in Hin|]. destruct l as [|b l].
  - apply list_elem_of_singleton in Hin as ->. cbn. rewrite He. by left.
  - change (drop_last_empty (a :: b :: l)) with (a :: drop_last_empty (b :: l)).
    apply elem_of_cons in Hin as [->|Hin]; [by left|]. right. by apply IH.
Qed.
Lemma pending_member e l m : one_line e = true -> e ∈ l -> e ∈ pending_deletions (set_pending (memory_editor ∅) l m).
Proof.
  intros He Hin. unfold pending_deletions, pending, pending_value, set_pending. rewrite write_value_read.
  cbn [default from_option]. unfold pending_entries, str_lines. pose proof He as Hl. unfold one_line in Hl.
  rewrite !andb_true_iff, negb_true_iff in Hl. destruct Hl as [[Hne _] Hcr].
  apply list_elem_of_filter. split; [done|]. apply list_elem_of_fmap. exists e. split; [by rewrite strip_cr_lacks|].
  apply drop_last_keeps; [|done]. rewrite pending_text_chunks. by apply chunk_piece.
Qed.

(** [w1] has no more files than [w], and every deletion of [w] is still pending. *)
Definition removed (w w1 : M) : Prop :=
  m_disk w1 ⊆ m_disk w /\
  (forall e, one_line e = true -> e ∈ pending_deletions (m_registry w) -> e ∈ pending_deletions (m_registry w1)) /\
  (is_Some (m_registry w !! software_key) -> is_Some (m_registry w1 !! software_key)).
#[export] Instance removed_preorder : PreOrder removed.
Proof.
  split; [by intros w; split|]. intros w1 w2 w3 (D1 & P1 & S1) (D2 & P2 & S2).
  split; [by etransitivity|]. split; eauto.
Qed.
(** A file that is gone now or will be at the next start. *)
Definition file_gone (w : M) (f : string) : Prop :=
  f ∉ m_disk w \/ deletion_entry f ∈ pending_deletions (m_registry w).
Lemma removed_gone w w1 f : one_line f = true -> removed w w1 -> file_gone w f -> file_gone w1 f.
Proof.
  intros Hf (Hd & Hp & _) [H|H]; [left; set_solver|right]. apply Hp; [|done]. by apply one_line_entry.
Qed.
Lemma remove_or_mark_spec f w :
  exists w1, remove_or_mark (WN := machine_windows) f w = (w1, Ok tt) /\ removed w w1 /\
    (one_line f = true -> file_gone w1 f).
Proof.
  assert (exists w1, with_editor (WN := machine_windows) (fun e => mark_paths_for_delete e [f]) w = (w1, Ok tt) /\
    removed w w1 /\ (one_line f = true -> file_gone w1 f)) as Hmark.
  { unfold with_editor. rewrite zoomed_mark_paths. unfold in_registry. rewrite agree_mark_paths, mark_paths_memory by done. eexists. split; [done|].
    split; [split; [done|split]|].
    - intros e He Hin. apply pending_member; [done|]. apply elem_of_app. by left.
    - intros Hs. unfold set_pending, write_value. cbn [m_registry set_registry]. rewrite lookup_insert_ne; [done|].
      unfold software_key, hklm, key_of, child. intros Heq. apply str_app_inj in Heq. vm_compute in Heq. discriminate Heq.
    - intros Hf. right. apply pending_member; [by apply one_line_entry|]. apply elem_of_app. right. by left. }
  unfold remove_or_mark, sem_or_else. cbn [remove_file machine_windows].
  destruct (s_locked setup f); [apply Hmark|]. destruct (decide (f ∈ m_disk w)) as [Hin|Hin]; [|apply Hmark].
  eexists. split; [done|]. split; [split; [|by split]|].
  - cbn. set_solver.
  - intros _. left. cbn. set_solver.
Qed.
Lemma remove_all_spec files w :
  exists w1, sem_try_for_each (remove_or_mark (WN := machine_windows)) files w = (w1, Ok tt) /\ removed w w1 /\
    forall f, f ∈ files -> one_line f = true -> file_gone w1 f.
Proof.
  revert w. induction files as [|f files IH]; intros w.
  - exists w. split; [done|]. split; [done|]. intros f Hf. by apply elem_of_nil in Hf.
  - cbn [sem_try_for_each]. unfold mbind, sem_bind. destruct (remove_or_mark_spec f w) as (w1 & -> & Hr1 & Hg1).
    destruct (IH w1) as (w2 & -> & Hr2 & Hg2). exists w2. split; [done|]. split; [by etransitivity|].
    intros f' [->|Hin]%elem_of_cons Hf'; [|by apply Hg2]. by eapply removed_gone; [|exact Hr2|apply Hg1].
Qed.

(** *** Uninstalling *)
Lemma pass_kept {E A} (m' : sem M E A) m w :
  zoomed m' m -> keeps m -> steady w (pass_result m' w).
Proof.
  intros Hz Hm. unfold pass_result. rewrite Hz. unfold in_registry. specialize (Hm (m_registry w)).
  by destruct (m (m_registry w)).
Qed.
Lemma find_installed_kept w : steady w (find_installed (WN := machine_windows) w).1.
Proof.
  unfold find_installed, find_firm, with_editor. rewrite zoomed_find_application. unfold in_registry.
  pose proof (keeps_find (m_disk w) (m_registry w)) as Hk. destruct (find_application _ _ _) as [r [entries|e]]; (split; [exact Hk|done]).
Qed.
Lemma remove_files_spec exe_path files w :
  listing files w -> Forall (fun f => one_line f = true) files ->
  let w1 := remove_files (WN := machine_windows) exe_path w in
  Forall (file_gone w1) files /\ is_Some (m_registry w1 !! software_key) /\ m_disk w1 ⊆ m_disk w.
Proof.
  intros [Hs Hl] Hf. unfold remove_files, with_editor. rewrite zoomed_get_install. unfold in_registry.
  rewrite agree_get_install, get_install_memory by done. change (installed (memory_editor (m_disk w)) (m_registry w) APPLICATION_NAME)
    with (registered_text (m_registry w)). unfold registered_files in Hl. unfold pass_result.
  destruct (registered_text (m_registry w)) as [text|].
  - destruct (remove_all_spec (str_split semicolon text) (set_registry (m_registry w) w)) as (w2 & -> & (Hd & _ & Hk) & Hg).
    split; [|split; [by apply Hk|done]]. apply Forall_forall. intros f Hin. rewrite Forall_forall in Hf. by apply Hg; [apply Hl|apply Hf].
  - split; [|split; [by apply software_write|done]]. apply Forall_forall. intros f Hin. by apply Hl, elem_of_nil in Hin.
Qed.

(** Deleting keys neither brings a file back nor drops a pending deletion. *)
Lemma deregister_memory d m :
  (deregister_application (memory_editor d) APPLICATION_NAME m).1 = (if m !! software_key is Some _ then delete firm_key m else m).
Proof.
  unfold deregister_application, sem_map_err, mbind, sem_bind. cbn [open_subkey_with_flags delete_subkey_all MemoryKey].
  unfold memory_open_subkey, sem_ask. change (child (re_registry (memory_editor d)) "SOFTWARE") with software_key.
  by destruct (m !! software_key).
Qed.
Definition uninstall_key : string := child (child hklm UNINSTALL_KEY) APPLICATION_NAME.
Lemma pass_zoomed {E A} (m' : sem M E A) m w : zoomed m' m -> pass_result m' w = set_registry (m (m_registry w)).1 w.
Proof. intros Hz. unfold pass_result. rewrite Hz. unfold in_registry. by destruct (m (m_registry w)). Qed.

Lemma deregister_spec files w :
  Forall (file_gone w) files -> is_Some (m_registry w !! software_key) ->
  let w1 := pass_result (with_editor (WN := machine_windows) (fun e => deregister_application e APPLICATION_NAME)) w in
  let w2 := pass_result (with_editor (WN := machine_windows) (fun e => deregister_uninstaller e APPLICATION_NAME)) w1 in
  Forall (file_gone w2) files /\ m_registry w2 !! firm_key = None /\ m_disk w2 = m_disk w.
Proof.
  intros Hg [entry Hs] w1.
  assert (w1 = set_registry (delete firm_key (m_registry w)) w) as ->.
  { subst w1. etransitivity; [exact (pass_zoomed _ _ w (zoomed_deregister_application w APPLICATION_NAME))|].
    rewrite agree_deregister, deregister_memory by done. by rewrite Hs. }
  intros w2.
  assert (exists r, w2 = set_registry r w /\ forall k, k <> uninstall_key -> r !! k = delete firm_key (m_registry w) !! k) as (r & -> & Hr).
  { set (ws := set_registry _ w) in w2. eexists.
    split; [exact (pass_zoomed _ _ ws (zoomed_deregister_uninstaller ws APPLICATION_NAME))|]. intros k Hk.
    apply (respects_map_err (same_at k)), (respects_open (same_at k)), same_delete. unfold uninstall_key in Hk. done. }
  split; [|split; [cbn [m_registry set_registry]; rewrite Hr by (unfold uninstall_key; other_key); apply lookup_delete_eq|done]].
  eapply Forall_impl; [exact Hg|]. intros f [Hf|Hf]; [by left|right].
  unfold pending_deletions, pending, pending_value, values_at in *. cbn [m_registry set_registry].
  change (key_of (memory_editor ∅) PENDING_REMOVAL_KEY) with (child hklm PENDING_REMOVAL_KEY) in *.
  rewrite Hr, lookup_delete_ne by (unfold uninstall_key; other_key). exact Hf.
Qed.
Lemma uninstall_spec fuel files w w' :
  uninstall (WN := machine_windows) fuel w = Some w' -> listing files w -> Forall (fun f => one_line f = true) files ->
  Forall (file_gone w') files /\ m_registry w' !! firm_key = None /\ m_disk w' ⊆ m_disk w.
Proof.
  unfold uninstall. intros (w1 & Hw1 & Hw)%bind_Some Hl Hf. apply remove_services_rest in Hw1.
  assert (steady w w1) as H1 by (unfold steady; by injection Hw1 as -> ->).
  set (w2 := pass_result (remove_log_source AVERY) w1) in *. set (w3 := pass_result (remove_log_source LOMAX) w2) in *.
  assert (forall name w, name = AVERY \/ name = LOMAX ->
    steady w (pass_result (remove_log_source (WN := machine_windows) name) w)) as Hlog.
  { intros name w0 Hn. eapply pass_kept; [apply zoomed_remove_log|]. apply (respects_map_err kept), (respects_open kept).
    destruct Hn as [-> | ->]; apply keeps_delete; other_key. }
  assert (steady w w3) as H3 by (etransitivity; [exact H1|]; etransitivity; apply Hlog; [by left|by right]).
  pose proof (find_installed_kept w3) as H4. destruct (find_installed w3) as [w4 [exe_path data_path]]. cbn [fst] in H4.
  set (w5 := pass_result _ w4) in *.
  assert (steady w w5) as H5.
  { etransitivity; [exact H3|]. etransitivity; [exact H4|]. subst w5. unfold with_editor, pass_result.
    refine (pass_kept (remove_from_path (ed w4) exe_path) (remove_from_path (guarded_editor (m_disk w4)) exe_path) w4 _ _).
    - apply zoomed_edit_path.
    - apply keeps_edit_path. }
  destruct (remove_files_spec exe_path files w5 (listing_kept _ _ _ H5 Hl) Hf) as (Hg & Hs & Hd). injection Hw as <-.
  destruct (deregister_spec files _ Hg Hs) as (Hg' & Hk & Hd'). split; [exact Hg'|]. split; [exact Hk|].
  etransitivity; [apply (reflexive_eq (R := (⊆)) _ _ Hd')|]. by rewrite <- (proj2 H5).
Qed.

(** *** Copying does not touch the registry *)
Definition spares {E A} (m : sem M E A) : Prop := forall w, m_registry (m w).1 = m_registry w.
Lemma spares_lift {E A} (r : result E A) : spares (sem_lift r).
Proof. done. Qed.
Lemma spares_bind {E A B} (m : sem M E A) (f : A -> sem M E B) : spares m -> (forall a, spares (f a)) -> spares (m ≫= f).
Proof.
  intros Hm Hf w. unfold mbind, sem_bind. specialize (Hm w). destruct (m w) as [w1 [a|e]]; [|done].
  cbn [fst] in Hm. by rewrite Hf, Hm.
Qed.
Lemma spares_map_err {E F A} (f : E -> F) (m : sem M E A) : spares m -> spares (sem_map_err f m).
Proof. intros Hm w. unfold sem_map_err. specialize (Hm w). by destruct (m w). Qed.
Lemma spares_on_disk {A} (r : result IoError A) f : spares (on_disk r f).
Proof. intros w. unfold on_disk. by destruct r. Qed.
Lemma spares_write_file {A} path (r : result IoError A) f : spares (write_file path r f).
Proof. intros w. unfold write_file. destruct r; [done|]. by destruct (s_torn setup path). Qed.
Lemma copy_entry_registry install_path data_path e w :
  m_registry (copy_entry (WN := machine_windows) install_path data_path e w).1 = m_registry w.
Proof.
  unfold copy_entry. destruct e as [e|?]; [|done]. destruct (entry_type e); [done| |done].
  set (unpacking := if is_program e then _ else _). assert (spares unpacking) as Hs.
  { subst unpacking. destruct (is_program e); apply spares_map_err;
      (apply spares_bind; [apply spares_on_disk|intros _]).
    - apply spares_bind; [apply spares_lift|intros p]. apply spares_bind; [apply spares_lift|intros n].
      apply spares_bind; [apply spares_write_file|intros u; apply spares_lift].
    - apply spares_bind; [|intros _; apply spares_bind; [apply spares_lift|intros p; apply spares_lift]].
      cbn [entry_unpack_in machine_windows]. destruct (ae_path e); [apply spares_write_file|apply spares_on_disk]. }
  specialize (Hs w). by destruct (unpacking w).
Qed.
Lemma copy_files_registry install_path data_path w :
  m_registry (copy_files (WN := machine_windows) install_path data_path w).1 = m_registry w.
Proof.
  unfold copy_files. destruct archive_entries as [entries|e]; [|done].
  revert w. induction entries as [|e entries IH]; intros w; cbn [copy_entries].
  - assert (spares (copy_installer (WN := machine_windows) install_path)) as Hs.
    { apply spares_bind; [done|intros exe]. apply spares_bind; [|done]. apply spares_map_err, spares_write_file. }
    specialize (Hs w). by destruct (copy_installer install_path w).
  - pose proof (copy_entry_registry install_path data_path e w) as H1.
    destruct (copy_entry install_path data_path e w) as [w1 r]. specialize (IH w1).
    destruct (copy_entries install_path data_path entries w1) as [w2 rs]. cbn [fst] in *. congruence.
Qed.

(** The machine when the files are copied. *)
Definition before_copying (install_path : string) (w : M) : M :=
  pass_result (with_editor (WN := machine_windows) (fun reg_edit => cancel_pending_deletions reg_edit install_path)) w.
Lemma before_copying_steady install_path w : steady w (before_copying install_path w).
Proof.
  unfold before_copying, with_editor. refine (pass_kept _ _ w (zoomed_cancel w install_path) _). apply keeps_cancel.
Qed.
Lemma before_copying_software install_path w :
  is_Some (m_registry w !! software_key) -> is_Some (m_registry (before_copying install_path w) !! software_key).
Proof. apply (before_copying_steady install_path w). Qed.
(** A file name the registry can list and mark. *)
Definition plain_file (f : string) : bool := lacks semicolon f && one_line f.
Lemma plain_files files :
  Forall (fun f => plain_file f = true) files ->
  Forall (fun f => lacks semicolon f = true) files /\ Forall (fun f => one_line f = true) files.
Proof. intros H. rewrite <- Forall_and. eapply Forall_impl; [exact H|]. intros f. apply andb_true_iff. Qed.


(** *** Copying adds what it says it copied, and torn parts *)
Definition adds (m : sem M InstallerError string) : Prop := forall w f,
  f ∈ m_disk (m w).1 -> f ∈ m_disk w \/ s_torn setup f = true \/ (m w).2 = Ok f.
Lemma unpack_entry_adds e path : adds (unpack_entry (WN := machine_windows) e path).
Proof.
  intros w f. unfold unpack_entry, sem_map_err, mbind, sem_bind, sem_lift.
  cbn [create_dir_all entry_unpack entry_path machine_windows]. unfold on_disk.
  destruct (s_create setup path) as [[]|]; [|by left]. destruct (ae_path e) as [p|]; [|by left].
  destruct (file_name p) as [n|]; cbn [ok_or]; [|by left]. unfold write_file.
  destruct (ae_unpack e _) as [[]|]; cbn [fst map_err snd]; try by left.
  all: try (destruct (s_torn _ _) eqn:Ht; [|by left]).
  all:
    (cbn [m_disk set_disk]; intros [->%elem_of_singleton|?]%elem_of_union; [|by left]); right; first [by right|by left].
Qed.
Lemma unpack_data_entry_adds e path : adds (unpack_data_entry (WN := machine_windows) e path).
Proof.
  intros w f. unfold unpack_data_entry, sem_map_err, mbind, sem_bind, mret, sem_ret, sem_lift.
  cbn [create_dir_all entry_unpack_in entry_path machine_windows]. unfold on_disk.
  destruct (s_create setup path) as [[]|]; [|by left]. destruct (ae_path e) as [p|]; [|by destruct (ae_unpack_in e path); left].
  unfold write_file.
  destruct (ae_unpack_in e path) as [[]|]; cbn [fst map_err snd]; try by left.
  all: try (destruct (s_torn _ _) eqn:Ht; [|by left]).
  all:
    (cbn [m_disk set_disk]; intros [->%elem_of_singleton|?]%elem_of_union; [|by left]); right; first [by right|by left].
Qed.
Lemma copy_installer_adds path : adds (copy_installer (WN := machine_windows) path).
Proof.
  intros w f. unfold copy_installer, sem_ask, sem_map_err, mbind, sem_bind, mret, sem_ret, sem_lift. cbn [current_exe copy_file machine_windows].
  destruct (s_exe setup) as [exe|]; cbn [map_err]; [|by left]. unfold write_file.
  destruct (s_copy setup exe _) as [[]|]; cbn [fst map_err snd].
  all: try (destruct (s_torn _ _) eqn:Ht; [|by left]).
  all:
    (cbn [m_disk set_disk]; intros [->%elem_of_singleton|?]%elem_of_union; [|by left]); right; first [by right|by left].
Qed.
Lemma copied_cons r results : copied (r :: results) = option_list (result_ok r) ++ copied results.
Proof. unfold copied. cbn. by destruct (result_ok r). Qed.
Lemma copy_files_adds install_path data_path w f :
  let '(w1, results) := copy_files (WN := machine_windows) install_path data_path w in
  f ∈ m_disk w1 -> f ∈ m_disk w \/ s_torn setup f = true \/ f ∈ copied results.
Proof.
  unfold copy_files. destruct archive_entries as [entries|e]; [|by left].
  revert w. induction entries as [|e entries IH]; intros w; cbn [copy_entries].
  - pose proof (copy_installer_adds install_path w f) as Ha. destruct (copy_installer install_path w) as [w1 r].
    intros Hf. destruct (Ha Hf) as [H|[H|H]]; [by left|right; by left|right; right]. cbn [snd] in H. subst r. left.
  - unfold copy_entry at 1. destruct e as [e|e].
    + destruct (entry_type e).
      * specialize (IH w). by destruct (copy_entries install_path data_path entries w).
      * set (unpacking := if is_program e then _ else _).
        assert (adds unpacking) as Ha by (subst unpacking; destruct (is_program e); [apply unpack_entry_adds|apply unpack_data_entry_adds]).
        specialize (Ha w f). destruct (unpacking w) as [w1 r]. specialize (IH w1).
        destruct (copy_entries install_path data_path entries w1) as [w2 rs]. intros Hf. rewrite copied_cons.
        destruct (IH Hf) as [H|[H|H]]; [|right; by left|right; right; apply elem_of_app; by right].
        destruct (Ha H) as [H'|[H'|H']]; [by left|right; by left|right; right]. cbn [snd] in H'. subst r. left.
      * specialize (IH w). destruct (copy_entries install_path data_path entries w). rewrite copied_cons. exact IH.
    + specialize (IH w). destruct (copy_entries install_path data_path entries w). rewrite copied_cons. exact IH.
Qed.
End cleaning.

(** *** Installing ends

    Stopping a service takes at most 101 polls of a clock that runs; the user services
    are listed within [n] steps. *)
Definition total {E A} (m : io M E A) : Prop := forall w, is_Some (m w).
Lemma total_sem {E A} (m : sem M E A) : total (io_sem m).
Proof. intros w. unfold io_sem. eauto. Qed.
Lemma total_bind {E A B} (m : io M E A) (f : A -> io M E B) : total m -> (forall a, total (f a)) -> total (m ≫= f).
Proof.
  intros Hm Hf w. unfold mbind, io_bind. destruct (Hm w) as [[w1 [a|e]] ->]; [apply Hf|eauto].
Qed.
Lemma total_map_err {E F A} (f : E -> F) (m : io M E A) : total m -> total (io_map_err f m).
Proof. intros Hm w. unfold io_map_err. destruct (Hm w) as [[w1 r] ->]. eauto. Qed.
Lemma total_each {E A} (f : A -> io M E unit) l : (forall a, total (f a)) -> total (io_try_for_each f l).
Proof.
  intros Hf. induction l as [|a l IH]; cbn [io_try_for_each]; [intros w; eexists; reflexivity|]. apply total_bind; [done|]. by intros [].
Qed.
Lemma total_install_steps install_path data_path results : total (install_steps (WN := machine_windows) install_path data_path results).
Proof.
  unfold install_steps, create_services. repeat (apply total_bind; [|intros ?]).
  all: first [apply total_sem|apply total_map_err; repeat (apply total_bind; [|intros ?]); apply total_sem].
Qed.

Section ending.
Context {CL : Clock (W := O)} (n : nat).
(** The service manager lists the user services within [n] steps. *)
Definition listing_ends : Prop := forall manager w w' e,
  enumerator_try_new (W := M) manager w = (w', Ok e) -> is_Some (enumerate n e w').
Hypothesis Hlisting : listing_ends.

Lemma machine_clock : Clock (W := M).
Proof.
  constructor; [|intros; apply (sleep_forward (W := O))]. intros h w. cbn. unfold in_os.
  pose proof (status_forward (W := O) h (m_os w)) as Hc. by destruct (query_service_status (W := O) h (m_os w)).
Qed.
Lemma total_stop fuel service : 101 <= fuel -> total (stop_service (W := M) fuel service).
Proof. intros Hf w. destruct (stop_service_ends service (CL := machine_clock) fuel w Hf) as (w' & r & -> & _). eauto. Qed.
Lemma enumerate_more k fuel e (w : M) : k <= fuel -> is_Some (enumerate k e w) -> is_Some (enumerate fuel e w).
Proof.
  revert fuel e w. induction k as [|k IH]; intros fuel e w Hk [x Hx]; [done|]. destruct fuel as [|fuel]; [lia|].
  cbn [enumerate] in *. unfold mbind, io_bind, io_sem in *. destruct (enumerator_next e w) as [w1 [e1 [h|]]]; [|eauto].
  assert (is_Some (enumerate k e1 w1)) as Hs by (destruct (enumerate k e1 w1); [eauto|done]).
  destruct (IH fuel e1 w1 ltac:(lia) Hs) as [[w2 [l|er]] ->]; eexists; reflexivity.
Qed.
Lemma total_stop_services fuel manager name : 101 <= fuel -> n <= fuel -> total (stop_services (W := M) fuel manager name).
Proof.
  intros Hf Hn. unfold stop_services, get_services. apply total_bind; [|intros l; apply total_each; intros s; by apply total_stop].
  intros w. unfold mbind, io_bind, io_sem. destruct (enumerator_try_new manager w) as [w1 [e|er]] eqn:He; [|eauto].
  destruct (enumerate_more n fuel e w1 Hn (Hlisting _ _ _ _ He)) as [[w2 [l|er]] ->]; eexists; reflexivity.
Qed.
Lemma pass_then {E A B} (m : io M E A) (f : M -> option B) w :
  total m -> (forall w', is_Some (f w')) -> is_Some (io_pass_result m w ≫= f).
Proof. intros Hm Hf. unfold io_pass_result. destruct (Hm w) as [[w' r] ->]. apply Hf. Qed.
Lemma uninstall_ends fuel w : 101 <= fuel -> n <= fuel -> is_Some (uninstall (WN := machine_windows) fuel w).
Proof.
  intros Hf Hn. assert (forall manager name, total (remove_service (WN := machine_windows) fuel manager name)) as Hr.
  { intros manager name. unfold remove_service, service_stop. apply total_bind; [apply total_sem|intros s].
    apply total_bind; [|intros s'; apply total_sem].
    apply total_bind; [by apply total_stop|intros _ w0; eexists; reflexivity]. }
  assert (is_Some (remove_services (WN := machine_windows) fuel w)) as [w1 Hw1].
  { unfold remove_services, service_manager_try_new, io_sem. destruct (get_service_manager _ w) as [w1 [m|e]]; [|eauto].
    apply pass_then; [by apply total_stop_services|intros w2]. apply pass_then; [by apply Hr|intros w3].
    unfold io_pass_result. by apply fmap_is_Some, Hr. }
  unfold uninstall. rewrite Hw1. cbn [mbind option_bind]. destruct (find_installed _) as [w2 [exe_path data_path]]. eauto.
Qed.
End ending.

(** C37: With 101 steps or more for each loop, and enough to list the user services,
    an installation ends, and when it fails at any step it is undone: every file
    it copied, the ones after an entry that could not be copied too, is gone or marked
    for the deletions of the next start; no new file is left but marked ones and the
    parts a failed copy left; and the registry no longer knows the application.

    What it needs: the registry can be read, its key SOFTWARE exists and the keys that
    hold the list of files and the pending deletions may be written, where writes to
    any other key can be refused; the clock runs; and no copied path has a semicolon or the end of a line
    in it, which would split it in those lists. *)
Theorem failed_install_cleans {CL : Clock (W := O)} n fuel install_path data_path w :
  lists_writable -> is_Some (m_registry w !! software_key) ->
  listing_ends n -> n <= fuel -> 101 <= fuel ->
  let results := (copy_files (WN := machine_windows) install_path data_path (before_copying install_path w)).2 in
  Forall (fun f => plain_file f = true) (copied results) ->
  exists w' r, install (WN := machine_windows) fuel install_path data_path w = Some (w', r) /\
    (is_ok r = false ->
       Forall (file_gone w') (copied results) /\ m_registry w' !! firm_key = None /\
       forall f, f ∈ m_disk w' ->
         f ∈ m_disk w \/ s_torn setup f = true \/ deletion_entry f ∈ pending_deletions (m_registry w')).
Proof.
  intros Hwr Hs Hlist Hn Hf results [Hf1 Hf2]%plain_files. unfold install. fold (before_copying install_path w).
  pose proof (before_copying_steady install_path w) as Hb. apply before_copying_software with (install_path := install_path) in Hs.
  rewrite <- (copy_files_registry install_path data_path) in Hs.
  pose proof (fun f => copy_files_adds install_path data_path (before_copying install_path w) f) as Hadds.
  subst results. destruct (copy_files install_path data_path (before_copying install_path w)) as [w1 results]. cbn [fst snd] in *.
  destruct (total_install_steps install_path data_path results w1) as [[w2 [[]|e]] Hsteps]; rewrite Hsteps; [by eexists _, _|].
  destruct (uninstall_ends n Hlist fuel w2 Hf Hn) as [w3 Hu]. rewrite Hu. cbn [mbind option_bind]. eexists _, _.
  split; [done|]. intros _. apply install_steps_list in Hsteps as [Hl Hd]; [|done..].
  destruct (uninstall_spec Hwr fuel (copied results) w2 w3 Hu Hl Hf2) as (Hg & Hk & Hsub). split; [done|]. split; [done|].
  intros f Hin. assert (f ∈ m_disk w1) as Hin1 by (rewrite <- Hd; by apply Hsub).
  destruct (Hadds f Hin1) as [H|[H|H]]; [left; by rewrite <- (proj2 Hb)|right; by left|].
  rewrite Forall_forall in Hg. destruct (Hg f H) as [?|?]; [done|right; by right].
Qed.

(** *** What a successful installation leaves *)
Lemma same_set k k' n v : k' <> k -> respects (same_at k) (memory_set_value k' n v).
Proof. intros Hk r. unfold same_at, memory_set_value. cbn [fst]. by rewrite lookup_insert_ne. Qed.
Lemma same_create {A} k k' n (f : string -> sem (gmap string MemoryEntry) IoError A) :
  child k' n <> k -> respects (same_at k) (f (child k' n)) -> respects (same_at k) (memory_create_subkey k' n ≫= f).
Proof.
  intros Hk Hf r. unfold mbind, sem_bind, memory_create_subkey. etransitivity; [|apply Hf].
  unfold same_at. destruct (r !! child k' n); [done|]. by rewrite lookup_insert_ne.
Qed.
Lemma same_set_values k k' data : k' <> k -> respects (same_at k) (set_values (RK := MemoryKey) k' data).
Proof. intros Hk. unfold set_values. apply (respects_each (same_at k)). intros [n v] _. by apply same_set. Qed.
Definition environment_key : string := child hklm ENVIRONMENT_KEY.
Lemma register_application_same d exe data :
  respects (same_at environment_key) (register_application (memory_editor d) APPLICATION_NAME exe data).
Proof.
  unfold register_application. apply respects_map_err, (respects_open (same_at _)).
  apply same_create; [unfold environment_key; other_key|]. apply (respects_bind (same_at _)).
  - apply same_set. unfold environment_key. other_key.
  - intros _. apply same_set_values. unfold environment_key. other_key.
Qed.
Lemma register_uninstaller_same k d display uninstall_string extra :
  uninstall_key <> k -> respects (same_at k) (register_uninstaller (memory_editor d) APPLICATION_NAME display uninstall_string extra).
Proof.
  intros Hk. unfold register_uninstaller. apply respects_map_err, (respects_open (same_at _)).
  apply same_create; [done|]. repeat (apply (respects_bind (same_at _)); [by apply same_set|intros _]).
  by apply same_set_values.
Qed.

(** The values an application has after it is registered. *)
Lemma set_each_memory k l m e :
  m !! k = Some e ->
  sem_try_for_each (fun kv => memory_set_value k kv.1 kv.2) l m =
  (<[k := MkMemoryEntry (foldl (fun acc kv => <[kv.1 := kv.2]> acc) (values e) l)]> m, Ok tt).
Proof.
  revert m e. induction l as [|[n v] l IH]; intros m e He; cbn [sem_try_for_each].
  - cbn. rewrite insert_id; [done|]. by destruct e.
  - unfold mbind, sem_bind, memory_set_value at 1. rewrite He. cbn [fst snd default from_option id].
    erewrite IH by apply lookup_insert_eq. by rewrite insert_insert_eq.
Qed.
Lemma foldl_absent (l : list (string * string)) (acc : gmap string string) n :
  n ∉ l.*1 -> foldl (fun acc kv => <[kv.1 := kv.2]> acc) acc l !! n = acc !! n.
Proof.
  revert acc. induction l as [|[k v] l IH]; intros acc; [done|]. cbn. intros Hn. apply not_elem_of_cons in Hn as [Hk Hl].
  rewrite IH by done. by rewrite lookup_insert_ne.
Qed.
Lemma foldl_present (l : list (string * string)) (acc : gmap string string) n v :
  NoDup l.*1 -> (n, v) ∈ l -> foldl (fun acc kv => <[kv.1 := kv.2]> acc) acc l !! n = Some v.
Proof.
  revert acc. induction l as [|[k u] l IH]; intros acc; cbn; [by intros _ []%elem_of_nil|].
  intros [Hk Hl]%NoDup_cons [[= <- <-]|Hin]%elem_of_cons; [|by apply IH].
  rewrite foldl_absent by done. by rewrite lookup_insert_eq.
Qed.
Lemma register_application_values d exe data m :
  is_Some (m !! software_key) -> data !! "InstallPath" = None ->
  exists vals, (register_application (memory_editor d) APPLICATION_NAME exe data m).1 !! firm_key = Some (MkMemoryEntry vals) /\
    vals !! "InstallPath" = Some exe /\ forall n v, data !! n = Some v -> vals !! n = Some v.
Proof.
  intros [entry Hs] Hd. unfold register_application, sem_map_err, mbind, sem_bind.
  cbn [open_subkey create_subkey set_value MemoryKey]. unfold memory_open_subkey, sem_ask.
  change (child (re_registry (memory_editor d)) "SOFTWARE") with software_key. rewrite Hs. cbn [mbind option_bind ok_or].
  unfold memory_create_subkey. change (child software_key APPLICATION_NAME) with firm_key.
  set (m1 := match m !! firm_key with Some _ => m | None => _ end).
  unfold set_values. cbn [set_value MemoryKey]. unfold memory_set_value at 1.
  erewrite set_each_memory by apply lookup_insert_eq. cbn [fst values]. eexists. split; [apply lookup_insert_eq|].
  split.
  - rewrite foldl_absent; [apply lookup_insert_eq|]. intros ((n & v) & Hn & Hin)%list_elem_of_fmap. cbn in Hn. subst n.
    apply elem_of_hash_iter in Hin. congruence.
  - intros n v Hn. apply foldl_present; [apply hash_iter_nodup|]. by apply elem_of_hash_iter.
Qed.
Lemma edit_path_ok d wrap f m m' :
  edit_path (memory_editor d) wrap f m = (m', Ok tt) ->
  exists p, path_of (memory_editor d) m = Some p /\ path_of (memory_editor d) m' = Some (default p (f p)).
Proof.
  destruct (path_of (memory_editor d) m) as [p|] eqn:Hp.
  - erewrite edit_path_memory by exact Hp. intros [= <-]. exists p. split; [done|].
    destruct (f p) as [p'|]; [apply path_of_set|done].
  - unfold edit_path. rewrite memory_transaction. unfold sem_map_err, mbind, sem_bind.
    cbn [open_subkey_transacted_with_flags get_value set_value MemoryKey]. unfold memory_open_subkey, memory_get_value, sem_ask.
    unfold path_of, values_at in Hp. unfold key_of in Hp.
    destruct (m !! child _ ENVIRONMENT_KEY) as [entry|] eqn:Hm; cbn [mbind option_bind ok_or map_err]; [|done].
    rewrite Hm. cbn in Hp |- *. by rewrite Hp.
Qed.
Lemma io_bind_Ok {E A B} (m : io M E A) (f : A -> io M E B) w w' b :
  (m ≫= f) w = Some (w', Ok b) -> exists w1 a, m w = Some (w1, Ok a) /\ f a w1 = Some (w', Ok b).
Proof. unfold mbind, io_bind. destruct (m w) as [[w1 [a|e]]|]; [|done|done]. eauto. Qed.
(** Where no write is refused. *)
Section writable.
Hypothesis Hall : forall k, s_denied setup k = false.
Lemma all_writable : lists_writable.
Proof. unfold lists_writable. by rewrite !Forall_cons, !Hall. Qed.
Lemma agree_each {A} (f f' : A -> sem (gmap string MemoryEntry) IoError unit) l :
  (forall a, agree (f a) (f' a)) -> agree (sem_try_for_each f l) (sem_try_for_each f' l).
Proof. intros Hf. induction l as [|a l IH]; [apply agree_same|]. cbn [sem_try_for_each]. by apply agree_bind. Qed.
Lemma agree_edit_path d wrap f : agree (edit_path (guarded_editor d) wrap f) (edit_path (memory_editor d) wrap f).
Proof.
  unfold edit_path. apply (agree_transaction d), agree_map_err, agree_open, agree_bind; [apply agree_same|].
  intros old. destruct (f old); [by apply agree_guarded|apply agree_same].
Qed.
Lemma agree_register_application d exe data :
  agree (register_application (guarded_editor d) APPLICATION_NAME exe data) (register_application (memory_editor d) APPLICATION_NAME exe data).
Proof.
  unfold register_application. apply agree_map_err, agree_open, agree_create; [done|].
  apply agree_bind; [by apply agree_guarded|]. intros _. apply agree_each. intros kv. by apply agree_guarded.
Qed.
Lemma agree_register_uninstaller d display uninstall_string extra :
  agree (register_uninstaller (guarded_editor d) APPLICATION_NAME display uninstall_string extra)
        (register_uninstaller (memory_editor d) APPLICATION_NAME display uninstall_string extra).
Proof.
  unfold register_uninstaller. apply agree_map_err, agree_open, agree_create; [done|].
  do 2 (apply agree_bind; [by apply agree_guarded|intros _]). apply agree_each. intros kv. by apply agree_guarded.
Qed.
Lemma editor_Ok {A} (op' : RegistryEditor (T := M) -> sem M RegistryError A) og (op : sem (gmap string MemoryEntry) RegistryError A) w w' a :
  zoomed (op' (ed w)) og -> agree og op ->
  io_sem (sem_map_err IRegistryError (with_editor (WN := machine_windows) op')) w = Some (w', Ok a) ->
  exists r, op (m_registry w) = (r, Ok a) /\ w' = set_registry r w.
Proof.
  intros Hz Ha. unfold io_sem, sem_map_err, with_editor. rewrite Hz. unfold in_registry. rewrite Ha.
  destruct (op _) as [r [a'|e]]; [|done]. intros [= <- <-]. eauto.
Qed.
(** The last steps: the PATH, the application and its uninstaller. *)
Lemma last_steps install_path data_path w w' :
  is_Some (m_registry w !! software_key) ->
  (_ ← io_sem (sem_map_err IRegistryError (with_editor (WN := machine_windows) (fun reg_edit => add_to_path reg_edit install_path)));
   _ ← io_sem (sem_map_err IRegistryError (with_editor (WN := machine_windows) (fun reg_edit =>
         register_application reg_edit APPLICATION_NAME install_path (additional_data data_path))));
   io_sem (sem_map_err IRegistryError (with_editor (WN := machine_windows) (fun reg_edit =>
     register_uninstaller reg_edit APPLICATION_NAME APPLICATION_NAME (install_path +:+ "\install.exe uninstall")
       (extra_info install_path))))) w = Some (w', Ok tt) ->
  (exists p, path_of (memory_editor ∅) (m_registry w') = Some p /\ str_contains install_path p = true) /\
  exists vals, m_registry w' !! firm_key = Some (MkMemoryEntry vals) /\
    vals !! "InstallPath" = Some install_path /\ vals !! "DataPath" = Some data_path.
Proof.
  intros Hs (w1 & [] & H1 & (w2 & [] & H2 & H3)%io_bind_Ok)%io_bind_Ok.
  eapply editor_Ok in H1 as (r1 & H1 & ->); [|apply zoomed_edit_path|apply agree_edit_path].
  eapply editor_Ok in H2 as (r2 & H2 & ->); [|apply zoomed_register_application|apply agree_register_application].
  eapply editor_Ok in H3 as (r3 & H3 & ->); [|apply zoomed_register_uninstaller|apply agree_register_uninstaller].
  cbn [m_registry set_registry m_disk] in *.
  pose proof (keeps_edit_path (m_disk w) FailedToAddToPath (fun old => extended_path old install_path) (m_registry w)) as [Hk _].
  rewrite agree_edit_path in Hk.
  rewrite H1 in Hk. specialize (Hk Hs). cbn [fst] in Hk.
  destruct (register_application_values (m_disk w) install_path (additional_data data_path) r1 Hk) as (vals & Hv & Hi & Hd).
  { unfold additional_data. by rewrite !lookup_insert_ne, lookup_empty. }
  pose proof (register_application_same (m_disk w) install_path (additional_data data_path) r1) as Hp2.
  rewrite H2 in Hv, Hp2. cbn [fst] in Hv, Hp2. unfold same_at in Hp2.
  assert (forall k, uninstall_key <> k -> r3 !! k = r2 !! k) as H3'.
  { intros k Hk'. pose proof (register_uninstaller_same k (m_disk w) APPLICATION_NAME
      (install_path +:+ "\install.exe uninstall") (extra_info install_path) Hk' r2) as Hr. by rewrite H3 in Hr. }
  split.
  - apply edit_path_ok in H1 as (p & _ & Hp). exists (default p (extended_path p install_path)). split.
    + unfold path_of, values_at in Hp |- *.
      change (key_of (memory_editor ?d) ENVIRONMENT_KEY) with environment_key in Hp |- *. rewrite H3', Hp2; [done|].
      unfold uninstall_key, environment_key. other_key.
    + unfold extended_path. destruct (str_contains install_path p) eqn:Hc; [done|]. cbn [default from_option id].
      apply str_contains_spec. exists (p +:+ ";"), EmptyString. by rewrite str_app_nil, str_app_assoc.
  - exists vals. rewrite H3' by (unfold uninstall_key; other_key). split; [done|]. split; [done|].
    apply Hd. unfold additional_data. by rewrite lookup_insert_eq.
Qed.

(** After an installation that succeeds every entry of the archive was
    copied, every copied file is listed for the next uninstall, the PATH holds
    the location, and the registry answers the very folders that were
    installed to, so that an upgrade installs there again. *)
Theorem installed_recorded fuel install_path data_path w w1 w' results :
  is_Some (m_registry w !! software_key) ->
  copy_files (WN := machine_windows) install_path data_path (before_copying install_path w) = (w1, results) ->
  Forall (fun f => plain_file f = true) (copied results) ->
  install (WN := machine_windows) fuel install_path data_path w = Some (w', Ok tt) ->
  Forall (fun r => is_ok r = true) results /\
  (forall f, f ∈ copied results -> f ∈ registered_files (m_registry w')) /\
  (exists p, path_of (memory_editor ∅) (m_registry w') = Some p /\ str_contains install_path p = true) /\
  find_installed (WN := machine_windows) w' = (w', (install_path, data_path)).
Proof.
  intros Hs Hc [Hf1 Hf2]%plain_files Hi. unfold install in Hi. fold (before_copying install_path w) in Hi.
  rewrite Hc in Hi. apply before_copying_software with (install_path := install_path) in Hs.
  rewrite <- (copy_files_registry install_path data_path), Hc in Hs. cbn [fst] in Hs.
  destruct (install_steps install_path data_path results w1) as [[w2 [[]|e2]]|] eqn:Hsteps; [|by apply bind_Some in Hi as (?&?&[=])|done].
  injection Hi as ->. pose proof (install_steps_list all_writable _ _ _ _ _ _ Hs Hf1 Hsteps) as [[Hs' Hl] _].
  unfold install_steps in Hsteps. apply io_bind_Ok in Hsteps as (wa & [] & Ha & Hsteps).
  unfold io_sem at 1, register_copied in Ha.
  destruct (register_results_spec all_writable results w1 Hs Hf1) as (wr & Hr & Hsr & _). rewrite Hr in Ha.
  destruct (collect _) as [us|e] eqn:Hcol; [|done]. injection Ha as <-.
  assert (Forall (fun r => is_ok r = true) results) as Hok.
  { apply collect_Ok in Hcol. apply Forall_forall. intros r Hin.
    assert ((fun _ => tt) <$> r ∈ (@Ok InstallerError unit) <$> us) as Hu.
    { rewrite <- Hcol. apply list_elem_of_fmap. eauto. }
    apply list_elem_of_fmap in Hu as (u & Hu & _). by destruct r. }
  split; [done|]. split; [done|].
  apply io_bind_Ok in Hsteps as (wb & [] & Hb & Hsteps). apply io_bind_Ok in Hsteps as (wc & [] & Hcc & Hsteps).
  apply io_bind_Ok in Hsteps as (wd & manager & Hd & Hsteps). apply io_bind_Ok in Hsteps as (we & [] & He & Hsteps).
  apply log_keeps in Hb as [[Hb _] _]; [|by left]. apply log_keeps in Hcc as [[Hcc _] _]; [|by right].
  apply manager_keeps in Hd as [[Hd _] _]. apply services_keep in He as [[He _] _].
  apply last_steps in Hsteps as (Hp & vals & Hv & Hvi & Hvd); [|by apply He, Hd, Hcc, Hb]. split; [done|].
  unfold find_installed, find_firm, with_editor. rewrite zoomed_find_application. unfold in_registry.
  unfold find_application, sem_map_err, mbind, sem_bind. cbn [open_subkey enum_values GuardedKey].
  unfold memory_open_subkey, memory_enum_values, sem_ask. destruct Hs' as [entry Hs'].
  change (child (re_registry (guarded_editor ?d)) "SOFTWARE") with software_key. rewrite Hs'. cbn [mbind option_bind ok_or].
  change (child software_key APPLICATION_NAME) with firm_key. rewrite Hv. cbn [mbind option_bind ok_or]. rewrite Hv.
  cbn [ok_or fmap result_fmap map_err values]. rewrite Hvi, Hvd. by rewrite set_get_registry.
Qed.
End writable.
End machine.

(** ** Witnesses *)
Module Desktop.
#[local] Existing Instance key_order.
#[local] Existing Instance WinRegistryProps.Installer.grouping_regex.
#[local] Instance version : BuildVersion := {| build_version := "1.0.0" |}.
(** A service manager that refuses everything, or nothing, and a clock; there are no
    user services of Avery. *)
#[local] Instance service_manager : WinApi (bool * N) := {|
  sc_handle := unit;
  get_last_error := fun _ => ERROR_MORE_DATA;
  open_sc_manager := fun _ (w : bool * N) => (w, if w.1 then Some tt else None);
  open_service := fun _ _ _ (w : bool * N) => (w, if w.1 then Some tt else None);
  create_service_w := fun _ _ _ _ _ _ _ _ (w : bool * N) => (w, if w.1 then Some tt else None);
  delete_service_w := fun _ (w : bool * N) => (w, w.1);
  start_service_w := fun _ (w : bool * N) => (w, w.1);
  control_service := fun _ _ (w : bool * N) => (w, w.1);
  query_service_status := fun _ (w : bool * N) => (w, Some SERVICE_STOPPED);
  enum_services_status := fun _ _ _ size _ w => (w, MkEnumAnswer (0 <? size)%N 8 [] 0);
  instant_now := fun (w : bool * N) => w.2;
  thread_sleep := fun n (w : bool * N) => (w.1, w.2 + n)%N
|}.
Lemma running_clock : Clock (W := bool * N).
Proof. constructor; intros; cbn; lia. Qed.
Definition file (path : string) : result IoError ArchiveEntry :=
  Ok (MkArchiveEntry (Ok path) TarRegular (fun _ => Ok UnpackedFile) (fun _ => Ok true)).
Definition with_archive (locked denied torn : string -> bool) (entries : list (result IoError ArchiveEntry)) : Setup (bool * N) :=
  MkSetup (bool * N) "HKLM" (fun _ _ => FFolder (Ok [])) locked denied torn (fun _ => Ok tt) (fun _ _ => Ok tt)
    (Ok "D:\firm-installer.exe") (fun _ => None) (Ok entries).
Definition key (path : string) : string * MemoryEntry := ("HKLM\" +:+ path, memory_default).
Definition fresh (services : bool) : Machine (bool * N) :=
  MkMachine (<["HKLM\" +:+ ENVIRONMENT_KEY := MkMemoryEntry {[ "Path" := "C:\Windows" ]}]>
    (list_to_map [key "SOFTWARE"; key UNINSTALL_KEY; key EVENT_LOG_SOURCES])) ∅ (services, 0%N).
Definition bin : string := "C:\Program Files\Firm".
Definition data : string := "C:\ProgramData\Firm".

(** The second entry cannot be read, the third is copied half, one of the copied files
    is in use, and the PATH may not be written. *)
Definition half (path : string) : result IoError ArchiveEntry :=
  Ok (MkArchiveEntry (Ok path) TarRegular (fun _ => Err access_denied) (fun _ => Err access_denied)).
Definition broken : Setup (bool * N) :=
  with_archive (String.eqb "C:\Program Files\Firm\avery.exe") (String.eqb ("HKLM\" +:+ ENVIRONMENT_KEY))
    (String.eqb "C:\Program Files\Firm\lomax.exe")
    [file "./bin/avery.exe"; Err os_error_2; half "./bin/lomax.exe"; file "./conf/avery.toml"].
Definition copied_broken := copy_files (WN := machine_windows broken) bin data (before_copying broken bin (fresh true)).
Definition install_broken : option (Machine (bool * N) * result InstallerError unit) :=
  install (WN := machine_windows broken) 101 bin data (fresh true).
Definition state_after (run : option (Machine (bool * N) * result InstallerError unit)) : Machine (bool * N) :=
  match run with Some (w, _) => w | None => fresh false end.

Lemma broken_listing : listing_ends (O := bool * N) 1.
Proof. intros manager w w' e [= <- <-]. eexists. reflexivity. Qed.
Lemma failed_install_cleans_witness :
  copied copied_broken.2 = ["C:\Program Files\Firm\avery.exe"; "C:\ProgramData\Firm\./conf/avery.toml";
                            "C:\Program Files\Firm\install.exe"] /\
  Forall (file_gone broken (state_after install_broken)) (copied copied_broken.2) /\
  (forall f, f ∈ m_disk (state_after install_broken) -> f = "C:\Program Files\Firm\lomax.exe" \/
     deletion_entry f ∈ pending_deletions broken (m_registry (state_after install_broken))).
Proof.
  destruct (failed_install_cleans broken (CL := running_clock) 1 101 bin data (fresh true)) as (w' & r & Hi & Hr).
  - by vm_compute; repeat constructor.
  - eexists. vm_compute. reflexivity.
  - apply broken_listing.
  - lia.
  - lia.
  - vm_compute. repeat constructor.
  - assert (snd <$> install_broken = Some (Err (ArchiveError (io_text os_error_2)))) as He by (vm_compute; reflexivity).
    unfold install_broken in He |- *. rewrite Hi in He |- *. injection He as ->. destruct (Hr eq_refl) as (Hg & _ & Hd).
    split; [vm_compute; reflexivity|]. split; [exact Hg|]. intros f Hf. destruct (Hd f Hf) as [H|[H|H]].
    + exfalso. by apply elem_of_empty in H.
    + left. symmetry. by apply String.eqb_eq.
    + by right.
Defined.
(** What is left is the file in use, marked, and the half of another, which neither this
    nor a later uninstall removes. *)
Example half_a_file_stays :
  m_disk (state_after install_broken) = {[ "C:\Program Files\Firm\avery.exe"; "C:\Program Files\Firm\lomax.exe" ]} /\
  pending_deletions broken (m_registry (state_after install_broken)) = ["\??\C:\Program Files\Firm\avery.exe"].
Proof. split; vm_compute; reflexivity. Qed.

(** Nothing fails. *)
Definition whole : Setup (bool * N) := with_archive (fun _ => false) (fun _ => false) (fun _ => false) [file "./bin/avery.exe"; file "./conf/avery.toml"].
Definition copied_whole := copy_files (WN := machine_windows whole) bin data (before_copying whole bin (fresh true)).
Definition install_whole : option (Machine (bool * N) * result InstallerError unit) :=
  install (WN := machine_windows whole) 9 bin data (fresh true).

Lemma installed_recorded_witness :
  registered_files whole (m_registry (state_after install_whole)) =
    ["C:\Program Files\Firm\avery.exe"; "C:\ProgramData\Firm\./conf/avery.toml"; "C:\Program Files\Firm\install.exe"] /\
  find_installed (WN := machine_windows whole) (state_after install_whole) = (state_after install_whole, (bin, data)).
Proof.
  split; [vm_compute; reflexivity|].
  refine (proj2 (proj2 (proj2 (installed_recorded whole (fun _ => eq_refl) 9 bin data (fresh true) copied_whole.1
    (state_after install_whole) copied_whole.2 _ _ _ _)))).
  - eexists. vm_compute. reflexivity.
  - vm_compute. reflexivity.
  - vm_compute. repeat constructor.
  - vm_compute. reflexivity.
Defined.

(** A data file that cannot be removed when Firm is upgraded is marked, and
    stays marked although it is installed again: only deletions below the
    location of the programs are cancelled. *)
Definition busy_data : Setup (bool * N) :=
  with_archive (String.eqb "C:\ProgramData\Firm\./conf/avery.toml") (fun _ => false) (fun _ => false)
    [file "./bin/avery.exe"; file "./conf/avery.toml"].
Example upgrade_deletes_data :
  let w := state_after (install (WN := machine_windows busy_data) 9 bin data (fresh true)) in
  let w' := state_after (upgrade (WN := machine_windows busy_data) 9 w) in
  let conf := "C:\ProgramData\Firm\./conf/avery.toml" in
  snd <$> upgrade (WN := machine_windows busy_data) 9 w = Some (Ok tt) /\ conf ∈ m_disk w' /\
  conf ∈ registered_files busy_data (m_registry w') /\
  pending_deletions busy_data (m_registry w') = [deletion_entry conf].
Proof. vm_compute. repeat split; repeat constructor. Qed.
End Desktop.
