(* ===== verification/Bendini.v ===== *)
(** * The command line client (clients/bendini/src: error.rs, auth.rs, main.rs,
    commands/list.rs, commands/get.rs, commands/list_runtimes.rs)

    Bendini is a client of the registry, the execution and the authentication
    service: [RegistryClient], [ExecutionClient] and [AuthenticationClient] are
    the calls of the generated clients that it makes, over a server state [S] of
    any kind.  A command runs in [sem S (client_end BendiniError)]; what it shows
    for a server's answer is its result, the printing itself is not modelled. *)
From S2P Require Import Prelude Interfaces Proto Stream Regex Registry Config Tokens TokenStore KeyStore ExpireMap Access Executor.
From stdpp Require Import pretty.
From Stdlib Require Import Ascii.

(** ** Errors (error.rs) *)
Inductive ManifestError :=
| ManifestParseError (e : string)
| ManifestFileReadError (path io_error : string)
| AttachmentFileReadError (path io_error : string)
| InvalidManifestPath (path : string).
Inductive BendiniError :=
| UnknownError (message : string) (code : Z)
| APIError (status : Status)
| FailedToFindFunction (name version : string)
| FailedToParseFunction (id : string)
| FailedToParseManifest (e : ManifestError)
| FailedToUploadAttachment (name e : string)
| FailedToRegisterFunction (name e : string)
| InvalidUri (e : string)
| FailedToOpenBrowser (e : string)
| FailedToCreateTlsConfig (e : string)
| ConnectionError (host e : string)
| InvalidOauthToken (e : string)
| InvalidFunctionArguments (name : string) (errors : list string)
| FunctionError (msg : string).
(** [From<BendiniError> for i32] *)
Definition exit_code (bendini_error : BendiniError) : Z :=
  match bendini_error with
  | UnknownError _ code => code
  | APIError _ => 5
  | FailedToFindFunction _ _ => 6
  | FailedToParseFunction _ => 7
  | FailedToParseManifest _ => 8
  | FailedToUploadAttachment _ _ => 9
  | FailedToRegisterFunction _ _ => 10
  | InvalidUri _ => 11
  | FailedToCreateTlsConfig _ => 12
  | ConnectionError _ _ => 13
  | InvalidOauthToken _ => 14
  | InvalidFunctionArguments _ _ => 15
  | FunctionError _ => 16
  | FailedToOpenBrowser _ => 17
  end.

(** How a command ends other than well. *)
Inductive client_end (E : Type) := Fault (e : E) | Hang | Panic.
Arguments Fault {E} e.
Arguments Hang {E}.
Arguments Panic {E}.
Definition fault {E A} (r : result E A) : result (client_end E) A := map_err Fault r.
Definition fault_with {E F A} (f : E -> F) (r : result (client_end E) A) : result (client_end F) A :=
  map_err (fun e => match e with Fault e => Fault (f e) | Hang => Hang | Panic => Panic end) r.
(** A call of a server, with what its error becomes. *)
Definition call {S E F A} (f : F -> E) (m : sem S F A) : sem S (client_end E) A :=
  fun s => let '(s', r) := m s in (s', map_err (fun e => Fault (f e)) r).

(** ** The servers *)

(** A call that streams messages to the server.  The server takes them one at a
    time and may answer before the stream is over; the transport has then taken
    [uc_ahead] further ones. *)
Record UploadCall (S : Type) := MkUploadCall {
  (** what the call's handler keeps *)
  uc_state : Type;
  uc_start : uc_state;
  uc_receive : uc_state -> AttachmentStreamUpload -> S -> S * (uc_state + result Status unit);
  uc_finish : uc_state -> sem S Status unit;
  uc_ahead : S -> nat
}.
Arguments uc_state {S} _.
Arguments uc_start {S} _.
Arguments uc_receive {S} _ _ _ _.
Arguments uc_finish {S} _ _ _.
Arguments uc_ahead {S} _ _.
Record RegistryClient (S : Type) := MkRegistryClient {
  rc_list : Filters -> sem S Status (list Function_);
  rc_list_versions : Filters -> sem S Status (list Function_);
  rc_get : FunctionId -> sem S Status Function_;
  rc_register : FunctionData -> sem S Status Function_;
  rc_register_attachment : AttachmentData -> sem S Status AttachmentHandle;
  rc_upload_streamed_attachment : UploadCall S
}.
Arguments rc_list {S} _ _.
Arguments rc_list_versions {S} _ _.
Arguments rc_get {S} _ _.
Arguments rc_register {S} _ _.
Arguments rc_register_attachment {S} _ _.
Arguments rc_upload_streamed_attachment {S} _.
Record ExecutionClient (S : Type) := MkExecutionClient {
  xc_queue_function : ExecutionParameters -> sem S Status string;
  xc_run_function : string -> sem S Status ExecutionResult;
  (** the chunks of the output stream as they arrive *)
  xc_function_output : string -> sem S Status (list (result Status FunctionOutputChunk));
  xc_list_runtimes : string -> sem S Status (list ProtoRuntime)
}.
Arguments xc_queue_function {S} _ _.
Arguments xc_run_function {S} _ _.
Arguments xc_function_output {S} _ _.
Arguments xc_list_runtimes {S} _ _.
(** [Some url] is the command to open a browser. *)
Definition InteractiveLoginCommand := option string.
Record AuthenticationClient (S : Type) := MkAuthenticationClient {
  ac_acquire_token : string -> sem S Status string;
  ac_login : sem S Status (list (result Status InteractiveLoginCommand));
  ac_list_requests : RemoteAccessListParameters -> sem S Status (list RemoteAccessRequest);
  ac_approve : RemoteAccessApproval -> sem S Status RemoteAccessRequest
}.
Arguments ac_acquire_token {S} _ _.
Arguments ac_login {S} _.
Arguments ac_list_requests {S} _ _.
Arguments ac_approve {S} _ _.

(** ** Arguments of the command line *)

(** The two parts around the first [c]. *)
Fixpoint split_at (c : Ascii.ascii) (s : string) : option (string * string) :=
  match s with
  | EmptyString => None
  | String d s =>
      if Ascii.eqb d c then Some (EmptyString, s)
      else '(a, b) ← split_at c s; Some (String d a, b)
  end.
(** [splitn(2, c)] *)
Definition splitn_2 (c : Ascii.ascii) (s : string) : list string :=
  match split_at c s with Some (a, b) => [a; b] | None => [s] end.
(** [parse_key_val] (main.rs) *)
Definition parse_key_val (s : string) : result string (string * string) :=
  ok_or ("invalid KEY=value: no `=` found in `" +:+ s +:+ "`") (split_at "="%char s).

Section commands.
Context {S : Type}.
Abbreviation command := (sem S (client_end BendiniError)).

(** ** Logging in (auth.rs)

    [open_browser] is what starting the browser gives: whether it exited well and
    its exit code. *)
Variable open_browser : string -> result string (bool * option Z).
Definition debug_code (code : option Z) : string :=
  match code with Some c => "Some(" +:+ pretty c +:+ ")" | None => "None" end.
Definition obey (login_command : result Status InteractiveLoginCommand) : result (client_end BendiniError) unit :=
  match login_command with
  | Err e => Err (Fault (APIError e))
  | Ok (Some url) =>
      match open_browser url with
      | Err e => Err (Fault (FailedToOpenBrowser e))
      | Ok (true, _) => Ok tt
      | Ok (false, code) =>
          Err (Fault (FailedToOpenBrowser
            ("Starting the browser exited with a non-zero exit code: " +:+ debug_code code)))
      end
  | Ok None => Ok tt
  end.
Definition login (auth_client : AuthenticationClient S) : command unit :=
  stream ← call APIError (ac_login auth_client);
  sem_lift (try_fold (fun _ c => obey c) tt stream).
Definition with_login {A} (auth_client : AuthenticationClient S) (f : command A) : command A :=
  fun s => match f s with
           | (s', Err (Fault (APIError status))) =>
               if bool_decide (st_code status = CUnauthenticated)
               then (_ ← login auth_client; f) s'
               else (s', Err (Fault (APIError status)))
           | r => r
           end.

(** ** Listing (list.rs, get.rs, list_runtimes.rs) *)
Definition first_page : option Ordering := Some (MkOrdering (OrderingKey_to_i32 NameVersion) false 0 25).
Definition list_functions (client : RegistryClient S) : command (list Function_) :=
  call APIError (rc_list client (MkFilters EmptyString None ∅ first_page EmptyString)).
Definition list_versions (client : RegistryClient S) (name : string) : command (list Function_) :=
  call APIError (rc_list_versions client (MkFilters name None ∅ first_page EmptyString)).
Definition get_run (client : RegistryClient S) (function_id : string) : command Function_ :=
  '(name, version) ← sem_lift (match splitn_2 ":"%char function_id with
                               | [name; version] => Ok (name, version)
                               | _ => Err (Fault (FailedToParseFunction function_id))
                               end);
  call APIError (rc_get client (MkFunctionId name version)).
Definition list_runtimes_run (client : ExecutionClient S) (name : string) : command (list ProtoRuntime) :=
  call APIError (xc_list_runtimes client name).
End commands.
