(* ===== verification/BendiniRegister.v ===== *)
(** * Registering a function from a manifest (clients/bendini/src/manifest.rs,
    commands/register.rs, commands/register/attachments.rs)

    [FunctionManifest] is the manifest file, [function_data] the registration it
    stands for; [register_and_upload_attachment] registers one attachment and
    uploads its file in chunks ([upload_messages]) or in one http request, and
    [register_run] is the command.  The chunks are read as the server takes them.

    The TOML parser and the file system are [ManifestOs], an opened file is
    [FileHandle], an http post a request ([http_post]).  The code uploads
    attachments concurrently; here they follow one another. *)
From S2P Require Import Prelude Interfaces Proto Stream Regex Registry Config Tokens TokenStore KeyStore ExpireMap Access Executor Bendini.
From Stdlib Require Import Ascii.

(** ** manifest.rs *)
Inductive ArgumentType := ATString | ATBool | ATInt | ATFloat | ATBytes.
Definition argument_type_from (at_ : ChannelType) : ArgumentType :=
  match at_ with
  | CTString => ATString | CTBool => ATBool | CTInt => ATInt | CTFloat => ATFloat | CTBytes => ATBytes
  end.
Definition channel_type_from (at_ : ArgumentType) : ChannelType :=
  match at_ with
  | ATString => CTString | ATBool => CTBool | ATInt => CTInt | ATFloat => CTFloat | ATBytes => CTBytes
  end.
Record ManifestChecksums := MkManifestChecksums { mc_sha256 : string }.
Record ManifestAttachment := MkManifestAttachment {
  ma_path : string; ma_metadata : gmap string string; ma_checksums : ManifestChecksums }.
Record Input := MkInput { in_type : ArgumentType; in_required : bool; in_description : string }.
Record Output := MkOutput { ou_type : ArgumentType; ou_description : string }.
Record ManifestRuntime := MkManifestRuntime { mr_type : string; mr_entrypoint : string; mr_args : gmap string string }.
Record FunctionManifest := MkManifest {
  fm_name : string;
  fm_path : string;
  fm_publisher_name : string;
  fm_publisher_email : string;
  fm_version : string;
  fm_inputs : gmap string Input;
  fm_outputs : gmap string Output;
  fm_runtime : ManifestRuntime;
  fm_metadata : gmap string string;
  fm_attachments : gmap string ManifestAttachment;
  fm_code : option ManifestAttachment
}.
Record AttachmentInfo := MkAttachmentInfo { ai_path : string; ai_request : AttachmentData }.
Definition proto_checksums (checksum : ManifestChecksums) : Checksums := MkChecksums (mc_sha256 checksum).

(** [toml_from_str] leaves the skipped fields at their defaults. *)
Record ManifestOs := MkManifestOs {
  mo_is_dir : string -> bool;
  mo_canonicalize : string -> result string string;
  mo_read_to_string : string -> result string string;
  mo_toml_from_str : string -> result string FunctionManifest
}.

(** [Path::parent] of an absolute path without redundant parts. *)
Fixpoint parent_dir (s : string) : option string :=
  match s with
  | EmptyString => None
  | String c s =>
      match parent_dir s with
      | Some dir => Some (String c dir)
      | None => if Ascii.eqb c "/"%char then Some EmptyString else None
      end
  end.
Definition path_parent (path : string) : option string :=
  if bool_decide (path = "/") then None
  else (fun dir => if str_is_empty dir then "/" else dir) <$> parent_dir path.
(** [attachment.path.replace('\\', "/")] *)
Fixpoint unix_separators (path : string) : string :=
  match path with
  | EmptyString => EmptyString
  | String c path => String (if Ascii.eqb c "\"%char then "/"%char else c) (unix_separators path)
  end.

Definition with_origin (path publisher_name publisher_email : string) (m : FunctionManifest) : FunctionManifest :=
  MkManifest (fm_name m) path publisher_name publisher_email (fm_version m) (fm_inputs m) (fm_outputs m)
    (fm_runtime m) (fm_metadata m) (fm_attachments m) (fm_code m).
Definition manifest_parse (os : ManifestOs) (path publisher_name publisher_email : string)
  : result ManifestError FunctionManifest :=
  fullpath ← map_err (ManifestFileReadError path) (mo_canonicalize os path);
  toml_content ← map_err (ManifestFileReadError path) (mo_read_to_string os fullpath);
  m ← map_err ManifestParseError (mo_toml_from_str os toml_content);
  Ok (with_origin fullpath publisher_name publisher_email m).
Definition get_attachment_path (os : ManifestOs) (self : FunctionManifest) (attachment : ManifestAttachment)
  : result ManifestError string :=
  dir ← ok_or (InvalidManifestPath (fm_path self)) (path_parent (fm_path self));
  let fullpath := path_join dir (unix_separators (ma_path attachment)) in
  map_err (AttachmentFileReadError fullpath) (mo_canonicalize os fullpath).
Definition attachment_info (os : ManifestOs) (self : FunctionManifest) (name : string) (a : ManifestAttachment)
  : result ManifestError AttachmentInfo :=
  absolute ← get_attachment_path os self a;
  Ok (MkAttachmentInfo absolute
        (MkAttachmentData name (ma_metadata a) (Some (proto_checksums (ma_checksums a)))
           (Some (MkPublisher (fm_publisher_name self) (fm_publisher_email self))) None)).
Definition manifest_code (os : ManifestOs) (self : FunctionManifest) : result ManifestError (option AttachmentInfo) :=
  transpose (attachment_info os self "code" <$> fm_code self).

Section register.
Context {HO : HashOrder} {UR : UrlLib}.
Definition manifest_attachments (os : ManifestOs) (self : FunctionManifest) : result ManifestError (list AttachmentInfo) :=
  collect ((fun '(n, a) => attachment_info os self n a) <$> hash_iter (fm_attachments self)).

Definition channel_spec (at_ : ArgumentType) (description : string) : ChannelSpec :=
  MkChannelSpec (ChannelType_to_i32 (channel_type_from at_)) description.
(** [filter_map(..).collect()] of a map into a map. *)
Definition inputs_where (p : bool -> bool) (inputs : gmap string Input) : gmap string ChannelSpec :=
  list_to_map (omap (fun '(name, input) =>
    if p (in_required input) then Some (name, channel_spec (in_type input) (in_description input)) else None)
    (hash_iter inputs)).
Definition outputs_of (outputs : gmap string Output) : gmap string ChannelSpec :=
  list_to_map ((fun '(name, output) => (name, channel_spec (ou_type output) (ou_description output))) <$> hash_iter outputs).
Definition function_data (fm : FunctionManifest) : FunctionData :=
  MkFunctionData (fm_name fm) (fm_version fm) (fm_metadata fm)
    (inputs_where id (fm_inputs fm)) (inputs_where negb (fm_inputs fm)) (outputs_of (fm_outputs fm)) None
    (Some (MkRuntimeSpec (mr_type (fm_runtime fm)) (mr_entrypoint (fm_runtime fm)) (mr_args (fm_runtime fm)))) []
    (Some (MkPublisher (fm_publisher_name fm) (fm_publisher_email fm))) None.

(** ** attachments.rs *)
Definition CHUNK_SIZE : N := 8192.

(** A file: its size, what a read of at most [CHUNK_SIZE] bytes at a position
    gives, and what reading it to its end gives. *)
Record FileHandle := MkFileHandle {
  fh_size : result string N;
  fh_read : nat -> result string (list byte);
  fh_read_to_end : result string (list byte)
}.
Definition chunk_message (attachment_id : AttachmentId) (buf : list byte) : AttachmentStreamUpload :=
  MkAttachmentStreamUpload (Some attachment_id) buf.
(** One turn of the [while] loop of the stream, at [uploaded] bytes: a message
    and where the loop goes on, if it does, or the error that is printed and ends
    the stream. *)
Definition next_chunk (attachment_id : AttachmentId) (name : string) (file : FileHandle) (uploaded : nat)
  : result string (AttachmentStreamUpload * option nat) :=
  buf ← map_err (fun e => "Failed to read chunk from attachment " +:+ name +:+ ": " +:+ e) (fh_read file uploaded);
  Ok (chunk_message attachment_id buf,
      if (N.of_nat (length buf) =? CHUNK_SIZE)%N then Some (uploaded + length buf) else None).
(** How many of the next [n] messages the stream has. *)
Fixpoint count_ahead (n : nat) (attachment_id : AttachmentId) (name : string) (file : FileHandle) (stream : option nat) : nat :=
  match n, stream with
  | S n, Some uploaded =>
      match next_chunk attachment_id name file uploaded with
      | Ok (_, stream) => S (count_ahead n attachment_id name file stream)
      | Err _ => 0
      end
  | _, _ => 0
  end.
Definition chunk_count (file_size : N) : N :=
  (file_size / CHUNK_SIZE + if file_size mod CHUNK_SIZE =? 0 then 0 else 1)%N.

Context {S : Type}.
Variable client : RegistryClient S.
Variable auth_client : AuthenticationClient S.
(** [Status]'s text, and an http post (url, token, body) to another server. *)
Variable display_status : Status -> string.
Variable http_post : string -> option string -> list byte -> sem S string unit.

(** The server takes the stream, which is read chunk by chunk meanwhile: the number
    of messages taken and the server's answer, [None] when [fuel] turns of the
    stream's loop do not suffice. *)
Fixpoint upload_messages (fuel : nat) (attachment_id : AttachmentId) (name : string) (file : FileHandle)
    (server : UploadCall S) (st : uc_state server) (stream : option nat) (taken : nat) (s : S)
  : S * option (nat * result Status unit) :=
  let finished := let '(s', r) := uc_finish server st s in (s', Some (taken, r)) in
  match stream with
  | None => finished
  | Some uploaded =>
      match fuel with
      | O => (s, None)
      | Datatypes.S fuel =>
          match next_chunk attachment_id name file uploaded with
          | Err _ => finished
          | Ok (message, stream) =>
              match uc_receive server st message s with
              | (s', inl st) => upload_messages fuel attachment_id name file server st stream (taken + 1) s'
              | (s', inr answer) =>
                  (s', Some (taken + 1 + count_ahead (uc_ahead server s') attachment_id name file stream, answer))
              end
          end
      end
  end.
Definition upload_via_grpc (fuel : nat) (attachment_id : AttachmentId) (name : string) (file : FileHandle) (file_size : N)
  : sem S (client_end string) unit := fun s =>
  let server := rc_upload_streamed_attachment client in
  match upload_messages fuel attachment_id name file server (uc_start server) (Some 0) 0 s with
  | (s', None) => (s', Err Hang)
  | (s', Some (_, Err e)) => (s', Err (Fault ("Failed to upload " +:+ name +:+ " attachment: " +:+ display_status e)))
  | (s', Some (taken, Ok _)) =>
      (s', if (N.of_nat taken =? chunk_count file_size)%N then Ok tt
           else Err (Fault ("All chunks could not be uploaded for attachment " +:+ name +:+ ".")))
  end.

(** [build_auth]: the token the request is sent with. *)
Definition build_auth (upload_url : AttachmentUrl) : sem S (client_end string) (option string) :=
  fun s =>
    match AuthMethod_from_i32 (au_auth_method upload_url), url_parse (au_url upload_url) with
    | Some AMOauth2, Ok url =>
        match ac_acquire_token auth_client (default "localhost" (url_host url)) s with
        | (s', Ok token) => (s', Ok (Some token))
        | (s', Err _) => (s', Ok None)
        end
    | _, _ => (s, Ok None)
    end.
Definition upload_via_http (upload_url : AttachmentUrl) (name : string) (file : FileHandle) (file_name : string)
  : sem S (client_end string) unit :=
  buf ← sem_lift (fault (map_err (fun e =>
    "Failed to read attachment file at " +:+ file_name +:+ " for attachment " +:+ name +:+ ": " +:+ e) (fh_read_to_end file)));
  token ← build_auth upload_url;
  call (fun e => "Failed to upload " +:+ name +:+ " attachment: " +:+ e) (http_post (au_url upload_url) token buf).

Variable file_open : string -> result string FileHandle.
Definition register_and_upload_attachment (fuel : nat) (attachment : AttachmentInfo)
  : sem S (client_end string) AttachmentId :=
  let name := ad_name (ai_request attachment) in
  registered_attachment ← call (fun e => "Failed to register attachment " +:+ quoted name +:+ ". Err: " +:+ display_status e)
    (rc_register_attachment client (ai_request attachment));
  file ← sem_lift (fault (map_err (fun e =>
    "Failed to read attachment " +:+ name +:+ " file at " +:+ quoted (ai_path attachment) +:+ ": " +:+ e)
    (file_open (ai_path attachment))));
  file_size ← sem_lift (fault (map_err (fun e =>
    "Failed to get size of file " +:+ quoted (ai_path attachment) +:+ ": " +:+ e) (fh_size file)));
  upload_url ← sem_lift (fault (ok_or "No upload URL on registered attachment, cannot perform upload"
    (ah_upload_url registered_attachment)));
  parsed_url ← sem_lift (fault (map_err (fun e => "Failed to parse attachment upload URL: " +:+ e)
    (url_parse (au_url upload_url))));
  attachment_id ← sem_lift (fault (ok_or "No id on registered attachment, cannot perform upload"
    (ah_id registered_attachment)));
  _ ← (if bool_decide (url_scheme parsed_url = "grpc") then upload_via_grpc fuel attachment_id name file file_size
       else if bool_decide (url_scheme parsed_url = "https") then upload_via_http upload_url name file (ai_path attachment)
       else sem_lift (Err (Fault ("Do not know how to upload attachments for transport " +:+ url_scheme parsed_url +:+ " 🧐"))));
  mret attachment_id.

(** ** register.rs *)
Fixpoint upload_all (fuel : nat) (attachments : list AttachmentInfo) : sem S (client_end string) (list AttachmentId) :=
  match attachments with
  | [] => mret []
  | a :: rest =>
      id ← register_and_upload_attachment fuel a;
      ids ← upload_all fuel rest;
      mret (id :: ids)
  end.
Definition with_attachments (code : option AttachmentId) (ids : list AttachmentId) (d : FunctionData) : FunctionData :=
  MkFunctionData (fd_name d) (fd_version d) (fd_metadata d) (fd_required_inputs d) (fd_optional_inputs d) (fd_outputs d)
    code (fd_runtime d) ids (fd_publisher d) (fd_signature d).
Definition upload_code (fuel : nat) (code : option AttachmentInfo) : sem S (client_end BendiniError) (option AttachmentId) :=
  match code with
  | None => mret None
  | Some code =>
      fun s => let '(s', r) := register_and_upload_attachment fuel code s in
               (s', Some <$> fault_with (FailedToUploadAttachment "code") r)
  end.
Definition upload_attachments (fuel : nat) (attachments : list AttachmentInfo)
  : sem S (client_end BendiniError) (list AttachmentId) :=
  fun s => let '(s', r) := upload_all fuel attachments s in (s', fault_with (FailedToUploadAttachment "N/A") r).
Definition register_run (os : ManifestOs) (fuel : nat) (manifest publisher_name publisher_email : string)
  : sem S (client_end BendiniError) Function_ :=
  let manifest_path := if mo_is_dir os manifest then path_join manifest "manifest.toml" else manifest in
  manifest ← sem_lift (fault (map_err FailedToParseManifest (manifest_parse os manifest_path publisher_name publisher_email)));
  code ← sem_lift (fault (map_err FailedToParseManifest (manifest_code os manifest)));
  code_attachment ← upload_code fuel code;
  attachments ← sem_lift (fault (map_err FailedToParseManifest (manifest_attachments os manifest)));
  ids ← upload_attachments fuel attachments;
  call (fun e => FailedToRegisterFunction (fm_name manifest) (display_status e))
    (rc_register client (with_attachments code_attachment ids (function_data manifest))).
End register.
