(* ===== verification/BendiniProps.v ===== *)
(** * The client's register command against the registry

    Which files an upload ends for, what it stores and what it reports
    ([upload_verdict]), and what a successful registration leaves in the internal
    registry ([register_command_registers]). *)
From S2P Require Import Prelude Interfaces Proto Stream Regex Registry RegistryProps Config Tokens TokenStore KeyStore ExpireMap Access Executor Bendini BendiniRegister.

(** ** The stream of chunks *)
Abbreviation chunk := (N.to_nat CHUNK_SIZE).

(** A file whose reads give its content. *)
Definition reads (file : FileHandle) (content : list byte) : Prop :=
  (forall pos, fh_read file pos = Ok (take chunk (drop pos content))) /\
  fh_size file = Ok (N.of_nat (length content)).
Definition short (file : FileHandle) (pos : nat) : Prop :=
  match fh_read file pos with Ok buf => N.of_nat (length buf) <> CHUNK_SIZE | Err _ => True end.

Section chunks.
Context {T : Type}.
Variables (id : AttachmentId) (name : string) (file : FileHandle) (server : UploadCall T).
Implicit Types (st : uc_state server) (s : T).

(** The server takes messages until it answers. *)
Fixpoint receive_all st (messages : list AttachmentStreamUpload) s : T * (uc_state server + result Status unit) :=
  match messages with
  | [] => (s, inl st)
  | m :: messages =>
      match uc_receive server st m s with
      | (s', inl st) => receive_all st messages s'
      | (s', inr answer) => (s', inr answer)
      end
  end.
(** The messages of the first [n] reads, from [pos] on. *)
Fixpoint first_chunks (n pos : nat) : list AttachmentStreamUpload :=
  match n with
  | O => []
  | S n => chunk_message id (default [] (result_ok (fh_read file pos))) :: first_chunks n (pos + chunk)
  end.
Abbreviation messages fuel st pos := (upload_messages fuel id name file server st (Some pos)).

Lemma next_chunk_full pos buf :
  fh_read file pos = Ok buf -> N.of_nat (length buf) = CHUNK_SIZE ->
  next_chunk id name file pos = Ok (chunk_message id buf, Some (pos + chunk)).
Proof.
  intros Hr Hl. unfold next_chunk. rewrite Hr. cbn. rewrite Hl, N.eqb_refl. by rewrite <- (Nat2N.id (length buf)), Hl.
Qed.
Lemma next_chunk_last pos buf :
  fh_read file pos = Ok buf -> N.of_nat (length buf) <> CHUNK_SIZE ->
  next_chunk id name file pos = Ok (chunk_message id buf, None).
Proof. intros Hr Hl. unfold next_chunk. rewrite Hr. cbn. by rewrite (proj2 (N.eqb_neq _ _) Hl). Qed.
Lemma messages_over fuel st taken s : (upload_messages fuel id name file server st None taken s).2 <> None.
Proof. destruct fuel; cbn; by destruct (uc_finish server st s). Qed.

Lemma messages_end_iff fuel st pos taken s :
  (messages fuel st pos taken s).2 <> None <->
  (exists k, k < fuel /\ short file (pos + k * chunk)) \/ exists r, (receive_all st (first_chunks fuel pos) s).2 = inr r.
Proof.
  revert st pos taken s. induction fuel as [|fuel IH]; intros st pos taken s.
  { cbn. split; [done|]. intros [(k & Hk & _)|[r Hr]]; [lia|done]. }
  cbn [upload_messages first_chunks receive_all]. destruct (fh_read file pos) as [buf|e] eqn:Hr.
  2: { unfold next_chunk. rewrite Hr. cbn. split; [|by destruct (uc_finish server st s)]. intros _. left. exists 0.
       split; [lia|]. unfold short. by rewrite Nat.add_0_r, Hr. }
  cbn [result_ok default from_option Datatypes.id].
  destruct (N.eq_dec (N.of_nat (length buf)) CHUNK_SIZE) as [Hl|Hl].
  - rewrite (next_chunk_full pos buf) by done. destruct (uc_receive server st _ s) as [s' [st'|r]].
    2: { cbn. split; [|done]. eauto. }
    rewrite IH. apply or_iff_compat_r. split.
    + intros (k & Hk & H). exists (S k). split; [lia|]. cbn [Nat.mul]. by rewrite Nat.add_assoc.
    + intros ([|k] & Hk & H); [unfold short in H; by rewrite Nat.add_0_r, Hr in H|].
      exists k. split; [lia|]. cbn [Nat.mul] in H. by rewrite Nat.add_assoc in H.
  - rewrite (next_chunk_last pos buf) by done. split; [intros _; left; exists 0; split; [lia|]; unfold short; by rewrite Nat.add_0_r, Hr|].
    intros _. destruct (uc_receive server st _ s) as [s' [st'|r]]; [apply messages_over|done].
Qed.

Lemma messages_more fuel fuel' st stream taken s :
  fuel <= fuel' -> (upload_messages fuel id name file server st stream taken s).2 <> None ->
  upload_messages fuel' id name file server st stream taken s = upload_messages fuel id name file server st stream taken s.
Proof.
  revert fuel' st stream taken s. induction fuel as [|fuel IH]; intros fuel' st [pos|] taken s Hle Hend.
  - by cbn in Hend.
  - by destruct fuel'.
  - destruct fuel' as [|fuel']; [lia|]. cbn [upload_messages] in Hend |- *.
    destruct (next_chunk id name file pos) as [[m stream]|e]; [|done].
    destruct (uc_receive server st m s) as [s' [st'|r]]; [|done]. apply IH; [lia|done].
  - by destruct fuel'.
Qed.
(** While the upload goes on, the server has taken every chunk read. *)
Lemma messages_going_on fuel st pos taken s :
  (messages fuel st pos taken s).2 = None ->
  (messages fuel st pos taken s).1 = (receive_all st (first_chunks fuel pos) s).1.
Proof.
  revert st pos taken s. induction fuel as [|fuel IH]; intros st pos taken s; [done|].
  cbn [upload_messages first_chunks receive_all]. destruct (fh_read file pos) as [buf|e] eqn:Hr.
  2: { unfold next_chunk. rewrite Hr. cbn. by destruct (uc_finish server st s). }
  cbn [result_ok default from_option Datatypes.id].
  destruct (N.eq_dec (N.of_nat (length buf)) CHUNK_SIZE) as [Hl|Hl].
  - rewrite (next_chunk_full pos buf) by done. destruct (uc_receive server st _ s) as [s' [st'|r]]; [apply IH|done].
  - rewrite (next_chunk_last pos buf) by done. destruct (uc_receive server st _ s) as [s' [st'|r]]; [|done].
    intros H. by apply messages_over in H.
Qed.

(** The chunks of an honest file: full ones, then one that is not. *)
Lemma messages_of_content fuel content pos :
  reads file content -> (length content - pos) / chunk < fuel ->
  exists contents,
    concat contents = drop pos content /\ length contents = S ((length content - pos) / chunk) /\ contents <> [] /\
    forall st taken s, match receive_all st (chunk_message id <$> contents) s with
      | (s', inl st') => messages fuel st pos taken s =
                           let '(s'', r) := uc_finish server st' s' in (s'', Some (taken + length contents, r))
      | (s', inr r) => exists n, messages fuel st pos taken s = (s', Some (n, r))
      end.
Proof.
  intros [Hr _]. assert (chunk <> 0) as Hc by done.
  revert pos. induction fuel as [|fuel IH]; intros pos Hf; [lia|].
  specialize (Hr pos). set (buf := take chunk (drop pos content)) in *.
  assert (length buf = Nat.min chunk (length content - pos)) as Hlen
    by (unfold buf; by rewrite length_take, length_drop).
  destruct (N.eq_dec (N.of_nat (length buf)) CHUNK_SIZE) as [Heq|Hne].
  - assert (length buf = chunk) as Hb by (rewrite <- Heq; symmetry; apply Nat2N.id).
    assert (chunk <= length content - pos) as Hle by lia.
    assert ((length content - pos) / chunk = S ((length content - (pos + chunk)) / chunk)) as Hdiv.
    { replace (length content - pos) with ((length content - (pos + chunk)) + 1 * chunk) by lia.
      rewrite Nat.div_add by done. lia. }
    destruct (IH (pos + chunk)) as (contents & Hcat & Hl & _ & Hrun); [lia|].
    exists (buf :: contents). split_and!; [|cbn; lia|done|].
    { cbn. rewrite Hcat. unfold buf. rewrite <- drop_drop. apply take_drop. }
    intros st taken s. rewrite fmap_cons. cbn [receive_all upload_messages]. rewrite (next_chunk_full pos buf) by done.
    destruct (uc_receive server st _ s) as [s' [st'|r]]; [|by eexists].
    specialize (Hrun st' (taken + 1) s'). cbn [length].
    by replace (taken + S (length contents)) with (taken + 1 + length contents) by lia.
  - assert (length content - pos < chunk) as Hlt by lia.
    exists [buf]. rewrite Nat.div_small by done. split_and!; [|done|done|].
    { cbn. rewrite app_nil_r. unfold buf. apply take_ge. rewrite length_drop. lia. }
    intros st taken s. cbn [fmap list_fmap receive_all upload_messages]. rewrite (next_chunk_last pos buf) by done.
    destruct (uc_receive server st _ s) as [s' [st'|r]]; [|by eexists]. by destruct fuel.
Qed.
End chunks.

Lemma chunk_count_spec (n : nat) :
  (N.of_nat (S (n / chunk)) =? chunk_count (N.of_nat n))%N = negb (n mod chunk =? 0)%nat.
Proof.
  assert (N.of_nat chunk = CHUNK_SIZE) as Hc by apply N2Nat.id.
  unfold chunk_count. set (c := chunk) in *. clearbody c. rewrite <- Hc, <- Nat2N.inj_div, <- Nat2N.inj_mod.
  change 0%N with (N.of_nat 0). rewrite Nat2N.inj_succ.
  destruct (Nat.eqb_spec (n mod c) 0) as [->|Hne]; cbn [negb].
  - rewrite N.eqb_refl. apply N.eqb_neq. lia.
  - destruct (N.eqb_spec (N.of_nat (n mod c)) (N.of_nat 0)); [lia|]. apply N.eqb_eq. lia.
Qed.

Section uploads.
Context {T : Type}.
Variable client : RegistryClient T.
Variable display_status : Status -> string.

Lemma upload_hangs fuel id name file size s :
  let server := rc_upload_streamed_attachment client in
  let m := upload_messages fuel id name file server (uc_start server) (Some 0) 0 s in
  ((upload_via_grpc client display_status fuel id name file size s).2 = Err Hang <-> m.2 = None) /\
  (upload_via_grpc client display_status fuel id name file size s).1 = m.1.
Proof.
  intros server m. unfold upload_via_grpc. fold server m. destruct m as [s' [[taken [u|e]]|]]; cbn; [|done|done].
  by destruct (_ =? _)%N.
Qed.

(** C27: an upload ends when the file does or when the server answers, and only
    then.  The file is read while the server takes the chunks.  Within [fuel]
    turns of the loop the upload ends exactly if one of the first [fuel] reads is
    short (fewer bytes than a chunk, or an error) or the server answers one of
    the first [fuel] chunks; once it has ended, more turns change nothing; and as
    long as it goes on, the server has taken every chunk read so far.  So a
    regular file always ends, and a device that never ends is sent for ever to a
    server that never answers. *)
Theorem upload_terminates id name file size s :
  let server := rc_upload_streamed_attachment client in
  let upload fuel := upload_via_grpc client display_status fuel id name file size s in
  let took fuel := receive_all server (uc_start server) (first_chunks id file fuel 0) s in
  (forall fuel, (upload fuel).2 <> Err Hang <->
     (exists k, k < fuel /\ short file (k * chunk)) \/ exists answer, (took fuel).2 = inr answer) /\
  (forall fuel fuel', fuel <= fuel' -> (upload fuel).2 <> Err Hang -> upload fuel' = upload fuel) /\
  (forall fuel, (upload fuel).2 = Err Hang -> (upload fuel).1 = (took fuel).1).
Proof.
  intros server upload took.
  pose proof (fun fuel => upload_hangs fuel id name file size s) as Hh. cbv zeta in Hh. fold server in Hh.
  split; [|split].
  - intros fuel. subst upload took. cbv beta. rewrite (proj1 (Hh fuel)). apply (messages_end_iff id name file server).
  - intros fuel fuel' Hle Hend. subst upload. cbv beta in *. rewrite (proj1 (Hh fuel)) in Hend.
    unfold upload_via_grpc. fold server. by rewrite (messages_more id name file server fuel fuel').
  - intros fuel Hhang. subst upload took. cbv beta in *. rewrite (proj1 (Hh fuel)) in Hhang.
    rewrite (proj2 (Hh fuel)). by apply messages_going_on.
Qed.
End uploads.

(** ** The registration a manifest stands for *)
Section manifest.
Context {HO : HashOrder}.

Lemma omap_keys_nodup {A B} (f : string * A -> option (string * B)) (l : list (string * A)) :
  (forall x y, f x = Some y -> y.1 = x.1) -> NoDup l.*1 -> NoDup (omap f l).*1.
Proof.
  intros Hf. induction l as [|x l IH]; cbn; [constructor|].
  intros [Hx Hnd]%NoDup_cons. destruct (f x) as [y|] eqn:Hy; cbn; [|auto].
  apply NoDup_cons. split; [|auto]. rewrite (Hf _ _ Hy). intros (z & Hz & Hin)%list_elem_of_fmap. apply Hx.
  apply list_elem_of_omap in Hin as (w & Hw & Hwz). rewrite Hz, (Hf _ _ Hwz). by apply list_elem_of_fmap_2.
Qed.

Lemma inputs_where_lookup p (inputs : gmap string Input) name spec :
  inputs_where p inputs !! name = Some spec <->
  exists input, inputs !! name = Some input /\ p (in_required input) = true /\
    spec = channel_spec (in_type input) (in_description input).
Proof.
  unfold inputs_where. rewrite <- elem_of_list_to_map.
  2: { apply omap_keys_nodup; [|apply hash_iter_nodup]. intros [n i] y. destruct (p _); [by intros [= <-]|done]. }
  rewrite list_elem_of_omap. split.
  - intros ([n i] & Hin%elem_of_hash_iter & Hs). destruct (p (in_required i)) eqn:Hp; [|done].
    injection Hs as <- <-. eauto.
  - intros (i & Hi & Hp & ->). exists (name, i). split; [by apply elem_of_hash_iter|]. by rewrite Hp.
Qed.

Lemma outputs_of_lookup (outputs : gmap string Output) name :
  outputs_of outputs !! name = (fun o => channel_spec (ou_type o) (ou_description o)) <$> outputs !! name.
Proof.
  unfold outputs_of. apply option_eq. intros spec. rewrite <- elem_of_list_to_map.
  2: { replace (_.*1) with ((hash_iter outputs).*1); [apply hash_iter_nodup|].
       rewrite <- list_fmap_compose. apply list_fmap_ext. by intros ? []. }
  rewrite list_elem_of_fmap, fmap_Some. split.
  - intros ([n o] & [= -> ->] & Hin%elem_of_hash_iter). eauto.
  - intros (o & Ho & ->). exists (name, o). split; [done|]. by apply elem_of_hash_iter.
Qed.
End manifest.

(** ** Against the internal registry *)
Section internal.
Context {SV : SemVer} {UL : UuidLib} {DL : DigestLib} {RE : RegexEngine} {HO : HashOrder} {UR : UrlLib}.

(** A message whose content the registry writes at once. *)
Definition written (m : AttachmentStreamUpload) : UploadItem := MkUploadItem (Ok m) None (Ok (length (asu_content m))).
(** The internal registry behind its protocol: [fresh] draws identifiers. *)
Definition internal_client (now : N) (fresh : RegistryService -> uuid) (os : OsAnswers) : RegistryClient RegistryService := {|
  rc_list f := sem_ask (fun s => rpc_list s f);
  rc_list_versions f := sem_ask (fun s => rpc_list_versions s f);
  rc_get id := sem_ask (fun s => Registry.get s id);
  rc_register d := register now d;
  rc_register_attachment d := fun s => register_attachment now (fresh s) os d s;
  rc_upload_streamed_attachment := {|
    uc_state := Upload;
    uc_start := MkUpload [] None None;
    uc_receive u m s := match upload_chunk u (written m) s with (s', Ok u) => (s', inl u) | (s', Err e) => (s', inr (Err e)) end;
    uc_finish u := sem_lift (check_upload u);
    uc_ahead _ := 0
  |}
|}.
Variables (now : N) (fresh : RegistryService -> uuid) (os : OsAnswers).
Abbreviation server := (internal_client now fresh os).
Variable auth_client : AuthenticationClient RegistryService.
Variable display_status : Status -> string.
Variable http_post : string -> option string -> list byte -> sem RegistryService string unit.
Variable file_open : string -> result string FileHandle.
Abbreviation upload_one := (register_and_upload_attachment server auth_client display_status http_post file_open).

Lemma written_chunks id contents : written <$> (chunk_message id <$> contents) = whole_chunks id contents.
Proof. unfold whole_chunks. rewrite <- list_fmap_compose. done. Qed.

(** The call of the internal registry takes what its handler takes. *)
Lemma internal_receives u messages s :
  receive_all (rc_upload_streamed_attachment server) u messages s =
  match upload_loop u (written <$> messages) s with (s', Ok u') => (s', inl u') | (s', Err e) => (s', inr (Err e)) end.
Proof.
  revert u s. induction messages as [|m messages IH]; intros u s; [done|]. cbn [receive_all fmap list_fmap upload_loop].
  unfold mbind, sem_bind. cbn [uc_receive rc_upload_streamed_attachment internal_client].
  destruct (upload_chunk u (written m) s) as [s' [u'|e]]; [apply IH|done].
Qed.
Lemma internal_upload fuel id name file content size s :
  reads file content -> length content / chunk < fuel ->
  exists contents, concat contents = content /\ length contents = S (length content / chunk) /\ contents <> [] /\
    upload_via_grpc server display_status fuel id name file size s =
    let '(s', r) := upload_streamed_attachment (whole_chunks id contents) s in
    (s', match r with
         | Err e => Err (Fault ("Failed to upload " +:+ name +:+ " attachment: " +:+ display_status e))
         | Ok _ => if (N.of_nat (length contents) =? chunk_count size)%N then Ok tt
                   else Err (Fault ("All chunks could not be uploaded for attachment " +:+ name +:+ "."))
         end).
Proof.
  intros Hreads Hf.
  destruct (messages_of_content id name file (rc_upload_streamed_attachment server) fuel content 0 Hreads)
    as (contents & Hcat & Hl & Hne & Hrun); [by rewrite Nat.sub_0_r|]. rewrite drop_0 in Hcat. rewrite Nat.sub_0_r in Hl.
  exists contents. split_and!; [done..|]. specialize (Hrun (uc_start (rc_upload_streamed_attachment server)) 0 s).
  rewrite internal_receives, written_chunks in Hrun. unfold upload_via_grpc.
  unfold upload_streamed_attachment, upload_stream_attachment, mbind, sem_bind.
  change (uc_start (rc_upload_streamed_attachment server)) with (MkUpload [] None None) in *.
  destruct (upload_loop (MkUpload [] None None) (whole_chunks id contents) s) as [s' [u'|e]].
  - rewrite Hrun. cbn [uc_finish rc_upload_streamed_attachment internal_client]. unfold sem_lift. by destruct (check_upload u').
  - by destruct Hrun as [n ->].
Qed.

(** The registered attachment, before its upload. *)
Lemma registered_attachment_known (payload : AttachmentData) self self1 h :
  rc_register_attachment server payload self = (self1, Ok h) ->
  exists ck p canonical url,
    let id := MkAttachmentId (uuid_to_string (fresh self)) in
    let path := path_join (attachment_directory self) (aid_uuid id) in
    let a := MkAttachment (ad_name payload) (Some (MkAttachmentUrl url (AuthMethod_to_i32 AMNone)))
               (ad_metadata payload) (Some ck) now (Some p) (ad_signature payload) in
    ad_checksums payload = Some ck /\ os_canonicalize os path = Ok canonical /\ os_file_url os canonical = Some url /\
    lk_poisoned (function_attachments self) = false /\ files self !! path = None /\
    h = MkAttachmentHandle (Some id) (Some (MkAttachmentUrl "grpc://" (AuthMethod_to_i32 AMNone))) /\
    self1 = set_attachments (<[fresh self := a]> (lk_data (function_attachments self))) (set_files (<[path := []]> (files self)) self) /\
    get_attachment self1 id = Ok a.
Proof.
  intros H. apply register_attachment_Ok in H as (ck & p & canonical & url & Hck & _ & Hp & Hf & Hcan & Hurl & -> & ->).
  exists ck, p, canonical, url. cbv zeta. cbn [aid_uuid]. split_and!; try done.
  apply get_attachment_Ok. exists (fresh self). cbn. by rewrite uuid_parse_to_string, Hp, lookup_insert_eq.
Qed.

Definition not_all_chunks (name : string) : string := "All chunks could not be uploaded for attachment " +:+ name +:+ ".".
(** The registry with one more attachment and its file. *)
Definition with_attachment (id : uuid) (a : Attachment) (path : string) (content : list byte) (self : RegistryService)
  : RegistryService :=
  set_attachments (<[id := a]> (lk_data (function_attachments self))) (set_files (<[path := content]> (files self)) self).

(** Uploading an honest file to the registry that just registered it. *)
Lemma upload_one_run fuel attachment self self1 h file content u :
  rc_register_attachment server (ai_request attachment) self = (self1, Ok h) ->
  file_open (ai_path attachment) = Ok file -> reads file content -> length content / chunk < fuel ->
  url_parse "grpc://" = Ok u -> url_scheme u = "grpc" ->
  exists a ck canonical url,
    let id := MkAttachmentId (uuid_to_string (fresh self)) in
    let path := path_join (attachment_directory self) (aid_uuid id) in
    let self2 := with_attachment (fresh self) a path content self in
    let name := ad_name (ai_request attachment) in
    ad_checksums (ai_request attachment) = Some ck /\ files self !! path = None /\
    lk_poisoned (function_attachments self) = false /\
    os_canonicalize os path = Ok canonical /\ os_file_url os canonical = Some url /\
    att_name a = name /\ att_checksums a = Some ck /\
    att_url a = Some (MkAttachmentUrl url (AuthMethod_to_i32 AMNone)) /\
    get_attachment self2 id = Ok a /\
    upload_one fuel attachment self =
      (self2, match check_upload (MkUpload content (Some a) None) with
              | Err e => Err (Fault ("Failed to upload " +:+ name +:+ " attachment: " +:+ display_status e))
              | Ok _ => if (length content mod chunk =? 0)%nat then Err (Fault (not_all_chunks name)) else Ok id
              end).
Proof.
  intros Hreg Hopen Hreads Hf Hu Hgrpc.
  destruct (registered_attachment_known _ _ _ _ Hreg) as (ck & p & canonical & url & Hck & Hcan & Hurl & Hp & Hfile & -> & Hself & Ha).
  exists (MkAttachment (ad_name (ai_request attachment)) (Some (MkAttachmentUrl url (AuthMethod_to_i32 AMNone)))
            (ad_metadata (ai_request attachment)) (Some ck) now (Some p) (ad_signature (ai_request attachment))),
    ck, canonical, url. cbv zeta in *. split_and!; try done.
  { apply get_attachment_Ok. exists (fresh self). cbn. by rewrite uuid_parse_to_string, Hp, lookup_insert_eq. }
  destruct (internal_upload fuel (MkAttachmentId (uuid_to_string (fresh self))) (ad_name (ai_request attachment)) file
              content (N.of_nat (length content)) self1 Hreads Hf) as (contents & Hcat & Hl & Hne & Hrun).
  unfold register_and_upload_attachment, call, sem_lift. cbv [mbind sem_bind mret sem_ret]. rewrite Hreg.
  cbn [map_err ah_upload_url ah_id ok_or]. rewrite Hopen. cbn [map_err fault]. rewrite (proj2 Hreads). cbn [map_err fault au_url].
  rewrite Hu. cbn [map_err fault]. rewrite bool_decide_eq_true_2 by done.
  rewrite Hrun, (upload_whole _ _ self1 contents Ha Hne), Hcat. cbv zeta.
  assert (path_join (attachment_directory self1) (uuid_to_string (fresh self)) =
          path_join (attachment_directory self) (uuid_to_string (fresh self))) as Hdir by (by rewrite Hself).
  cbn [aid_uuid] in Hdir |- *. rewrite Hdir.
  assert (files self1 !! path_join (attachment_directory self) (uuid_to_string (fresh self)) = Some []) as ->
    by (rewrite Hself; apply lookup_insert_eq).
  cbn [default from_option id]. rewrite drop_nil, app_nil_r.
  replace (set_files (<[path_join (attachment_directory self) (uuid_to_string (fresh self)):=content]> (files self1)) self1)
    with (with_attachment (fresh self) (MkAttachment (ad_name (ai_request attachment))
            (Some (MkAttachmentUrl url (AuthMethod_to_i32 AMNone))) (ad_metadata (ai_request attachment)) (Some ck) now
            (Some p) (ad_signature (ai_request attachment))) (path_join (attachment_directory self) (uuid_to_string (fresh self))) content self).
  2: { rewrite Hself. unfold with_attachment. cbn. by rewrite insert_insert_eq. }
  destruct (check_upload _) as [[]|e]; [|done].
  rewrite Hl, chunk_count_spec. unfold not_all_chunks. by destruct (_ =? 0)%nat.
Qed.

(** C25: what uploading a file stores and what it reports.  An attachment registered
    with the checksum of its file is stored byte for byte, in whole chunks; yet when
    the file's size is a multiple of the chunk size (an empty file too) the client
    reports that not all chunks could be uploaded, because it counts the empty chunk
    that ends the stream and does not expect it. *)
Theorem upload_verdict fuel attachment self self1 h file content ck u :
  rc_register_attachment server (ai_request attachment) self = (self1, Ok h) ->
  file_open (ai_path attachment) = Ok file -> reads file content -> length content / chunk < fuel ->
  url_parse "grpc://" = Ok u -> url_scheme u = "grpc" ->
  ad_checksums (ai_request attachment) = Some ck -> hex_decode (ck_sha256 ck) = Ok (sha256 content) ->
  exists id a path self2,
    upload_one fuel attachment self =
      (self2, if (length content mod chunk =? 0)%nat
              then Err (Fault (not_all_chunks (ad_name (ai_request attachment)))) else Ok id) /\
    get_attachment self2 id = Ok a /\
    att_name a = ad_name (ai_request attachment) /\ att_checksums a = Some ck /\
    path = path_join (attachment_directory self) (aid_uuid id) /\
    files self2 = <[path := content]> (files self) /\ functions self2 = functions self.
Proof.
  intros Hreg Hopen Hreads Hf Hu Hgrpc Hck Hsum.
  destruct (upload_one_run fuel attachment self self1 h file content u Hreg Hopen Hreads Hf Hu Hgrpc)
    as (a & ck' & canonical & url & Hck' & _ & _ & _ & _ & Hname & Hac & _ & Hget & Hrun).
  rewrite Hck in Hck'. injection Hck' as <-.
  assert (check_upload (MkUpload content (Some a) None) = Ok tt) as Hok.
  { apply (check_upload_iff _ a ck); [done|]. by rewrite Hsum. }
  rewrite Hok in Hrun. eexists _, a, _, _. split_and!; [exact Hrun|exact Hget|done..].
Qed.

(** *** The whole command *)

(** [info]'s file is stored as the attachment [a] of the registry. *)
Definition uploaded (self : RegistryService) (info : AttachmentInfo) (a : Attachment) : Prop :=
  exists file content ck path canonical url,
    file_open (ai_path info) = Ok file /\ reads file content /\ files self !! path = Some content /\
    os_canonicalize os path = Ok canonical /\ os_file_url os canonical = Some url /\
    att_url a = Some (MkAttachmentUrl url (AuthMethod_to_i32 AMNone)) /\ att_name a = ad_name (ai_request info) /\
    ad_checksums (ai_request info) = Some ck /\ att_checksums a = Some ck /\
    sha256 content = default [] (result_ok (hex_decode (ck_sha256 ck))).
(** The same under an identifier that names a file of the registry. *)
Definition uploaded_as (self : RegistryService) (info : AttachmentInfo) (id : AttachmentId) : Prop :=
  exists a, get_attachment self id = Ok a /\ uploaded self info a.
(** Nothing that is there changes. *)
Definition extends (self self' : RegistryService) : Prop :=
  files self ⊆ files self' /\ attachment_directory self' = attachment_directory self /\
  functions self' = functions self /\ version_suffix self' = version_suffix self /\
  (forall id u, aid_uuid id = uuid_to_string u ->
     is_Some (files self !! path_join (attachment_directory self) (uuid_to_string u)) ->
     get_attachment self' id = get_attachment self id).
(** Every identifier handed out names a file. *)
Definition has_file (self : RegistryService) (id : AttachmentId) : Prop :=
  exists u, aid_uuid id = uuid_to_string u /\
    is_Some (files self !! path_join (attachment_directory self) (uuid_to_string u)).

Lemma extends_refl self : extends self self.
Proof. split_and!; done. Qed.
Lemma extends_trans s1 s2 s3 : extends s1 s2 -> extends s2 s3 -> extends s1 s3.
Proof.
  intros (Hf & Hd & Hn & Hv & Hg) (Hf' & Hd' & Hn' & Hv' & Hg'). split_and!; [by etrans|congruence..|].
  intros id u Hu Hs. rewrite (Hg' id u), (Hg id u); [done..|]. rewrite Hd.
  destruct Hs as [c Hc]. exists c. by eapply lookup_weaken.
Qed.
Lemma has_file_extends s s' id : extends s s' -> has_file s id -> has_file s' id.
Proof. intros (Hf & Hd & _) (u & Hu & c & Hc). exists u. split; [done|]. rewrite Hd. exists c. by eapply lookup_weaken. Qed.
Lemma uploaded_as_extends s s' info id :
  extends s s' -> has_file s id -> uploaded_as s info id -> uploaded_as s' info id.
Proof.
  intros (Hf & _ & _ & _ & Hg) (u & Hu & Hs) (a & Ha & file & content & ck & path & can & url & H1 & H2 & H3 & H4).
  exists a. split; [by rewrite (Hg id u)|]. exists file, content, ck, path, can, url. split_and!; try tauto.
  by eapply lookup_weaken.
Qed.

Variable u : Url.
Hypothesis Hu : url_parse "grpc://" = Ok u.
Hypothesis Hgrpc : url_scheme u = "grpc".
Variable fuel : nat.
(** The files of the client are regular ones, small enough for the fuel. *)
Hypothesis Hfiles : forall path file, file_open path = Ok file ->
  exists content, reads file content /\ length content / chunk < fuel.

Lemma upload_one_Ok info self self' id :
  upload_one fuel info self = (self', Ok id) -> extends self self' /\ has_file self' id /\ uploaded_as self' info id.
Proof.
  intros H. destruct (rc_register_attachment server (ai_request info) self) as [self1 [h|e]] eqn:Hreg.
  2: { unfold register_and_upload_attachment, call in H. cbv [mbind sem_bind] in H. by rewrite Hreg in H. }
  destruct (file_open (ai_path info)) as [file|e] eqn:Hopen.
  2: { unfold register_and_upload_attachment, call, sem_lift in H. cbv [mbind sem_bind] in H. by rewrite Hreg, Hopen in H. }
  destruct (Hfiles _ _ Hopen) as (content & Hreads & Hf).
  destruct (upload_one_run fuel info self self1 h file content u Hreg Hopen Hreads Hf Hu Hgrpc)
    as (a & ck & canonical & url & Hck & Hnew & Hp & Hcan & Hurl & Hname & Hac & Hau & Hget & Hrun).
  rewrite Hrun in H. destruct (check_upload _) as [[]|] eqn:Hcheck; [|done].
  destruct (_ =? 0)%nat; [done|]. injection H as <- <-. split_and!.
  - split_and!; cbn; [by apply insert_subseteq|done..|]. intros id w Hw [c Hc]. unfold get_attachment, lock_get. rewrite Hw, uuid_parse_to_string.
    cbn [map_err mbind result_bind with_attachment set_attachments set_files function_attachments lock_set lk_poisoned lk_data]. rewrite Hp.
    cbn [mbind result_bind]. rewrite lookup_insert_ne; [done|]. intros <-. cbn in Hnew. congruence.
  - exists (fresh self). split; [done|]. cbn. rewrite lookup_insert_eq. eauto.
  - eexists. split; [exact Hget|]. eexists file, content, ck, _, canonical, url. split_and!; try done.
    + apply lookup_insert_eq.
    + by apply (check_upload_iff content a ck).
Qed.

Lemma upload_all_Ok infos self self' ids :
  upload_all server auth_client display_status http_post file_open fuel infos self = (self', Ok ids) ->
  extends self self' /\ Forall2 (uploaded_as self') infos ids /\ Forall (has_file self') ids.
Proof.
  revert self ids. induction infos as [|info infos IH]; intros self ids H; cbn in H.
  { injection H as <- <-. split_and!; [apply extends_refl|constructor|constructor]. }
  apply sem_bind_Ok in H as (s1 & id & H1 & H). apply sem_bind_Ok in H as (s2 & rest & H2 & H).
  injection H as <- <-. apply upload_one_Ok in H1 as (He1 & Hf1 & Hu1). apply IH in H2 as (He2 & Hu2 & Hf2).
  split_and!; [by eapply extends_trans|constructor; [by eapply uploaded_as_extends|done]|].
  constructor; [by eapply has_file_extends|done].
Qed.

(** The attachments of a function, once it is found. *)
Lemma collect_Forall2 {A B E} (g : A -> result E B) (l : list A) v :
  collect (g <$> l) = Ok v -> Forall2 (fun a b => g a = Ok b) l v.
Proof.
  revert v. induction l as [|a l IH]; intros v; cbn; [intros [= <-]; constructor|].
  destruct (g a) as [b|] eqn:Hg; [|done]. cbn. destruct (collect (g <$> l)) as [w|]; [|done].
  intros [= <-]. constructor; auto.
Qed.
Lemma uploaded_get self info id a : uploaded_as self info id -> get_attachment self id = Ok a -> uploaded self info a.
Proof. intros (b & Hb & Hu') Ha. assert (a = b) as -> by congruence. done. Qed.

Abbreviation command := (register_run server auth_client display_status http_post file_open).
Variable files_os : ManifestOs.

(** The steps of a successful command. *)
Lemma command_Ok manifest publisher_name publisher_email self self' r :
  command files_os fuel manifest publisher_name publisher_email self = (self', Ok r) ->
  exists m code infos code_id ids self1,
    manifest_parse files_os (if mo_is_dir files_os manifest then path_join manifest "manifest.toml" else manifest)
      publisher_name publisher_email = Ok m /\
    manifest_code files_os m = Ok code /\ manifest_attachments files_os m = Ok infos /\
    extends self self1 /\ option_Forall2 (uploaded_as self1) code code_id /\ Forall2 (uploaded_as self1) infos ids /\
    register now (with_attachments code_id ids (function_data m)) self1 = (self', Ok r).
Proof.
  unfold register_run. intros H. apply sem_bind_Ok in H as (s0 & m & Hm & H). injection Hm as <- Hm%map_err_Ok%map_err_Ok.
  apply sem_bind_Ok in H as (s1 & code & Hc & H). injection Hc as <- Hc%map_err_Ok%map_err_Ok.
  apply sem_bind_Ok in H as (s2 & code_id & Hcode & H). apply sem_bind_Ok in H as (s3 & infos & Hi & H).
  injection Hi as <- Hi%map_err_Ok%map_err_Ok. apply sem_bind_Ok in H as (s4 & ids & Hall & H).
  unfold upload_attachments in Hall. destruct (upload_all _ _ _ _ _ _ _ _) as [s5 r5] eqn:Hupload.
  injection Hall as <- Hall%map_err_Ok. subst r5. apply upload_all_Ok in Hupload as (He & Hids & _).
  unfold call in H. destruct (rc_register _ _ _) as [s6 r6] eqn:Hreg. injection H as <- H%map_err_Ok. subst r6.
  assert (extends self s2 /\ option_Forall2 (uploaded_as s5) code code_id) as [He2 Ho].
  { destruct code as [info|]; cbn in Hcode.
    - destruct (upload_one fuel info self) as [s7 r7] eqn:Hone. injection Hcode as <- Hcode%fmap_Ok_inv.
      destruct Hcode as (id & Hid%map_err_Ok & ->). subst r7. apply upload_one_Ok in Hone as (He1 & Hf & Hup).
      split; [done|]. constructor. by eapply uploaded_as_extends.
    - injection Hcode as <- <-. split; [apply extends_refl|constructor]. }
  exists m, code, infos, code_id, ids, s5. split_and!; try done. by eapply extends_trans.
Qed.

(** C26: what a successful register command leaves in the registry.  The manifest was
    read, and the registry now answers a function under the manifest's name and the
    manifest's version with the registry's suffix pushed onto it ("dev" unless
    configured otherwise; the manifest's own version is not what it is found
    under), with the manifest's runtime, exactly its inputs marked required as
    required and the others as optional, its outputs, and its attachments and code
    in order, each stored with the content of its file, which has the checksum the
    manifest gives. *)
Theorem register_command_registers manifest publisher_name publisher_email self self' r :
  command files_os fuel manifest publisher_name publisher_email self = (self', Ok r) ->
  exists m code infos v,
    manifest_parse files_os (if mo_is_dir files_os manifest then path_join manifest "manifest.toml" else manifest)
      publisher_name publisher_email = Ok m /\
    manifest_code files_os m = Ok code /\ manifest_attachments files_os m = Ok infos /\
    Registry.get self' (MkFunctionId (fn_name r) (fn_version r)) = Ok r /\
    fn_name r = fm_name m /\ validate_version (fm_version m) = Ok v /\
    fn_version r = version_to_string (suffixed (version_suffix self) v) /\
    fn_runtime r = Some (MkRuntimeSpec (mr_type (fm_runtime m)) (mr_entrypoint (fm_runtime m)) (mr_args (fm_runtime m))) /\
    (forall p inputs, (p, inputs) = (id, fn_required_inputs r) \/ (p, inputs) = (negb, fn_optional_inputs r) ->
       forall n spec, inputs !! n = Some spec <->
         exists input, fm_inputs m !! n = Some input /\ p (in_required input) = true /\
           spec = channel_spec (in_type input) (in_description input)) /\
    (forall n, fn_outputs r !! n = (fun o => channel_spec (ou_type o) (ou_description o)) <$> fm_outputs m !! n) /\
    option_Forall2 (uploaded self') code (fn_code r) /\ Forall2 (uploaded self') infos (fn_attachments r).
Proof.
  intros (m & code & infos & code_id & ids & self1 & Hm & Hc & Hi & He & Hcode & Hids & Hreg)%command_Ok.
  apply register_Ok in Hreg as (v & f & (v0 & Hv0 & ->) & (rt & cs & p & Hrt & _ & _ & ->) & _ & Hself & Hr & Hget).
  injection Hrt as <-. exists m, code, infos, v0. pose proof He as (_ & _ & _ & Hsuf & _). rewrite Hsuf in Hr.
  assert (forall info a, uploaded self1 info a -> uploaded self' info a) as Hsame by (intros info a; by rewrite Hself).
  unfold get_function in Hr. apply bind_Ok_inv in Hr as (c & Htr & Hr). apply bind_Ok_inv in Hr as (atts & Hatts%collect_Forall2 & Hr).
  injection Hr as <-. cbn [f_code f_attachments with_attachments fd_code_attachment_id fd_attachment_ids] in *.
  split_and!; try done; cbn [fn_code fn_attachments fn_outputs].
  - intros q inputs Hq n spec. destruct Hq as [[= -> ->]|[= -> ->]]; apply inputs_where_lookup.
  - apply outputs_of_lookup.
  - inversion Hcode as [info id Hup|]; subst; cbn in Htr; [|injection Htr as <-; constructor].
    destruct (get_attachment self1 id) as [a|] eqn:Ha; [|done]. injection Htr as <-. constructor.
    apply Hsame. by eapply uploaded_get.
  - eapply Forall2_trans; [|exact Hids|exact Hatts]. intros info id a Hup Ha. apply Hsame. by eapply uploaded_get.
Qed.
End internal.

(** ** A concrete manifest and registry *)
Module BendiniExamples.
#[local] Existing Instance Concrete.text_semver.
#[local] Existing Instance Concrete.text_uuid.
#[local] Existing Instance Concrete.text_digest.
#[local] Existing Instance Concrete.text_url.
#[local] Existing Instance derivative_engine.
#[local] Existing Instance key_order.

(** Regular files with their content. *)
Definition file_of (content : list byte) : FileHandle :=
  MkFileHandle (Ok (N.of_nat (length content))) (fun pos => Ok (take (N.to_nat CHUNK_SIZE) (drop pos content))) (Ok content).
Definition on_disk : gmap string (list byte) :=
  {[ "/m/code.wasm" := bytes_of "code"; "/m/blob" := bytes_of "data"; "/m/empty" := [] ]}.
Definition file_open (path : string) : result string FileHandle :=
  ok_or "no such file" (file_of <$> on_disk !! path).
Definition endless : FileHandle := MkFileHandle (Ok 0%N) (fun _ => Ok (replicate (N.to_nat CHUNK_SIZE) Corelib.Init.Byte.x00)) (Err "endless").

Definition sha (s : string) := MkManifestChecksums s.
Definition manifest := MkManifest "sum-it" EmptyString EmptyString EmptyString "1"
  {[ "a" := MkInput ATInt true "first"; "b" := MkInput ATInt false "second" ]} {[ "sum" := MkOutput ATInt "a and b" ]}
  (MkManifestRuntime "wasi" "main" ∅) ∅ {[ "blob" := MkManifestAttachment "blob" ∅ (sha "data") ]}
  (Some (MkManifestAttachment "code.wasm" ∅ (sha "code"))).
Definition files_os := MkManifestOs (fun p => bool_decide (p = "/m")) Ok (fun _ => Ok "toml") (fun _ => Ok manifest).
Definition fresh (self : RegistryService) : string := pretty.pretty (N.of_nat (size (files self))).
Definition os := MkOs (fun _ => None) (fun p => Ok p) (fun p => Some ("file://" +:+ p)).
Definition start := new "dev" "/srv".
Definition server := internal_client 7 fresh os.
Definition nobody : AuthenticationClient RegistryService :=
  MkAuthenticationClient _ (fun _ => sem_lift (Err (MkStatus CInternal "no tokens"))) (sem_lift (Ok []))
    (fun _ => sem_lift (Ok [])) (fun _ => sem_lift (Err (MkStatus CNotFound EmptyString))).
Definition offline (_ : string) (_ : option string) (_ : list byte) : sem RegistryService string unit := sem_lift (Err "offline").

Lemma Ok_inj {E A} {a b : A} : (Ok a : result E A) = Ok b -> a = b.
Proof. by intros [= ->]. Qed.
Definition grpc_url : @Url Concrete.text_url := "grpc://".
Lemma reads_file content : reads (file_of content) content.
Proof. done. Qed.

Definition some_id := MkAttachmentId "#1".
(** A server that counts the chunks and never answers before the end. *)
Definition patient : RegistryClient nat :=
  let no A : sem nat Status A := sem_lift (Err (MkStatus CUnknown EmptyString)) in
  MkRegistryClient _ (fun _ => no _) (fun _ => no _) (fun _ => no _) (fun _ => no _) (fun _ => no _)
    (MkUploadCall _ unit tt (fun _ _ n => (S n, inl tt)) (fun _ => sem_lift (Ok tt)) (fun _ => 0)).
(** A regular file ends; one that never ends is ended by the registry, which does
    not know the attachment, and by nobody at the patient server. *)
Lemma upload_terminates_witness :
  (upload_via_grpc server st_message 1 some_id "blob" (file_of (bytes_of "data")) 4 start).2 <> Err Hang /\
  (upload_via_grpc server st_message 1 some_id "blob" endless 0 start).2 <> Err Hang /\
  upload_via_grpc patient st_message 9 some_id "blob" endless 0 0 = (9, Err Hang).
Proof.
  split; [|split].
  - apply (proj1 (upload_terminates server st_message some_id "blob" (file_of (bytes_of "data")) 4 start)). left.
    exists 0. split; [lia|]. cbn. discriminate.
  - apply (proj1 (upload_terminates server st_message some_id "blob" endless 0 start)). right.
    eexists. vm_compute. reflexivity.
  - assert ((upload_via_grpc patient st_message 9 some_id "blob" endless 0 0).2 = Err Hang) as Hh by (vm_compute; reflexivity).
    pose proof (proj2 (proj2 (upload_terminates patient st_message some_id "blob" endless 0 0)) 9 Hh) as Ht.
    destruct (upload_via_grpc patient st_message 9 some_id "blob" endless 0 0) as [n r]. cbn [fst snd] in Hh, Ht.
    rewrite Hh, Ht. reflexivity.
Defined.

Definition info (name path sum : string) : AttachmentInfo :=
  MkAttachmentInfo path (MkAttachmentData name ∅ (Some (MkChecksums sum)) (Some (MkPublisher "Ada" "ada@example.com")) None).
Abbreviation upload_one := (register_and_upload_attachment server nobody st_message offline file_open 1).
Lemma upload_verdict_witness :
  (exists id self2, upload_one (info "code" "/m/code.wasm" "code") start = (self2, Ok id)) /\
  (exists self2, upload_one (info "empty" "/m/empty" EmptyString) start = (self2, Err (Fault (not_all_chunks "empty")))).
Proof.
  assert (forall name path sum content, on_disk !! path = Some content -> bytes_of sum = content ->
            str_is_empty name = false -> length content < 8 ->
            exists id self2, upload_one (info name path sum) start =
              (self2, if (length content mod N.to_nat CHUNK_SIZE =? 0)%nat then Err (Fault (not_all_chunks name)) else Ok id)) as H.
  { intros name path sum content Hd Hs Hname Hlen.
    assert (exists r, register_attachment 7 (fresh start) os (ai_request (info name path sum)) start = (r.1, Ok r.2)) as [r Hr].
    { unfold register_attachment, info. cbn [ad_name ai_request]. rewrite Hname. eexists (_, _). reflexivity. }
    destruct (upload_verdict 7 fresh os nobody st_message offline file_open 1 (info name path sum) start r.1 r.2
                (file_of content) content (MkChecksums sum) grpc_url) as (id & a & p & self2 & Hrun & _).
    - exact Hr.
    - unfold file_open. cbn [ai_path info]. rewrite Hd. reflexivity.
    - apply reads_file.
    - rewrite Nat.div_small; [lia|]. apply (Nat.lt_trans _ 8); [exact Hlen|]. apply Nat.ltb_lt. vm_compute. reflexivity.
    - reflexivity.
    - reflexivity.
    - reflexivity.
    - cbn. rewrite <- Hs. reflexivity.
    - exists id, self2. exact Hrun. }
  split.
  - destruct (H "code" "/m/code.wasm" "code" (bytes_of "code")) as (id & self2 & Hrun);
      [vm_compute; reflexivity|reflexivity|reflexivity|cbn; lia|].
    exists id, self2. rewrite Hrun. reflexivity.
  - destruct (H "empty" "/m/empty" EmptyString []) as (id & self2 & Hrun);
      [vm_compute; reflexivity|reflexivity|reflexivity|cbn; lia|].
    exists self2. rewrite Hrun. cbn [length]. rewrite Nat.Div0.mod_0_l. reflexivity.
Defined.

Abbreviation command := (register_run server nobody st_message offline file_open files_os 1 "/m" "Ada" "ada@example.com").
Lemma register_command_registers_witness :
  exists self' r a,
    command start = (self', Ok r) /\ Registry.get self' (MkFunctionId "sum-it" "1-dev") = Ok r /\
    fn_code r = Some a /\ uploaded os file_open self' (info "code" "/m/code.wasm" "code") a.
Proof.
  destruct (command start) as [self' e] eqn:Hrun.
  assert (match e with Ok r => bool_decide (fn_name r = "sum-it") && bool_decide (fn_version r = "1-dev") && bool_decide (is_Some (fn_code r)) | Err _ => false end = true) as He.
  { transitivity (match (command start).2 with Ok r => bool_decide (fn_name r = "sum-it") && bool_decide (fn_version r = "1-dev") && bool_decide (is_Some (fn_code r)) | Err _ => false end);
      [by rewrite Hrun|]. vm_compute. exact eq_refl. }
  destruct e as [r|]; [|discriminate He]. apply andb_true_iff in He as [[Hn%bool_decide_eq_true Hv%bool_decide_eq_true]%andb_true_iff Hc%bool_decide_eq_true].
  destruct Hc as [a Hc]. exists self', r, a. split; [reflexivity|].
  destruct (register_command_registers 7 fresh os nobody st_message offline file_open grpc_url eq_refl eq_refl 1) with
    (files_os := files_os) (manifest := "/m") (publisher_name := "Ada") (publisher_email := "ada@example.com")
    (self := start) (self' := self') (r := r) as (m & code & infos & v & Hm & Hcode & _ & Hget & _ & _ & _ & _ & _ & _ & Hup & _).
  - intros path file Hf. unfold file_open in Hf. destruct (on_disk !! path) as [content|] eqn:Hd; [|discriminate Hf].
    injection Hf as <-. exists content. split; [apply reads_file|].
    assert (map_Forall (fun _ c => length c < 8) on_disk) as Hall by (apply (bool_decide_unpack _); vm_compute; exact I).
    specialize (Hall _ _ Hd). rewrite Nat.div_small; [lia|]. apply (Nat.lt_trans _ 8); [exact Hall|]. apply Nat.ltb_lt. vm_compute. reflexivity.
  - exact Hrun.
  - rewrite Hn, Hv in Hget. split; [exact Hget|]. split; [exact Hc|]. rewrite Hc in Hup.
    assert (m = with_origin "/m/manifest.toml" "Ada" "ada@example.com" manifest) as -> by (symmetry; exact (Ok_inj Hm)).
    assert (code = Some (info "code" "/m/code.wasm" "code")) as -> by (symmetry; exact (Ok_inj Hcode)).
    inversion Hup; subst. assumption.
Defined.
End BendiniExamples.
