(* ===== verification/BendiniRun.v ===== *)
(** * Running a function from the command line (clients/bendini/src/commands/run.rs)

    [argument_to_list] splits the text of an argument, [parse_arguments] makes a
    stream of the arguments of a function, [run] lists the function, queues it,
    follows its output and runs it.

    The regular expressions of the file are the scanners [is_list_text] and
    [arg_matches] over the characters of a text ([Text]).  Numbers are parsed as [str::parse] does, floats by
    correct rounding. *)
From S2P Require Import Prelude Interfaces Proto Stream Regex Registry Config Tokens TokenStore KeyStore ExpireMap Access Executor Text Bendini.
From Stdlib Require Import Ascii Floats.SpecFloat.

Section run.
Context {UT : UnicodeTables} {HO : HashOrder}.

(** ** Arguments *)
Definition space (c : string) : bool := is_space (char_code c).
(** [\p{Emoji}\w.-] *)
Definition plain (c : string) : bool :=
  is_emoji (char_code c) || is_word (char_code c) || is_char 46 c || is_char 45 c.
Definition in_double (c : string) : bool := plain c || is_char 39 c || space c.
Definition in_single (c : string) : bool := plain c || space c.
(** [^\s*\[.*]\s*$] *)
Definition is_list_text (l : list string) : bool :=
  match drop_while space l with
  | c :: rest =>
      is_char 91 c &&
      match drop_while space (reverse rest) with
      | d :: mid => is_char 93 d && forallb (fun c => negb (is_char 10 c)) mid
      | [] => false
      end
  | [] => false
  end.
(** A quoted group after its opening quote. *)
Definition quoted_group (inside : string -> bool) (quote : N) (l : list string) : option (list string * list string) :=
  match span inside l with
  | (text, c :: rest) => if is_char quote c then Some (text, rest) else None
  | (_, []) => None
  end.
(** The match at the start of a text, if there is one: its group and what follows. *)
Definition arg_match (l : list string) : option (list string * list string) :=
  match l with
  | [] => None
  | c :: rest =>
      if plain c then Some (span plain l)
      else if is_char 34 c then quoted_group in_double 34 rest
      else if is_char 39 c then quoted_group in_single 39 rest
      else None
  end.
(** [captures_iter]; [fuel] is the number of characters. *)
Fixpoint arg_matches (fuel : nat) (l : list string) : list string :=
  match fuel, l with
  | S fuel, _ :: rest =>
      match arg_match l with
      | Some (text, rest') => str_of_chars text :: arg_matches fuel rest'
      | None => arg_matches fuel rest
      end
  | _, _ => []
  end.
(** [trim_matches] of quotes. *)
Definition is_quote (c : string) : bool := is_char 34 c || is_char 39 c.
Definition trim_quotes (l : list string) : list string := reverse (drop_while is_quote (reverse (drop_while is_quote l))).
Definition argument_to_list (arg : string) : list string :=
  let l := str_chars arg in
  if is_list_text l then arg_matches (length l) l else [str_of_chars (trim_quotes l)].

(** ** [str::parse] *)
Definition parse_bool (s : string) : result string bool :=
  if bool_decide (s = "true") then Ok true else if bool_decide (s = "false") then Ok false
  else Err "provided string was not `true` or `false`".
Definition parse_i64 : string -> result string Z := parse_int (-9223372036854775808) 9223372036854775807.
Definition parse_u8 (s : string) : result string byte := Ascii.byte_of_ascii ∘ ascii_of_N ∘ Z.to_N <$> parse_int 0 255 s.

Fixpoint digits (l : list ascii) : list ascii * list ascii :=
  match l with
  | c :: l' => if digit c then let '(a, b) := digits l' in (c :: a, b) else ([], l)
  | [] => ([], [])
  end.
Definition digits_value (l : list ascii) : Z := foldl (fun v c => v * 10 + default 0 (to_digit c))%Z 0%Z l.
Definition sign_of (l : list ascii) : bool * list ascii :=
  match l with
  | c :: rest => if Ascii.eqb c "-" then (true, rest) else if Ascii.eqb c "+" then (false, rest) else (false, l)
  | [] => (false, [])
  end.
(** [m * 10 ^ e], rounded to the nearest double. *)
Definition f64_of_decimal (negative : bool) (m e : Z) : spec_float :=
  match m with
  | Z.pos p =>
      if (0 <=? e)%Z then
        binary_normalize 53 1024 ((if negative then -1 else 1) * (Z.pos p * 10 ^ e)) 0 negative
      else match (10 ^ (- e))%Z with
           | Z.pos q => SFdiv 53 1024 (S754_finite negative p 0) (S754_finite false q 0)
           | _ => S754_nan
           end
  | _ => S754_zero negative
  end.
Definition exponent (l : list ascii) : option Z :=
  match l with
  | [] => Some 0%Z
  | c :: rest =>
      if Ascii.eqb c "e" || Ascii.eqb c "E" then
        let '(negative, rest) := sign_of rest in
        match digits rest with
        | ([], _) => None
        | (ds, []) => Some (if negative then - digits_value ds else digits_value ds)%Z
        | _ => None
        end
      else None
  end.
Definition fraction (l : list ascii) : list ascii * list ascii :=
  match l with c :: rest => if Ascii.eqb c "." then digits rest else ([], l) | [] => ([], []) end.
Definition to_lower (c : ascii) : ascii := if in_range 65 90 c then ascii_of_N (N_of_ascii c + 32) else c.
Definition parse_decimal (negative : bool) (l : list ascii) : option spec_float :=
  let '(whole, rest) := digits l in
  let '(part, rest) := fraction rest in
  if bool_decide (whole ++ part = []) then None
  else e ← exponent rest; Some (f64_of_decimal negative (digits_value (whole ++ part)) (e - Z.of_nat (length part))).
Definition parse_f64 (s : string) : result string spec_float :=
  let '(negative, rest) := sign_of (chars s) in
  let word := map to_lower rest in
  if bool_decide (s = EmptyString) then Err "cannot parse float from empty string"
  else ok_or "invalid float literal"
    (if bool_decide (word = chars "inf" \/ word = chars "infinity") then Some (S754_infinity negative)
     else if bool_decide (word = chars "nan") then Some S754_nan
     else parse_decimal negative rest).

(** ** [parse_arguments] *)
Definition parse_values {A} (what key : string) (parse : string -> result string A) (val : list string)
  : result string (list A) :=
  collect ((fun v => map_err (fun e =>
    "Failed to parse " +:+ v +:+ " (argument " +:+ key +:+ ") into " +:+ what +:+ " value. err: " +:+ e) (parse v)) <$> val).
Definition parse_channel (key : string) (parsed_type : ChannelType) (val : list string) : result string Channel :=
  match parsed_type with
  | CTString => Ok (to_channel_vec val)
  | CTBool => to_channel_vec <$> parse_values "bool" key parse_bool val
  | CTInt => to_channel_vec <$> parse_values "int" key parse_i64 val
  | CTFloat => to_channel_vec <$> parse_values "float" key parse_f64 val
  | CTBytes => to_channel_vec <$> parse_values "byte" key parse_u8 val
  end.
(** [collect] of pairs into a [HashMap]: the last one of a key stays. *)
Definition hash_collect {V} (l : list (string * V)) : gmap string V := foldl (fun m kv => <[kv.1 := kv.2]> m) ∅ l.
Definition parse_argument (inputs : gmap string ChannelSpec) (kv : string * string) : result string (string * Channel) :=
  input ← ok_or ("argument " +:+ kv.1 +:+ " is not expected.") (inputs !! kv.1);
  parsed_type ← ok_or ("argument type " +:+ pretty.pretty (cs_type input) +:+
    " is out of range (out of date protobuf definitions?)") (ChannelType_from_i32 (cs_type input));
  channel ← parse_channel kv.1 parsed_type (argument_to_list kv.2);
  Ok (kv.1, channel).
Definition errors_of {E A} (l : list (result E A)) : list E := omap (fun r => match r with Err e => Some e | Ok _ => None end) l.
Definition values_of {E A} (l : list (result E A)) : list A := omap result_ok l.
Definition parse_arguments (inputs : list (string * ChannelSpec)) (arguments : list (string * string))
  : result (list string) ValueStream :=
  let results := parse_argument (hash_collect inputs) <$> arguments in
  if bool_decide (errors_of results = []) then Ok (MkStream (hash_collect (values_of results))) else Err (errors_of results).

(** ** Following the output *)
Record BufferedChannelPrinter := MkPrinter { bp_buffer : string; bp_channel : string }.
(** [rsplitn(2, '\n')]: around the last line end. *)
Fixpoint split_last_line (s : string) : option (string * string) :=
  match s with
  | EmptyString => None
  | String c s =>
      match split_last_line s with
      | Some (a, b) => Some (String c a, b)
      | None => if (N_of_ascii c =? 10)%N then Some (EmptyString, s) else None
      end
  end.
(** A line printed for a channel. *)
Definition Line := (string * string)%type.
Definition push (self : BufferedChannelPrinter) (content : string) : BufferedChannelPrinter * list Line :=
  let buffer := bp_buffer self +:+ content in
  match split_last_line buffer with
  | Some (lines, rest) => (MkPrinter rest (bp_channel self), [(bp_channel self, lines)])
  | None => (MkPrinter buffer (bp_channel self), [])
  end.
Definition drop_printer (self : BufferedChannelPrinter) : list Line :=
  if str_is_empty (bp_buffer self) then [] else [(bp_channel self, bp_buffer self)].
Abbreviation Printers := (gmap string BufferedChannelPrinter).
Definition print_chunk (st : Printers * list Line) (chunk : result Status FunctionOutputChunk) : Printers * list Line :=
  match chunk with
  | Ok c =>
      let '(p, lines) := push (default (MkPrinter EmptyString (oc_channel c)) (st.1 !! oc_channel c)) (oc_output c) in
      (<[oc_channel c := p]> st.1, st.2 ++ lines)
  | Err _ => st
  end.
(** What the chunks that arrive while the function runs make the client print,
    with what dropping the printers still prints. *)
Definition followed (chunks : list (result Status FunctionOutputChunk)) : list Line :=
  let '(printers, lines) := foldl print_chunk (∅, []) chunks in lines ++ concat (drop_printer <$> (hash_iter printers).*2).

(** ** [run] *)
Context {T : Type}.
Variable registry_client : RegistryClient T.
Variable execution_client : ExecutionClient T.

Definition function_and_version (function_id : string) : string * string :=
  match split_at ":" function_id with Some (name, version) => (name, version) | None => (function_id, "*") end.
Definition input_values (function_name function_version : string) (arguments : list (string * string))
  : sem T (client_end BendiniError) ValueStream :=
  functions ← call APIError (rc_list_versions registry_client
    (MkFilters function_name (Some function_version) ∅ (Some (MkOrdering (OrderingKey_to_i32 NameVersion) false 0 1)) EmptyString));
  f ← sem_lift (fault (ok_or (FailedToFindFunction function_name function_version) (head functions)));
  sem_lift (fault (map_err (InvalidFunctionArguments (fn_name f))
    (parse_arguments (hash_iter (fn_required_inputs f) ++ hash_iter (fn_optional_inputs f)) arguments))).
(** The result as the exit of the command. *)
Definition run_outcome (r : ExecutionResult) : result BendiniError unit :=
  match er_result r with
  | Some (ResultOk _) => Ok tt
  | Some (ResultError msg) => Err (FunctionError msg)
  | None => Err (FunctionError "No result set")
  end.
Definition output_stream (follow_output : bool) (execution_id : string)
  : sem T (client_end BendiniError) (list (result Status FunctionOutputChunk)) :=
  if follow_output then call APIError (xc_function_output execution_client execution_id) else mret [].
Definition run_following (execution_id : string) (chunks : list (result Status FunctionOutputChunk))
  : sem T (client_end BendiniError) (list Line * result BendiniError unit) :=
  fun s => let '(s', r) := xc_run_function execution_client execution_id s in
           (s', Ok (followed chunks, map_err APIError r ≫= run_outcome)).
(** [arrived] is how many chunks of the output are handled before the execution
    answers; the answer is what is printed and how the command ends. *)
Definition run (function_id : string) (arguments : list (string * string)) (follow_output : bool) (arrived : nat)
  : sem T (client_end BendiniError) (list Line * result BendiniError unit) :=
  let '(name, version) := function_and_version function_id in
  values ← input_values name version arguments;
  execution_id ← call APIError (xc_queue_function execution_client (MkExecutionParameters name version (Some values)));
  chunks ← output_stream follow_output execution_id;
  run_following execution_id (take arrived chunks).
End run.
