(* ===== verification/BendiniRunProps.v ===== *)
(** * Properties of the run command

    Arguments that [parse_arguments] accepts pass the check of the execution
    service except for required inputs that were not given
    ([parsed_arguments_accepted]); what is printed for a channel while following is
    what was written to it ([followed_prints_all]). *)
From S2P Require Import Prelude Interfaces Proto Stream Regex Registry Config Tokens TokenStore KeyStore ExpireMap Access Executor Text Bendini BendiniRun.
From Stdlib Require Import Ascii.

(** ** Arguments *)
Lemma hash_collect_snoc {V} (l : list (string * V)) kv : hash_collect (l ++ [kv]) = <[kv.1 := kv.2]> (hash_collect l).
Proof. unfold hash_collect. by rewrite foldl_app. Qed.
Lemma hash_collect_Some {V} (l : list (string * V)) k v : hash_collect l !! k = Some v -> (k, v) ∈ l.
Proof.
  induction l as [|[k' v'] l IH] using rev_ind; [done|]. rewrite hash_collect_snoc. cbn. rewrite lookup_insert.
  case_decide as Hk; [intros [= ->]; subst; set_solver|]. intros H%IH. set_solver.
Qed.
Lemma hash_collect_dom {V} (l : list (string * V)) k : is_Some (hash_collect l !! k) <-> k ∈ l.*1.
Proof.
  induction l as [|[k' v'] l IH] using rev_ind; [split; [by intros [? ?]|intros H; inversion H]|].
  rewrite hash_collect_snoc, fmap_app, elem_of_app, <- IH. cbn. rewrite lookup_insert, list_elem_of_singleton.
  case_decide; subst; split; eauto; intros [?|?]; eauto; congruence.
Qed.

Lemma values_of_fmap {E A B} (f : A -> result E B) l :
  errors_of (f <$> l) = [] -> Forall2 (fun a b => f a = Ok b) l (values_of (f <$> l)).
Proof.
  induction l as [|a l IH]; cbn; [constructor|]. destruct (f a) as [b|e] eqn:Hf; cbn; [|done].
  intros H. constructor; [done|]. by apply IH.
Qed.
Lemma errors_of_app {E A} (l k : list (result E A)) : errors_of (l ++ k) = errors_of l ++ errors_of k.
Proof. apply omap_app. Qed.
Lemma errors_of_all_ok {E A} (l : list (result E A)) : Forall (fun r => is_ok r = true) l -> errors_of l = [].
Proof. induction 1 as [|[a|e] l H _ IH]; done. Qed.

Section arguments.
Context {UT : UnicodeTables} {HO : HashOrder}.

Lemma parse_channel_type key t val c : parse_channel key t val = Ok c ->
  exists v, ch_value c = Some v /\ value_type v = t.
Proof.
  destruct t; cbn [parse_channel]; [intros [= <-]; by eexists|..];
    intros (l & _ & ->)%fmap_Ok_inv; by eexists.
Qed.
Lemma parse_argument_Ok inputs kv r : parse_argument inputs kv = Ok r ->
  r.1 = kv.1 /\ exists spec, inputs !! kv.1 = Some spec /\ type_matches r.2 spec = true.
Proof.
  intros (input & Hi%ok_or_Ok & (t & Ht%ok_or_Ok & (c & Hc & H)%bind_Ok_inv)%bind_Ok_inv)%bind_Ok_inv.
  injection H as <-. split; [done|]. exists input. split; [done|]. apply parse_channel_type in Hc as (v & Hv & Hvt).
  apply type_matches_iff. exists v. split; [done|]. by rewrite Ht, Hvt.
Qed.

(** What a parsed stream holds: the arguments given, each of a declared type. *)
Lemma parse_arguments_Ok inputs args s : parse_arguments inputs args = Ok s ->
  (forall n, is_Some (channels s !! n) <-> n ∈ args.*1) /\
  (forall n c, channels s !! n = Some c ->
     exists spec, hash_collect inputs !! n = Some spec /\ type_matches c spec = true).
Proof.
  unfold parse_arguments. case_bool_decide as Hnil; [|done]. intros [= <-]. apply values_of_fmap in Hnil. cbn [channels].
  set (values := values_of _) in *. clearbody values. split.
  - intros n. rewrite hash_collect_dom. assert (values.*1 = args.*1) as ->; [|done].
    induction Hnil as [|kv r l k H _ IH]; [done|]. cbn. rewrite IH. by destruct (parse_argument_Ok _ _ _ H) as [-> _].
  - intros n c H%hash_collect_Some%list_elem_of_lookup. destruct H as [i Hi].
    destruct (Forall2_lookup_r _ _ _ _ _ Hnil Hi) as (kv & _ & Hp). by destruct (parse_argument_Ok _ _ _ Hp) as [<- ?].
Qed.

Definition judged_error (r : result StreamValidationError (string * Channel * ChannelSpec)) : option StreamValidationError :=
  match r with Ok _ => None | Err e => Some e end.
Lemma validate_typed self required optional fuel :
  (forall name c spec, Ok (name, c, spec) ∈ validation_items self required optional -> type_matches c spec = true) ->
  validate self required optional fuel =
    Some (if bool_decide (errors_of (validation_items self required optional) = []) then Ok tt
          else Err (errors_of (validation_items self required optional))).
Proof.
  intros Ht. unfold validate. assert (forall l, l ⊆ validation_items self required optional ->
    mapM (judge fuel) l = Some (judged_error <$> l)) as Hm.
  { induction l as [|[[[n c] spec]|e] l IH]; intros Hl; cbn; [done|..].
    - rewrite (Ht n c spec) by set_solver. cbn. by rewrite IH by set_solver.
    - by rewrite IH by set_solver. }
  rewrite Hm by done. cbn. assert (forall l, omap id (judged_error <$> l) = errors_of l) as Ho; [|by rewrite Ho].
  induction l as [|[?|e] l IH]; cbn; [done..|]. by f_equal.
Qed.

Definition missing (required : gmap string ChannelSpec) (self : ValueStream) : list string :=
  omap (fun kv => match channels self !! kv.1 with None => Some kv.1 | Some _ => None end) (hash_iter required).
Lemma missing_errors required self :
  errors_of ((fun '(name, spec) => ok_or (RequiredChannelMissing name) ((fun c => (name, c, spec)) <$> channels self !! name))
               <$> hash_iter required) = RequiredChannelMissing <$> missing required self.
Proof.
  unfold missing. induction (hash_iter required) as [|[n spec] l IH]; [done|]. cbn.
  destruct (channels self !! n); cbn; [exact IH|]. by f_equal.
Qed.

(** C28: the execution service accepts what the client parsed, up to required inputs
    that were not given.  When the command line's arguments parse against the
    declared inputs (no name declared both required and optional), checking the
    stream returns, without any displaying of types, and reports exactly the
    required inputs for which no argument was given; the stream holds the given
    names only, each with a value of its declared type. *)
Theorem parsed_arguments_accepted required optional arguments stream fuel :
  required ##ₘ optional ->
  parse_arguments (hash_iter required ++ hash_iter optional) arguments = Ok stream ->
  exists names,
    validate stream required (Some optional) fuel =
      Some (if bool_decide (names = []) then Ok tt else Err (RequiredChannelMissing <$> names)) /\
    (forall n, n ∈ names <-> is_Some (required !! n) /\ n ∉ arguments.*1) /\
    (forall n, is_Some (channels stream !! n) <-> n ∈ arguments.*1) /\
    (forall n c, channels stream !! n = Some c -> exists spec, declared required (Some optional) n spec /\ type_matches c spec = true).
Proof.
  intros Hd Hp. apply parse_arguments_Ok in Hp as [Hdom Htypes].
  assert (forall n x y, required !! n = Some x -> optional !! n = Some y -> False) as Hdisjoint
    by (intros n x y; by apply (proj1 (map_disjoint_spec required optional))).
  assert (forall n spec, hash_collect (hash_iter required ++ hash_iter optional) !! n = Some spec <-> declared required (Some optional) n spec) as Hdecl.
  { assert (forall n spec, hash_collect (hash_iter required ++ hash_iter optional) !! n = Some spec -> declared required (Some optional) n spec) as H1.
    { intros n spec H%hash_collect_Some. apply elem_of_app in H as [H|H]; apply elem_of_hash_iter in H; [by left|right; eauto]. }
    intros n spec. split; [apply H1|]. intros H. destruct (hash_collect _ !! n) as [spec'|] eqn:Hs.
    - apply H1 in Hs. destruct H as [H|(o & [= <-] & H)], Hs as [Hs|(o & [= <-] & Hs)]; try congruence;
        exfalso; eauto.
    - assert (is_Some (hash_collect (hash_iter required ++ hash_iter optional) !! n)) as [? ?]; [|congruence].
      apply hash_collect_dom. rewrite fmap_app, elem_of_app.
      destruct H as [H|(o & [= <-] & H)]; [left|right]; apply elem_of_hash_iter in H; by apply (list_elem_of_fmap_2 fst) in H. }
  exists (missing required stream). split_and!.
  - rewrite validate_typed.
    + unfold validation_items. rewrite !errors_of_app, missing_errors.
      rewrite (errors_of_all_ok (omap _ (hash_iter optional))), (errors_of_all_ok (omap _ (hash_keys _))).
      * rewrite !app_nil_r. f_equal. by destruct (missing required stream).
      * apply Forall_forall. intros r (k & Hk & Hr)%list_elem_of_omap.
        destruct (is_expected required (Some optional) k) eqn:Hx; [done|]. exfalso.
        apply elem_of_hash_keys in Hk as [c Hc]. destruct (Htypes _ _ Hc) as (spec & Hs%Hdecl & _).
        assert (is_expected required (Some optional) k = true); [apply is_expected_iff; eauto|congruence].
      * apply Forall_forall. intros r ([n spec] & _ & Hr)%list_elem_of_omap. by destruct (channels stream !! n); [injection Hr as <-|].
    + intros n c spec [Hds Hc]%items_Ok. destruct (Htypes _ _ Hc) as (spec' & Hs & Ht). apply Hdecl in Hds. congruence.
  - intros n. unfold missing. rewrite list_elem_of_omap, <- Hdom. split.
    + intros ([k spec] & Hk%elem_of_hash_iter & Hn). cbn in Hn. destruct (channels stream !! k) eqn:Hc; [done|]. injection Hn as <-.
      split; [eauto|]. rewrite Hc. by intros [? ?].
    + intros [[spec Hs] Hn]. exists (n, spec). split; [by apply elem_of_hash_iter|]. cbn.
      destruct (channels stream !! n); [by destruct Hn|done].
  - exact Hdom.
  - intros n c Hc. destruct (Htypes _ _ Hc) as (spec & Hs%Hdecl & Ht). eauto.
Qed.
End arguments.

(** ** Following the output *)
Lemma append_nil_r s : s +:+ EmptyString = s.
Proof. induction s as [|c s IH]; [done|]. exact (f_equal (String c) IH). Qed.
Lemma append_assoc (a b c : string) : (a +:+ b) +:+ c = a +:+ (b +:+ c).
Proof. induction a as [|x a IH]; [done|]. exact (f_equal (String x) IH). Qed.
Lemma is_newline c : (N_of_ascii c =? 10)%N = true -> String c EmptyString = newline.
Proof. intros H%N.eqb_eq. rewrite <- (ascii_N_embedding c), H. done. Qed.
Lemma split_last_line_Some s a b : split_last_line s = Some (a, b) -> s = a +:+ newline +:+ b /\ split_last_line b = None.
Proof.
  revert a b. induction s as [|c s IH]; intros a b; [done|]. cbn [split_last_line].
  destruct (split_last_line s) as [[a' b']|] eqn:Hs.
  - intros [= <- <-]. destruct (IH _ _ eq_refl) as [-> ?]. done.
  - destruct (N_of_ascii c =? 10)%N eqn:Hc; [|done]. intros [= <- <-]. split; [|done].
    apply is_newline in Hc. change (String c s) with (String c EmptyString +:+ s). by rewrite Hc.
Qed.
Lemma split_last_line_app a b : split_last_line b = None -> split_last_line (a +:+ newline +:+ b) = Some (a, b).
Proof.
  intros Hb. assert (forall c s, split_last_line (String c s) = match split_last_line s with
    | Some (a, b) => Some (String c a, b)
    | None => if (N_of_ascii c =? 10)%N then Some (EmptyString, s) else None end) as Hstep by done.
  induction a as [|c a IH].
  - change (EmptyString +:+ newline +:+ b) with (String (ascii_of_nat 10) b). by rewrite Hstep, Hb.
  - change (String c a +:+ newline +:+ b) with (String c (a +:+ newline +:+ b)). by rewrite Hstep, IH.
Qed.

(** What is on the screen for one channel. *)
Definition shown (channel : string) (lines : list Line) : string :=
  str_join EmptyString ((fun l => l.2 +:+ newline) <$> List.filter (fun l => bool_decide (l.1 = channel)) lines).
(** What was written to it. *)
Definition written_to (channel : string) (chunks : list (result Status FunctionOutputChunk)) : string :=
  str_join EmptyString (oc_output <$> List.filter (fun c => bool_decide (oc_channel c = channel)) (values_of chunks)).
(** The part of a text after its last line end. *)
Definition unfinished (s : string) : string := match split_last_line s with Some (_, rest) => rest | None => s end.

Lemma join_empty_cons s l : str_join EmptyString (s :: l) = s +:+ str_join EmptyString l.
Proof. destruct l; cbn; [by rewrite append_nil_r|done]. Qed.
Lemma join_empty_app l k : str_join EmptyString (l ++ k) = str_join EmptyString l +:+ str_join EmptyString k.
Proof.
  induction l as [|s l IH]; [done|]. rewrite <- app_comm_cons, !join_empty_cons, IH. by rewrite append_assoc.
Qed.
Lemma shown_app ch l k : shown ch (l ++ k) = shown ch l +:+ shown ch k.
Proof. unfold shown. rewrite List.filter_app, fmap_app. apply join_empty_app. Qed.
Lemma shown_one ch c t : shown ch [(c, t)] = if bool_decide (c = ch) then t +:+ newline else EmptyString.
Proof. unfold shown. cbn. by case_bool_decide. Qed.
Lemma shown_complete ch lines : shown ch lines = EmptyString \/ exists t, shown ch lines = t +:+ newline.
Proof.
  induction lines as [|[c t] lines IH] using rev_ind; [by left|]. rewrite shown_app, shown_one.
  case_bool_decide; [right; exists (shown ch lines +:+ t); by rewrite append_assoc|]. by rewrite append_nil_r.
Qed.

(** The invariant of following: what is on the screen and in the buffer of a
    channel is what was written to it. *)
Definition buffer_of (printers : gmap string BufferedChannelPrinter) (ch : string) : string :=
  match printers !! ch with Some p => bp_buffer p | None => EmptyString end.
Record following (chunks : list (result Status FunctionOutputChunk)) (st : gmap string BufferedChannelPrinter * list Line) : Prop := {
  fo_written : forall ch, shown ch st.2 +:+ buffer_of st.1 ch = written_to ch chunks;
  fo_buffer : forall ch, split_last_line (buffer_of st.1 ch) = None;
  fo_channel : map_Forall (fun ch p => bp_channel p = ch) st.1
}.

Lemma written_to_snoc ch chunks c : written_to ch (chunks ++ [c]) =
  written_to ch chunks +:+ match c with Ok c => if bool_decide (oc_channel c = ch) then oc_output c else EmptyString | Err _ => EmptyString end.
Proof.
  unfold written_to, values_of. rewrite omap_app, List.filter_app, fmap_app, join_empty_app. f_equal.
  destruct c as [c|e]; cbn; [|done]. by case_bool_decide.
Qed.

Lemma following_step chunks st c : following chunks st -> following (chunks ++ [c]) (print_chunk st c).
Proof.
  intros [Hw Hb Hc]. destruct c as [c|e]; cbn [print_chunk].
  2: { split; [|done..]. intros ch. by rewrite written_to_snoc, append_nil_r. }
  set (p := default _ _). assert (bp_buffer p = buffer_of st.1 (oc_channel c) /\ bp_channel p = oc_channel c) as [Hpb Hpc].
  { unfold p, buffer_of. destruct (st.1 !! oc_channel c) as [q|] eqn:Hq; [|done]. split; [done|]. exact (Hc _ _ Hq). }
  unfold push. rewrite Hpb, Hpc.
  destruct (split_last_line (buffer_of st.1 (oc_channel c) +:+ oc_output c)) as [[lines rest]|] eqn:Hs.
  - apply split_last_line_Some in Hs as [Heq Hrest]. split; cbn [fst snd].
    + intros ch. rewrite shown_app, shown_one, written_to_snoc, <- Hw. unfold buffer_of at 1. rewrite lookup_insert.
      case_decide as Hch.
      * subst ch. rewrite !bool_decide_eq_true_2 by done. cbn [bp_buffer]. by rewrite !append_assoc, Heq.
      * rewrite !bool_decide_eq_false_2 by done. by rewrite !append_nil_r.
    + intros ch. unfold buffer_of. rewrite lookup_insert. case_decide; [done|apply Hb].
    + by apply map_Forall_insert_2.
  - split; cbn [fst snd].
    + intros ch. rewrite app_nil_r, written_to_snoc, <- Hw. unfold buffer_of at 1. rewrite lookup_insert. case_decide as Hch.
      * subst ch. rewrite bool_decide_eq_true_2 by done. cbn [bp_buffer]. by rewrite append_assoc.
      * rewrite bool_decide_eq_false_2 by done. by rewrite !append_nil_r.
    + intros ch. unfold buffer_of. rewrite lookup_insert. case_decide; [done|apply Hb].
    + by apply map_Forall_insert_2.
Qed.
Lemma following_all chunks : following chunks (foldl print_chunk (∅, []) chunks).
Proof.
  induction chunks as [|c chunks IH] using rev_ind.
  - split; [intros ch; reflexivity|intros ch; reflexivity|apply map_Forall_empty].
  - rewrite foldl_app. by apply following_step.
Qed.

Lemma shown_dropped `{HashOrder} printers ch :
  map_Forall (fun ch p => bp_channel p = ch) printers ->
  shown ch (concat (drop_printer <$> (hash_iter printers).*2)) =
    if str_is_empty (buffer_of printers ch) then EmptyString else buffer_of printers ch +:+ newline.
Proof.
  intros Hc. assert (forall l : list (string * BufferedChannelPrinter), NoDup l.*1 -> (forall kv, kv ∈ l -> bp_channel kv.2 = kv.1) ->
    shown ch (concat (drop_printer <$> l.*2)) =
      match list_to_map (M := gmap string _) l !! ch with
      | Some p => if str_is_empty (bp_buffer p) then EmptyString else bp_buffer p +:+ newline
      | None => EmptyString end) as Hl.
  { induction l as [|[k p] l IH]; [done|]. intros Hnd Hch. cbn [fmap list_fmap fst] in Hnd. apply NoDup_cons in Hnd as [Hk Hnd].
    change (concat (drop_printer <$> ((k, p) :: l).*2)) with (drop_printer p ++ concat (drop_printer <$> l.*2)).
    change (list_to_map ((k, p) :: l)) with (<[k := p]> (list_to_map (M := gmap string BufferedChannelPrinter) l)).
    rewrite shown_app, IH by (auto; intros; apply Hch; set_solver).
    pose proof (Hch (k, p) ltac:(set_solver)) as Hp. cbn in Hp. rewrite lookup_insert. unfold drop_printer. rewrite Hp. case_decide as Hkc.
    - clear Hp; subst k. rewrite not_elem_of_list_to_map_1 by done. rewrite append_nil_r.
      destruct (str_is_empty _); [done|]. rewrite shown_one. by rewrite bool_decide_eq_true_2.
    - destruct (str_is_empty _); [done|]. rewrite shown_one. by rewrite bool_decide_eq_false_2. }
  rewrite Hl; [|apply hash_iter_nodup|intros [k p] Hk%elem_of_hash_iter; exact (Hc _ _ Hk)].
  replace (list_to_map (hash_iter printers)) with printers; [unfold buffer_of; by destruct (printers !! ch)|].
  apply map_eq. intros k. apply option_eq. intros p. rewrite <- elem_of_list_to_map by apply hash_iter_nodup. by rewrite elem_of_hash_iter.
Qed.

(** Following shows what was written.  For every channel, whatever chunks arrive
    and however lines are spread over them, the lines printed with the channel's
    name, in order, are exactly the text written to it, with a line end added when
    the last line has none; chunks that are errors show nothing. *)
Theorem followed_prints_all `{HashOrder} chunks ch :
  shown ch (followed chunks) =
    written_to ch chunks +:+ (if str_is_empty (unfinished (written_to ch chunks)) then EmptyString else newline).
Proof.
  unfold followed. pose proof (following_all chunks) as [Hw Hb Hc]. destruct (foldl print_chunk (∅, []) chunks) as [printers lines].
  cbn [fst snd] in *. rewrite shown_app, shown_dropped by done. rewrite <- Hw.
  assert (unfinished (shown ch lines +:+ buffer_of printers ch) = buffer_of printers ch) as ->.
  { unfold unfinished. destruct (shown_complete ch lines) as [->|[t ->]].
    - change (EmptyString +:+ buffer_of printers ch) with (buffer_of printers ch). by rewrite Hb.
    - by rewrite append_assoc, split_last_line_app by apply Hb. }
  destruct (str_is_empty (buffer_of printers ch)) eqn:He; [|by rewrite append_assoc].
  destruct (buffer_of printers ch); [by rewrite !append_nil_r|done].
Qed.

(** ** A concrete command line *)
Module RunExamples.
#[local] Existing Instance key_order.

#[local] Existing Instance ascii_tables.

Definition required : gmap string ChannelSpec := {[ "numbers" := MkChannelSpec 2 "to add" ]}.
Definition optional : gmap string ChannelSpec := {[ "label" := MkChannelSpec 0 "of the sum" ]}.

(** The examples of the tests of run.rs. *)
Example lists :
  argument_to_list "[hej hej hej]" = ["hej"; "hej"; "hej"] /\
  argument_to_list ("[" +:+ quoted "hej svejs" +:+ " svejs]") = ["hej svejs"; "svejs"] /\
  argument_to_list ("[ " +:+ quoted "nu.du-hej hej" +:+ " nej]") = ["nu.du-hej hej"; "nej"] /\
  argument_to_list (quoted ("this is " +:+ quoted "not" +:+ " a list")) = ["this is " +:+ quoted "not" +:+ " a list"] /\
  argument_to_list ("[" +:+ quoted "It's a boy" +:+ " of strings]") = ["It's a boy"; "of"; "strings"].
Proof. vm_compute. auto 10. Qed.

Lemma parsed_arguments_accepted_witness :
  exists stream,
    parse_arguments (hash_iter required ++ hash_iter optional) [("numbers", "[1 -2 3]")] = Ok stream /\
    validate stream required (Some optional) 0 = Some (Ok tt).
Proof.
  destruct (parse_arguments (hash_iter required ++ hash_iter optional) [("numbers", "[1 -2 3]")]) as [stream|e] eqn:Hp.
  - exists stream. split; [reflexivity|].
    destruct (parsed_arguments_accepted required optional [("numbers", "[1 -2 3]")] stream 0) as (names & Hv & Hn & _).
    + apply (bool_decide_unpack _). vm_compute. exact I.
    + exact Hp.
    + rewrite Hv. destruct names as [|n names]; [reflexivity|]. exfalso.
      destruct (proj1 (Hn n) (list_elem_of_here _ _)) as [[spec Hs] Hnot]. apply Hnot.
      unfold required in Hs. apply lookup_singleton_Some in Hs as [<- _]. apply list_elem_of_here.
  - exfalso. assert (is_ok (parse_arguments (hash_iter required ++ hash_iter optional) [("numbers", "[1 -2 3]")]) = true) as H
      by (vm_compute; exact eq_refl). rewrite Hp in H. discriminate H.
Defined.
End RunExamples.
