(* ===== verification/BendiniFormat.v ===== *)
(** * What the client shows (clients/bendini/src/formatting.rs)

    The texts of functions, channels, runtimes and access requests, in the formats
    of the command line, and the JSON values behind the format [Json].  Printing
    to a terminal colours names, and JSON is laid out for a terminal: colours,
    the layout of JSON, decimal floats and the local time are [Presentation].

    The time of a date beyond what chrono can represent is no text but a panic, so
    a text with a date in it is a [result panic].  Progress bars are left out. *)
From S2P Require Import Prelude Interfaces Proto Stream Regex Text Json Access Executor.
From stdpp Require Import pretty.
From Stdlib Require Import Ascii Floats.SpecFloat.

Class Presentation := {
  paint_green : string -> string;
  (** [Utc.timestamp(seconds, 0)] in the local zone as [%Y-%m-%d %H:%M:%S]. *)
  local_time : Z -> option string;
  display_f64 : spec_float -> string;
  stdout_is_terminal : bool;
  (** [serde_json::to_string_pretty] and [serde_json::to_string] *)
  json_text : bool -> Value -> string
}.

Inductive DisplayFormat := Short | Long | AsJson.
#[export] Instance DisplayFormat_eq_dec : EqDecision DisplayFormat.
Proof. solve_decision. Defined.
Definition display_format_from_str (s : string) : result string DisplayFormat :=
  let l := lowercase s in
  Ok (if bool_decide (l = "json") then AsJson else if bool_decide (l = "short") then Short else Long).
Definition display_format_default : DisplayFormat := Long.
Definition writeln (s : string) : string := s +:+ newline.
Definition display_format_to_string (self : DisplayFormat) : string :=
  writeln (match self with Short => "short" | Long => "long" | AsJson => "json" end).

Section formatting.
Context {PR : Presentation} {HO : HashOrder}.
Definition INDENT : string := "  ".
Definition INDENT2 : string := INDENT +:+ INDENT.
Definition lines_of {A} (f : A -> string) (l : list A) : string := str_join EmptyString (f <$> l).

(** ** Types and channels *)
Definition channel_type_text (self : Z) : string :=
  match ChannelType_from_i32 self with
  | Some CTString => "string"
  | Some CTBool => "bool"
  | Some CTInt => "int"
  | Some CTFloat => "float"
  | Some CTBytes => "bytes"
  | None => "invalid-type"
  end.
Definition bool_text (b : bool) : string := if b then "true" else "false".
Definition channel_text (self : Channel) : string :=
  match ch_value self with
  | Some (Strings v) => str_join " " (quoted <$> v)
  | Some (Integers v) => str_join " " (pretty <$> v)
  | Some (Floats v) => str_join " " (display_f64 <$> v)
  | Some (Booleans v) => str_join " " (bool_text <$> v)
  | Some (Bytes v) => str_join " " ((fun b => pretty (N_of_ascii (ascii_of_byte b))) <$> v)
  | None => "null"
  end.
Definition bracketed (self : Channel) : string := "[" +:+ channel_text self +:+ "]".
Definition stream_text (self : ValueStream) : string :=
  lines_of (fun '(name, channel) => writeln (INDENT +:+ name +:+ ": " +:+ bracketed channel)) (hash_iter (channels self)).
Definition execution_result_text (self : ExecutionResult) : string :=
  writeln ("Execution Id: " +:+ default "unknown" (er_execution_id self)) +:+
  match er_result self with
  | Some (ResultOk outputs) => writeln "Outputs:" +:+ stream_text outputs
  | Some (ResultError msg) => writeln ("Error: " +:+ msg)
  | None => writeln "No result set"
  end.

(** ** Specifications *)
Definition spec_json (self : ChannelSpec) : Value :=
  VObject [("description", VString (cs_description self)); ("type", VString (channel_type_text (cs_type self)))].
(** [collect] into a new map, then its order *)
Definition specs_json (self : gmap string ChannelSpec) : Value :=
  VObject ((fun '(name, spec) => (name, spec_json spec)) <$> hash_iter self).
Definition fmt_json (v : Value) : string := writeln (json_text stdout_is_terminal v).
Definition spec_line (name : string) (spec : ChannelSpec) : string :=
  writeln (INDENT2 +:+ name +:+ "[" +:+ channel_type_text (cs_type spec) +:+ "]" +:+
    (if str_is_empty (cs_description spec) then EmptyString else " - " +:+ cs_description spec)).
Definition specs_text (format : DisplayFormat) (self : gmap string ChannelSpec) : string :=
  match format with
  | Short => EmptyString
  | Long =>
      if bool_decide (self = ∅) then writeln " none"
      else newline +:+ lines_of (fun '(name, spec) => spec_line name spec) (hash_iter self)
  | AsJson => fmt_json (specs_json self)
  end.

(** ** Functions *)
(** [created_at as i64] *)
Definition as_i64 (n : N) : Z :=
  let z := Z.of_N (n mod u64_modulus) in if (z <? 9223372036854775808)%Z then z else (z - 18446744073709551616)%Z.
Definition time_text (seconds : N) : result panic string := ok_or Panicked (local_time (as_i64 seconds)).
Definition runtime_name (self : Function_) : string := default "n/a" (rs_name <$> fn_runtime self).
Definition publisher_text (p : Publisher) : string := pub_name p +:+ " <" +:+ pub_email p +:+ ">".
Definition function_json (self : Function_) : result panic Value :=
  created ← time_text (fn_created_at self);
  Ok (VObject (
    [("name", VString (fn_name self)); ("version", VString (fn_version self)); ("runtime", VString (runtime_name self));
     ("created", VString created);
     ("metadata", VObject ((fun '(k, v) => (k, VString v)) <$> hash_iter (fn_metadata self)))] ++
    match fn_publisher self with Some p => [("publisher", VString (publisher_text p))] | None => [] end ++
    [("required_inputs", specs_json (fn_required_inputs self)); ("optional_inputs", specs_json (fn_optional_inputs self));
     ("outputs", specs_json (fn_outputs self))])).
Definition function_head (self : Function_) : string :=
  writeln (paint_green (fn_name self)) +:+ writeln (INDENT +:+ "version: " +:+ fn_version self).
Definition code_url (self : Function_) : string :=
  default "n/a" (au_url <$> (fn_code self ≫= att_url)).
Definition metadata_text (metadata : gmap string string) : string :=
  if bool_decide (metadata = ∅) then writeln (INDENT +:+ "metadata: n/a")
  else writeln (INDENT +:+ "metadata:") +:+
       lines_of (fun '(x, y) => writeln (INDENT2 +:+ x +:+ ": " +:+ y)) (hash_iter metadata).
Definition function_long (self : Function_) : string :=
  function_head self +:+
  writeln (INDENT +:+ "runtime: " +:+ runtime_name self) +:+
  writeln (INDENT +:+ "codeUrl: " +:+ code_url self) +:+
  INDENT +:+ "required inputs:" +:+ specs_text Long (fn_required_inputs self) +:+
  INDENT +:+ "optional inputs:" +:+ specs_text Long (fn_optional_inputs self) +:+
  INDENT +:+ "outputs:" +:+ specs_text Long (fn_outputs self) +:+
  metadata_text (fn_metadata self) +:+
  match fn_publisher self with
  | Some p => writeln (INDENT +:+ "published by: " +:+ publisher_text p)
  | None => EmptyString
  end.
Definition function_text (format : DisplayFormat) (self : Function_) : result panic string :=
  match format with
  | Long => Ok (function_long self)
  | Short => Ok (function_head self)
  | AsJson => fmt_json <$> function_json self
  end.
Definition functions_text (format : DisplayFormat) (functions : list Function_) : result panic string :=
  match format with
  | AsJson => (fun l => fmt_json (VArray l)) <$> collect (function_json <$> functions)
  | _ => str_join EmptyString <$> collect ((fun f => writeln <$> function_text format f) <$> functions)
  end.

(** ** Runtimes and access requests *)
Definition runtime_text (format : DisplayFormat) (self : ProtoRuntime) : string :=
  match format with
  | AsJson => EmptyString
  | _ => INDENT +:+ paint_green (pr_name self) +:+ " (" +:+ pr_source self +:+ ")"
  end.
(** [{:<w}] and [{:^w}], which count characters *)
Fixpoint repeat_text (c : string) (n : nat) : string :=
  match n with O => EmptyString | S n => c +:+ repeat_text c n end.
Definition missing_width (w : nat) (s : string) : nat := w - length (str_chars s).
Definition pad_right (w : nat) (s : string) : string := s +:+ repeat_text " " (missing_width w s).
Definition pad_centre (w : nat) (s : string) : string :=
  let left := Nat.div (missing_width w s) 2 in
  repeat_text " " left +:+ s +:+ repeat_text " " (missing_width w s - left).
Definition request_text (self : RemoteAccessRequest) : result panic string :=
  expires ← time_text (rar_expires_at self);
  Ok (writeln (pad_right 40 (default "missing id" (rar_id self)) +:+ pad_right 22 expires +:+
       pad_centre 10 (if rar_approved self then "yes" else "no") +:+ rar_subject self)).
Definition requests_text (self : list RemoteAccessRequest) : result panic string :=
  rows ← collect (request_text <$> self);
  Ok (writeln (pad_right 40 "id" +:+ pad_right 22 "expires at" +:+ pad_right 10 "approved" +:+ "subject") +:+
      writeln (repeat_text "-" 80) +:+ str_join EmptyString rows).
End formatting.
