(* ===== verification/BendiniFormatProps.v ===== *)
(** * Printed channels as arguments

    What the client prints for a channel of strings, integers, booleans or bytes
    can be given back as an argument of that type
    ([printed_channel_reads_back]), as long as the strings are made of the
    characters that lists of arguments know; other characters are dropped and cut
    a string in pieces ([FormatExamples.colons_cut]). *)
From S2P Require Import Prelude Interfaces Proto Stream Regex Text Access Executor Bendini BendiniRun BendiniRunProps BendiniFormat.
From stdpp Require Import pretty.
From Stdlib Require Import Ascii Floats.SpecFloat.

Section format_props.
Context {UT : UnicodeTables} {HO : HashOrder} {PR : Presentation}.

Lemma forallb_elem {A} (p : A -> bool) l : forallb p l = true <-> forall x, x ∈ l -> p x = true.
Proof. rewrite forallb_forall. by setoid_rewrite list_elem_of_In. Qed.

(** ** Classes of characters *)
Abbreviation char c := (String c EmptyString).
Lemma plain_ascii c : (N_of_ascii c < 128)%N ->
  plain (char c) = ((N_of_ascii c =? 35)%N || (N_of_ascii c =? 42)%N || digit c) ||
    (lower c || in_range 65 90 c || digit c || (N_of_ascii c =? 95)%N) || (N_of_ascii c =? 46)%N || (N_of_ascii c =? 45)%N.
Proof. intros H. unfold plain, is_char. by rewrite (char_code_ascii c H), (emoji_ascii c H), (word_ascii c H). Qed.
Lemma in_double_ascii c : (N_of_ascii c < 128)%N ->
  in_double (char c) = plain (char c) || (N_of_ascii c =? 39)%N || (in_range 9 13 c || (N_of_ascii c =? 32)%N).
Proof. intros H. unfold in_double, is_char, space. by rewrite (char_code_ascii c H), (space_ascii c H). Qed.
Lemma space_char c : (N_of_ascii c < 128)%N -> space (char c) = in_range 9 13 c || (N_of_ascii c =? 32)%N.
Proof. intros H. unfold space. by rewrite (char_code_ascii c H), (space_ascii c H). Qed.
Lemma lower_small c : lower c = true -> (N_of_ascii c < 128)%N.
Proof. unfold lower, in_range. intros [_ H]%andb_true_iff. apply N.leb_le in H. lia. Qed.
Lemma digit_small c : digit c = true -> (N_of_ascii c < 128)%N.
Proof. unfold digit, in_range. intros [_ H]%andb_true_iff. apply N.leb_le in H. lia. Qed.
Lemma plain_line c : plain c = true -> is_char 10 c = false.
Proof.
  unfold is_char. intros Hc. apply N.eqb_neq. intros H10. unfold plain, is_char in Hc. rewrite H10 in Hc.
  rewrite (emoji_ascii "010"%char ltac:(done) : is_emoji 10 = _), (word_ascii "010"%char ltac:(done) : is_word 10 = _) in Hc. done.
Qed.

(** ** Lists of arguments *)

(** The text of an argument and its characters as they stand in a list. *)
Inductive token : string -> list string -> Prop :=
| bare l : l <> [] -> forallb plain l = true -> token (str_of_chars l) l
| between_quotes l : forallb in_double l = true -> token (str_of_chars l) (dquote :: l ++ [dquote]).
Definition ends (r : list string) : Prop := match r with c :: _ => plain c = false | [] => True end.
Lemma token_match t l r : token t l -> ends r -> exists l', arg_match (l ++ r) = Some (l', r) /\ str_of_chars l' = t.
Proof.
  intros [l' Hnil Hl|l' Hl] Hr; exists l'; (split; [|done]).
  - destruct l' as [|c l']; [done|]. cbn [app arg_match]. assert (plain c = true) as -> by (cbn in Hl; by apply andb_true_iff in Hl as [? _]).
    f_equal. exact (span_all plain (c :: l') r Hl Hr).
  - cbn [app arg_match]. assert (plain dquote = false) as -> by (unfold dquote; by rewrite plain_ascii).
    assert (is_char 34 dquote = true) as -> by done. unfold quoted_group. rewrite <- (assoc_L (++)).
    rewrite (span_all in_double l' ([dquote] ++ r) Hl); [done|]. cbn. unfold dquote. by rewrite in_double_ascii, plain_ascii.
Qed.
Lemma token_chars t l : token t l -> l <> [].
Proof. by intros [? ? ?|? ?]. Qed.
Lemma arg_matches_token f t l r : token t l -> ends r -> arg_matches (S f) (l ++ r) = t :: arg_matches f r.
Proof.
  intros Ht Hr. destruct (token_match t l r Ht Hr) as (l' & Hm & <-).
  destruct l as [|c l]; [by apply token_chars in Ht|]. cbn [app arg_matches]. cbn [app] in Hm. by rewrite Hm.
Qed.
Lemma arg_matches_skip f c r : plain (char c) = false -> is_char 34 (char c) = false -> is_char 39 (char c) = false ->
  arg_matches (S f) (char c :: r) = arg_matches f r.
Proof. intros H1 H2 H3. cbn [arg_matches arg_match]. by rewrite H1, H2, H3. Qed.

Fixpoint spaced (ls : list (list string)) : list string :=
  match ls with
  | [] => []
  | [l] => l
  | l :: ls => l ++ " " :: spaced ls
  end.
Lemma matches_spaced ts ls f : Forall2 token ts ls -> length (spaced ls) < f -> arg_matches f (spaced ls ++ ["]"]) = ts.
Proof.
  intros H. revert f. assert (forall f, arg_matches f ["]"] = []) as Hend.
  { intros [|f]; [done|]. rewrite arg_matches_skip by (done || by rewrite plain_ascii). by destruct f. }
  induction H as [|t l ts ls Ht Hts IH]; intros f Hf; [apply Hend|].
  assert (1 <= length l) as Hl by (apply token_chars in Ht; destruct l; [done|cbn; lia]).
  destruct Hts as [|t' l' ts ls Ht' Hts].
  - cbn [spaced] in *. destruct f as [|f]; [lia|]. rewrite (arg_matches_token f t l ["]"] Ht); [by rewrite Hend|].
    cbn. by rewrite plain_ascii.
  - change (spaced (l :: l' :: ls)) with (l ++ " " :: spaced (l' :: ls)) in *. rewrite length_app in Hf. cbn [length] in Hf.
    rewrite <- (assoc_L (++)). destruct f as [|[|f]]; [lia..|].
    rewrite (arg_matches_token (S f) t l _ Ht) by (cbn; by rewrite plain_ascii). f_equal. cbn [app].
    rewrite arg_matches_skip by (done || by rewrite plain_ascii). apply IH. lia.
Qed.

(** ** Printed lists *)
Lemma chars_join l : Forall whole l -> whole (str_join " " l) /\ str_chars (str_join " " l) = spaced (str_chars <$> l).
Proof.
  induction 1 as [|s l Hs Hl [IHw IHc]]; [done|]. destruct l as [|s' l]; [done|].
  change (str_join " " (s :: s' :: l)) with (s +:+ " " +:+ str_join " " (s' :: l)).
  assert (whole (" " +:+ str_join " " (s' :: l))) as Hw by by apply whole_app.
  split; [by apply whole_app|]. rewrite (str_chars_app s _ Hw), (str_chars_app " " _ IHw), IHc. done.
Qed.
Lemma spaced_forallb p ls : p " " = true -> Forall (fun l => forallb p l = true) ls -> forallb p (spaced ls) = true.
Proof.
  intros Hp. induction 1 as [|l ls Hl Hls IH]; [done|]. destruct ls as [|l' ls]; [done|].
  change (spaced (l :: l' :: ls)) with (l ++ " " :: spaced (l' :: ls)). rewrite forallb_app, Hl. cbn [forallb]. by rewrite Hp, IH.
Qed.
Definition no_line (c : string) : bool := negb (is_char 10 c).
Lemma is_list_text_bracketed mid : forallb no_line mid = true -> is_list_text ("[" :: mid ++ ["]"]) = true.
Proof.
  intros Hm. unfold is_list_text, drop_while. cbn [span]. rewrite space_char by done.
  assert (in_range 9 13 "["%char || (N_of_ascii "[" =? 32)%N = false) as -> by done. cbn [snd].
  rewrite reverse_snoc. cbn [span]. rewrite space_char by done.
  assert (in_range 9 13 "]"%char || (N_of_ascii "]" =? 32)%N = false) as -> by done. cbn [snd].
  assert (is_char 91 "[" = true) as -> by done. assert (is_char 93 "]" = true) as -> by done. cbn [andb].
  apply forallb_elem. intros c Hc. rewrite elem_of_reverse in Hc. rewrite forallb_elem in Hm. exact (Hm c Hc).
Qed.
Lemma printed_list ts texts :
  Forall whole texts -> Forall2 token ts (str_chars <$> texts) ->
  Forall (fun s => forallb no_line (str_chars s) = true) texts ->
  argument_to_list ("[" +:+ str_join " " texts +:+ "]") = ts.
Proof.
  intros Hw Ht Hl. destruct (chars_join texts Hw) as [Hjw Hjc]. unfold argument_to_list.
  rewrite (str_chars_app "[" (str_join " " texts +:+ "]")), (str_chars_app _ "]"), Hjc by (done || by apply whole_app).
  change (str_chars "[") with ["["]. change (str_chars "]") with ["]"]. cbn [app].
  rewrite is_list_text_bracketed.
  - cbn [length]. rewrite arg_matches_skip by (done || by rewrite plain_ascii). apply matches_spaced; [done|].
    rewrite length_app. cbn. lia.
  - apply spaced_forallb; [done|]. by apply Forall_fmap.
Qed.

(** ** Elements *)
Definition readable (v : string) : Prop :=
  whole v /\ forallb (fun c => in_double c && no_line c) (str_chars v) = true.
Definition printable (v : ValueType) : Prop :=
  match v with
  | Strings l => Forall readable l
  | Integers l => Forall (fun z => -9223372036854775808 <= z <= 9223372036854775807)%Z l
  | Floats _ => False
  | Booleans _ | Bytes _ => True
  end.
(** A text of plain ASCII characters stands in a list as it is. *)
Definition bare_text (s : string) : Prop :=
  s <> EmptyString /\ Forall (fun c => (N_of_ascii c < 128)%N /\ plain (char c) = true) (chars s).
Lemma bare_token s : bare_text s -> whole s /\ token s (str_chars s) /\ forallb no_line (str_chars s) = true.
Proof.
  intros [Hnil Hs]. assert (ascii_only s) as Ha by (eapply Forall_impl; [exact Hs|]; by intros c [? _]).
  assert (forall c, c ∈ str_chars s -> plain c = true) as Hp.
  { rewrite (str_chars_ascii s Ha). apply Forall_forall, Forall_fmap. eapply Forall_impl; [exact Hs|]; by intros c [_ ?]. }
  split; [by apply ascii_whole|]. split.
  - rewrite <- (str_of_str_chars s) at 1 by by apply ascii_whole. constructor.
    + rewrite (str_chars_ascii s Ha). by destruct s.
    + by apply forallb_elem.
  - apply forallb_elem. intros c Hc. unfold no_line. by rewrite plain_line by by apply Hp.
Qed.
Lemma quoted_token s : readable s ->
  whole (quoted s) /\ token s (str_chars (quoted s)) /\ forallb no_line (str_chars (quoted s)) = true.
Proof.
  intros [Hw Hs]. assert (whole (s +:+ dquote)) as Hwq by by apply whole_app.
  assert (str_chars (quoted s) = dquote :: str_chars s ++ [dquote]) as Hc.
  { unfold quoted. rewrite (str_chars_app dquote _ Hwq), (str_chars_app s dquote) by done. done. }
  split; [by apply whole_app|]. rewrite Hc. rewrite forallb_elem in Hs. split.
  - rewrite <- (str_of_str_chars s Hw) at 1. constructor. apply forallb_elem. intros c Hi. by apply Hs, andb_true_iff in Hi as [? _].
  - cbn [forallb]. rewrite forallb_app. assert (forallb no_line (str_chars s) = true) as ->; [|done].
    apply forallb_elem. intros c Hi. by apply Hs, andb_true_iff in Hi as [_ ?].
Qed.
Lemma printed_list_of {A} (show : A -> string) (read : A -> string) (l : list A) :
  (forall x, x ∈ l -> whole (show x) /\ token (read x) (str_chars (show x)) /\ forallb no_line (str_chars (show x)) = true) ->
  argument_to_list ("[" +:+ str_join " " (show <$> l) +:+ "]") = read <$> l.
Proof.
  intros H. apply printed_list; [| |]; induction l as [|x l IH]; cbn; constructor; try (apply IH; set_solver);
    by destruct (H x ltac:(set_solver)) as (? & ? & ?).
Qed.
Lemma parse_values_read {A} what key (parse : string -> result string A) (show : A -> string) (l : list A) :
  (forall x, x ∈ l -> parse (show x) = Ok x) -> parse_values what key parse (show <$> l) = Ok l.
Proof.
  intros H. unfold parse_values. induction l as [|x l IH]; [done|]. cbn. rewrite H by set_solver. cbn.
  cbn in IH. rewrite IH by set_solver. done.
Qed.
Lemma typed_channel {U} `{ChannelElem U} (l : list U) : to_channel_vec l = MkChannel (Some (elem_wrap l)).
Proof. unfold to_channel_vec, into_elem, into_elem_refl. by rewrite list_fmap_id. Qed.
Lemma digits_bare s : s <> EmptyString -> forallb digit (chars s) = true -> bare_text s.
Proof.
  intros Hnil Hd. split; [done|]. apply Forall_forall. intros c Hc. rewrite forallb_elem in Hd.
  apply Hd in Hc. split; [by apply digit_small|]. rewrite plain_ascii by by apply digit_small. rewrite Hc. by rewrite !orb_true_r.
Qed.
Lemma pretty_N_bare (n : N) : bare_text (pretty n).
Proof. destruct (pretty_chars n) as (Hnil & Hd & _). apply digits_bare; [|done]. intros H. by rewrite H in Hnil. Qed.
Lemma pretty_Z_bare (z : Z) : bare_text (pretty z).
Proof.
  destruct z as [|p|p]; [exact (pretty_N_bare 0)|exact (pretty_N_bare (N.pos p))|].
  rewrite pretty_neg. split; [done|]. destruct (pretty_N_bare (N.pos p)) as [_ H]. constructor; [|exact H].
  split; [done|]. by rewrite plain_ascii.
Qed.
Lemma bool_bare b : bare_text (bool_text b).
Proof. split; [by destruct b|]. destruct b; repeat constructor; by rewrite plain_ascii. Qed.

(** C29: what the client prints for a channel can be typed as an argument: a channel
    of integers of 64 bits, booleans, bytes, or strings made of the characters that a
    quoted argument may have, printed in brackets as [bendini run] prints it and
    parsed as an argument of its own type, gives the same channel. *)
Theorem printed_channel_reads_back key c v :
  ch_value c = Some v -> printable v ->
  parse_channel key (value_type v) (argument_to_list (bracketed c)) = Ok c.
Proof.
  destruct c as [o]. cbn [ch_value]. intros -> Hv. unfold bracketed, channel_text. cbn [ch_value].
  destruct v as [l|l|l|l|l]; cbn [printable value_type parse_channel] in *; [| |done| |].
  - rewrite (printed_list_of quoted id), list_fmap_id, typed_channel; [done|].
    intros x Hx. apply quoted_token. by eapply Forall_forall in Hv.
  - rewrite (printed_list_of pretty pretty), parse_values_read; cbn; [by rewrite typed_channel| |].
    + intros x Hx. apply parse_int_signed; [lia|]. by eapply Forall_forall in Hv.
    + intros x _. apply bare_token, pretty_Z_bare.
  - rewrite (printed_list_of bool_text bool_text), parse_values_read; cbn; [by rewrite typed_channel|by intros []|].
    intros x _. apply bare_token, bool_bare.
  - set (show := fun b : byte => pretty (N_of_ascii (ascii_of_byte b))).
    rewrite (printed_list_of show show), parse_values_read; cbn; [by rewrite typed_channel| |].
    + intros x _. unfold parse_u8, show. rewrite parse_int_pretty by (pose proof (N_ascii_bounded (ascii_of_byte x)); lia).
      cbn. by rewrite N2Z.id, ascii_N_embedding, byte_of_ascii_of_byte.
    + intros x _. apply bare_token, pretty_N_bare.
Qed.
End format_props.

(** ** Concrete texts *)
Module FormatExamples.
#[local] Existing Instance ascii_tables.
#[local] Instance plainly : Presentation := {|
  paint_green s := s;
  local_time z := if (Z.abs z <=? 8210000000000)%Z then Some "2020-01-01 00:00:00" else None;
  display_f64 _ := "0";
  stdout_is_terminal := false;
  json_text _ _ := "{}"
|}.
Definition words : Channel := MkChannel (Some (Strings ["two words"; EmptyString; "it's"])).
Definition numbers : Channel := MkChannel (Some (Integers [-5; 0; 12]%Z)).
Lemma printed_channel_reads_back_witness :
  bracketed numbers = "[-5 0 12]" /\
  parse_channel "in" CTInt (argument_to_list (bracketed numbers)) = Ok numbers /\
  parse_channel "in" CTString (argument_to_list (bracketed words)) = Ok words.
Proof.
  split; [vm_compute; reflexivity|]. split.
  - apply (printed_channel_reads_back "in" numbers (Integers [-5; 0; 12]%Z)); [reflexivity|]. repeat constructor; lia.
  - apply (printed_channel_reads_back "in" words (Strings ["two words"; EmptyString; "it's"])); [reflexivity|].
    repeat constructor; vm_compute; reflexivity.
Defined.
(** Other characters end a piece of a string, and are lost. *)
Example colons_cut :
  argument_to_list (bracketed (MkChannel (Some (Strings ["http://host/a"])))) = ["http"; "host"; "a"].
Proof. vm_compute. reflexivity. Qed.
(** The expiry of an access request is what the token of the asking party says. *)
Example late_expiry_panics :
  requests_text [MkRemoteAccessRequest (Some "1") "eve" 9000000000000 false] = Err Panicked.
Proof. vm_compute. reflexivity. Qed.
Example default_format_has_a_line_end :
  display_format_to_string display_format_default = "long" +:+ newline /\
  display_format_from_str (display_format_to_string Short) = Ok Long.
Proof. vm_compute. split; reflexivity. Qed.
End FormatExamples.
