(* ===== verification/BendiniAuth.v ===== *)
(** * Deciding on access requests (clients/bendini/src/commands/auth.rs)

    [auth_list] shows the requests for remote access and [approval] approves or
    declines the one request whose identifier starts with the given text.  Against
    the authentication service ([service_client]) the command ends only while fewer
    than 99 requests are open. *)
From S2P Require Import Prelude Interfaces Proto Stream Regex Registry Config Tokens TokenStore TokenProps KeyStore ExpireMap Access AccessProps Executor Bendini.
From Stdlib Require Import Ascii.

(** The order of a listing, as the command line names it. *)
Inductive ListOrdering := LSubject | LExpiresAt.
(** No character outside of ASCII becomes a letter of the two names in lower case. *)
Definition list_ordering_from_str (s : string) : result string ListOrdering :=
  let l := lowercase s in
  if bool_decide (l = "subject") then Ok LSubject else if bool_decide (l = "expiry") then Ok LExpiresAt
  else Err (quoted s +:+ " is not any of " +:+ quoted "subject" +:+ " or " +:+ quoted "expiry").
Definition list_ordering_to_i32 (ordering : ListOrdering) : Z :=
  AuthOrderingKey_to_i32 (match ordering with LExpiresAt => OKExpiresAt | LSubject => OKSubject end).

Section commands.
Context {T : Type}.
Variable client : AuthenticationClient T.

Definition list_internal (subject_filter : string) (include_approved : bool) (ordering : ListOrdering) (limit offset : N)
  : sem T Status (list RemoteAccessRequest) :=
  ac_list_requests client (MkListParameters subject_filter include_approved
    (Some (MkAuthOrdering (list_ordering_to_i32 ordering) false offset limit))).
Definition shorten_id (request : RemoteAccessRequest) : result panic RemoteAccessRequest :=
  match rar_id request with
  | Some id =>
      id ← str_slice_to 8 id;
      Ok (MkRemoteAccessRequest (Some id) (rar_subject request) (rar_expires_at request) (rar_approved request))
  | None => Ok request
  end.
Definition shorten_ids (requests : list RemoteAccessRequest) : result panic (list RemoteAccessRequest) :=
  collect (shorten_id <$> requests).
(** What is shown, and whether dots follow. *)
Definition auth_list (subject_filter : string) (include_approved : bool) (ordering : ListOrdering)
  : sem T (client_end BendiniError) (list RemoteAccessRequest * bool) :=
  requests ← call APIError (list_internal subject_filter include_approved ordering 21 0);
  requests ← sem_lift (map_err (fun _ => Panic) (shorten_ids requests));
  mret (take 20 requests, Nat.ltb 20 (length requests)).

Definition id_starts_with (short_id : string) (req : RemoteAccessRequest) : bool :=
  match rar_id req with Some id => String.prefix short_id id | None => false end.
(** The loop of [approval], with what it found so far. *)
Fixpoint find_hits (fuel : nat) (short_id : string) (hits : list RemoteAccessRequest)
  : sem T (client_end BendiniError) (list RemoteAccessRequest) :=
  match fuel with
  | O => sem_lift (Err Hang)
  | S fuel =>
      requests ← call APIError (list_internal EmptyString false LSubject 99 0);
      let hits := hits ++ List.filter (id_starts_with short_id) requests in
      if Nat.ltb (length requests) 99 then mret hits else find_hits fuel short_id hits
  end.
(** How [approval] ends: it sent the decision, or it showed the matching requests,
    or that there is none. *)
Inductive ApprovalAnswer :=
| Decided (response : RemoteAccessRequest)
| AmbiguousId (hits : list RemoteAccessRequest)
| NoSuchId.
Definition send_decision (approve : bool) (hits : list RemoteAccessRequest) : sem T (client_end BendiniError) ApprovalAnswer :=
  match hits with
  | [] => sem_lift (Ok NoSuchId)
  | [hit] => fun s =>
      let '(s', r) := call APIError (ac_approve client (MkRemoteAccessApproval approve (rar_id hit))) s in
      (s', match r with Ok response => Ok (Decided response) | Err e => Err e end)
  | _ => sem_lift (Ok (AmbiguousId hits))
  end.
Definition approval (fuel : nat) (approve : bool) (short_id : string) : sem T (client_end BendiniError) ApprovalAnswer :=
  hits ← find_hits fuel short_id [];
  send_decision approve hits.
End commands.

(** ** Against the authentication service *)
Section service.
Context {DL : DigestLib} {JL : JwtLib} {EL : EncodingLib} {HO : HashOrder} {UL : UuidLib}.
Variable uuid_iter : gmap uuid PendingAccessRequest -> list (uuid * PendingAccessRequest).
Hypothesis uuid_iter_perm : forall m, uuid_iter m ≡ₚ map_to_list m.
Variables (w : World) (clock : Clock) (identity_hash : IdentityProvider -> string).

Definition service_client : AuthenticationClient AuthService := {|
  ac_acquire_token scope := fun s => let '(s', r) := auth_acquire_token identity_hash w scope s in (s', pt_token <$> r);
  ac_login := sem_lift (Ok []);
  ac_list_requests p := sem_ask (fun s => Ok (list_remote_access_requests uuid_iter p s));
  ac_approve a := approve_remote_access_request clock a
|}.

(** The requests nobody has approved yet. *)
Definition is_open (kv : uuid * PendingAccessRequest) : Prop := par_approved kv.2 = false.
#[local] Instance is_open_dec kv : Decision (is_open kv).
Proof. unfold is_open. apply _. Defined.
Definition open_requests (s : AuthService) : list (uuid * PendingAccessRequest) :=
  filter is_open (map_to_list (em_map (as_pending s))).

Lemma elem_of_open u req s : (u, req) ∈ open_requests s <-> em_map (as_pending s) !! u = Some req /\ par_approved req = false.
Proof. unfold open_requests, is_open. rewrite list_elem_of_filter, elem_of_map_to_list. cbn. tauto. Qed.

(** What the client's query is answered. *)
Definition listed (s : AuthService) : list RemoteAccessRequest :=
  list_remote_access_requests uuid_iter
    (MkListParameters EmptyString false (Some (MkAuthOrdering (list_ordering_to_i32 LSubject) false 0 99))) s.
Lemma listed_perm s : exists all : list RemoteAccessRequest,
  listed s = take 99 all /\ all ≡ₚ (fun kv => request_message kv.1 kv.2) <$> open_requests s.
Proof.
  unfold listed, list_remote_access_requests, page_of_requests. cbn [lp_order ao_limit ao_offset].
  change (if (99 =? 0)%N then 100%N else N.min 99 100) with 99%N.
  eexists. split; [reflexivity|]. rewrite sort_by_perm. apply fmap_Permutation.
  unfold open_requests. rewrite (uuid_iter_perm (em_map (as_pending s))). rewrite (list_filter_iff _ is_open); [done|]. intros [u req]. unfold is_open. cbn. destruct (par_approved req); cbn; split; done.
Qed.

Lemma find_hits_step fuel short_id hits s :
  find_hits service_client (S fuel) short_id hits s =
    let hits' := hits ++ List.filter (id_starts_with short_id) (listed s) in
    if Nat.ltb (length (listed s)) 99 then (s, Ok hits') else find_hits service_client fuel short_id hits' s.
Proof.
  cbn [find_hits]. unfold call, list_internal. cbv [mbind sem_bind]. cbn [ac_list_requests service_client].
  unfold sem_ask. cbn [map_err]. fold (listed s). destruct (Nat.ltb _ _); reflexivity.
Qed.
Lemma find_hits_hangs fuel short_id hits s :
  99 <= length (listed s) -> find_hits service_client fuel short_id hits s = (s, Err Hang).
Proof.
  intros Hl. revert hits. induction fuel as [|fuel IH]; intros hits; [done|]. rewrite find_hits_step.
  cbv zeta. destruct (Nat.ltb_spec (length (listed s)) 99); [lia|]. apply IH.
Qed.

Lemma bool_filter_perm {A} (p : A -> bool) l k : l ≡ₚ k -> List.filter p l ≡ₚ List.filter p k.
Proof.
  induction 1 as [|x l k _ IH|x y l|l k m _ IH1 _ IH2]; cbn; [done| | |by etrans].
  - destruct (p x); [by constructor|done].
  - destruct (p x), (p y); try done. constructor.
Qed.

Lemma filter_messages short_id (l : list (uuid * PendingAccessRequest)) :
  List.filter (id_starts_with short_id) ((fun kv => request_message kv.1 kv.2) <$> l) =
  (fun kv => request_message kv.1 kv.2) <$> filter (fun kv => String.prefix short_id (uuid_to_string kv.1) = true) l.
Proof.
  induction l as [|[u req] l IH]; [done|]. cbn [fmap list_fmap List.filter].
  assert (id_starts_with short_id (request_message (u, req).1 (u, req).2) = String.prefix short_id (uuid_to_string u)) as -> by done.
  rewrite filter_cons. cbn [fst]. destruct (String.prefix short_id (uuid_to_string u)) eqn:Hp.
  - rewrite decide_True by done. cbn [fmap list_fmap]. f_equal. exact IH.
  - rewrite decide_False by done. exact IH.
Qed.

(** Deciding on a request ends exactly when fewer than 99 requests are open.
    With fewer, one listing is enough: the decision is sent for the open request
    whose identifier starts with the given text when there is just one, and nothing
    is sent otherwise.  With 99 or more, the client asks for the same first page
    again and again, whatever the identifier, and never decides. *)
Theorem approval_ends fuel approve short_id s :
  let matching := filter (fun kv => String.prefix short_id (uuid_to_string kv.1) = true) (open_requests s) in
  (length (open_requests s) < 99 ->
     match matching with
     | [] => approval service_client (S fuel) approve short_id s = (s, Ok NoSuchId)
     | [(u, _)] =>
         approval service_client (S fuel) approve short_id s =
           (let '(s', r) := approve_remote_access_request clock (MkRemoteAccessApproval approve (Some (uuid_to_string u))) s in
            (s', match r with Ok response => Ok (Decided response) | Err e => Err (Fault (APIError e)) end))
     | _ => exists hits, approval service_client (S fuel) approve short_id s = (s, Ok (AmbiguousId hits)) /\
              hits ≡ₚ (fun kv => request_message kv.1 kv.2) <$> matching
     end) /\
  (99 <= length (open_requests s) -> approval service_client fuel approve short_id s = (s, Err Hang)).
Proof.
  intros matching. destruct (listed_perm s) as (all & Hl & Hperm).
  assert (length all = length (open_requests s)) as Hlen by (rewrite (Permutation_length Hperm); apply length_fmap).
  split; intros Hn.
  - assert (listed s = all) as Hall by (rewrite Hl; apply take_ge; lia).
    assert (List.filter (id_starts_with short_id) all ≡ₚ (fun kv => request_message kv.1 kv.2) <$> matching) as Hm.
    { rewrite (bool_filter_perm _ _ _ Hperm). unfold matching. by rewrite filter_messages. }
    unfold approval. cbv [mbind sem_bind]. rewrite find_hits_step. cbv zeta. rewrite Hall.
    destruct (Nat.ltb_spec (length all) 99); [|lia]. cbn [app].
    destruct matching as [|[u req] [|kv rest]]; cbn [fmap list_fmap] in Hm.
    + by apply Permutation_nil_r in Hm as ->.
    + apply Permutation_singleton_r in Hm as ->. cbn [send_decision]. unfold call. cbn [ac_approve service_client].
      change (rar_id (request_message (u, req).1 (u, req).2)) with (Some (uuid_to_string u)).
      by destruct (approve_remote_access_request _ _ _) as [s' [r|e]].
    + pose proof (Permutation_length Hm) as Hln. destruct (List.filter _ all) as [|a [|b l]]; [done|done|].
      exists (a :: b :: l). split; [done|exact Hm].
  - unfold approval. cbv [mbind sem_bind]. rewrite find_hits_hangs; [done|]. rewrite Hl, length_take. lia.
Qed.
End service.

Module BendiniAuthExamples.
#[local] Existing Instance Concrete.text_digest.
#[local] Existing Instance Concrete.text_jwt.
#[local] Existing Instance Concrete.plain_encoding.
#[local] Existing Instance Concrete.text_uuid.
#[local] Existing Instance key_order.
Import AccessProps.AccessExamples TokenProps.TokenExamples.

Definition iter : gmap (@uuid Concrete.text_uuid) PendingAccessRequest -> list (@uuid Concrete.text_uuid * PendingAccessRequest) := map_to_list.
Definition client := service_client iter world clock hash.
Definition crowd : AuthService :=
  service_with [] ((fun n => (pretty.pretty (N.of_nat n), pending_ada)) <$> seq 0 99).

Lemma approval_ends_witness :
  (exists s' response, BendiniAuth.approval client 1 true "#7" waiting = (s', Ok (Decided response))) /\
  BendiniAuth.approval client 5 true "#7" crowd = (crowd, Err Hang).
Proof.
  split.
  - pose proof (proj1 (approval_ends iter (fun m => Permutation_refl _) world clock hash 0 true "#7" waiting)) as H.
    assert (length (open_requests waiting) < 99) as Hl by (apply Nat.ltb_lt; vm_compute; exact eq_refl).
    specialize (H Hl).
    assert (filter (fun kv => String.prefix "#7" (uuid_to_string kv.1) = true) (open_requests waiting) = [(seven, pending_ada)]) as Hm
      by (vm_compute; exact eq_refl).
    rewrite Hm in H.
    destruct (approve_remote_access_request clock (MkRemoteAccessApproval true (Some (uuid_to_string seven))) waiting) as [s' r] eqn:Hr.
    assert (is_ok r = true) as Hok.
    { transitivity (is_ok (approve_remote_access_request clock (MkRemoteAccessApproval true (Some (uuid_to_string seven))) waiting).2);
        [rewrite Hr; reflexivity|]. vm_compute. exact eq_refl. }
    destruct r as [response|]; [|discriminate Hok]. exists s', response. exact H.
  - apply (proj2 (approval_ends iter (fun m => Permutation_refl _) world clock hash 5 true "#7" crowd)).
    apply Nat.leb_le. vm_compute. exact eq_refl.
Defined.
End BendiniAuthExamples.
