(* ===== verification/CertVerifier.v ===== *)
(** * Trust in self-signed servers (clients/bendini/src/interactive_cert_verifier.rs)

    Bendini verifies a server against a store of trusted certificates and, for a
    certificate nobody it trusts has signed, asks the user.  The store of rustls and its
    verification, the PEM and X.509 parsers and SHA-1 are arguments ([RustTls]);
    a certificate is its bytes, written as a text, and the path of the bundle is an
    argument, the directory with [cert-bundle.pem] already joined.  Colours of the question are left
    out.

    The theorems say when a server is accepted and what becomes of the answer. *)
From S2P Require Import Prelude.
From Stdlib Require Import Ascii.

Abbreviation Certificate := string.
(** [rustls::Error]: the two variants the verifier looks at or makes, and the others. *)
Inductive TlsError :=
| InvalidCertificateSignature
| General (e : string)
| OtherTlsError (e : string).
Inductive ServerName :=
| DnsName (name : string)
| IpAddress (address : string)
| OtherServerName.
#[export] Instance ServerName_eq_dec : EqDecision ServerName.
Proof. solve_decision. Defined.
Inductive GeneralName :=
| OtherName | RFC822Name (n : string) | DNSName (n : string) | DirectoryName (n : string)
| URI (n : string) | IPAddress (n : string) | RegisteredID (n : string).
(** The extension of alternative names of a certificate: missing, of another type, or the names. *)
Inductive AltNames := NoAltNames | WrongAltNames | SomeAltNames (names : list GeneralName).

Class RustTls := {
  RootCertStore : Type;
  store_empty : RootCertStore;
  store_add : Certificate -> RootCertStore -> result string RootCertStore;
  add_parsable_certificates : list Certificate -> RootCertStore -> RootCertStore;
  (** [WebPkiVerifier::verify_server_cert] *)
  webpki_verify : RootCertStore -> Certificate -> list Certificate -> ServerName -> N -> result TlsError unit;
  pemfile_certs : string -> option (list Certificate);
  pem_encode_many : list Certificate -> string;
  parse_x509 : Certificate -> result string AltNames;
  sha1 : Certificate -> list byte;
  display_webpki_error : string -> string;
  tls_error_text : TlsError -> string
}.

Section verifier.
Context {TLS : RustTls}.

Record InteractiveCertVerifier := MkVerifier {
  cv_cert_bundle_path : string;
  cv_root_store : lock RootCertStore
}.
(** The files, what the terminal will read and what it has printed. *)
Record Terminal := MkTerminal {
  t_files : gmap string string;
  t_open_error : option string;
  t_write : string -> result string nat;
  t_stdin : list (result string string);
  t_stdout : list string
}.
Record Client := MkClient { c_verifier : InteractiveCertVerifier; c_terminal : Terminal }.

(** ** Starting *)
Inductive StartError := CertRefused | BundleUnreadable (e : string) | BundleInvalid.
Definition add_all (certs : list Certificate) (store : RootCertStore) : RootCertStore * result string unit :=
  foldl (fun sr cert => match sr with
                        | (s, Ok _) => match store_add cert s with Ok s' => (s', Ok tt) | Err e => (s, Err e) end
                        | (s, Err e) => (s, Err e)
                        end) (store, Ok tt) certs.
Definition read_bundle (path : string) (t : Terminal) : option (result StartError (list Certificate)) :=
  content ← t_files t !! path;
  Some (match t_open_error t with
        | Some e => Err (BundleUnreadable e)
        | None => ok_or BundleInvalid (pemfile_certs content)
        end).
Definition verifier_new (cert_bundle_path : string) (certs : list Certificate) (t : Terminal)
  : result StartError InteractiveCertVerifier :=
  match add_all certs store_empty with
  | (_, Err _) => Err CertRefused
  | (root_store, Ok _) =>
      root_store ← match read_bundle cert_bundle_path t with
                   | None => Ok root_store
                   | Some parsed => (fun l => add_parsable_certificates l root_store) <$> parsed
                   end;
      Ok (MkVerifier cert_bundle_path (lock_new root_store))
  end.

(** ** What the user is shown *)
Definition general_name (n : GeneralName) : string :=
  match n with
  | OtherName => "other" | RFC822Name n | DNSName n | DirectoryName n => n
  | URI _ => "uri" | IPAddress _ => "ip" | RegisteredID _ => "id"
  end.
Definition hex_upper (n : N) : ascii := ascii_of_N (if (n <? 10)%N then 48 + n else 55 + n).
Definition byte_hex (b : byte) : string :=
  let n := Byte.to_N b in String (hex_upper (n / 16)) (String (hex_upper (n mod 16)) EmptyString).
(** A colon after every two digits but the last. *)
Fixpoint with_colons (i : nat) (s : string) : string :=
  match s with
  | EmptyString => EmptyString
  | String c s' =>
      if negb (Nat.eqb i 0) && Nat.even i then String ":" (String c (with_colons (S i) s'))
      else String c (with_colons (S i) s')
  end.
Definition fingerprint_text (digest : list byte) : string :=
  with_colons 0 (foldr (fun b acc => byte_hex b +:+ acc) EmptyString digest).
Definition get_alt_names_and_fingerprint (end_entity : Certificate) : result TlsError (string * string) :=
  parsed ← map_err (fun e => General ("Failed to parse x509 certificate: " +:+ e)) (parse_x509 end_entity);
  alt_names ← match parsed with
              | NoAltNames => Err (General "Certificate does not contain SubjectAlternativeName extension")
              | WrongAltNames => Err (General "SubjectAlternativeName extension has the wrong type!?")
              | SomeAltNames names => Ok (str_join ", " (general_name <$> names))
              end;
  Ok (fingerprint_text (sha1 end_entity), alt_names).
Definition server_name_text (n : ServerName) : string :=
  match n with DnsName n => n | IpAddress a => a | OtherServerName => "unknown" end.
Definition question (server_name : ServerName) (end_entity : Certificate) : list string :=
  let '(fingerprint, alt_names) := match get_alt_names_and_fingerprint end_entity with
    | Ok fa => fa
    | Err e => (EmptyString, "<unknown: " +:+ tls_error_text e +:+ ">")
    end in
  ["Host " +:+ quoted (server_name_text server_name) +:+ " is using a self-signed certificate.";
   "The host identifies as " +:+ quoted alt_names +:+ " [" +:+ fingerprint +:+ "].";
   "Do you want to continue? [y(es)/n(o)/S(ave)] "].

(** ** Verifying *)
Definition client := sem Client TlsError.
Definition set_store (s : RootCertStore) (c : Client) : Client :=
  let v := c_verifier c in
  MkClient (MkVerifier (cv_cert_bundle_path v) (lock_set (cv_root_store v) s)) (c_terminal c).
Definition set_terminal (f : Terminal -> Terminal) (c : Client) : Client := MkClient (c_verifier c) (f (c_terminal c)).
Definition print (lines : list string) (t : Terminal) : Terminal :=
  MkTerminal (t_files t) (t_open_error t) (t_write t) (t_stdin t) (t_stdout t ++ lines).
(** A line of input; no when there is none or it cannot be read. *)
Definition read_answer (c : Client) : Client * string :=
  match t_stdin (c_terminal c) with
  | [] => (c, "n")
  | l :: rest =>
      (set_terminal (fun t => MkTerminal (t_files t) (t_open_error t) (t_write t) rest (t_stdout t)) c,
       match l with Ok s => s | Err _ => "n" end)
  end.
Definition is_save (line : string) : bool :=
  String.eqb (lowercase line) "s" || String.eqb (lowercase line) "save" || str_is_empty line.
Definition is_yes (line : string) : bool := String.eqb (lowercase line) "y" || String.eqb (lowercase line) "yes".

Definition verify_with_roots (end_entity : Certificate) (intermediates : list Certificate) (server_name : ServerName) (now : N)
  : client unit :=
  sem_ask (fun c =>
    roots ← lock_get (fun e => General ("Failed to acquire read lock for root cert store: " +:+ e)) (cv_root_store (c_verifier c));
    webpki_verify roots end_entity intermediates server_name now).
(** What was added before a certificate is refused stays. *)
Definition add_certs_to_root (end_entity : Certificate) (intermediates : list Certificate) : client unit :=
  fun c =>
    match lock_get (fun e => General ("Failed to acquire write lock to add cert to root: " +:+ e)) (cv_root_store (c_verifier c)) with
    | Err e => (c, Err e)
    | Ok store =>
        let '(store', r) := add_all (end_entity :: intermediates) store in
        (set_store store' c, map_err (fun e => General (display_webpki_error e)) r)
    end.
Definition save_certificate_chain (end_entity : Certificate) (intermediates : list Certificate) : client unit :=
  fun c =>
    let path := cv_cert_bundle_path (c_verifier c) in
    let t := c_terminal c in
    match t_open_error t with
    | Some e => (c, Err (General ("Failed to open cert bundle file at " +:+ path +:+ ": " +:+ e)))
    | None =>
        let text := pem_encode_many (end_entity :: intermediates) in
        let old := default EmptyString (t_files t !! path) in
        match t_write t text with
        | Ok n => (set_terminal (fun t => MkTerminal (<[path := old +:+ String.substring 0 n text]> (t_files t))
                                  (t_open_error t) (t_write t) (t_stdin t) (t_stdout t)) c, Ok tt)
        | Err e => (set_terminal (fun t => MkTerminal (<[path := old]> (t_files t))
                                    (t_open_error t) (t_write t) (t_stdin t) (t_stdout t)) c,
                    Err (General ("Failed to write cert bundle file at " +:+ path +:+ ": " +:+ e)))
        end
    end.
(** The certificate is trusted as the user answers. *)
Definition decide_on (line : string) (e : TlsError) (end_entity : Certificate) (intermediates : list Certificate)
    (server_name : ServerName) (now : N) : client unit :=
  if is_save line || is_yes line then
    _ ← add_certs_to_root end_entity intermediates;
    _ ← verify_with_roots end_entity intermediates server_name now;
    if is_save line then save_certificate_chain end_entity intermediates else mret tt
  else sem_lift (Err e).
Definition verify_server_cert (end_entity : Certificate) (intermediates : list Certificate) (server_name : ServerName) (now : N)
  : client unit :=
  fun c =>
    match verify_with_roots end_entity intermediates server_name now c with
    | (c1, Ok u) => (c1, Ok u)
    | (c1, Err InvalidCertificateSignature) =>
        let c2 := set_terminal (print (question server_name end_entity)) c1 in
        let '(c3, line) := read_answer c2 in
        decide_on line InvalidCertificateSignature end_entity intermediates server_name now c3
    | (c1, Err e) => (c1, Err e)
    end.
End verifier.

Section verifier_props.
Context {TLS : RustTls}.

Definition roots (c : Client) : RootCertStore := lk_data (cv_root_store (c_verifier c)).
Definition unpoisoned (c : Client) : Prop := lk_poisoned (cv_root_store (c_verifier c)) = false.
(** The line the user answers with. *)
Definition next_answer (c : Client) : string :=
  match t_stdin (c_terminal c) with Ok line :: _ => line | _ => "n" end.
Definition accepts (line : string) : bool := is_save line || is_yes line.

(** The client after the question was asked and answered. *)
Definition asked (server_name : ServerName) (end_entity : Certificate) (c : Client) : Client :=
  (read_answer (set_terminal (print (question server_name end_entity)) c)).1.
Lemma read_answer_line c : (read_answer c).2 = next_answer c.
Proof. unfold read_answer, next_answer. by destruct (t_stdin (c_terminal c)) as [|[]]. Qed.
Lemma asked_verifier n e c : c_verifier (asked n e c) = c_verifier c.
Proof. unfold asked, read_answer. by destruct (t_stdin _). Qed.
Lemma asked_files n e c :
  t_files (c_terminal (asked n e c)) = t_files (c_terminal c) /\
  t_open_error (c_terminal (asked n e c)) = t_open_error (c_terminal c) /\
  t_write (c_terminal (asked n e c)) = t_write (c_terminal c) /\
  t_stdout (c_terminal (asked n e c)) = t_stdout (c_terminal c) ++ question n e.
Proof. unfold asked, read_answer. by destruct (t_stdin _). Qed.
Lemma next_answer_printed n e c :
  next_answer (set_terminal (print (question n e)) c) = next_answer c.
Proof. done. Qed.

Lemma verify_with_roots_run e l n now c :
  unpoisoned c -> verify_with_roots e l n now c = (c, webpki_verify (roots c) e l n now).
Proof. intros Hc. unfold verify_with_roots, sem_ask, lock_get. by rewrite Hc. Qed.

(** Adding, as far as certificates are good. *)
Definition trusted_with (e : Certificate) (l : list Certificate) (c : Client) : Client :=
  set_store (add_all (e :: l) (roots c)).1 c.
Lemma add_certs_run e l c :
  unpoisoned c ->
  add_certs_to_root e l c =
  (trusted_with e l c, map_err (fun e => General (display_webpki_error e)) (add_all (e :: l) (roots c)).2).
Proof.
  intros Hc. unfold add_certs_to_root, lock_get. rewrite Hc. unfold trusted_with, roots.
  by destruct (add_all _ _).
Qed.
Lemma trusted_unpoisoned e l c : unpoisoned c -> unpoisoned (trusted_with e l c).
Proof. done. Qed.
Lemma save_keeps_verifier e l c : c_verifier (save_certificate_chain e l c).1 = c_verifier c.
Proof. unfold save_certificate_chain. destruct (t_open_error _); [done|]. by destruct (t_write _ _). Qed.

(** C32: A server is accepted only when its certificate verifies against the
    trusted ones, and then nothing is asked and nothing changes, or when the
    user was asked about it, answered yes or save, and it verifies against the
    trusted certificates with its own chain.  Without such an answer neither
    the trusted certificates nor the files change; the bundle is written only
    after a save answer and a verification that worked.  But a yes is kept for
    the rest of the run even when the server is refused after it. *)
Theorem server_accepted_by_answer e l n now c c' r :
  unpoisoned c -> verify_server_cert e l n now c = (c', r) ->
  match webpki_verify (roots c) e l n now with
  | Err InvalidCertificateSignature =>
      let line := next_answer c in
      let c1 := asked n e c in
      if accepts line then
        c_verifier c' = c_verifier (trusted_with e l c1) /\
        (r = Ok tt -> webpki_verify (roots c') e l n now = Ok tt /\
                      if is_save line then c' = (save_certificate_chain e l (trusted_with e l c1)).1
                      else c' = trusted_with e l c1) /\
        (t_files (c_terminal c') <> t_files (c_terminal c) -> is_save line = true /\ webpki_verify (roots c') e l n now = Ok tt)
      else r = Err InvalidCertificateSignature /\ c' = c1 /\ roots c' = roots c /\
           t_files (c_terminal c') = t_files (c_terminal c)
  | known => r = known /\ c' = c
  end.
Proof.
  intros Hc. unfold verify_server_cert. rewrite verify_with_roots_run by done.
  destruct (webpki_verify (roots c) e l n now) as [[]|err]; [by intros [= <- <-]|].
  destruct err; try by intros [= <- <-].
  set (c2 := set_terminal _ c). destruct (read_answer c2) as [c3 line] eqn:Hr.
  assert (line = next_answer c) as ->.
  { transitivity ((read_answer c2).2); [by rewrite Hr|]. exact (read_answer_line c2). }
  assert (c3 = asked n e c) as -> by (unfold asked; fold c2; by rewrite Hr).
  clear Hr c2. set (c1 := asked n e c). cbn zeta. unfold decide_on.
  change (is_save (next_answer c) || is_yes (next_answer c)) with (accepts (next_answer c)).
  assert (unpoisoned c1) as Hc1 by (unfold unpoisoned, c1; by rewrite asked_verifier).
  destruct (asked_files n e c) as (Hf & _). fold c1 in Hf.
  destruct (accepts (next_answer c)).
  - unfold mbind, sem_bind. rewrite add_certs_run by done.
    destruct (add_all (e :: l) (roots c1)).2 as [[]|er]; cbn [map_err].
    2: { intros [= <- <-]. split; [done|]. split; [done|]. intros Hn. by destruct Hn. }
    rewrite verify_with_roots_run by done.
    destruct (webpki_verify (roots (trusted_with e l c1)) e l n now) as [[]|er] eqn:Hv.
    2: { intros [= <- <-]. split; [done|]. split; [done|]. intros Hn. by destruct Hn. }
    destruct (is_save (next_answer c)).
    + pose proof (save_keeps_verifier e l (trusted_with e l c1)) as Hk.
      destruct (save_certificate_chain e l (trusted_with e l c1)) as [c4 r4]. cbn [fst] in *. intros [= <- <-].
      assert (roots c4 = roots (trusted_with e l c1)) as Hroots by (unfold roots; by rewrite Hk).
      split; [done|]. rewrite Hroots. split; [done|]. by intros _.
    + intros [= <- <-]. split; [done|]. split; [done|]. intros Hn. by destruct Hn.
  - unfold sem_lift. intros [= <- <-]. split; [done|]. split; [done|]. split; [|done].
    unfold roots, c1. by rewrite asked_verifier.
Qed.

(** *** The bundle of the next run *)

(** [RootCertStore::add_parsable_certificates] leaves out the ones it cannot add. *)
Definition skips_bad_certificates : Prop := forall l s,
  add_parsable_certificates l s =
  foldl (fun s cert => match store_add cert s with Ok s' => s' | Err _ => s end) s l.
(** The bundle as it is, and its certificates: none when there is no file. *)
Definition bundle_text (path : string) (t : Terminal) : string := default EmptyString (t_files t !! path).
Definition bundle_certs (path : string) (t : Terminal) : option (list Certificate) :=
  match t_files t !! path with Some content => pemfile_certs content | None => Some [] end.
(** A chain appended to the bundle is read back after what was there. *)
Definition chain_readable (path : string) (t : Terminal) (chain : list Certificate) : Prop :=
  forall old, bundle_certs path t = Some old ->
  pemfile_certs (bundle_text path t +:+ pem_encode_many chain) = Some (old ++ chain).

Lemma add_all_good l s s' :
  add_all l s = (s', Ok tt) ->
  foldl (fun s cert => match store_add cert s with Ok s' => s' | Err _ => s end) s l = s'.
Proof.
  unfold add_all. revert s. induction l as [|cert l IH]; intros s; cbn [foldl]; [by intros [= <-]|].
  destruct (store_add cert s) as [s1|e]; [by apply IH|]. intros H. exfalso. revert H. clear.
  induction l as [|c l IH]; cbn [foldl]; [done|apply IH].
Qed.
Lemma substring_whole text : String.substring 0 (str_len text) text = text.
Proof. induction text as [|c text IH]; [done|]. cbn. f_equal. exact IH. Qed.

(** A server trusted with save is accepted in the next run without a
    question: the verifier that starts with the same certificates and reads the
    bundle trusts exactly what the first one trusted in the end. *)
Theorem saved_trust_survives path certs t v e l n now c' :
  skips_bad_certificates -> verifier_new path certs t = Ok v ->
  t_open_error t = None -> t_write t (pem_encode_many (e :: l)) = Ok (str_len (pem_encode_many (e :: l))) ->
  chain_readable path t (e :: l) ->
  webpki_verify (lk_data (cv_root_store v)) e l n now = Err InvalidCertificateSignature ->
  is_save (next_answer (MkClient v t)) = true ->
  verify_server_cert e l n now (MkClient v t) = (c', Ok tt) ->
  exists v', verifier_new path certs (c_terminal c') = Ok v' /\ cv_root_store v' = cv_root_store (c_verifier c') /\
    verify_server_cert e l n now (MkClient v' (c_terminal c')) = (MkClient v' (c_terminal c'), Ok tt).
Proof.
  intros Hskip Hnew Hopen Hwrite Hread Hfirst Hsave Hv.
  unfold verifier_new in Hnew. destruct (add_all certs store_empty) as [s0 [[]|er]] eqn:Hcerts; [|done].
  assert (exists old, bundle_certs path t = Some old /\ v = MkVerifier path (lock_new (add_parsable_certificates old s0)))
    as (old & Hold & ->).
  { unfold read_bundle, bundle_certs in *. destruct (t_files t !! path) as [content|]; cbn [mbind option_bind] in *.
    - rewrite Hopen in Hnew. destruct (pemfile_certs content) as [old|]; cbn in Hnew; [|done]. injection Hnew as <-. eauto.
    - injection Hnew as <-. exists []. split; [done|]. by rewrite Hskip. }
  set (c := MkClient _ t) in *. set (s1 := add_parsable_certificates old s0) in *.
  unfold verify_server_cert in Hv. rewrite verify_with_roots_run in Hv by done. change (roots c) with s1 in Hv.
  change (lk_data _) with s1 in Hfirst. rewrite Hfirst in Hv.
  set (c2 := set_terminal _ c) in Hv. destruct (read_answer c2) as [c3 line] eqn:Hr.
  assert (line = next_answer c) as ->.
  { transitivity ((read_answer c2).2); [by rewrite Hr|]. exact (read_answer_line c2). }
  assert (c3 = asked n e c) as -> by (unfold asked; fold c2; by rewrite Hr). clear Hr c2.
  unfold decide_on in Hv. rewrite Hsave in Hv. cbn [orb] in Hv. unfold mbind, sem_bind in Hv.
  assert (unpoisoned (asked n e c)) as Hc1 by (unfold unpoisoned; by rewrite asked_verifier).
  rewrite add_certs_run in Hv by done.
  assert (roots (asked n e c) = s1) as Hs1 by (unfold roots; by rewrite asked_verifier). rewrite Hs1 in Hv.
  destruct (add_all (e :: l) s1) as [s2 [[]|er]] eqn:Hadd; cbn [snd map_err] in Hv; [|done].
  rewrite verify_with_roots_run in Hv by done.
  assert (roots (trusted_with e l (asked n e c)) = s2) as Hs2.
  { unfold trusted_with. rewrite Hs1, Hadd. done. }
  rewrite Hs2 in Hv. destruct (webpki_verify s2 e l n now) as [[]|er] eqn:Hok; [|done].
  destruct (asked_files n e c) as (Hf & Ho & Hw & _).
  unfold save_certificate_chain in Hv. unfold trusted_with in Hv. rewrite Hs1, Hadd in Hv. cbn [fst] in Hv.
  unfold set_store in Hv. rewrite asked_verifier in Hv.
  cbn [c_verifier c_terminal cv_cert_bundle_path cv_root_store lock_set lk_poisoned lock_new c] in Hv.
  rewrite Ho, Hw, Hf in Hv. cbn [c_terminal c] in Hv. rewrite Hopen, Hwrite, substring_whole in Hv.
  injection Hv as <-. unfold set_terminal. cbn [c_terminal c_verifier].
  exists (MkVerifier path (lock_new s2)). split; [|split; [done|]].
  - unfold verifier_new. rewrite Hcerts. unfold read_bundle. cbn [t_files t_open_error].
    rewrite lookup_insert_eq. cbn [mbind option_bind]. fold (bundle_text path t).
    rewrite (Hread old Hold), Ho. cbn [c_terminal c]. rewrite Hopen. cbn.
    rewrite Hskip, foldl_app, <- (Hskip old). fold s1. by rewrite (add_all_good _ _ _ Hadd).
  - unfold verify_server_cert. rewrite verify_with_roots_run by done. unfold roots. cbn [c_verifier cv_root_store lk_data lock_new].
    by rewrite Hok.
Qed.
End verifier_props.

(** ** Witnesses *)
Module SelfSigned.
(** A store is its certificates, a bundle has one on each line; a host is known
    by the name its certificate is. *)
Fixpoint lines_of (s : string) : list string :=
  match s with
  | EmptyString => []
  | String c s' =>
      if (N_of_ascii c =? 10)%N then EmptyString :: lines_of s'
      else match lines_of s' with l :: ls => String c l :: ls | [] => [String c EmptyString] end
  end.
#[local] Instance names_tls : RustTls := {|
  RootCertStore := list string;
  store_empty := [];
  store_add := fun c s => if str_is_empty c then Err "empty certificate" else Ok (c :: s);
  add_parsable_certificates := fun l s =>
    foldl (fun s c => if str_is_empty c then s else c :: s) s l;
  webpki_verify := fun s e _ n _ =>
    if bool_decide (e ∈ s)
    then if bool_decide (n = DnsName e) then Ok tt else Err (OtherTlsError "certificate not valid for name")
    else Err InvalidCertificateSignature;
  pemfile_certs := fun s => Some (lines_of s);
  pem_encode_many := fun l => foldr (fun c acc => c +:+ newline +:+ acc) EmptyString l;
  parse_x509 := fun c => Ok (SomeAltNames [DNSName c]);
  sha1 := fun c => String.list_byte_of_string c;
  display_webpki_error := fun e => e;
  tls_error_text := fun _ => "error"
|}.
Definition terminal (answer : string) : Terminal :=
  MkTerminal {[ "cert-bundle.pem" := "old.example" +:+ newline ]} None (fun text => Ok (str_len text)) [Ok answer] [].
Definition verifier : InteractiveCertVerifier :=
  MkVerifier "cert-bundle.pem" (lock_new (["old.example"; "root.example"] : RootCertStore)).
Definition host : Certificate := "firm.example".
Definition after (answer : string) (n : ServerName) : Client * result TlsError unit :=
  verify_server_cert host [] n 0 (MkClient verifier (terminal answer)).

Lemma saved_trust_survives_witness : exists v',
  t_files (c_terminal (after "" (DnsName host)).1) !! "cert-bundle.pem" =
    Some ("old.example" +:+ newline +:+ "firm.example" +:+ newline) /\
  verifier_new "cert-bundle.pem" ["root.example"] (c_terminal (after "" (DnsName host)).1) = Ok v' /\
  cv_root_store v' = lock_new (["firm.example"; "old.example"; "root.example"] : RootCertStore).
Proof.
  destruct (saved_trust_survives "cert-bundle.pem" ["root.example"] (terminal "") verifier host [] (DnsName host) 0
    (after "" (DnsName host)).1) as (v' & H1 & H2 & _).
  - intros l s. revert s. induction l as [|x l IH]; intros s; [reflexivity|]. cbn. rewrite <- IH. cbn. by destruct x.
  - vm_compute. reflexivity.
  - reflexivity.
  - reflexivity.
  - intros old H. vm_compute in H. injection H as <-. vm_compute. reflexivity.
  - vm_compute. reflexivity.
  - vm_compute. reflexivity.
  - vm_compute. reflexivity.
  - exists v'. split; [vm_compute; reflexivity|]. split; [exact H1|]. rewrite H2. vm_compute. reflexivity.
Defined.

(** A yes for a server of another name: it is refused, and trusted from then on. *)
Lemma server_accepted_by_answer_witness :
  (after "yes" (DnsName "evil.example")).2 = Err (OtherTlsError "certificate not valid for name") /\
  c_verifier (after "yes" (DnsName "evil.example")).1 =
    MkVerifier "cert-bundle.pem" (lock_new (["firm.example"; "old.example"; "root.example"] : RootCertStore)) /\
  (after "no" (DnsName host)).2 = Err InvalidCertificateSignature.
Proof.
  split; [vm_compute; reflexivity|]. split; [|vm_compute; reflexivity].
  pose proof (server_accepted_by_answer host [] (DnsName "evil.example") 0 (MkClient verifier (terminal "yes"))
    (after "yes" (DnsName "evil.example")).1 (after "yes" (DnsName "evil.example")).2 eq_refl (surjective_pairing _)) as H.
  assert (webpki_verify (roots (MkClient verifier (terminal "yes"))) host [] (DnsName "evil.example") 0
          = Err InvalidCertificateSignature) as Hw by (vm_compute; reflexivity).
  rewrite Hw in H. assert (accepts (next_answer (MkClient verifier (terminal "yes"))) = true) as Ha by (vm_compute; reflexivity).
  cbn zeta in H. rewrite Ha in H. destruct H as [H _]. rewrite H. vm_compute. reflexivity.
Defined.
Example fingerprint : fingerprint_text (sha1 "firm") = "66:69:72:6D".
Proof. vm_compute. reflexivity. Qed.
End SelfSigned.
