(* ===== verification/BendiniMain.v ===== *)
(** * The client's main function (clients/bendini/src/main.rs,
    libraries/rust/tonic-middleware/src/lib.rs)

    [bendini_run] connects to the host of the command line ([connect]), gets a
    token for it from the authentication host where the connection is encrypted
    ([credentials]), and runs a command over clients that send this token
    ([dispatch]), logging in when the server asks for it.

    A connection is a [Transport]; opening one, and the generated clients that
    speak over one with the token their interceptor adds, are the [Network].  Uris
    are a class, the machine's answers a [ClientOs].  What a command prints is in
    its answer ([Answer]) and lost when it ends with an error. *)
From S2P Require Import Prelude Interfaces Proto Stream Regex Text Registry Config Tokens TokenStore KeyStore ExpireMap Access Executor Bendini BendiniRegister BendiniRun BendiniFormat BendiniAuth CertVerifier.
From Stdlib Require Import Ascii.

(** ** The machine *)
Inductive Platform := Unix | Windows.
Inductive PipeOpen := PipeOpened | PipeBusy | PipeFailed (e : string).
Record ClientOs := MkClientOs {
  co_platform : Platform;
  co_var : string -> option string;
  co_username : option string;
  co_create_dir_all : string -> result string unit;
  co_native_certs : result string (list Certificate);
  co_terminal : Terminal;
  (** the answer to each attempt to open a pipe *)
  co_open_pipe : string -> nat -> PipeOpen
}.
Definition get_local_socket (os : ClientOs) : option string :=
  (fun username => match co_platform os with
                   | Unix => "unix://localhost/tmp/avery-" +:+ username +:+ ".sock"
                   | Windows => "windows://./pipe/avery-" +:+ username
                   end) <$> co_username os.
Definition user_data_path (os : ClientOs) : option string :=
  match co_platform os with
  | Unix =>
      (fun p => path_join p "bendini") <$>
      match co_var os "XDG_DATA_HOME" with
      | Some p => Some p
      | None => (fun p => path_join (path_join p ".local") "share") <$> co_var os "HOME"
      end
  | Windows => (fun p => path_join p "bendini") <$> co_var os "LOCALAPPDATA"
  end.

(** ** The command line *)
Inductive AuthCommand :=
| AuthList (subject_filter : string) (include_approved : bool) (ordering : ListOrdering)
| Approve (id : string)
| Decline (id : string).
Inductive Command :=
| List (format : DisplayFormat)
| ListVersions (name : string) (format : DisplayFormat)
| ListRuntimes (name : option string)
| Register (manifest : string) (publisher_name publisher_email : option string)
| Run (function_id : string) (arguments : list (string * string)) (follow_output : bool)
| Get (function_id : string)
| Auth (command : AuthCommand).
Record BendiniArgs := MkBendiniArgs { ba_host : string; ba_auth_host : string; ba_cmd : Command }.
Definition bendini_host_default (os : ClientOs) : string := default EmptyString (get_local_socket os).

(** ** Answers that are no gRPC (tonic-middleware) *)
Record HttpResponse := MkHttpResponse {
  hr_status : N;
  hr_content_type : option string;
  hr_www_authenticate : option string;
  (** the rest, for the generated client *)
  hr_body : list byte
}.
(** [HeaderValue::to_str] *)
Definition header_to_str (s : string) : option string :=
  if forallb (fun c => in_range 32 126 c || in_range 9 9 c) (chars s) then Some s else None.
Section interceptor.
(** The status line's text and the debug text of the headers. *)
Variables (status_text : N -> string) (headers_text : HttpResponse -> string).
(** The status a response is replaced by. *)
Definition intercept (response : HttpResponse) : option Status :=
  match (fun cont => str_contains "application/grpc" (default EmptyString (header_to_str cont))) <$> hr_content_type response with
  | Some false =>
      Some (if bool_decide (hr_status response = 401%N \/ hr_status response = 403%N) then
              MkStatus CUnauthenticated (default EmptyString (default EmptyString ∘ header_to_str <$> hr_www_authenticate response))
            else if bool_decide (hr_status response = 404%N) then MkStatus CNotFound EmptyString
            else MkStatus CUnknown ("Recieved non grpc content with status code " +:+ quoted (status_text (hr_status response)) +:+
                   " which is unhandled. Headers: " +:+ headers_text response))
  | _ => None
  end.
(** A call through the interceptor: the request, and how the generated client reads
    an answer. *)
Definition intercepted {S A} (request : sem S Status HttpResponse) (read : HttpResponse -> result Status A) : sem S Status A :=
  response ← request;
  sem_lift (match intercept response with Some status => Err status | None => read response end).
End interceptor.

(** ** Uris and connections *)
Class HttpUri := {
  Uri : Type;
  uri_parse : string -> result string Uri;
  uri_text : Uri -> string;
  uri_scheme_str : Uri -> option string;
  uri_authority : Uri -> option string;
  (** whether an authority has a port *)
  authority_port : string -> bool;
  uri_host : Uri -> option string;
  uri_path : Uri -> string;
  uri_path_and_query : Uri -> option string
}.
(** [rsplit_once] on one character. *)
Fixpoint rsplit_once (sep : ascii) (s : string) : option (string * string) :=
  match s with
  | EmptyString => None
  | String c s' =>
      match rsplit_once sep s' with
      | Some (a, b) => Some (String c a, b)
      | None => if Ascii.eqb c sep then Some (EmptyString, s') else None
      end
  end.

(** The generated clients of a server. *)
Record Clients (S : Type) := MkClients {
  cl_registry : RegistryClient S;
  cl_execution : ExecutionClient S;
  cl_auth : AuthenticationClient S;
  (** [get_identity]: name and email *)
  cl_get_identity : sem S Status (string * string)
}.
Arguments cl_registry {S} _.
Arguments cl_execution {S} _.
Arguments cl_auth {S} _.
Arguments cl_get_identity {S} _.

Section main.
Context {TLS : RustTls} {HU : HttpUri}.
Inductive Transport :=
| FirmTls (endpoint : Uri) (verifier : InteractiveCertVerifier)
| UnixSocket (path : string)
| NamedPipe (path : string)
| SystemTls (endpoint : Uri).
(** What is sent over a transport is encrypted. *)
Definition encrypted (t : Transport) : bool := match t with FirmTls _ _ | SystemTls _ => true | _ => false end.

Record Network (S : Type) := MkNetwork {
  nw_connect : Transport -> sem S string unit;
  (** the clients over an open transport, with the authorization they send *)
  nw_clients : Transport -> option string -> Clients S
}.
Arguments nw_connect {S} _ _.
Arguments nw_clients {S} _ _ _.

Variable os : ClientOs.
Variable start_error_text : StartError -> string.

Definition firm_verifier (uri : Uri) : result BendiniError InteractiveCertVerifier :=
  data_path ← ok_or (ConnectionError (uri_text uri) "Failed to determine user data path for saving accepted certs")
                (user_data_path os);
  _ ← map_err (fun e => ConnectionError (uri_text uri) ("Failed to create user data path for saving accepted certs: " +:+ e))
        (co_create_dir_all os data_path);
  certs ← map_err (fun e => ConnectionError (uri_text uri) ("Failed to load system CA roots: " +:+ e)) (co_native_certs os);
  map_err (fun e => ConnectionError (uri_text uri) ("Failed to create internal cert verifier: " +:+ start_error_text e))
    (verifier_new (path_join data_path "cert-bundle.pem") certs (co_terminal os)).
Definition firm_uri (uri : Uri) : string :=
  "https://" +:+ default EmptyString (uri_authority uri) +:+
  (match uri_authority uri with
   | Some a => if authority_port a then EmptyString else ":1939"
   | None => ":1939"
   end) +:+ default EmptyString (uri_path_and_query uri).
Definition pipe_path (uri : Uri) : string :=
  "\\" +:+ default "." (uri_host uri) +:+ str_replace "/" "\" (uri_path uri).
(** The transport for a uri, up to opening it. *)
Definition transport_of (uri : Uri) : result BendiniError Transport :=
  match uri_scheme_str uri, co_platform os with
  | None, _ | Some "firm", _ =>
      verifier ← firm_verifier uri;
      endpoint ← map_err (fun e => ConnectionError (uri_text uri) ("Cannot construct firm:// URI: " +:+ e))
                   (uri_parse (firm_uri uri));
      Ok (FirmTls endpoint verifier)
  | Some "unix", Unix => Ok (UnixSocket (uri_path uri))
  | Some "windows", Windows => Ok (NamedPipe (pipe_path uri))
  | Some _, _ => Ok (SystemTls uri)
  end.
(** Opening a pipe is tried again while it is busy; [fuel] is the number of tries. *)
Fixpoint open_pipe (fuel attempt : nat) (path : string) : result (client_end string) unit :=
  match fuel with
  | O => Err Hang
  | S fuel =>
      match co_open_pipe os path attempt with
      | PipeOpened => Ok tt
      | PipeFailed e => Err (Fault e)
      | PipeBusy => open_pipe fuel (Datatypes.S attempt) path
      end
  end.

Context {S : Type}.
Variable net : Network S.
Variable pipe_tries : nat.
Abbreviation command := (sem S (client_end BendiniError)).

Definition open_transport (uri : Uri) (t : Transport) : command unit :=
  let failed := ConnectionError (uri_text uri) in
  match t with
  | NamedPipe path =>
      _ ← sem_lift (fault_with failed (open_pipe pipe_tries 0 path));
      call failed (nw_connect net t)
  | _ => call failed (nw_connect net t)
  end.
(** [connect]: the channel, and whether credentials are to be acquired. *)
Definition connect (uri : Uri) : command (Transport * bool) :=
  t ← sem_lift (fault (transport_of uri));
  _ ← open_transport uri t;
  mret (t, encrypted t).

(** ** Credentials *)
Variable open_browser : string -> result string (bool * option Z).
(** [MetadataValue::from_str] *)
Variable metadata_parse : string -> result string string.
Definition scope_of (uri : Uri) : string :=
  default "localhost"
    (a ← uri_authority uri;
     if authority_port a then fst <$> rsplit_once ":"%char a else Some a).
Definition bearer_of (token : string) : result BendiniError string :=
  map_err (fun e => InvalidOauthToken ("Failed to convert oauth token to metadata value: " +:+ e)) (metadata_parse ("bearer " +:+ token)).
Definition credentials (auth_client : AuthenticationClient S) (uri : Uri) : command (option string) :=
  fun s =>
    match with_login open_browser auth_client (call APIError (ac_acquire_token auth_client (scope_of uri))) s with
    | (s', Ok token) => (s', Some <$> fault (bearer_of token))
    | (s', Err (Fault _)) => (s', Ok None)
    | (s', Err e) => (s', Err e)
    end.

(** ** Commands *)
Context {UT : UnicodeTables} {HO : HashOrder} {UR : UrlLib} {PR : Presentation}.
Variable mos : ManifestOs.
Variable display_status : Status -> string.
(** An attachment's content posted to another server (url, token, body). *)
Variable http_post : string -> option string -> list byte -> sem S string unit.
Variable file_open : string -> result string FileHandle.
(** Fuel of uploads and of the search for a request, and the chunks of output that
    arrive while the function runs. *)
Variables upload_fuel search_fuel arrived : nat.

Inductive Answer :=
| Shown (text : string)
| Registered (f : Function_)
| Printed (lines : list Line)
| Requests (shown : string) (more : bool)
| Decision (a : ApprovalAnswer).
Definition println (text : result panic string) : result (client_end BendiniError) Answer :=
  map_err (fun _ => Panic) ((fun s => Shown (writeln s)) <$> text).
(** The publisher of a registration: what the command line leaves out is asked for. *)
Definition publisher_of (identity : sem S Status (string * string)) (name email : option string) : command (string * string) :=
  match name, email with
  | Some name, Some email => mret (name, email)
  | _, _ =>
      '(own_name, own_email) ← call APIError identity;
      mret (default own_name name, default own_email email)
  end.
Definition auth_dispatch (auth_client : AuthenticationClient S) (cmd : AuthCommand) : command Answer :=
  match cmd with
  | AuthList subject_filter include_approved ordering =>
      '(requests, more) ← auth_list auth_client subject_filter include_approved ordering;
      text ← sem_lift (map_err (fun _ => Panic) (requests_text requests));
      mret (Requests text more)
  | Approve id => a ← approval auth_client search_fuel true id; mret (Decision a)
  | Decline id => a ← approval auth_client search_fuel false id; mret (Decision a)
  end.
Definition dispatch (host : Clients S) (auth : Clients S) (cmd : Command) : command Answer :=
  match cmd with
  | List format => fs ← list_functions (cl_registry host); sem_lift (println (functions_text format fs))
  | ListVersions name format => fs ← list_versions (cl_registry host) name; sem_lift (println (functions_text format fs))
  | Register manifest publisher_name publisher_email =>
      '(name, email) ← publisher_of (cl_get_identity auth) publisher_name publisher_email;
      f ← register_run (cl_registry host) (cl_auth auth) display_status http_post file_open mos upload_fuel manifest name email;
      mret (Registered f)
  | Run function_id arguments follow_output =>
      '(lines, ended) ← run (cl_registry host) (cl_execution host) function_id arguments follow_output arrived;
      _ ← sem_lift (fault ended);
      mret (Printed lines)
  | Get function_id => f ← get_run (cl_registry host) function_id; sem_lift (println (function_text Long f))
  | ListRuntimes name =>
      rs ← list_runtimes_run (cl_execution host) (default EmptyString name);
      mret (Shown (writeln "Listing runtimes" +:+ lines_of (fun r => writeln (runtime_text Long r)) rs))
  | Auth cmd => auth_dispatch (cl_auth auth) cmd
  end.

(** ** [run] and [main] *)
Definition auth_transport (args : BendiniArgs) (t : Transport) : command Transport :=
  endpoint ← sem_lift (fault (map_err InvalidUri (uri_parse (ba_auth_host args))));
  if bool_decide (ba_host args = ba_auth_host args) then mret t
  else '(channel, _) ← connect endpoint; mret channel.
Definition run_over (args : BendiniArgs) (host : Uri) (t auth_t : Transport) (acquire_credentials : bool) : command Answer :=
  let auth := nw_clients net auth_t None in
  bearer ← (if acquire_credentials then credentials (cl_auth auth) host else mret None);
  with_login open_browser (cl_auth auth) (dispatch (nw_clients net t bearer) auth (ba_cmd args)).
Definition bendini_run (args : BendiniArgs) : command Answer :=
  host ← sem_lift (fault (map_err InvalidUri (uri_parse (ba_host args))));
  '(t, acquire_credentials) ← connect host;
  auth_t ← auth_transport args t;
  run_over args host t auth_t acquire_credentials.
(** How the process ends: with an exit code, by a panic, or not at all. *)
Definition bendini_main (args : BendiniArgs) : S -> S * result (client_end string) Z :=
  fun s => match bendini_run args s with
           | (s', Ok _) => (s', Ok 0%Z)
           | (s', Err (Fault e)) => (s', Ok (exit_code e))
           | (s', Err Panic) => (s', Err Panic)
           | (s', Err Hang) => (s', Err Hang)
           end.
End main.
Arguments nw_connect {TLS HU S} _ _.
Arguments nw_clients {TLS HU S} _ _ _.
