(* ===== verification/BendiniMainProps.v ===== *)
(** * Properties of the client's main function

    Which requests a run of the client makes, over which connections, to whom it
    posts attachments, and which of them carry a token ([token_stays_with_host]); and that the refusal of a front
    end that speaks no gRPC logs the user in ([front_end_logs_in]). *)
From S2P Require Import Prelude Interfaces Proto Stream Regex Text Registry Config Tokens TokenStore KeyStore ExpireMap Access Executor Bendini BendiniRegister BendiniRun BendiniFormat BendiniAuth CertVerifier BendiniFormatProps BendiniMain.
From stdpp Require Import relations.
From Stdlib Require Import Ascii.

(** ** Code that changes the servers by steps of a relation only *)
Section moves.
Context {S : Type} (R : S -> S -> Prop).
Definition moves {E A} (m : sem S E A) : Prop := forall s, rtc R s (m s).1.
Lemma moves_lift {E A} (r : result E A) : moves (sem_lift r).
Proof. by intros s. Qed.
Lemma moves_ret {E A} (a : A) : moves (mret a : sem S E A).
Proof. by intros s. Qed.
Lemma moves_bind {E A B} (m : sem S E A) (f : A -> sem S E B) : moves m -> (forall a, moves (f a)) -> moves (m ≫= f).
Proof.
  intros Hm Hf s. unfold mbind, sem_bind. specialize (Hm s). destruct (m s) as [s' [a|e]]; [|done].
  etrans; [exact Hm|apply Hf].
Qed.
Lemma moves_bind_at {E A B} (m : sem S E A) (f : A -> sem S E B) :
  moves m -> (forall a s s', m s = (s', Ok a) -> moves (f a)) -> moves (m ≫= f).
Proof.
  intros Hm Hf s. unfold mbind, sem_bind. specialize (Hm s). destruct (m s) as [s' [a|e]] eqn:E'; [|done].
  etrans; [exact Hm|exact (Hf a s s' E' s')].
Qed.
Lemma moves_call {E F A} (f : F -> E) (m : sem S F A) : moves m -> moves (call f m).
Proof. intros Hm s. specialize (Hm s). unfold call. by destruct (m s). Qed.
Lemma moves_step {E A} (m : sem S E A) : (forall s, R s (m s).1) -> moves m.
Proof. intros H s. by apply rtc_once. Qed.
(** The answer of a piece of code changed. *)
Lemma moves_answer {E F A B} (m : sem S E A) (f : result E A -> result F B) :
  moves m -> moves (fun s => let '(s', r) := m s in (s', f r)).
Proof. intros Hm s. specialize (Hm s). by destruct (m s). Qed.
End moves.
Lemma moves_mono {S E A} (R R' : S -> S -> Prop) (m : sem S E A) :
  (forall s s', R s s' -> R' s s') -> moves R m -> moves R' m.
Proof. intros HR Hm s. eapply rtc_subrel; [|apply Hm]. intros x y. apply HR. Qed.
(** Statement by statement. *)
Ltac moves :=
  repeat lazymatch goal with
    | |- moves _ (sem_lift _) => apply moves_lift
    | |- moves _ (mret _) => apply moves_ret
    | |- moves _ (_ ≫= _) => apply moves_bind; [|intros ?]
    | |- moves _ (call _ _) => apply moves_call
    | |- moves _ (match ?x with _ => _ end) => destruct x
    | |- moves _ (fun _ => _) => apply moves_answer
    end.

(** ** Requests *)

(** One request of the clients over a connection. *)
Inductive served {S} (c : Clients S) (s : S) : S -> Prop :=
| served_list f : served c s (rc_list (cl_registry c) f s).1
| served_list_versions f : served c s (rc_list_versions (cl_registry c) f s).1
| served_get f : served c s (rc_get (cl_registry c) f s).1
| served_register f : served c s (rc_register (cl_registry c) f s).1
| served_register_attachment a : served c s (rc_register_attachment (cl_registry c) a s).1
| served_upload st m : served c s (uc_receive (rc_upload_streamed_attachment (cl_registry c)) st m s).1
| served_uploaded st : served c s (uc_finish (rc_upload_streamed_attachment (cl_registry c)) st s).1
| served_queue p : served c s (xc_queue_function (cl_execution c) p s).1
| served_run id : served c s (xc_run_function (cl_execution c) id s).1
| served_output id : served c s (xc_function_output (cl_execution c) id s).1
| served_runtimes n : served c s (xc_list_runtimes (cl_execution c) n s).1
| served_token scope : served c s (ac_acquire_token (cl_auth c) scope s).1
| served_login : served c s (ac_login (cl_auth c) s).1
| served_requests p : served c s (ac_list_requests (cl_auth c) p s).1
| served_approve a : served c s (ac_approve (cl_auth c) a s).1
| served_identity : served c s (cl_get_identity c s).1.

(** The posts of attachments: to an https upload URL that the host named when it
    registered an attachment, with the content of a file, and with no token or, if
    the host asks for one, the one the authentication server gave for the name of
    the URL's host. *)
Definition posted {S} `{UrlLib} (file_open : string -> result string FileHandle) (host auth : Clients S)
    (url : string) (token : option string) (body : list byte) : Prop :=
  exists data s0 s1 handle upload_url u path file,
    rc_register_attachment (cl_registry host) data s0 = (s1, Ok handle) /\ ah_upload_url handle = Some upload_url /\
    au_url upload_url = url /\ url_parse url = Ok u /\ url_scheme u = "https" /\
    file_open path = Ok file /\ fh_read_to_end file = Ok body /\
    (token = None \/
     exists t s2 s3, AuthMethod_from_i32 (au_auth_method upload_url) = Some AMOauth2 /\
       ac_acquire_token (cl_auth auth) (default "localhost" (url_host u)) s2 = (s3, Ok t) /\ token = Some t).

Section commands.
Context {TLS : RustTls} {HU : HttpUri} {UT : UnicodeTables} {HO : HashOrder} {UR : UrlLib} {PR : Presentation}.
Context {S : Type} (R : S -> S -> Prop).
Variables host auth : Clients S.
Hypothesis host_allowed : forall s s', served host s s' -> R s s'.
Hypothesis auth_allowed : forall s s', served auth s s' -> R s s'.
Variable file_open : string -> result string FileHandle.
Variable http_post : string -> option string -> list byte -> sem S string unit.
Hypothesis post_allowed : forall url token body s, posted file_open host auth url token body -> R s (http_post url token body s).1.
Ltac request := apply moves_step; intros ?; first [apply host_allowed; constructor | apply auth_allowed; constructor].
Ltac requests := moves; try first [assumption | request].

Lemma login_moves open_browser : moves R (login open_browser (cl_auth auth)).
Proof. unfold login. requests. Qed.
Lemma with_login_moves {A} open_browser (f : sem S (client_end BendiniError) A) :
  moves R f -> moves R (with_login open_browser (cl_auth auth) f).
Proof.
  intros Hf s. unfold with_login. pose proof (Hf s) as Hs. destruct (f s) as [s' [a|[[]| |]]]; try done. cbn in Hs.
  case_bool_decide; [|done]. etrans; [exact Hs|]. apply (moves_bind R); [apply login_moves|by intros _].
Qed.
Lemma stream_moves fuel id name file st stream taken s :
  rtc R s (upload_messages fuel id name file (rc_upload_streamed_attachment (cl_registry host)) st stream taken s).1.
Proof.
  assert (forall st taken s, rtc R s (let '(s', r) := uc_finish (rc_upload_streamed_attachment (cl_registry host)) st s in
    (s', Some (taken, r)) : S * option (nat * result Status unit)).1) as Hfinish.
  { intros st' taken' s'. assert (rtc R s' (uc_finish (rc_upload_streamed_attachment (cl_registry host)) st' s').1) as H
      by (apply rtc_once, host_allowed; constructor). by destruct (uc_finish _ st' s'). }
  revert st stream taken s. induction fuel as [|fuel IH]; intros st [uploaded|] taken s; cbn [upload_messages]; try done.
  destruct (next_chunk _ _ _ _) as [[m stream]|e]; [|done].
  assert (rtc R s (uc_receive (rc_upload_streamed_attachment (cl_registry host)) st m s).1) as H
    by (apply rtc_once, host_allowed; constructor).
  destruct (uc_receive _ st m s) as [s' [st'|r]]; [|done]. etrans; [exact H|apply IH].
Qed.
Lemma build_auth_moves u : moves R (build_auth (cl_auth auth) u).
Proof.
  intros s. unfold build_auth. destruct (AuthMethod_from_i32 _) as [[]|]; try done. destruct (url_parse _) as [url|]; [|done].
  assert (rtc R s (ac_acquire_token (cl_auth auth) (default "localhost" (url_host url)) s).1) as H
    by (apply rtc_once, auth_allowed; constructor). by destruct (ac_acquire_token _ _ s) as [s' []].
Qed.
Lemma build_auth_token upload_url u s s' token :
  url_parse (au_url upload_url) = Ok u -> build_auth (cl_auth auth) upload_url s = (s', Ok token) ->
  token = None \/
  exists t s2 s3, AuthMethod_from_i32 (au_auth_method upload_url) = Some AMOauth2 /\
    ac_acquire_token (cl_auth auth) (default "localhost" (url_host u)) s2 = (s3, Ok t) /\ token = Some t.
Proof.
  intros Hu. unfold build_auth. rewrite Hu. destruct (AuthMethod_from_i32 _) as [[]|]; try (intros [= _ <-]; by left).
  destruct (ac_acquire_token _ _ s) as [s1 [t|]] eqn:Ht; intros [= _ <-]; [right|by left]. by exists t, s, s1.
Qed.
Lemma upload_moves display_status fuel a :
  moves R (register_and_upload_attachment (cl_registry host) (cl_auth auth) display_status http_post file_open fuel a).
Proof.
  unfold register_and_upload_attachment. apply moves_bind_at; [apply moves_call; request|]. intros handle s0 s1 Hreg.
  unfold call in Hreg. destruct (rc_register_attachment _ _ s0) as [s1' [h|]] eqn:Hh; [|done].
  cbn [map_err] in Hreg. injection Hreg as -> ->.
  apply moves_bind_at; [apply moves_lift|]. intros file s2 s2' [= _ Hfile%map_err_Ok%map_err_Ok].
  apply moves_bind; [apply moves_lift|]. intros size.
  apply moves_bind_at; [apply moves_lift|]. intros upload_url s3 s3' [= _ Hurl%map_err_Ok%ok_or_Ok].
  apply moves_bind_at; [apply moves_lift|]. intros u s4 s4' [= _ Hu%map_err_Ok%map_err_Ok].
  apply moves_bind; [apply moves_lift|]. intros id.
  apply moves_bind; [|intros _; apply moves_ret].
  case_bool_decide; [|case_bool_decide as Hs; [|apply moves_lift]].
  - intros s. unfold upload_via_grpc. cbv zeta. pose proof (stream_moves fuel id (ad_name (ai_request a)) file
      (uc_start (rc_upload_streamed_attachment (cl_registry host))) (Some 0) 0 s) as Hm.
    by destruct (upload_messages _ _ _ _ _ _ _ _ s) as [s' [[taken []]|]].
  - unfold upload_via_http. apply moves_bind_at; [apply moves_lift|]. intros body s5 s5' [= _ Hbody%map_err_Ok%map_err_Ok].
    apply moves_bind_at; [apply build_auth_moves|]. intros token s6 s6' Htoken.
    apply moves_call, moves_step. intros s. apply post_allowed.
    exists (ai_request a), s0, s1, handle, upload_url, u, (ai_path a), file. split_and!; try done.
    by apply (build_auth_token _ _ s6 s6').
Qed.
Lemma register_moves display_status mos fuel m n e :
  moves R (register_run (cl_registry host) (cl_auth auth) display_status http_post file_open mos fuel m n e).
Proof.
  assert (forall l, moves R (upload_all (cl_registry host) (cl_auth auth) display_status http_post file_open fuel l)) as Hall.
  { induction l as [|a l IH]; cbn [upload_all]; moves; [apply upload_moves|exact IH]. }
  unfold register_run, upload_code, upload_attachments. requests; [apply upload_moves|apply Hall].
Qed.
Lemma run_moves id args follow arrived : moves R (run (cl_registry host) (cl_execution host) id args follow arrived).
Proof. unfold run, input_values, output_stream, run_following. requests. Qed.
Lemma approval_moves fuel b id : moves R (approval (cl_auth auth) fuel b id).
Proof.
  assert (forall hits, moves R (find_hits (cl_auth auth) fuel id hits)) as Hf.
  { induction fuel as [|fuel IH]; intros hits; cbn [find_hits]; requests. apply IH. }
  unfold approval, send_decision, list_internal in *. requests; apply Hf.
Qed.
Lemma dispatch_moves mos display_status uf sf arrived cmd :
  moves R (dispatch mos display_status http_post file_open uf sf arrived host auth cmd).
Proof.
  destruct cmd; cbn [dispatch]; unfold list_functions, list_versions, list_runtimes_run, get_run, publisher_of;
    requests; [apply register_moves|apply run_moves|].
  unfold auth_dispatch, auth_list, list_internal. requests; apply approval_moves.
Qed.
End commands.

(** ** A whole run *)
Section whole.
Context {TLS : RustTls} {HU : HttpUri} {UT : UnicodeTables} {HO : HashOrder} {UR : UrlLib} {PR : Presentation}.
Variables (os : ClientOs) (start_error_text : StartError -> string).
Context {S : Type}.
Variables (net : Network S) (pipe_tries : nat) (open_browser : string -> result string (bool * option Z)).
Variable metadata_parse : string -> result string string.
Variables (mos : ManifestOs) (display_status : Status -> string).
Variables (http_post : string -> option string -> list byte -> sem S string unit) (file_open : string -> result string FileHandle).
Variables upload_fuel search_fuel arrived : nat.
#[local] Abbreviation transport := (transport_of os start_error_text).
#[local] Abbreviation main_run :=
  (bendini_run os start_error_text net pipe_tries open_browser metadata_parse mos display_status http_post file_open
     upload_fuel search_fuel arrived).

(** The server at an address of the command line. *)
Definition located (address : string) (u : Uri) (t : Transport) : Prop := uri_parse address = Ok u /\ transport u = Ok t.
(** The authorization sent to a host over a connection: none, or over an encrypted one
    the token that the authentication server at the other address gave for the
    host's name. *)
Definition carries (auth_address : string) (host : Uri) (t : Transport) (bearer : option string) : Prop :=
  bearer = None \/
  exists auth_uri auth_t token s0 s1 b,
    encrypted t = true /\ located auth_address auth_uri auth_t /\
    ac_acquire_token (cl_auth (nw_clients net auth_t None)) (scope_of host) s0 = (s1, Ok token) /\
    metadata_parse ("bearer " +:+ token) = Ok b /\ bearer = Some b.
(** What a run may do: connect to the two servers of the command line, ask the
    authentication server without a token, ask the host with the authorization
    it may have, and post attachments where the host wants them. *)
Inductive permitted (args : BendiniArgs) (s : S) : S -> Prop :=
| to_connect address u t : address = ba_host args \/ address = ba_auth_host args -> located address u t ->
    permitted args s (nw_connect net t s).1
| to_auth u t s' : located (ba_auth_host args) u t -> served (nw_clients net t None) s s' -> permitted args s s'
| to_host u t bearer s' : located (ba_host args) u t -> carries (ba_auth_host args) u t bearer ->
    served (nw_clients net t bearer) s s' -> permitted args s s'
| to_upload u t bearer auth_uri auth_t url token body :
    located (ba_host args) u t -> carries (ba_auth_host args) u t bearer -> located (ba_auth_host args) auth_uri auth_t ->
    posted file_open (nw_clients net t bearer) (nw_clients net auth_t None) url token body ->
    permitted args s (http_post url token body s).1.

Lemma with_login_Ok {A} auth_client (f : sem S (client_end BendiniError) A) s s' a :
  with_login open_browser auth_client f s = (s', Ok a) -> exists s0, f s0 = (s', Ok a).
Proof.
  unfold with_login. destruct (f s) as [s1 [b|[[]| |]]] eqn:Hf; try done.
  - intros [= -> ->]. by exists s.
  - case_bool_decide; [|done]. intros (s2 & ? & _ & Hagain)%sem_bind_Ok. by exists s2.
Qed.
Lemma credentials_given (auth_client : AuthenticationClient S) uri s s' b :
  credentials open_browser metadata_parse auth_client uri s = (s', Ok (Some b)) ->
  exists token s0 s1, ac_acquire_token auth_client (scope_of uri) s0 = (s1, Ok token) /\
    metadata_parse ("bearer " +:+ token) = Ok b.
Proof.
  unfold credentials. destruct (with_login _ _ _ s) as [s1 [token|[]]] eqn:Hw; try done.
  intros [= _ Hb]. apply with_login_Ok in Hw as [s0 Hc]. unfold call in Hc.
  destruct (ac_acquire_token _ _ s0) as [s2 [token'|]] eqn:Ha; [|done]. injection Hc as -> ->.
  exists token, s0, s1. split; [done|]. unfold bearer_of in Hb. by destruct (metadata_parse _); [injection Hb as ->|].
Qed.
Lemma credentials_moves (R : S -> S -> Prop) (auth : Clients S) uri :
  (forall s s', served auth s s' -> R s s') -> moves R (credentials open_browser metadata_parse (cl_auth auth) uri).
Proof.
  intros HR s. unfold credentials.
  assert (moves R (with_login open_browser (cl_auth auth) (call APIError (ac_acquire_token (cl_auth auth) (scope_of uri))))) as Hm.
  { apply (with_login_moves R auth HR). apply moves_call, moves_step. intros s'. apply HR. constructor. }
  specialize (Hm s). by destruct (with_login _ _ _ s) as [s' [|[]]].
Qed.
Lemma open_moves args address u t :
  address = ba_host args \/ address = ba_auth_host args -> located address u t ->
  moves (permitted args) (open_transport os net pipe_tries u t).
Proof.
  intros Ha Hu. assert (moves (permitted args) (nw_connect net t)) as Hc
    by (apply moves_step; intros s; by eapply to_connect).
  unfold open_transport. destruct t; moves; exact Hc.
Qed.
Lemma connect_moves args address u : address = ba_host args \/ address = ba_auth_host args -> uri_parse address = Ok u ->
  moves (permitted args) (connect os start_error_text net pipe_tries u).
Proof.
  intros Ha Hp. unfold connect. apply moves_bind_at; [apply moves_lift|]. intros t s s' [= _ Ht].
  destruct (transport u) as [t'|] eqn:Hu; [injection Ht as <-|done]. moves. by eapply open_moves.
Qed.
Lemma connect_Ok u s s' t acquire : connect os start_error_text net pipe_tries u s = (s', Ok (t, acquire)) ->
  transport u = Ok t /\ acquire = encrypted t.
Proof.
  intros (s1 & t' & [= _ Ht] & (s2 & ? & _ & [= _ <- <-])%sem_bind_Ok)%sem_bind_Ok.
  destruct (transport u); [by injection Ht as ->|done].
Qed.
Lemma run_over_moves args host t auth_uri auth_t acquire :
  located (ba_host args) host t -> located (ba_auth_host args) auth_uri auth_t -> acquire = encrypted t ->
  moves (permitted args)
    (run_over net open_browser metadata_parse mos display_status http_post file_open upload_fuel search_fuel arrived
       args host t auth_t acquire).
Proof.
  intros Hh Ha ->. unfold run_over.
  assert (forall s s', served (nw_clients net auth_t None) s s' -> permitted args s s') as Hauth by (intros s s'; by eapply to_auth).
  assert (forall bearer, carries (ba_auth_host args) host t bearer -> moves (permitted args)
    (with_login open_browser (cl_auth (nw_clients net auth_t None))
       (dispatch mos display_status http_post file_open upload_fuel search_fuel arrived (nw_clients net t bearer) (nw_clients net auth_t None)
          (ba_cmd args)))) as Hcmd.
  { intros bearer Hb. apply with_login_moves; [done|]. apply dispatch_moves; [|done|].
    - intros s s'. by eapply to_host.
    - intros url token body s. by eapply to_upload. }
  apply moves_bind_at; [destruct (encrypted t); [by apply credentials_moves|apply moves_ret]|].
  intros bearer s s' Hc. apply Hcmd. destruct bearer as [b|]; [right|by left].
  destruct (encrypted t) eqn:Ht; [|done]. apply credentials_given in Hc as (token & s0 & s1 & Hg & Hp).
  by exists auth_uri, auth_t, token, s0, s1, b.
Qed.
Lemma auth_transport_Ok args host t s s' auth_t :
  located (ba_host args) host t ->
  auth_transport os start_error_text net pipe_tries args t s = (s', Ok auth_t) ->
  exists auth_uri, located (ba_auth_host args) auth_uri auth_t.
Proof.
  intros [Hp Ht] (s1 & u & [= _ Hu] & H)%sem_bind_Ok. destruct (uri_parse (ba_auth_host args)) as [u'|] eqn:Ha; [|done].
  injection Hu as <-. exists u'. split; [done|]. case_bool_decide as Hsame.
  - injection H as _ <-. rewrite Hsame, Ha in Hp. by injection Hp as ->.
  - apply sem_bind_Ok in H as (s2 & [t' b] & Hc & [= _ <-]). by apply connect_Ok in Hc as [? _].
Qed.

(** C30: a run of the client makes no other requests than these.  It connects to the
    two servers of the command line, asks the authentication server without a
    token, and asks the host with a token only over an encrypted connection and
    only with the one the authentication server gave for the name of this host; a
    socket or pipe of the machine never gets a token.  Registering, it may also
    post the content of a file to an https URL that the host named for the
    attachment, with no token or, if the host asks for one, the one the
    authentication server gave for the name in that URL. *)
Theorem token_stays_with_host args s : rtc (permitted args) s (main_run args s).1.
Proof.
  revert s. fold (moves (permitted args) (main_run args)). unfold bendini_run.
  apply moves_bind_at; [apply moves_lift|]. intros host s1 s1' [= _ Hhost].
  destruct (uri_parse (ba_host args)) as [u|] eqn:Hu; [injection Hhost as <-|done].
  apply moves_bind_at; [apply (connect_moves args (ba_host args)); auto|]. intros [t acquire] s2 s2' [Ht Hacquire]%connect_Ok.
  apply moves_bind_at.
  - unfold auth_transport. apply moves_bind_at; [apply moves_lift|]. intros auth_uri s3 s3' [= _ Ha].
    destruct (uri_parse (ba_auth_host args)) as [u'|] eqn:Hu'; [injection Ha as <-|done].
    case_bool_decide; moves. apply (connect_moves args (ba_auth_host args)); auto.
  - intros auth_t s3 s3' Hauth. destruct (auth_transport_Ok args u t s3 s3' auth_t ltac:(by split) Hauth) as [auth_uri Hloc].
    by apply (run_over_moves args u t auth_uri).
Qed.
End whole.

(** ** Front ends *)

(** The page of a front end that wants a login is taken for the refusal of the
    server: the user logs in and the command is run again. *)
Lemma front_end_logs_in {S A} open_browser (auth_client : AuthenticationClient S) status_text headers_text
    (request : sem S Status HttpResponse) (read : HttpResponse -> result Status A) s s1 r c :
  request s = (s1, Ok r) -> hr_status r = 401%N \/ hr_status r = 403%N ->
  hr_content_type r = Some c -> str_contains "application/grpc" c = false ->
  let command := call APIError (intercepted status_text headers_text request read) in
  with_login open_browser auth_client command s = (_ ← login open_browser auth_client; command) s1.
Proof.
  intros Hr Hst Hc Hgrpc command. unfold with_login.
  assert (command s = (s1, Err (Fault (APIError (MkStatus CUnauthenticated
    (default EmptyString (default EmptyString ∘ header_to_str <$> hr_www_authenticate r))))))) as ->; [|by rewrite bool_decide_eq_true_2].
  unfold command, call, intercepted, intercept. rewrite (sem_bind_run _ _ _ _ _ Hr), Hc. cbn [fmap option_fmap option_map].
  assert (str_contains "application/grpc" (default EmptyString (header_to_str c)) = false) as ->
    by (unfold header_to_str; by destruct (forallb _ _)).
  by rewrite bool_decide_eq_true_2.
Qed.

(** ** A concrete run *)
Module MainExamples.
#[local] Existing Instance ascii_tables.
#[local] Existing Instance key_order.
#[local] Existing Instance Concrete.text_url.
#[local] Existing Instance CertVerifier.SelfSigned.names_tls.
#[local] Existing Instance BendiniFormatProps.FormatExamples.plainly.
Definition until_slash (s : string) : string * string :=
  match split_at "/" s with Some (a, b) => (a, String "/" b) | None => (s, EmptyString) end.
#[local] Instance plain_uris : HttpUri := {|
  Uri := option string * string * string;
  uri_parse s := match s with
                 | EmptyString => Err "empty string"
                 | _ => match split_at ":" s with
                        | Some (scheme, String "/" (String "/" rest)) => Ok (Some scheme, (until_slash rest).1, (until_slash rest).2)
                        | _ => Ok (None, s, EmptyString)
                        end
                 end;
  uri_text u := u.1.2 +:+ u.2;
  uri_scheme_str u := u.1.1;
  uri_authority u := Some u.1.2;
  authority_port a := str_contains ":" a;
  uri_host u := Some u.1.2;
  uri_path u := u.2;
  uri_path_and_query u := Some u.2
|}.
Definition machine : ClientOs :=
  MkClientOs Unix (fun v => if bool_decide (v = "HOME") then Some "/home/ada" else None) (Some "ada") (fun _ => Ok tt) (Ok [])
    (MkTerminal ∅ None (fun s => Ok (str_len s)) [] []) (fun _ _ => PipeFailed "no pipes").
(** Servers that write down what they are asked, and with which authorization. *)
Definition noted {A} (what : string) (bearer : option string) (a : result Status A) : sem (list string) Status A :=
  fun log => (log ++ [what +:+ default EmptyString ((fun b => " with " +:+ b) <$> bearer)], a).
Definition nothing {A} : result Status A := Err (MkStatus CUnknown EmptyString).
Definition where_to (t : Transport) : string :=
  match t with FirmTls u _ => "tls " +:+ u.1.2 | UnixSocket p => p | NamedPipe p => p | SystemTls u => "tls " +:+ u.1.2 end.
(** The host keeps attachments elsewhere, where a token is wanted. *)
Definition storage_url := MkAttachmentUrl "https://storage/1" (AuthMethod_to_i32 AMOauth2).
Definition books : Network (list string) := {|
  nw_connect t := fun log => (log, Ok tt);
  nw_clients t bearer :=
    let ask A what (a : result Status A) := noted (where_to t +:+ " " +:+ what) bearer a in
    MkClients _
      (MkRegistryClient _ (fun _ => ask _ "list" (Ok [])) (fun _ => ask _ "list_versions" (Ok [])) (fun _ => ask _ "get" nothing)
         (fun _ => ask _ "register" nothing)
         (fun _ => ask _ "attachment" (Ok (MkAttachmentHandle (Some (MkAttachmentId "#1")) (Some storage_url))))
         (MkUploadCall _ unit tt (fun _ _ log => (log ++ ["chunk"], inl tt)) (fun _ => ask _ "upload" (Ok tt)) (fun _ => 0)))
      (MkExecutionClient _ (fun _ => ask _ "queue" nothing) (fun _ => ask _ "run" nothing) (fun _ => ask _ "output" nothing)
         (fun _ => ask _ "runtimes" (Ok [])))
      (MkAuthenticationClient _ (fun scope => ask _ ("token for " +:+ scope) (Ok ("t-" +:+ scope))) (ask _ "login" (Ok []))
         (fun _ => ask _ "requests" (Ok [])) (fun _ => ask _ "approve" nothing))
      (ask _ "identity" (Ok ("Ada", "ada@host")))
|}.
Definition post (url : string) (token : option string) (body : list byte) : sem (list string) string unit :=
  fun log => (log ++ ["post to " +:+ url +:+ default EmptyString ((fun t => " with " +:+ t) <$> token)], Ok tt).
Definition code_file : FileHandle := MkFileHandle (Ok 4%N) (fun _ => Ok (bytes_of "code")) (Ok (bytes_of "code")).
Definition project := MkManifest "sum-it" EmptyString EmptyString EmptyString "1" ∅ ∅ (MkManifestRuntime "wasi" "main" ∅) ∅ ∅
  (Some (MkManifestAttachment "code.wasm" ∅ (MkManifestChecksums "code"))).
Definition project_os := MkManifestOs (fun _ => false) Ok (fun _ => Ok "toml") (fun _ => Ok project).
Abbreviation bendini args := (bendini_run machine (fun _ => "refused") books 1 (fun _ => Ok (true, None)) Ok project_os st_message post
  (fun _ => Ok code_file) 1 1 0 args).
Definition list_at (host : string) : list string * result (client_end BendiniError) Answer :=
  bendini (MkBendiniArgs host (bendini_host_default machine) (List Long)) [].
Definition registration := MkBendiniArgs "firm://registry" (bendini_host_default machine)
  (Register "/m/manifest.toml" (Some "Ada") (Some "ada@host")).
(** Registering at a host that keeps attachments elsewhere: the post carries the
    token for the storage, not the one for the registry. *)
Lemma token_stays_with_host_witness :
  (bendini registration []).1 =
    ["/tmp/avery-ada.sock token for registry"; "tls registry:1939 attachment with bearer t-registry";
     "/tmp/avery-ada.sock token for https://storage/1"; "post to https://storage/1 with t-https://storage/1";
     "tls registry:1939 register with bearer t-registry"] /\
  rtc (permitted machine (fun _ => "refused") books Ok post (fun _ => Ok code_file) registration) []
    (bendini registration []).1.
Proof.
  split; [vm_compute; reflexivity|].
  exact (token_stays_with_host machine (fun _ => "refused") books 1 (fun _ => Ok (true, None)) Ok project_os st_message post
    (fun _ => Ok code_file) 1 1 0 registration []).
Defined.
Example remote_host :
  list_at "firm://registry" =
    (["/tmp/avery-ada.sock token for registry"; "tls registry:1939 list with bearer t-registry"], Ok (Shown newline)).
Proof. vm_compute. reflexivity. Qed.
Example own_server :
  list_at (bendini_host_default machine) = (["/tmp/avery-ada.sock list"], Ok (Shown newline)).
Proof. vm_compute. reflexivity. Qed.
Example no_user :
  exit_code (InvalidUri "empty string") = 11%Z /\ list_at EmptyString = ([], Err (Fault (InvalidUri "empty string"))).
Proof. vm_compute. split; reflexivity. Qed.
(** Only the host's name is left of the authority of a uri, with what is in front of it. *)
Example scope_keeps_user_info : scope_of (Some "firm", "ada@registry:1939", EmptyString) = "ada@registry".
Proof. vm_compute. reflexivity. Qed.
End MainExamples.
