(* ===== verification/FirmRust.v ===== *)
(** * The library of guests (libraries/rust/firm-rust/src/lib.rs)

    What a function written in Rust calls to get its inputs, set its outputs, map
    attachments and start processes on the host.  A piece of guest code is a
    [guest] computation: it works on the guest's memory and calls the host through
    the calls of [Wasi.api_call], and builds the tree that [Wasi.run_guest] runs
    against the host, whatever follows it.

    Where the compiled code puts its values, stack slots and vectors alike, is the
    class [GuestHeap]. *)
From S2P Require Import Prelude Interfaces Proto Stream Registry Executor Download WasmMemory WasiHost Wasi.

(** ** Errors *)
Inductive GuestError :=
| FailedToDecodeResult (e : string)
| FailedToEncodeOutputValue (e : string)
| HostError (ec : N)
| HostChannelNotFound
| FailedToFindRequiredInput (key : string)
| ConversionError (e : ChannelConversionError)
| StringConversionError (e : Utf8Error)
| GuestFailedToFindAttachment (name : string).

(** [ToResult for u32] *)
Definition to_result (code : N) : result GuestError unit :=
  match code with
  | 0 => Ok tt
  | 12 => Err (GuestFailedToFindAttachment EmptyString)
  | 6 => Err HostChannelNotFound
  | ec => Err (HostError ec)
  end%N.

(** ** Guest code *)

(** The heap of a guest: [alloc n m] is where [n] bytes go and the memory
    afterwards, or nothing when the memory is exhausted, which ends the guest.
    [heap live m] says that [m] is a memory with the ranges [live] in use. *)
Class GuestHeap := {
  alloc : N -> Memory -> option (Memory * N);
  heap : list WasmBuffer -> Memory -> Prop;
  heap_memory : forall live m, heap live m ->
    whole_pages m /\ (mem_size m < u32_modulus)%N /\ Forall (in_memory m) live;
  heap_less : forall live live' m, heap live m -> (forall b, b ∈ live' -> b ∈ live) -> heap live' m;
  heap_alloc : forall live m n m' p, heap live m -> alloc n m = Some (m', p) ->
    heap (MkBuffer p n :: live) m' /\ (p mod 8 = 0)%N /\
    forall b, b ∈ live ->
      buffer b m' = buffer b m /\
      (wb_ptr b + wb_len b <= p \/ p + n <= wb_ptr b)%N;
  heap_write : forall live m b content, heap live m -> b ∈ live -> (N.of_nat (length content) <= wb_len b)%N ->
    heap live (write_at (N.to_nat (wb_ptr b)) content m)
}.

Definition guest (E A : Type) : Type := (result E A -> Memory -> Guest) -> Memory -> Guest.
#[global] Instance guest_ret {E} : MRet (guest E) := fun A a k => k (Ok a).
#[global] Instance guest_bind {E} : MBind (guest E) := fun A B f c k =>
  c (fun r m => match r with Ok a => f a k m | Err e => k (Err e) m end).
Definition guest_lift {E A} (r : result E A) : guest E A := fun k m => k r m.
(** [?] with the error turned into one of [F]. *)
Definition guest_map_err {E F A} (f : E -> F) (c : guest E A) : guest F A := fun k => c (fun r => k (map_err f r)).
(** A function's body, up to its end. *)
Definition entrypoint {E A} (c : guest E A) (m : Memory) : Guest := c (fun _ _ => Exit None) m.

Fixpoint from_le_bytes (l : list byte) : N :=
  match l with [] => 0 | b :: l => byte_N b + 256 * from_le_bytes l end%N.

Section lib.
Context {GH : GuestHeap} {PC : Prost Channel} {PA : Prost Attachment} {PS : Prost StartProcessRequest}.
(** What the operating system answers during a call. *)
Variable os : HostOs.

Definition host_call (c : api_call) : guest GuestError unit :=
  fun k _ => Call os c (fun code m => k (to_result code) m).
Definition read_memory {A} (f : Memory -> A) : guest GuestError A := fun k m => k (Ok (f m)) m.
Definition write_memory (at_ : N) (content : list byte) : guest GuestError unit :=
  fun k _ => Step (write_at (N.to_nat at_) content) (fun m => k (Ok tt) m).
Definition with_capacity (n : N) : guest GuestError N :=
  fun k m => match alloc n m with
             | Some (m', p) => Step (fun _ => m') (fun m => k (Ok p) m)
             | None => Exit (Some "capacity overflow")
             end.
(** [let mut x: uN = 0], and a vector with its content. *)
Definition new_value (width : nat) : guest GuestError N :=
  p ← with_capacity (N.of_nat width);
  _ ← write_memory p (to_le_bytes width 0);
  mret p.
Definition new_vec (content : list byte) : guest GuestError WasmBuffer :=
  p ← with_capacity (N.of_nat (length content));
  _ ← write_memory p content;
  mret (MkBuffer p (N.of_nat (length content))).
Definition read_bytes (p n : N) (m : Memory) : list byte := take (N.to_nat n) (drop (N.to_nat p) m).
Definition read_value (width : nat) (p : N) : guest GuestError N :=
  read_memory (fun m => from_le_bytes (read_bytes p (N.of_nat width) m)).
(** [as usize] *)
Definition usize (n : N) : N := n mod u32_modulus.
(** A vector of [n] bytes that a call of the host fills. *)
Definition filled (n : N) (c : WasmBuffer -> api_call) : guest GuestError (list byte) :=
  p ← with_capacity n;
  _ ← host_call (c (MkBuffer p n));
  read_memory (read_bytes p n).
Definition path_from (bytes : list byte) : guest GuestError string :=
  guest_lift (map_err StringConversionError (from_utf8 bytes)).

(** ** Attachments *)
Definition map_attachment_with (attachment_name : WasmString) (unpack : bool) : guest GuestError string :=
  len ← new_value 4;
  _ ← host_call (GetPathLen attachment_name len);
  n ← read_value 4 len;
  bytes ← filled n (MapAttachment attachment_name (if unpack then 1 else 0)%N);
  path_from bytes.
Definition guest_map_attachment (attachment_name : WasmString) : guest GuestError string :=
  map_attachment_with attachment_name false.
Definition map_attachment_and_unpack (attachment_name : WasmString) : guest GuestError string :=
  map_attachment_with attachment_name true.
Definition map_descriptor_with (attachment_descriptor : Attachment) (unpack : bool) : guest GuestError string :=
  len ← new_value 4;
  value ← new_vec (prost_encode attachment_descriptor);
  _ ← host_call (GetPathLenFromDescriptor value len);
  n ← read_value 4 len;
  bytes ← filled n (MapFromDescriptor value (if unpack then 1 else 0)%N);
  path_from bytes.
Definition guest_map_from_descriptor (attachment_descriptor : Attachment) : guest GuestError string :=
  map_descriptor_with attachment_descriptor false.
Definition map_attachment_from_descriptor_and_unpack (attachment_descriptor : Attachment) : guest GuestError string :=
  map_descriptor_with attachment_descriptor true.

(** ** The host *)
Definition host_path_exists (path : WasmString) : guest GuestError bool :=
  exists_ ← new_value 1;
  _ ← host_call (PathExists path exists_);
  b ← read_value 1 exists_;
  mret (negb (b =? 0)%N).
(** [String::with_capacity(128)], cut to the length the host gives: the bytes are
    taken as they are. *)
Definition get_host_os : guest GuestError (list byte) :=
  name ← with_capacity 128;
  len ← new_value 4;
  _ ← host_call (GetOs name len);
  n ← read_value 4 len;
  read_memory (read_bytes name n).
Definition start_host_process (name : string) (args : list string) (environment : gmap string string) : guest GuestError N :=
  value ← new_vec (prost_encode (MkStartProcess name args environment));
  pid ← new_value 8;
  _ ← host_call (StartProcess value pid);
  read_value 8 pid.
(** The bits of an [i32] as a number. *)
Definition i32_of_bits (n : N) : Z := if (n <? 2147483648)%N then Z.of_N n else (Z.of_N n - 4294967296)%Z.
Definition run_host_process (name : string) (args : list string) (environment : gmap string string) : guest GuestError Z :=
  value ← new_vec (prost_encode (MkStartProcess name args environment));
  exit_code ← new_value 4;
  _ ← host_call (RunProcess value exit_code);
  code ← read_value 4 exit_code;
  mret (i32_of_bits code).

(** ** Inputs *)
Record InputValue (T : Type) := MkInputValue {
  iv_error : option GuestError; iv_channel : option Channel; iv_default_value : option T; iv_key : string }.
#[global] Arguments MkInputValue {T} _ _ _ _.
#[global] Arguments iv_error {T} _.
#[global] Arguments iv_channel {T} _.
#[global] Arguments iv_default_value {T} _.
#[global] Arguments iv_key {T} _.
Definition with_default {T} (default_value : T) (self : InputValue T) : InputValue T :=
  MkInputValue (iv_error self) (iv_channel self) (Some default_value) (iv_key self).
Definition into {T} (try_from : Channel -> result ChannelConversionError T) (self : InputValue T) : result GuestError T :=
  match iv_error self with
  | None | Some HostChannelNotFound =>
      match iv_channel self with
      | None => ok_or (FailedToFindRequiredInput (iv_key self)) (iv_default_value self)
      | Some channel => map_err ConversionError (try_from channel)
      end
  | Some e => Err e
  end.
Definition guest_get_channel (key : WasmString) : guest GuestError Channel :=
  size ← new_value 8;
  _ ← host_call (GetInputLen key size);
  n ← read_value 8 size;
  bytes ← filled (usize n) (GetInput key);
  guest_lift (map_err FailedToDecodeResult (prost_decode bytes)).
(** [get_input] for a [key] at [key_ptr]: the error becomes part of the value. *)
Definition guest_get_input {T} (key_ptr : WasmString) (key : string) : guest GuestError (InputValue T) :=
  fun k => guest_get_channel key_ptr (fun r =>
    k (Ok match r with
          | Ok channel => MkInputValue None (Some channel) None key
          | Err e => MkInputValue (Some e) None None key
          end)).

(** ** Outputs *)
Definition set_output_channel (name : WasmString) (channel : Channel) : guest GuestError unit :=
  value ← new_vec (prost_encode channel);
  host_call (SetOutput name value).
Definition guest_set_output {T} (to_channel : T -> Channel) (name : WasmString) (value : T) : guest GuestError unit :=
  set_output_channel name (to_channel value).
Definition guest_set_error (msg : WasmString) : guest GuestError unit := host_call (SetError msg).

(** ** Connections *)
Definition guest_connect (address : WasmString) : guest GuestError Z :=
  file_descriptor ← new_value 4;
  _ ← host_call (SocketConnect address file_descriptor);
  fd ← read_value 4 file_descriptor;
  mret (i32_of_bits fd).
End lib.

(** ** The context of a runtime *)
Inductive RuntimeContextError :=
| ContextFileIOError (path source : string)
| FailedToDecodeContextFile (path source : string).
Definition DEFAULT_FILE_PATH : string := "/runtime-context/context".
Section context.
Context {PR : Prost RuntimeContext}.
(** Reading a file of the guest's file system. *)
Variable fs_read : string -> result string (list byte).
Definition from_file (path : string) : result RuntimeContextError RuntimeContext :=
  bytes ← map_err (ContextFileIOError path) (fs_read path);
  map_err (FailedToDecodeContextFile path) (prost_decode bytes).
Definition from_default : result RuntimeContextError RuntimeContext := from_file DEFAULT_FILE_PATH.
End context.
