(* ===== verification/GuestCalculus.v ===== *)
(** * A calculus for guest code

    Guest code runs against a host: the runtime's ([Wasi.run_guest]) or the one of
    the tests of functions ([MockHost.run_mock]).  What both promise is the class
    [GuestRunner]; [wp] says of a piece of guest code that, run from a state, it
    exhausts the memory or ends in a state and with a result, and the lemmas of
    this file say so of the building blocks of [FirmRust], for every host. *)
From S2P Require Import Prelude Interfaces Proto Stream Registry Executor Download WasmMemory WasiHost Wasi FirmRust.

(** ** Little endian numbers *)
Lemma byte_N_of n : (n < 256)%N -> byte_N (Ascii.byte_of_ascii (Ascii.ascii_of_N n)) = n.
Proof. intros H. unfold byte_N. rewrite Ascii.ascii_of_byte_of_ascii. by apply Ascii.N_ascii_embedding. Qed.
Lemma from_to_le_bytes width v : from_le_bytes (to_le_bytes width v) = (v mod 256 ^ N.of_nat width)%N.
Proof.
  revert v. induction width as [|w IH]; intros v; [by rewrite N.mod_1_r|].
  cbn [to_le_bytes from_le_bytes]. rewrite IH, byte_N_of by (by apply N.mod_lt).
  rewrite Nat2N.inj_succ, N.pow_succ_r', N.Div0.mod_mul_r. lia.
Qed.
Lemma from_le_bytes_zeros l n : from_le_bytes (l ++ to_le_bytes n 0) = from_le_bytes l.
Proof.
  induction l as [|b l IH]; cbn; [|by rewrite IH]. induction n as [|n IH]; [done|].
  change (to_le_bytes (S n) 0) with (Corelib.Init.Byte.x00 :: to_le_bytes n 0). cbn [from_le_bytes]. by rewrite IH.
Qed.

(** ** Hosts *)

(** A host keeps a state of type [St], the memory of the guest in it; [gr_invoke]
    serves a call with a number or fails, and [gr_run] runs a guest to its end. *)
Class GuestRunner (St F : Type) := {
  gr_memory : St -> Memory;
  gr_set_memory : Memory -> St -> St;
  gr_invoke : HostOs -> api_call -> St -> St * result F N;
  gr_run : Guest -> St -> St * result F (option string);
  gr_memory_set : forall m s, gr_memory (gr_set_memory m s) = m;
  gr_set_set : forall m m' s, gr_set_memory m (gr_set_memory m' s) = gr_set_memory m s;
  gr_run_exit : forall trap s, gr_run (Exit trap) s = (s, Ok trap);
  gr_run_step : forall f next s,
    gr_run (Step f next) s = gr_run (next (f (gr_memory s))) (gr_set_memory (f (gr_memory s)) s);
  gr_run_call : forall os c next s,
    gr_run (Call os c next) s =
      match gr_invoke os c s with
      | (s', Ok code) => gr_run (next code (gr_memory s')) s'
      | (s', Err e) => (s', Err e)
      end
}.
Definition out_of_memory : string := "capacity overflow".

Section calculus.
Context {PC : Prost Channel} {PA : Prost Attachment} {PS : Prost StartProcessRequest} {GH : GuestHeap}.
Context {St F : Type} {GR : GuestRunner St F}.
Implicit Types s : St.

(** ** Running guest code *)
Definition wp {E A} (c : guest E A) (s : St) (Q : St  -> result E A -> Prop) : Prop :=
  (exists s', forall k, gr_run (c k (gr_memory s)) s = (s', Ok (Some out_of_memory))) \/
  exists s' r, (forall k, gr_run (c k (gr_memory s)) s = gr_run (k r (gr_memory s')) s') /\ Q s' r.

Lemma wp_ret {E A} (a : A) s (Q : St -> result E A -> Prop) : Q s (Ok a) -> wp (mret a) s Q.
Proof. intros H. right. exists s, (Ok a). done. Qed.
Lemma wp_lift {E A} (r : result E A) s Q : Q s r -> wp (guest_lift r) s Q.
Proof. intros H. right. exists s, r. done. Qed.
Lemma wp_bind {E A B} (c : guest E A) (f : A -> guest E B) s Q :
  wp c s (fun s' r => match r with Ok a => wp (f a) s' Q | Err e => Q s' (Err e) end) -> wp (c ≫= f) s Q.
Proof.
  intros [[s' H]|(s' & r & H & Hq)].
  - left. exists s'. intros k. apply H.
  - destruct r as [a|e].
    + destruct Hq as [[s2 H2]|(s2 & r2 & H2 & Hq2)].
      * left. exists s2. intros k. cbv [mbind guest_bind]. by rewrite H.
      * right. exists s2, r2. split; [|done]. intros k. cbv [mbind guest_bind]. by rewrite H.
    + right. exists s', (Err e). split; [|done]. intros k. cbv [mbind guest_bind]. by rewrite H.
Qed.
Lemma wp_mono {E A} (c : guest E A) s (Q Q' : St -> result E A -> Prop) :
  wp c s Q -> (forall s' r, Q s' r -> Q' s' r) -> wp c s Q'.
Proof. intros [H|(s' & r & H & Hq)] Hm; [by left|]. right. exists s', r. auto. Qed.
Lemma wp_read {A} (f : Memory -> A) s Q : Q s (Ok (f (gr_memory s))) -> wp (read_memory f) s Q.
Proof. intros H. right. exists s, (Ok (f (gr_memory s))). done. Qed.
Lemma wp_write p content s Q :
  Q (gr_set_memory (write_at (N.to_nat p) content (gr_memory s)) s) (Ok tt) -> wp (write_memory p content) s Q.
Proof. intros H. right. eexists _, (Ok tt). split; [|exact H]. intros k. unfold write_memory. by rewrite gr_run_step, gr_memory_set. Qed.
Lemma wp_call os c s s' code Q :
  gr_invoke os c s = (s', Ok code) -> Q s' (to_result code) -> wp (host_call os c) s Q.
Proof.
  intros Hc Hq. right. exists s', (to_result code). split; [|done]. intros k. unfold host_call. by rewrite gr_run_call, Hc.
Qed.
Lemma wp_entrypoint {E A} (c : guest E A) s Q :
  wp c s Q ->
  exists s' trap, gr_run (entrypoint c (gr_memory s)) s = (s', Ok trap) /\
    (trap = Some out_of_memory \/ trap = None /\ exists r, Q s' r).
Proof.
  unfold entrypoint. intros [[s' H]|(s' & r & H & Hq)].
  - exists s', (Some out_of_memory). split; [apply H|by left].
  - exists s', None. rewrite H, gr_run_exit. eauto.
Qed.

(** ** Memory *)
Definition same (live : list WasmBuffer) (m m' : Memory) : Prop := forall b, b ∈ live -> buffer b m' = buffer b m.
Definition apart (live : list WasmBuffer) (b0 : WasmBuffer) : Prop :=
  forall b, b ∈ live -> (wb_ptr b + wb_len b <= wb_ptr b0 \/ wb_ptr b0 + wb_len b0 <= wb_ptr b)%N.
Lemma same_trans live m1 m2 m3 : same live m1 m2 -> same live m2 m3 -> same live m1 m3.
Proof. intros H1 H2 b Hb. by rewrite H2, H1. Qed.

Lemma heap_in live m b : heap live m -> b ∈ live -> in_memory m b.
Proof. intros (_ & _ & H)%heap_memory Hb. rewrite Forall_forall in H. auto. Qed.
Lemma heap_capacity live m b : heap live m -> b ∈ live -> beyond_capacity m b = false.
Proof. intros H Hb. destruct (heap_memory _ _ H) as (Hp & Hl & _). apply beyond_capacity_iff; [done..|]. by eapply heap_in. Qed.
Lemma heap_buffer live m b : heap live m -> b ∈ live -> buffer b m = Ok (read_bytes (wb_ptr b) (wb_len b) m).
Proof. intros H Hb. unfold buffer. by rewrite (heap_capacity live m b). Qed.
Lemma same_write live m b0 content :
  heap (b0 :: live) m -> apart live b0 -> (N.of_nat (length content) <= wb_len b0)%N ->
  same live m (write_at (N.to_nat (wb_ptr b0)) content m).
Proof.
  intros H Ha Hl b Hb. pose proof (heap_in _ _ b0 H ltac:(set_solver)) as Hin0. unfold in_memory, mem_size in Hin0.
  assert (heap (b0 :: live) (write_at (N.to_nat (wb_ptr b0)) content m)) as H' by (apply heap_write; [done|set_solver|done]).
  rewrite (heap_buffer (b0 :: live) m b), (heap_buffer (b0 :: live) _ b) by (done || set_solver).
  f_equal. unfold read_bytes. apply write_at_read_other; [lia|]. destruct (Ha b Hb); lia.
Qed.
Lemma read_written live m b0 content :
  heap (b0 :: live) m -> (N.of_nat (length content) <= wb_len b0)%N ->
  read_bytes (wb_ptr b0) (N.of_nat (length content)) (write_at (N.to_nat (wb_ptr b0)) content m) = content.
Proof.
  intros H Hl. pose proof (heap_in _ _ b0 H ltac:(set_solver)) as Hin. unfold in_memory, mem_size in Hin.
  unfold read_bytes. rewrite Nat2N.id. apply write_at_read. lia.
Qed.

Lemma wp_with_capacity n live s Q :
  heap live (gr_memory s) ->
  (forall m p, heap (MkBuffer p n :: live) m -> (p mod 8 = 0)%N -> same live (gr_memory s) m -> apart live (MkBuffer p n) ->
     Q (gr_set_memory m s) (Ok p)) ->
  wp (with_capacity n) s Q.
Proof.
  intros H Hq. destruct (alloc n (gr_memory s)) as [[m p]|] eqn:Ha.
  - destruct (heap_alloc _ _ _ _ _ H Ha) as (Hh & Hp & Hb). right. exists (gr_set_memory m s), (Ok p). split.
    + intros k. unfold with_capacity. by rewrite Ha, gr_run_step, gr_memory_set.
    + apply Hq; [done..| |]; intros b Hin; by apply Hb.
  - left. exists s. intros k. unfold with_capacity. by rewrite Ha, gr_run_exit.
Qed.
(** A fresh range with its content. *)
Definition holding (live : list WasmBuffer) s (content : list byte) (p : N) (m : Memory) : Prop :=
  heap (MkBuffer p (N.of_nat (length content)) :: live) m /\ (p mod 8 = 0)%N /\ same live (gr_memory s) m /\
  apart live (MkBuffer p (N.of_nat (length content))) /\ read_bytes p (N.of_nat (length content)) m = content.
Lemma wp_new {A} (f : N -> A) live s content (Q : St -> result GuestError A -> Prop) :
  heap live (gr_memory s) -> (forall m p, holding live s content p m -> Q (gr_set_memory m s) (Ok (f p))) ->
  wp (p ← with_capacity (N.of_nat (length content)); _ ← write_memory p content; mret (f p)) s Q.
Proof.
  intros H Hq. apply wp_bind. apply (wp_with_capacity _ live); [done|]. intros m p Hm Hp Hs Ha.
  apply wp_bind, wp_write, wp_ret. rewrite gr_memory_set, gr_set_set. apply Hq. split_and!.
  - apply (heap_write _ _ (MkBuffer p (N.of_nat (length content)))); [done|set_solver|cbn; lia].
  - done.
  - eapply same_trans; [done|]. eapply (same_write live m (MkBuffer p _)); [done..|cbn; lia].
  - done.
  - eapply (read_written live m (MkBuffer p (N.of_nat (length content)))); [done|cbn; lia].
Qed.
Lemma wp_new_value live s width (Q : St -> result GuestError N -> Prop) :
  heap live (gr_memory s) -> (forall m p, holding live s (to_le_bytes width 0) p m -> Q (gr_set_memory m s) (Ok p)) ->
  wp (new_value width) s Q.
Proof.
  intros H Hq. unfold new_value. pose proof (wp_new id live s (to_le_bytes width 0) Q H Hq) as Hw.
  by rewrite to_le_bytes_length in Hw.
Qed.
Lemma wp_new_vec live s content (Q : St -> result GuestError WasmBuffer -> Prop) :
  heap live (gr_memory s) ->
  (forall m p, holding live s content p m -> Q (gr_set_memory m s) (Ok (MkBuffer p (N.of_nat (length content))))) ->
  wp (new_vec content) s Q.
Proof. apply (wp_new (fun p => MkBuffer p (N.of_nat (length content)))). Qed.

(** ** Values in memory *)
Lemma read_overwritten p n new m :
  (p + n <= mem_size m)%N -> (N.of_nat (length new) <= n)%N ->
  read_bytes p n (write_at (N.to_nat p) new m) = new ++ drop (length new) (read_bytes p n m).
Proof.
  intros Hp Hn. unfold read_bytes, write_at, mem_size in *. rewrite drop_app_length' by (rewrite length_take; lia).
  rewrite take_app, (take_ge new) by lia. f_equal.
  rewrite skipn_firstn_comm, drop_drop. do 2 f_equal; lia.
Qed.
(** A zeroed 8-byte slot after a number of [width] bytes is put there. *)
Lemma slot_value width live m p v :
  width <= 8 -> heap (MkBuffer p 8 :: live) m -> read_bytes p 8 m = to_le_bytes 8 0 -> (v < 256 ^ N.of_nat width)%N ->
  from_le_bytes (read_bytes p 8 (write_at (N.to_nat p) (to_le_bytes width v) m)) = v.
Proof.
  intros Hw H Hz Hv. pose proof (heap_in _ _ (MkBuffer p 8) H ltac:(set_solver)) as Hin.
  rewrite read_overwritten; [|exact Hin|rewrite to_le_bytes_length; lia]. rewrite Hz, to_le_bytes_length.
  assert (drop width (to_le_bytes 8 0) = to_le_bytes (8 - width) 0) as ->.
  { do 9 (destruct width as [|width]; [reflexivity|]). lia. }
  rewrite from_le_bytes_zeros, from_to_le_bytes. by apply N.mod_small.
Qed.

(** ** Inputs *)

(** The host answers the calls of [get_channel] for the name at [kb]: with a
    channel, whose length it gives as a number of [width] bytes, or with a code,
    and it changes nothing else. *)
Record answers_input (os : HostOs) (width : nat) (live : list WasmBuffer) (kb : WasmString) s (answer : result N Channel) : Prop := {
  answers_len : forall m p,
    heap (MkBuffer p 8 :: live) m -> (p mod 8 = 0)%N -> same live (gr_memory s) m ->
    gr_invoke os (GetInputLen kb p) (gr_set_memory m s) =
      match answer with
      | Ok a => (gr_set_memory (write_at (N.to_nat p) (to_le_bytes width (encoded_len a)) m) s, Ok 0%N)
      | Err code => (gr_set_memory m s, Ok code)
      end;
  answers_get : forall m vb a,
    answer = Ok a -> heap (vb :: live) m -> same live (gr_memory s) m -> wb_len vb = encoded_len a ->
    gr_invoke os (GetInput kb vb) (gr_set_memory m s) =
      (gr_set_memory (write_at (N.to_nat (wb_ptr vb)) (prost_encode a) m) s, Ok 0%N)
}.
(** What the guest learns. *)
Definition learnt (answer : result N Channel) : result GuestError Channel :=
  match answer with
  | Ok a => Ok a
  | Err code => match to_result code with Err e => Err e | Ok _ => Err (HostError code) end
  end.
Lemma wp_get_channel os width live kb s answer Q :
  heap live (gr_memory s) -> 4 <= width <= 8 -> answers_input os width live kb s answer ->
  (forall a, answer = Ok a -> (encoded_len a < u32_modulus)%N) -> (forall code, answer = Err code -> code <> 0%N) ->
  (forall m, heap live m -> same live (gr_memory s) m -> Q (gr_set_memory m s) (learnt answer)) ->
  wp (guest_get_channel os kb) s Q.
Proof.
  intros Hh Hw [Hlen Hget] Hsmall Hcode Hq. unfold guest_get_channel. apply wp_bind. apply (wp_new_value live); [done|].
  intros m1 p (Hh1 & Hp & Hs1 & Ha1 & Hz). rewrite to_le_bytes_length in Hh1, Ha1, Hz.
  pose proof (Hlen m1 p Hh1 Hp Hs1) as Hcall. unfold learnt in Hq.
  destruct answer as [a|code]; apply wp_bind; (eapply wp_call; [exact Hcall|]).
  2: { specialize (Hcode code eq_refl). assert (heap live m1) as Hl by (eapply heap_less; [exact Hh1|set_solver]).
       specialize (Hq m1 Hl Hs1). destruct (to_result code) as [[]|e] eqn:Hr; [|exact Hq].
       exfalso. revert Hcode Hr. unfold to_result. repeat case_match; try done. }
  specialize (Hsmall a eq_refl). change (to_result 0) with (Ok tt : result GuestError unit). cbn beta iota.
  set (m2 := write_at (N.to_nat p) (to_le_bytes width (encoded_len a)) m1).
  assert (heap (MkBuffer p 8 :: live) m2) as Hh2
    by (apply (heap_write _ _ (MkBuffer p 8)); [done|set_solver|rewrite to_le_bytes_length; cbn; lia]).
  assert (same live m1 m2) as Hs2 by (eapply (same_write live m1 (MkBuffer p 8)); [done..|rewrite to_le_bytes_length; cbn; lia]).
  assert (encoded_len a < 256 ^ N.of_nat width)%N as Hfit.
  { eapply N.lt_le_trans; [exact Hsmall|]. change u32_modulus with (256 ^ 4)%N. apply N.pow_le_mono_r; lia. }
  apply wp_bind, wp_read. rewrite gr_memory_set. change (N.of_nat 8) with 8%N.
  unfold m2. rewrite (slot_value width live) by (done || lia). fold m2. unfold usize. rewrite N.mod_small by done.
  apply wp_bind. unfold filled. apply wp_bind. apply (wp_with_capacity _ live).
  { rewrite gr_memory_set. eapply heap_less; [exact Hh2|]. set_solver. }
  rewrite gr_memory_set. intros m3 q Hh3 _ Hs3 Ha3. rewrite gr_set_set.
  assert (same live (gr_memory s) m3) as Hs by by repeat (eapply same_trans; [done|]).
  apply wp_bind. eapply wp_call; [by apply (Hget m3 (MkBuffer q (encoded_len a)) a)|].
  change (to_result 0) with (Ok tt : result GuestError unit). cbn beta iota. apply wp_read. rewrite gr_memory_set. cbn [wb_ptr].
  assert (read_bytes q (encoded_len a) (write_at (N.to_nat q) (prost_encode a) m3) = prost_encode a) as ->.
  { apply (read_written live m3 (MkBuffer q (encoded_len a))); [done|]. unfold encoded_len. cbn. lia. }
  apply wp_lift. rewrite prost_decode_encode. cbn [map_err].
  apply (Hq (write_at (N.to_nat q) (prost_encode a) m3)).
  - eapply heap_less; [apply (heap_write _ _ (MkBuffer q (encoded_len a))); [exact Hh3|set_solver|unfold encoded_len; cbn; lia]|]. set_solver.
  - eapply same_trans; [exact Hs|eapply (same_write live m3 (MkBuffer q (encoded_len a))); [done..|unfold encoded_len; cbn; lia]].
Qed.

(** What the value of an input becomes: the channel converted, or the default, or
    the error that it is missing; any error but that of a missing channel stays. *)
Definition value_of {V} (try_from : Channel -> result ChannelConversionError V) (default_value : option V)
    (key : string) (input : option Channel) : result GuestError V :=
  match input with
  | Some c => map_err ConversionError (try_from c)
  | None => ok_or (FailedToFindRequiredInput key) default_value
  end.
Definition with_defaults {V} (default_value : option V) (v : InputValue V) : InputValue V :=
  match default_value with Some d => with_default d v | None => v end.
Lemma wp_get_input os width {V} live kb key s answer (Q : St -> result GuestError (InputValue V) -> Prop) :
  heap live (gr_memory s) -> 4 <= width <= 8 -> answers_input os width live kb s answer ->
  (forall a, answer = Ok a -> (encoded_len a < u32_modulus)%N) -> (forall code, answer = Err code -> code <> 0%N) ->
  (forall m v, heap live m -> same live (gr_memory s) m ->
     (forall try_from default_value, into try_from (with_defaults default_value v) =
        match learnt answer with
        | Ok c => value_of try_from default_value key (Some c)
        | Err HostChannelNotFound => value_of try_from default_value key None
        | Err e => Err e
        end) -> Q (gr_set_memory m s) (Ok v)) ->
  wp (guest_get_input os kb key) s Q.
Proof.
  intros Hh Hw Ha Hsmall Hcode Hq.
  assert (wp (guest_get_channel os kb) s (fun s' r => (exists m, s' = gr_set_memory m s /\ heap live m /\ same live (gr_memory s) m) /\
            r = learnt answer)) as [[s' H]|(s' & r & H & (m & -> & Hm & Hs) & ->)].
  { apply (wp_get_channel os width live kb s answer); eauto 10. }
  - left. exists s'. intros k. unfold guest_get_input. apply H.
  - right. exists (gr_set_memory m s). eexists (Ok _). split; [intros k; unfold guest_get_input; by rewrite H|].
    apply Hq; [done..|]. intros try_from default_value.
    destruct (learnt answer) as [c|[]]; by destruct default_value.
Qed.
End calculus.

(** ** A heap that takes fresh pages for every value *)
Module PageHeap.
Definition grown (n : N) (m : Memory) : Memory := m ++ replicate (N.to_nat ((n / wasm_page + 1) * wasm_page)) Corelib.Init.Byte.x00.
Lemma grown_size n m : mem_size (grown n m) = (mem_size m + (n / wasm_page + 1) * wasm_page)%N.
Proof. unfold grown, mem_size. rewrite length_app, length_replicate. lia. Qed.
Lemma grown_fits n : (n <= (n / wasm_page + 1) * wasm_page)%N.
Proof. pose proof (N.div_mod n wasm_page ltac:(done)). pose proof (N.mod_lt n wasm_page ltac:(done)). lia. Qed.
Definition page_heap (live : list WasmBuffer) (m : Memory) : Prop :=
  whole_pages m /\ (mem_size m < u32_modulus)%N /\ Forall (in_memory m) live.
Lemma page_alloc live m n : page_heap live m -> (mem_size (grown n m) < u32_modulus)%N ->
  page_heap (MkBuffer (mem_size m) n :: live) (grown n m) /\ (mem_size m mod 8 = 0)%N /\
  forall b, b ∈ live -> buffer b (grown n m) = buffer b m /\
    (wb_ptr b + wb_len b <= mem_size m \/ mem_size m + n <= wb_ptr b)%N.
Proof.
  intros (Hp & Hl & Hf) Hlt. pose proof (grown_fits n) as Hn.
  assert (whole_pages (grown n m)) as Hp'.
  { unfold whole_pages in *. rewrite grown_size, N.Div0.add_mod, Hp, N.Div0.mod_mul. done. }
  split_and!.
  - split_and!; [done..|]. constructor.
    + unfold in_memory. rewrite grown_size. cbn. lia.
    + eapply Forall_impl; [exact Hf|]. intros b. unfold in_memory. rewrite grown_size. lia.
  - unfold whole_pages in Hp. apply N.Div0.mod_divides in Hp as [k ->]. unfold wasm_page.
    replace (65536 * k)%N with (8192 * k * 8)%N by lia. apply N.Div0.mod_mul.
  - intros b Hb. rewrite Forall_forall in Hf. pose proof (Hf b Hb) as Hin. split; [|left; exact Hin].
    unfold buffer. rewrite (proj2 (beyond_capacity_iff m b Hp Hl) Hin).
    rewrite (proj2 (beyond_capacity_iff (grown n m) b Hp' Hlt)) by (unfold in_memory in *; rewrite grown_size; lia).
    f_equal. unfold grown. pose proof (in_memory_nat _ _ Hin) as Hnat. rewrite drop_app_le by lia.
    apply take_app_le. rewrite length_drop. lia.
Qed.
Definition pages : GuestHeap.
Proof.
  refine {| alloc n m := if (mem_size (grown n m) <? u32_modulus)%N then Some (grown n m, mem_size m) else None; heap := page_heap |}.
  - done.
  - intros live live' m (Hp & Hl & Hf) Hsub. split_and!; [done..|]. rewrite Forall_forall in *. auto.
  - intros live m n m' p H. destruct (N.ltb_spec (mem_size (grown n m)) u32_modulus) as [Hlt|]; [|done].
    intros [= <- <-]. by apply page_alloc.
  - intros live m b content (Hp & Hl & Hf) Hb Hc. rewrite Forall_forall in Hf. pose proof (in_memory_nat _ _ (Hf b Hb)).
    assert (mem_size (write_at (N.to_nat (wb_ptr b)) content m) = mem_size m) as Hsize
      by (unfold mem_size; rewrite write_at_length; [done|lia]).
    unfold page_heap, whole_pages, in_memory. rewrite Hsize. split_and!; [done..|]. apply Forall_forall. exact Hf.
Defined.
End PageHeap.
