(* ===== verification/FirmRustProps.v ===== *)
(** * Properties of the library of guests

    With the calculus of [GuestCalculus], what [get_input] and [set_output] do
    against the host of the runtime: the argument of the execution comes back as
    the value, and the value becomes the output ([echo_roundtrip]). *)
From S2P Require Import Prelude Interfaces Proto Stream Registry Executor Download WasmMemory WasiHost Wasi WasiRun SimpleCodec WasiProps FirmRust GuestCalculus.

Section guests.
Context {DL : DigestLib} {UR : UrlLib} {RR : RegexReplace} {WP : WasmPtrLib}.
Context {PC : Prost Channel} {PA : Prost Attachment} {PS : Prost StartProcessRequest} {GH : GuestHeap}.
Context {T : Type}.
Variable auth : AuthenticationSource T.
Variable source : Source.
Implicit Types s : ApiState (S := T).
#[local] Abbreviation invoke := (invoke auth source).
#[local] Abbreviation run_guest := (run_guest auth source).
(** [WasmPtr::deref] finds an aligned value where its pointer says. *)
Hypothesis deref_aligned : forall size p width,
  (p mod 8 = 0)%N -> (p + width <= size)%N -> (0 < width)%N -> wasm_deref size p width = Some p.

(** ** The runtime runs guests *)
Definition wasi_runner : GuestRunner (ApiState (S := T)) panic.
Proof.
  refine {| gr_memory := as_memory; gr_set_memory := set_memory; gr_invoke := invoke; gr_run := run_guest |}; done.
Defined.
#[local] Existing Instance wasi_runner.
#[local] Ltac on_memory := cbn [gr_memory gr_set_memory wasi_runner set_memory as_memory].

(** ** Inputs *)
Lemma key_at_same live kb key s m : same live (as_memory s) m -> kb ∈ live -> key_at kb key s -> key_at kb key (set_memory m s).
Proof. intros Hs Hin [H1 H2]. split; [|done]. cbn. by rewrite (Hs kb Hin). Qed.

Lemma invoke_get_input_len os s live kb key p :
  heap (MkBuffer p 8 :: live) (as_memory s) -> (p mod 8 = 0)%N -> key_at kb key s ->
  invoke os (GetInputLen kb p) s =
    match get_channel (as_arguments s) key with
    | Some a => (set_memory (write_at (N.to_nat p) (to_le_bytes 4 (encoded_len a mod u32_modulus)) (as_memory s)) s, Ok 0%N)
    | None => (s, Ok 6%N)
    end.
Proof.
  intros H Hp Hk. unfold Wasi.invoke. cbn [Wasi.handle]. unfold get_input_len. cbv [mbind sem_bind].
  rewrite (read_key _ _ key) by done. unfold sem_ask, find_input.
  destruct (get_channel (as_arguments s) key) as [a|]; [|done]. cbn [ok_or wasi map_err]. unfold set_item, put_memory, item_set.
  pose proof (heap_in _ _ (MkBuffer p 8) H ltac:(set_solver)) as Hin. unfold in_memory in Hin. cbn in Hin.
  rewrite deref_aligned by (done || (change (N.of_nat 4) with 4%N; lia)). done.
Qed.
Lemma invoke_get_input os s live kb key vb a :
  heap live (as_memory s) -> vb ∈ live -> key_at kb key s ->
  get_channel (as_arguments s) key = Some a -> wb_len vb = encoded_len a ->
  invoke os (GetInput kb vb) s = (set_memory (write_at (N.to_nat (wb_ptr vb)) (prost_encode a) (as_memory s)) s, Ok 0%N).
Proof.
  intros H Hv Hk Ha Hl. unfold Wasi.invoke. cbn [Wasi.handle]. unfold get_input. cbv [mbind sem_bind].
  rewrite (read_key _ _ key) by done. unfold sem_ask, find_input. rewrite Ha. cbn [ok_or wasi map_err].
  unfold put_memory, encode_into. rewrite (heap_buffer live) by done. cbn [no_panic map_err mbind result_bind].
  rewrite Hl, N.ltb_irrefl. unfold buffer_put. by rewrite (heap_capacity live) by done.
Qed.

(** What the runtime answers about an input. *)
Definition input_of (arguments : ValueStream) (key : string) : result N Channel :=
  ok_or 6%N (get_channel arguments key).
Lemma runtime_answers os live s kb key :
  kb ∈ live -> key_at kb key s ->
  (forall a, get_channel (as_arguments s) key = Some a -> (encoded_len a < u32_modulus)%N) ->
  answers_input os 4 live kb s (input_of (as_arguments s) key).
Proof.
  intros Hkb Hk Hlen. unfold input_of. split; on_memory.
  - intros m p Hh Hp Hs. assert (key_at kb key (set_memory m s)) as Hk1 by by eapply key_at_same.
    cbn [gr_invoke wasi_runner]. rewrite (invoke_get_input_len os (set_memory m s) live kb key p Hh Hp Hk1).
    change (as_arguments (set_memory m s)) with (as_arguments s).
    destruct (get_channel (as_arguments s) key) as [a|]; [|done]. cbn [ok_or]. by rewrite N.mod_small by auto.
  - intros m vb a Ha Hh Hs Hl. assert (key_at kb key (set_memory m s)) as Hk1 by by eapply key_at_same.
    cbn [gr_invoke wasi_runner]. apply (invoke_get_input os (set_memory m s) (vb :: live) kb key vb a); [done|set_solver|done| |done].
    change (as_arguments (set_memory m s)) with (as_arguments s).
    destruct (get_channel (as_arguments s) key); [by injection Ha as ->|done].
Qed.
Lemma input_small s key :
  (forall a, get_channel (as_arguments s) key = Some a -> (encoded_len a < u32_modulus)%N) ->
  (forall a, input_of (as_arguments s) key = Ok a -> (encoded_len a < u32_modulus)%N) /\
  (forall code, input_of (as_arguments s) key = Err code -> code <> 0%N).
Proof.
  unfold input_of. intros H. split; intros x; destruct (get_channel (as_arguments s) key) as [a|]; intros [= <-]; [auto|done].
Qed.

(** What a guest gets for an input.  Asking for an input ends with the guest out
    of memory, or it changes nothing but memory the guest does not use otherwise and
    gives, once turned into a value, the argument of the execution, converted; where
    the execution has no such argument, it gives the default if there is one and
    else that a required input is missing. *)
Theorem guest_input_is_argument os {V} (try_from : Channel -> result ChannelConversionError V) default_value live s kb key :
  heap live (as_memory s) -> kb ∈ live -> key_at kb key s ->
  (forall a, get_channel (as_arguments s) key = Some a -> (encoded_len a < u32_modulus)%N) ->
  wp (guest_get_input os (T := V) kb key) s (fun s' r =>
    (exists m, s' = set_memory m s /\ heap live m /\ same live (as_memory s) m) /\
    exists v, r = Ok v /\
      into try_from (with_defaults default_value v) = value_of try_from default_value key (get_channel (as_arguments s) key)).
Proof.
  intros Hh Hkb Hk Hlen. destruct (input_small s key Hlen) as [Hsmall Hcode].
  apply (wp_get_input os 4 live kb key s (input_of (as_arguments s) key)); [done|lia|by apply runtime_answers|done..|].
  intros m v Hm Hs Hv. split; [eauto|]. exists v. split; [done|]. rewrite Hv. unfold input_of.
  by destruct (get_channel (as_arguments s) key).
Qed.

(** ** Outputs *)
Lemma wp_set_output os live s kb key c Q :
  heap live (as_memory s) -> kb ∈ live -> key_at kb key s -> unpoisoned s ->
  (forall m, heap live m -> same live (as_memory s) m ->
     Q (set_results (set_channel (lk_data (as_results s)) key c) (set_memory m s)) (Ok tt)) ->
  wp (set_output_channel os kb c) s Q.
Proof.
  intros Hh Hkb Hk Hun Hq. unfold set_output_channel. apply wp_bind. apply (wp_new_vec live); [done|].
  intros m p (Hh1 & _ & Hs1 & _ & Hz). set (vb := MkBuffer p (N.of_nat (length (prost_encode c)))) in *.
  assert (key_at kb key (set_memory m s)) as [Hk1 Hk2] by by eapply key_at_same.
  assert (invoke os (SetOutput kb vb) (set_memory m s) =
            (set_results (set_channel (lk_data (as_results s)) key c) (set_memory m s), Ok 0%N)) as Hcall.
  { pose proof (set_output_run kb vb (set_memory m s) Hun) as Hrun. unfold given_output, given_text, given_channel in Hrun.
    rewrite Hk1 in Hrun. cbn [result_ok] in Hrun. rewrite Hk2 in Hrun. cbn [result_ok mbind option_bind] in Hrun.
    rewrite (heap_buffer (vb :: live)) in Hrun by (done || set_solver).
    change (wb_ptr vb) with p in Hrun. change (wb_len vb) with (N.of_nat (length (prost_encode c))) in Hrun.
    cbn [as_memory set_memory] in Hrun. rewrite Hz in Hrun. cbn [result_ok mbind option_bind] in Hrun.
    rewrite prost_decode_encode in Hrun. cbn [result_ok mbind option_bind] in Hrun.
    unfold Wasi.invoke. cbn [Wasi.handle]. rewrite Hrun. reflexivity. }
  eapply wp_call; [exact Hcall|]. apply Hq; [|done]. eapply heap_less; [exact Hh1|]. set_solver.
Qed.

(** ** Attachments *)

(** A state after calls that map attachments: memory the guest does not use
    otherwise and the files of the host may have changed, nothing else. *)
Definition mapped (live : list WasmBuffer) s s' : Prop :=
  exists h m, s' = set_host h (set_memory m s) /\ heap live m /\ same live (as_memory s) m.
Lemma mapped_memory live s m : heap live m -> same live (as_memory s) m -> mapped live s (set_memory m s).
Proof. intros H1 H2. exists (as_host s), m. split; [by destruct s|done]. Qed.
Lemma mapped_trans live s1 s2 s3 : mapped live s1 s2 -> mapped live s2 s3 -> mapped live s1 s3.
Proof.
  intros (h1 & m1 & -> & Hh1 & Hs1) (h2 & m2 & -> & Hh2 & Hs2). exists h2, m2. split; [done|]. split; [done|].
  by eapply same_trans.
Qed.
Lemma mapped_less live live' s s' : mapped live s s' -> (forall b, b ∈ live' -> b ∈ live) -> mapped live' s s'.
Proof.
  intros (h & m & -> & Hh & Hs) Hin. exists h, m. split; [done|]. split; [by eapply heap_less|]. intros b Hb. auto.
Qed.
Lemma mapped_heap live s s' : mapped live s s' -> heap live (as_memory s').
Proof. by intros (h & m & -> & Hh & _). Qed.
Lemma mapped_answers live s s' : mapped live s s' -> answers s' = answers s /\ as_attachments s' = as_attachments s.
Proof. by intros (h & m & -> & _). Qed.

(** The path of an attachment can be told to a guest: it is shorter than 4 GiB. *)
Definition tellable (a : Attachment) : Prop :=
  (N.of_nat (length (bytes_of (wasi_attachment_path_from_descriptor a))) < u32_modulus)%N.

Lemma download_and_map_run os a path unpack s :
  exists h r, download_and_map_at auth source os a path unpack s = (set_host h s, r) /\ r <> Err WPanic.
Proof.
  unfold download_and_map_at, sem_ask. cbv [mbind sem_bind mret sem_ret].
  destruct (path_present os path s); [exists (as_host s), (Ok tt); by destruct s|]. unfold fetch_attachment.
  destruct (download_cached _ _ _ _ _ _) as [h [d|e]]; cbn [map_err]; [|by eexists _, (Err _)].
  destruct unpack; unfold unpack_at, link_at, unpack_content, sem_ask; cbv [mbind sem_bind].
  - destruct (open_file os d _) as [c|e]; cbn [map_err wasi]; [|by eexists _, (Err _)].
    destruct (ho_unpack os c path _) as [f [e|]]; by eexists _, _.
  - destruct (ho_hard_link os d path); cbn [map_err wasi]; [by eexists _, (Err _)|].
    destruct (ca_files _ !! d); cbn [ok_or map_err wasi]; by eexists _, _.
Qed.
Lemma map_found_run os a unpack pb live s :
  heap live (as_memory s) -> pb ∈ live -> wb_len pb = path_len a -> tellable a ->
  exists h m r, map_found auth source os a unpack pb s = (set_host h (set_memory m s), r) /\ r <> Err WPanic /\
    (m = as_memory s \/ exists content, N.of_nat (length content) = wb_len pb /\ m = write_at (N.to_nat (wb_ptr pb)) content (as_memory s)).
Proof.
  intros Hh Hpb Hlen Ht. unfold map_found, sem_ask. cbv [mbind sem_bind].
  destruct (download_and_map_run os a (native_attachment_path_from_descriptor a (as_attachment_sandbox s)) unpack s) as (h & r & -> & Hr).
  destruct r as [[]|e]; [|exists h, (as_memory s), (Err e); split; [by destruct s|by eauto]].
  unfold path_len in Hlen. rewrite N.mod_small in Hlen by done.
  unfold write_buffer, put_memory, buffer_write. change (as_memory (set_host h s)) with (as_memory s).
  rewrite (heap_buffer live) by done. cbn [mbind result_bind]. rewrite Hlen, N.eqb_refl.
  unfold buffer_put. rewrite (heap_capacity live) by done. cbn. eexists h, _, (Ok tt). split; [done|]. split; [done|]. right. by eexists.
Qed.

(** Two calls that tell the length of a path and fill a buffer with it. *)
Definition tells os live s (p : N) (len_call : N -> api_call) (path_call : WasmBuffer -> api_call) : Prop :=
  (exists code, code <> 0%N /\ invoke os (len_call p) s = (s, Ok code)) \/
  exists n, (n < u32_modulus)%N /\
    invoke os (len_call p) s = (set_memory (write_at (N.to_nat p) (to_le_bytes 4 n) (as_memory s)) s, Ok 0%N) /\
    forall m pb, same live (as_memory s) m -> heap (pb :: live) m -> wb_len pb = n ->
      exists h m' code, invoke os (path_call pb) (set_memory m s) = (set_host h (set_memory m' s), Ok code) /\
        (m' = m \/ exists content, N.of_nat (length content) = wb_len pb /\ m' = write_at (N.to_nat (wb_ptr pb)) content m).
Lemma to_result_error code : code <> 0%N -> exists e, to_result code = Err e.
Proof.
  intros H. unfold to_result. destruct code as [|c]; [done|]. by repeat (destruct c as [c|c|]; try by eexists).
Qed.
Lemma wp_path os live s p len_call path_call (Q : ApiState (S := T) -> result GuestError string -> Prop) :
  heap (MkBuffer p 4 :: live) (as_memory s) -> apart live (MkBuffer p 4) -> tells os live s p len_call path_call ->
  (forall s' r, mapped live s s' -> Q s' r) ->
  wp (_ ← host_call os (len_call p); n ← read_value 4 p; bytes ← filled os n path_call; path_from bytes) s Q.
Proof.
  intros Hh Ha Ht Hq. apply wp_bind. destruct Ht as [(code & Hcode & Hi)|(n & Hn & Hi & Hpath)].
  { eapply wp_call; [exact Hi|]. destruct (to_result_error code Hcode) as [e ->]. apply Hq.
    exists (as_host s), (as_memory s). split; [by destruct s|]. split; [|done]. eapply heap_less; [exact Hh|]. set_solver. }
  eapply wp_call; [exact Hi|]. cbn [to_result].
  set (m1 := write_at (N.to_nat p) (to_le_bytes 4 n) (as_memory s)).
  assert (heap (MkBuffer p 4 :: live) m1) as Hh1
    by (apply (heap_write _ _ (MkBuffer p 4)); [done|set_solver|by rewrite to_le_bytes_length]).
  assert (same live (as_memory s) m1) as Hs1
    by (apply (same_write live _ (MkBuffer p 4)); [done..|by rewrite to_le_bytes_length]).
  apply wp_bind, wp_read. on_memory.
  assert (from_le_bytes (read_bytes p (N.of_nat 4) m1) = n) as ->.
  { pose proof (read_written live (as_memory s) (MkBuffer p 4) (to_le_bytes 4 n) Hh) as Hr. rewrite to_le_bytes_length in Hr.
    cbn [wb_ptr wb_len] in Hr. unfold m1. rewrite Hr by done. rewrite from_to_le_bytes. by apply N.mod_small. }
  apply wp_bind. unfold filled. apply wp_bind. apply (wp_with_capacity n live).
  { on_memory. eapply heap_less; [exact Hh1|]. set_solver. }
  intros m2 p2 Hh2 _ Hs2 Ha2. on_memory. cbn [gr_memory wasi_runner as_memory set_memory] in Hs2.
  assert (same live (as_memory s) m2) as Hs12 by by eapply same_trans.
  destruct (Hpath m2 (MkBuffer p2 n) Hs12 Hh2 eq_refl) as (h & m3 & code & Hi2 & Hm3).
  assert (heap live m3 /\ same live m2 m3) as [Hh3 Hs3].
  { destruct Hm3 as [->|(content & Hc & ->)]; [split; [eapply heap_less; [exact Hh2|set_solver]|done]|]. split.
    - eapply heap_less; [apply (heap_write _ _ (MkBuffer p2 n)); [exact Hh2|set_solver|by rewrite Hc]|set_solver].
    - apply (same_write live _ (MkBuffer p2 n)); [done..|by rewrite Hc]. }
  assert (mapped live s (set_host h (set_memory m3 s))) as Hmapped by (exists h, m3; split; [done|]; split; [done|by eapply same_trans]).
  apply wp_bind. eapply wp_call; [exact Hi2|]. destruct (to_result code) as [[]|e]; [|by apply Hq].
  apply wp_read. unfold path_from. apply wp_lift. by apply Hq.
Qed.

Lemma apart_sym live b0 b : b ∈ live -> apart live b0 -> apart [b0] b.
Proof. intros Hb Ha b' ->%list_elem_of_singleton. destruct (Ha b Hb); lia. Qed.
Lemma invoke_answer os c s s' (r : result wasi_failure unit) : handle auth source os c s = (s', r) -> r <> Err WPanic ->
  exists code, invoke os c s = (s', Ok code) /\ (r = Ok tt -> code = 0%N) /\ forall e, r = Err (WErr e) -> code <> 0%N.
Proof.
  intros Hh Hr. unfold Wasi.invoke. rewrite Hh. destruct r as [[]|[e|]]; [eexists; split; [done|]; split; [done|by intros e [=]]| |done].
  eexists. split; [done|]. split; [done|]. intros e' [= ->]. by destruct e'.
Qed.
(** Telling the length of a path and then the path, for an attachment that the handlers
    find, or a reason why they do not. *)
Lemma tells_found os live s p unpack len_call path_call (found : result WasiError Attachment) :
  heap (MkBuffer p 4 :: live) (as_memory s) -> (p mod 8 = 0)%N ->
  (forall a, found = Ok a -> tellable a) ->
  handle auth source os (len_call p) s =
    match found with Ok a => set_item 4 p (path_len a) s | Err e => (s, Err (WErr e)) end ->
  (forall a m pb, found = Ok a -> same live (as_memory s) m -> heap (pb :: live) m ->
     handle auth source os (path_call pb) (set_memory m s) = map_found auth source os a unpack pb (set_memory m s)) ->
  tells os live s p len_call path_call.
Proof.
  intros Hh Hp Hsmall Hlen Hpath. destruct found as [a|e].
  - right. exists (path_len a). split; [by apply N.mod_lt|]. split.
    + unfold Wasi.invoke. rewrite Hlen. unfold set_item, put_memory, item_set.
      pose proof (heap_in _ _ (MkBuffer p 4) Hh ltac:(set_solver)) as Hin. unfold in_memory in Hin. cbn in Hin.
      rewrite deref_aligned by (done || (change (N.of_nat 4) with 4%N; lia)). done.
    + intros m pb Hs Hm Hl.
      destruct (map_found_run os a unpack pb (pb :: live) (set_memory m s)) as (h & m' & r & Hrun & Hr & Hm'); [done|set_solver|done|by apply Hsmall|].
      rewrite <- (Hpath a m pb) in Hrun by done.
      destruct (invoke_answer _ _ _ _ _ Hrun Hr) as (code & Hi & _). by exists h, m', code.
  - left. destruct (invoke_answer os (len_call p) s s (Err (WErr e)) Hlen) as (code & Hi & _ & Hc); [done|].
    exists code. split; [by eapply Hc|done].
Qed.

Lemma wp_map_attachment os live s kb unpack (Q : ApiState (S := T) -> result GuestError string -> Prop) :
  heap live (as_memory s) -> kb ∈ live -> Forall tellable (as_attachments s) ->
  (forall s' r, mapped live s s' -> Q s' r) -> wp (map_attachment_with os kb unpack) s Q.
Proof.
  intros Hh Hkb Hsmall Hq. unfold map_attachment_with. apply wp_bind. apply (wp_new_value live); [done|].
  intros m p (Hh1 & Hp & Hs1 & Ha & _). rewrite to_le_bytes_length in Hh1, Ha. on_memory.
  assert (buffer kb m = buffer kb (as_memory s)) as Hbuf by by apply Hs1.
  apply (wp_path os live); [done..| |].
  2: { intros s' r Hm. apply Hq. eapply mapped_trans; [|exact Hm]. apply mapped_memory; [|done]. eapply heap_less; [exact Hh1|]. set_solver. }
  apply (tells_found os live _ p (negb ((if unpack then 1 else 0) =? 0)%N) (GetPathLen kb) (MapAttachment kb (if unpack then 1 else 0)%N)
    (match map_err (FailedToReadStringPointer "attachment_name") (from_utf8 (read_bytes (wb_ptr kb) (wb_len kb) (as_memory s))) with
     | Ok key => ok_or (FailedToFindAttachment key) (snd <$> list_find (fun a => att_name a = key) (as_attachments s))
     | Err e => Err e
     end)); [done|done| | |].
  - intros a Ha'. destruct (from_utf8 _) as [key|e]; cbn [map_err] in Ha'; [|done].
    destruct (list_find _ _) as [[i b]|] eqn:Hf; [|done]. injection Ha' as ->.
    apply list_find_Some in Hf as (Hi & _ & _). rewrite Forall_lookup in Hsmall. by eapply Hsmall.
  - cbn [Wasi.handle]. unfold get_attachment_path_len. cbv [mbind sem_bind]. rewrite read_string_run.
    on_memory. rewrite Hbuf, (heap_buffer live) by done. destruct (from_utf8 _) as [key|e]; cbn [map_err]; [|done].
    unfold sem_ask, find_attachment. change (as_attachments (set_memory m s)) with (as_attachments s).
    destruct (snd <$> _) as [a|]; done.
  - intros a m' pb Ha' Hs' Hm'. cbn [Wasi.handle]. unfold Wasi.map_attachment. cbv [mbind sem_bind]. rewrite read_string_run. on_memory.
    rewrite (Hs' kb Hkb). on_memory. rewrite Hbuf, (heap_buffer live) by done.
    destruct (from_utf8 _) as [key|e]; cbn [map_err] in Ha' |- *; [|done].
    unfold sem_ask, find_attachment. change (as_attachments (set_memory m' (set_memory m s))) with (as_attachments s).
    destruct (snd <$> _) as [a'|]; [|done]. by injection Ha' as ->.
Qed.
Lemma wp_map_descriptor os live s a unpack (Q : ApiState (S := T) -> result GuestError string -> Prop) :
  heap live (as_memory s) -> tellable a -> (forall s' r, mapped live s s' -> Q s' r) -> wp (map_descriptor_with os a unpack) s Q.
Proof.
  intros Hh Hsmall Hq. unfold map_descriptor_with. apply wp_bind. apply (wp_new_value live); [done|].
  intros m p (Hh1 & Hp & Hs1 & Ha & _). rewrite to_le_bytes_length in Hh1, Ha. on_memory. apply wp_bind.
  apply (wp_new_vec (MkBuffer p 4 :: live)); [done|]. intros m2 v (Hh2 & _ & Hs2 & Ha2 & Hv). on_memory.
  cbn [gr_memory wasi_runner as_memory set_memory] in Hs2.
  set (vb := MkBuffer v (N.of_nat (length (prost_encode a)))) in *.
  assert (mapped live s (set_memory m2 (set_memory m s))) as Hmapped.
  { eapply mapped_trans; [apply mapped_memory; [eapply heap_less; [exact Hh1|set_solver]|exact Hs1]|].
    apply mapped_memory; [eapply heap_less; [exact Hh2|set_solver]|]. intros b Hb. apply Hs2. set_solver. }
  assert (heap (MkBuffer p 4 :: vb :: live) m2) as Hh3 by (eapply heap_less; [exact Hh2|set_solver]).
  assert (buffer vb m2 = Ok (prost_encode a)) as Hvb.
  { rewrite (heap_buffer (vb :: MkBuffer p 4 :: live)); [by rewrite <- Hv|exact Hh2|set_solver]. }
  apply (wp_path os (vb :: live)); [exact Hh3| | |].
  - intros b [->|Hb]%elem_of_cons; [|by apply Ha]. destruct (Ha2 (MkBuffer p 4)); [set_solver| |]; lia.
  - apply (tells_found os (vb :: live) _ p (negb ((if unpack then 1 else 0) =? 0)%N) (GetPathLenFromDescriptor vb)
      (MapFromDescriptor vb (if unpack then 1 else 0)%N) (Ok a)); [exact Hh3|done|by intros a' [= <-]| |].
    + cbn [Wasi.handle]. unfold get_attachment_path_len_from_descriptor. cbv [mbind sem_bind]. rewrite decode_run. on_memory.
      by rewrite Hvb, prost_decode_encode.
    + intros a' m' pb [= <-] Hs' Hm'. cbn [Wasi.handle]. unfold map_attachment_from_descriptor. cbv [mbind sem_bind].
      rewrite decode_run. on_memory. cbn [as_memory set_memory] in Hs'. rewrite (Hs' vb) by set_solver.
      by rewrite Hvb, prost_decode_encode.
  - intros s' r Hm. apply Hq. eapply mapped_trans; [exact Hmapped|]. eapply mapped_less; [exact Hm|]. set_solver.
Qed.

(** ** Errors *)

(** The text of an error, if it is one: in Rust every text is UTF-8. *)
Definition shown (text : string) : list string := option_list (result_ok (from_utf8 (bytes_of text))).
Lemma from_utf8_text text t : from_utf8 (bytes_of text) = Ok t -> t = text.
Proof.
  intros H%from_utf8_Ok. rewrite <- (String.string_of_list_byte_of_string t), <- (String.string_of_list_byte_of_string text).
  by f_equal.
Qed.
Definition add_errors (texts : list string) s : ApiState (S := T) := set_errors (lk_data (as_errors s) ++ texts) s.
Lemma wp_set_error os live s mb text (Q : ApiState (S := T) -> result GuestError unit -> Prop) :
  heap live (as_memory s) -> mb ∈ live -> buffer mb (as_memory s) = Ok (bytes_of text) -> unpoisoned s ->
  (forall r, is_ok r = is_ok (from_utf8 (bytes_of text)) -> Q (add_errors (shown text) s) r) ->
  wp (guest_set_error os mb) s Q.
Proof.
  intros Hh Hmb Hb Hun Hq. pose proof (set_error_run mb s Hun) as Hrun. unfold given_error, given_text in Hrun. rewrite Hb in Hrun.
  cbn [result_ok] in Hrun. unfold shown in Hq. destruct (from_utf8 (bytes_of text)) as [t|e] eqn:Ht; cbn [result_ok] in Hrun.
  - destruct (invoke_answer os (SetError mb) s _ (Ok tt) Hrun) as (code & Hi & Hc & _); [done|]. rewrite (Hc eq_refl) in Hi.
    eapply wp_call; [exact Hi|]. by apply Hq.
  - destruct Hrun as [er Hrun]. assert (er <> WPanic) as Her.
    { intros ->. unfold api_set_error, set_error in Hrun. cbv [mbind sem_bind] in Hrun. rewrite read_string_run, Hb, Ht in Hrun. done. }
    destruct (invoke_answer os (SetError mb) s s (Err er) Hrun) as (code & Hi & _ & Hc); [congruence|]. destruct er as [er|]; [|done].
    destruct (to_result_error code (Hc er eq_refl)) as [ge Hge]. eapply wp_call; [exact Hi|]. rewrite Hge.
    specialize (Hq (Err ge) eq_refl). unfold add_errors in Hq. cbn in Hq. rewrite app_nil_r in Hq. by destruct s as [? ? ? ? ? ? []].
Qed.

(** A guest that hands an input on as an output. *)
Definition echo (os : HostOs) (from to : WasmString) : guest GuestError unit :=
  c ← guest_get_channel os from;
  set_output_channel os to c.

(** C31: an input survives the way through a guest and its library.  A guest that
    gets an input and sets it as an output ends without a trap unless it runs out of
    memory; if the execution has the argument, the results gain exactly this channel
    under the output's name, and otherwise nothing is handed over. *)
Theorem echo_roundtrip os live s from to key name :
  heap live (as_memory s) -> from ∈ live -> to ∈ live -> key_at from key s -> key_at to name s -> unpoisoned s ->
  (forall a, get_channel (as_arguments s) key = Some a -> (encoded_len a < u32_modulus)%N) ->
  exists s' trap, run_guest (entrypoint (echo os from to) (as_memory s)) s = (s', Ok trap) /\
    (trap = Some out_of_memory \/
     trap = None /\ as_errors s' = as_errors s /\
     lk_data (as_results s') = match get_channel (as_arguments s) key with
                               | Some c => set_channel (lk_data (as_results s)) name c
                               | None => lk_data (as_results s)
                               end).
Proof.
  intros Hh Hf Hto Hkf Hkt Hun Hlen.
  assert (wp (echo os from to) s (fun s' _ => as_errors s' = as_errors s /\
     lk_data (as_results s') = match get_channel (as_arguments s) key with
                               | Some c => set_channel (lk_data (as_results s)) name c
                               | None => lk_data (as_results s)
                               end)) as (s' & trap & H & Ht)%wp_entrypoint.
  - unfold echo. destruct (input_small s key Hlen) as [Hsmall Hcode]. apply wp_bind.
    apply (wp_get_channel os 4 live from s (input_of (as_arguments s) key)); [done|lia|by apply runtime_answers|done..|].
    intros m Hm Hs. unfold input_of.
    destruct (get_channel (as_arguments s) key) as [c|]; cbn [ok_or]; [|done].
    apply (wp_set_output os live (set_memory m s) to name); [done..| |done|intros; done]. by eapply key_at_same.
  - exists s', trap. split; [exact H|]. destruct Ht as [->|(-> & r & Hq)]; [by left|by right].
Qed.
End guests.

(** ** A concrete guest *)
Module GuestExamples.
#[local] Existing Instance Concrete.text_digest.
#[local] Existing Instance Concrete.text_url.
#[local] Existing Instance key_order.
#[local] Existing Instance WasiExamples.no_regex.
#[local] Existing Instance WasiExamples.unaligned.
Import WasiExamples.

#[local] Existing Instance PageHeap.pages.
Import PageHeap.

Lemma aligned size p width : (p mod 8 = 0)%N -> (p + width <= size)%N -> (0 < width)%N -> wasm_deref size p width = Some p.
Proof. intros _ Hle _. cbn. apply N.leb_le in Hle. by rewrite Hle. Qed.

Lemma started_heap : heap (GuestHeap := pages) [key_buffer] (as_memory (blank with_key)).
Proof.
  change (page_heap [key_buffer] with_key). split_and!; [unfold whole_pages; by rewrite with_key_size|by rewrite with_key_size|].
  constructor; [|constructor]. unfold in_memory. by rewrite with_key_size.
Qed.
Lemma key_there : key_at key_buffer "k" (blank with_key).
Proof. split; [vm_compute; exact eq_refl|vm_compute; exact eq_refl]. Qed.
Lemma short_argument a : get_channel (as_arguments (blank with_key)) "k" = Some a -> (encoded_len a < u32_modulus)%N.
Proof.
  intros H. cbn [blank as_arguments] in H. unfold get_channel in H. cbn [channels] in H. rewrite lookup_singleton_eq in H.
  injection H as <-. vm_compute. exact eq_refl.
Qed.

Lemma guest_input_is_argument_witness :
  wp (GR := wasi_runner no_auth served) (guest_get_input os (T := bool) key_buffer "k") (blank with_key) (fun _ r =>
    exists v, r = Ok v /\ into (try_from_one bool) v = Ok true).
Proof.
  pose proof (guest_input_is_argument no_auth served aligned os (try_from_one bool) None [key_buffer] (blank with_key)
    key_buffer "k" started_heap (list_elem_of_here _ _) key_there short_argument) as H.
  apply (wp_mono (GR := wasi_runner no_auth served) _ _ _ _ H). intros s' r (_ & v & -> & Hv). exists v. split; [reflexivity|]. exact Hv.
Defined.

Lemma echo_roundtrip_witness :
  exists s', run_guest no_auth served (entrypoint (echo os key_buffer key_buffer) (as_memory (blank with_key))) (blank with_key) = (s', Ok None) /\
    lk_data (as_results s') = MkStream {[ "k" := yes ]}.
Proof.
  destruct (echo_roundtrip no_auth served aligned os [key_buffer] (blank with_key) key_buffer key_buffer "k" "k"
    started_heap (list_elem_of_here _ _) (list_elem_of_here _ _) key_there key_there (conj eq_refl eq_refl) short_argument)
    as (s' & trap & Hrun & Ht).
  exists s'. assert (match trap with None => true | Some _ => false end = true) as Hok.
  { transitivity (match (run_guest no_auth served (entrypoint (echo os key_buffer key_buffer) (as_memory (blank with_key))) (blank with_key)).2 with
                  | Ok None => true | _ => false end).
    - rewrite Hrun. destruct trap; reflexivity.
    - vm_compute. exact eq_refl. }
  destruct Ht as [->|(-> & _ & Hr)]; [discriminate Hok|]. split; [exact Hrun|]. rewrite Hr. reflexivity.
Defined.
End GuestExamples.
