(* ===== verification/PyShims.v ===== *)
(** * The C functions CPython misses on WASI
    (services/avery/runtimes/python/wasi-python-shims/src/lib.rs, thread.rs)

    The crate gives CPython the user database, locks and thread storage of a
    process with one user and one thread.  Its functions follow the pointers of
    their C callers: the memory is a [CMemory], one map per kind of value, and a
    pointer to nothing is [Undefined] behaviour.  Where new values are put is the
    class [Allocator].

    [size_t] is [u32]; sums of lengths and offsets stay below a hundred.

    The theorems say what the reentrant functions of the user database write, and that
    the texts they give run into each other ([passwd_in_buffer]), and that a lock is
    acquired at most once until it is released ([one_holder]). *)
From S2P Require Import Prelude.

Inductive undefined := Undefined.
(** [passwd]: names are pointers to C strings, 0 is the null pointer. *)
Record Passwd := MkPasswd { pw_name : N; pw_uid : N; pw_gid : N; pw_dir : N; pw_shell : N }.
Record CMemory := MkCMemory {
  cm_bytes : gmap N byte;
  cm_passwd : gmap N Passwd;
  (** variables of type [passwd *] *)
  cm_results : gmap N N;
  cm_locks : gmap N bool
}.
Definition set_bytes (b : gmap N byte) (m : CMemory) : CMemory := MkCMemory b (cm_passwd m) (cm_results m) (cm_locks m).
Definition set_passwd (p : gmap N Passwd) (m : CMemory) : CMemory := MkCMemory (cm_bytes m) p (cm_results m) (cm_locks m).
Definition set_results (r : gmap N N) (m : CMemory) : CMemory := MkCMemory (cm_bytes m) (cm_passwd m) r (cm_locks m).
Definition set_locks (l : gmap N bool) (m : CMemory) : CMemory := MkCMemory (cm_bytes m) (cm_passwd m) (cm_results m) l.
Abbreviation c_code := (sem CMemory undefined).

Class Allocator := {
  (** where a value of this many bytes is put *)
  alloc : CMemory -> nat -> N;
  alloc_not_null : forall m n, alloc m n <> 0%N;
  alloc_fresh : forall m n i, (i < N.of_nat n)%N -> cm_bytes m !! (alloc m n + i)%N = None;
  alloc_fresh_passwd : forall m n, cm_passwd m !! alloc m n = None;
  alloc_fresh_lock : forall m n, cm_locks m !! alloc m n = None
}.

(** ** Bytes *)
Definition text_bytes (s : string) : list byte := String.list_byte_of_string s.
Definition nul : byte := Corelib.Init.Byte.x00.
Fixpoint put_bytes (p : N) (l : list byte) (b : gmap N byte) : gmap N byte :=
  match l with [] => b | x :: l => <[p := x]> (put_bytes (p + 1) l b) end.
Definition in_memory (p : N) (n : nat) (b : gmap N byte) : bool :=
  forallb (fun i => bool_decide (is_Some (b !! (p + N.of_nat i)%N))) (seq 0 n).
(** [ptr.copy_from(text, len)] *)
Definition copy_from (p : N) (l : list byte) : c_code unit :=
  fun m => if in_memory p (length l) (cm_bytes m) then (set_bytes (put_bytes p l (cm_bytes m)) m, Ok tt)
           else (m, Err Undefined).
(** The text at a pointer, up to its zero byte; [fuel] is the most bytes read. *)
Fixpoint c_string (fuel : nat) (b : gmap N byte) (p : N) : option (list byte) :=
  match fuel with
  | O => None
  | S fuel =>
      c ← b !! p;
      if bytes_eqb [c] [nul] then Some [] else (fun l => c :: l) <$> c_string fuel b (p + 1)
  end.

(** ** Locks (thread.rs) *)
Definition the_lock (lock : N) : c_code bool := sem_ask (fun m => ok_or Undefined (cm_locks m !! lock)).
Definition set_lock (lock : N) (locked : bool) : c_code unit :=
  sem_modify (fun m => set_locks (<[lock := locked]> (cm_locks m)) m).
Definition wt_free_lock (lock : N) : c_code unit :=
  if (lock =? 0)%N then mret tt
  else _ ← the_lock lock; sem_modify (fun m => set_locks (delete lock (cm_locks m)) m).
Definition wt_acquire_lock (lock : N) : c_code bool :=
  locked ← the_lock lock;
  if locked : bool then mret false else _ ← set_lock lock true; mret true.
Definition wt_release_lock (lock : N) : c_code unit := _ ← the_lock lock; set_lock lock false.
(** Threads: there is one, which nothing starts or ends. *)
Definition wt_start_new_thread (func arg : N) : N := 0.
Definition wt_get_thread_ident : N := 1.

(** ** Thread storage (thread.rs) *)
Abbreviation TssStorage := (lock (gmap N N)).
Definition tss_write (f : gmap N N -> gmap N N) (s : TssStorage) : TssStorage * bool :=
  match lock_get id s with Ok tss => (lock_set s (f tss), true) | Err _ => (s, false) end.
Definition wt_tss_create (key : N) (s : TssStorage) : TssStorage * bool := (s, true).
Definition wt_tss_delete (key : N) : TssStorage -> TssStorage * bool := tss_write (delete key).
Definition wt_tss_set (key value : N) : TssStorage -> TssStorage * bool := tss_write (<[key := value]>).
Definition wt_tss_get (key : N) (s : TssStorage) : N :=
  match lock_get id s with Ok tss => default 0%N (tss !! key) | Err _ => 0%N end.

Section shims.
Context {AL : Allocator}.
Definition wt_allocate_lock : c_code N :=
  fun m => let p := alloc m 1 in (set_locks (<[p := false]> (cm_locks m)) m, Ok p).

(** ** The user database (lib.rs) *)
Definition chmod (pathname mode : N) : Z := -1.
Definition dup (oldfd : Z) : Z := -1.
Definition umask (mask : N) : N := 0.
Definition DEFAULT_USERNAME : string := "wasi-user".
Definition DEFAULT_HOMEDIR : string := "/homeless/".
Definition DEFAULT_SHELL : string := "/unshelled".

Record PasswdBuffer := MkPasswdBuffer { pb_buffer : N; pb_capacity : N; pb_offset : N }.
Definition passwd_buffer_new (buffer capacity : N) : PasswdBuffer := MkPasswdBuffer buffer capacity 0.
(** A builder is the pointer of its box. *)
Definition with_passwd (self : N) (f : Passwd -> Passwd) : c_code unit :=
  e ← sem_ask (fun m => ok_or Undefined (cm_passwd m !! self));
  sem_modify (fun m => set_passwd (<[self := f e]> (cm_passwd m)) m).
Definition passwd_builder_new : c_code N :=
  fun m => let p := alloc m 20 in (set_passwd (<[p := MkPasswd 0 0 0 0 0]> (cm_passwd m)) m, Ok p).
(** [CString::new(text).unwrap().into_raw()] *)
Definition new_c_string (text : string) : c_code N :=
  fun m => let l := text_bytes text ++ [nul] in let p := alloc m (length l) in
           (set_bytes (put_bytes p l (cm_bytes m)) m, Ok p).
Definition set_name (p : N) (e : Passwd) : Passwd := MkPasswd p (pw_uid e) (pw_gid e) (pw_dir e) (pw_shell e).
Definition set_dir (p : N) (e : Passwd) : Passwd := MkPasswd (pw_name e) (pw_uid e) (pw_gid e) p (pw_shell e).
Definition set_shell (p : N) (e : Passwd) : Passwd := MkPasswd (pw_name e) (pw_uid e) (pw_gid e) (pw_dir e) p.
Definition builder_name (self : N) (name : string) : c_code unit := p ← new_c_string name; with_passwd self (set_name p).
Definition builder_home_dir (self : N) (home_dir : string) : c_code unit := p ← new_c_string home_dir; with_passwd self (set_dir p).
Definition builder_shell (self : N) (shell : string) : c_code unit := p ← new_c_string shell; with_passwd self (set_shell p).
Definition name_from_ptr (self name : N) : c_code unit := with_passwd self (set_name name).
Definition builder_gid (self gid : N) : c_code unit :=
  with_passwd self (fun e => MkPasswd (pw_name e) (pw_uid e) gid (pw_dir e) (pw_shell e)).
Definition builder_uid (self uid : N) : c_code unit :=
  with_passwd self (fun e => MkPasswd (pw_name e) uid (pw_gid e) (pw_dir e) (pw_shell e)).
(** The three functions that put a text in the buffer of the caller and point a field at it. *)
Definition put_in_buffer (set : N -> Passwd -> Passwd) (self : N) (text : string) (buffer : PasswdBuffer) : c_code PasswdBuffer :=
  let len := N.of_nat (str_len text) in
  if (len + pb_offset buffer <=? pb_capacity buffer)%N then
    let p := (pb_buffer buffer + pb_offset buffer)%N in
    _ ← copy_from p (text_bytes text);
    _ ← with_passwd self (set p);
    mret (MkPasswdBuffer (pb_buffer buffer) (pb_capacity buffer) (pb_offset buffer + len))
  else mret buffer.
Definition name_with_buffer : N -> string -> PasswdBuffer -> c_code PasswdBuffer := put_in_buffer set_name.
Definition home_dir_with_buffer : N -> string -> PasswdBuffer -> c_code PasswdBuffer := put_in_buffer set_dir.
Definition shell_with_buffer : N -> string -> PasswdBuffer -> c_code PasswdBuffer := put_in_buffer set_shell.

(** [Box::<passwd>::default()] *)
Definition passwd_default : c_code N :=
  p ← passwd_builder_new;
  _ ← builder_name p DEFAULT_USERNAME;
  _ ← builder_home_dir p DEFAULT_HOMEDIR;
  _ ← builder_shell p DEFAULT_SHELL;
  _ ← builder_gid p 1;
  _ ← builder_uid p 1;
  mret p.
(** Dropping the [CString] made of a pointer: its bytes and the zero are freed. *)
Definition drop_c_string (p : N) : c_code unit :=
  l ← sem_ask (fun m => ok_or Undefined (c_string (S (size (cm_bytes m))) (cm_bytes m) p));
  sem_modify (fun m => set_bytes (foldr (fun i b => delete (p + N.of_nat i)%N b) (cm_bytes m) (seq 0 (S (length l)))) m).
Definition getpwnam (name : N) : c_code N :=
  passwd ← passwd_default;
  e ← sem_ask (fun m => ok_or Undefined (cm_passwd m !! passwd));
  _ ← drop_c_string (pw_name e);
  _ ← name_from_ptr passwd name;
  mret passwd.
Definition getpwuid (uid : N) : c_code N := passwd_default.
Definition answer_entry (result pwd : N) : c_code Z :=
  fun m => match cm_results m !! result with
           | Some _ => (set_results (<[result := pwd]> (cm_results m)) m, Ok 0%Z)
           | None => (m, Err Undefined)
           end.
Definition getpwnam_r (name pwd buffer bufsize result : N) : c_code Z :=
  _ ← builder_gid pwd 1;
  _ ← builder_uid pwd 1;
  _ ← name_from_ptr pwd name;
  buffer ← home_dir_with_buffer pwd DEFAULT_HOMEDIR (passwd_buffer_new buffer bufsize);
  _ ← shell_with_buffer pwd DEFAULT_SHELL buffer;
  answer_entry result pwd.
Definition getpwuid_r (uid pwd buffer bufsize result : N) : c_code Z :=
  _ ← builder_gid pwd 1;
  _ ← builder_uid pwd 1;
  buffer ← name_with_buffer pwd DEFAULT_USERNAME (passwd_buffer_new buffer bufsize);
  buffer ← home_dir_with_buffer pwd DEFAULT_HOMEDIR buffer;
  _ ← shell_with_buffer pwd DEFAULT_SHELL buffer;
  answer_entry result pwd.

(** The iteration over the entries keeps its index in a static variable. *)
Definition getpwent (index : nat) : c_code (nat * N) :=
  match index with
  | O => p ← passwd_default; mret (1, p)
  | _ => mret (index, 0%N)
  end.
Definition endpwent (index : nat) : nat := 0.
Definition setpwent (index : nat) : nat := 0.
End shims.
Definition getegid : N := 1.
Definition geteuid : N := 1.
Definition getgid : N := 1.
Definition getuid : N := 1.
Definition getpid : Z := 42.

(** ** Bytes *)
Definition bytes_at (b : gmap N byte) (p : N) (l : list byte) : Prop :=
  forall i x, l !! i = Some x -> b !! (p + N.of_nat i)%N = Some x.
Definition allocated (b : gmap N byte) (p n : N) : Prop := forall q, (p <= q < p + n)%N -> is_Some (b !! q).
Lemma put_bytes_other p l b q : (q < p \/ p + N.of_nat (length l) <= q)%N -> put_bytes p l b !! q = b !! q.
Proof.
  revert p. induction l as [|x l IH]; intros p Hq; [done|]. cbn [put_bytes length] in *.
  rewrite lookup_insert_ne by lia. apply IH. lia.
Qed.
Lemma put_bytes_at p l b : bytes_at (put_bytes p l b) p l.
Proof.
  revert p. induction l as [|x l IH]; intros p i y Hi; [done|]. cbn [put_bytes]. destruct i as [|i].
  - injection Hi as ->. rewrite N.add_0_r. by rewrite lookup_insert_eq.
  - rewrite lookup_insert_ne by lia. replace (p + N.of_nat (S i))%N with (p + 1 + N.of_nat i)%N by lia. by apply IH.
Qed.
Lemma put_bytes_allocated p l b q : is_Some (b !! q) -> is_Some (put_bytes p l b !! q).
Proof.
  revert p. induction l as [|x l IH]; intros p Hq; [done|]. cbn [put_bytes].
  destruct (decide (p = q)) as [->|]; [rewrite lookup_insert_eq; eauto|]. rewrite lookup_insert_ne by done. by apply IH.
Qed.
Lemma in_memory_allocated p n b : allocated b p (N.of_nat n) -> in_memory p n b = true.
Proof.
  intros H. apply forallb_forall. intros i [_ Hi]%in_seq. apply bool_decide_eq_true_2, H. lia.
Qed.
Lemma text_bytes_length s : length (text_bytes s) = str_len s.
Proof. induction s as [|c s IH]; [done|]. cbn. f_equal. exact IH. Qed.

(** ** [getpwuid_r] *)
Lemma with_passwd_run self f m e : cm_passwd m !! self = Some e ->
  with_passwd self f m = (set_passwd (<[self := f e]> (cm_passwd m)) m, Ok tt).
Proof. intros He. unfold with_passwd, mbind, sem_bind, sem_ask, sem_modify. by rewrite He. Qed.
Lemma put_bytes_allocated_all p l b q n : allocated b q n -> allocated (put_bytes p l b) q n.
Proof. intros Ha r Hr. by apply put_bytes_allocated, Ha. Qed.
Lemma put_bytes_insert p x q k b : (p < q)%N -> put_bytes q k (<[p := x]> b) = <[p := x]> (put_bytes q k b).
Proof.
  revert q. induction k as [|y k IH]; intros q Hq; cbn [put_bytes]; [done|].
  rewrite IH by lia. apply insert_insert_ne. lia.
Qed.
Lemma put_bytes_app p l k b : put_bytes p (l ++ k) b = put_bytes (p + N.of_nat (length l)) k (put_bytes p l b).
Proof.
  revert p. induction l as [|x l IH]; intros p; cbn [app put_bytes length]; [by rewrite N.add_0_r|].
  rewrite IH, put_bytes_insert by lia. do 2 f_equal. lia.
Qed.

(** The bytes of the buffer from its start on are [written], and the fields of the
    entry are [e]. *)
Definition with_texts (pwd start : N) (written : list byte) (e : Passwd) (m : CMemory) : CMemory :=
  MkCMemory (put_bytes start written (cm_bytes m)) (<[pwd := e]> (cm_passwd m)) (cm_results m) (cm_locks m).
(** One more text, if it fits. *)
Lemma put_in_buffer_texts set pwd start capacity written text e m :
  allocated (cm_bytes m) start capacity ->
  let len := N.of_nat (str_len text) in let offset := N.of_nat (length written) in
  put_in_buffer set pwd text (MkPasswdBuffer start capacity offset) (with_texts pwd start written e m) =
  if (len + offset <=? capacity)%N
  then (with_texts pwd start (written ++ text_bytes text) (set (start + offset)%N e) m, Ok (MkPasswdBuffer start capacity (N.of_nat (length (written ++ text_bytes text)))))
  else (with_texts pwd start written e m, Ok (MkPasswdBuffer start capacity offset)).
Proof.
  intros Ha len offset. unfold put_in_buffer. cbn [pb_buffer pb_offset pb_capacity]. fold len.
  destruct (N.leb_spec (len + offset) capacity) as [Hle|]; [|done].
  assert (copy_from (start + offset) (text_bytes text) (with_texts pwd start written e m) =
          (with_texts pwd start (written ++ text_bytes text) e m, Ok tt)) as Hc.
  { unfold copy_from. rewrite in_memory_allocated.
    - unfold with_texts, set_bytes. cbn. by rewrite put_bytes_app.
    - rewrite text_bytes_length. cbn. apply put_bytes_allocated_all. intros q Hq. apply Ha. subst len offset. lia. }
  rewrite (sem_bind_run _ _ _ _ _ Hc), (sem_bind_run _ _ _ _ _ (with_passwd_run pwd (set (start + offset)%N) _ e (lookup_insert_eq _ _ _))).
  rewrite length_app, text_bytes_length, Nat2N.inj_add. unfold with_texts, set_passwd. cbn. by rewrite insert_insert_eq.
Qed.
Lemma written_lookup p l b q :
  put_bytes p l b !! q = if decide (p <= q < p + N.of_nat (length l))%N then l !! N.to_nat (q - p) else b !! q.
Proof.
  case_decide as Hq; [|apply put_bytes_other; lia].
  destruct (lookup_lt_is_Some_2 l (N.to_nat (q - p))) as [x Hx]; [lia|]. rewrite Hx.
  rewrite <- (put_bytes_at p l b _ _ Hx). f_equal. lia.
Qed.

(** What fits in a buffer: the name from 9 bytes on, the directory with it from 19 on,
    the shell with both from 29 on. *)
Definition texts_in (bufsize : N) : string :=
  if (bufsize <? 9)%N then EmptyString
  else if (bufsize <? 19)%N then DEFAULT_USERNAME
  else if (bufsize <? 29)%N then DEFAULT_USERNAME +:+ DEFAULT_HOMEDIR
  else DEFAULT_USERNAME +:+ DEFAULT_HOMEDIR +:+ DEFAULT_SHELL.

(** C35: the exact outcome of the reentrant lookup of the user.  It always says that it
    succeeded.  The texts that fit are put at the start of the caller's buffer, one
    right after the other with no zero byte between or behind: none in fewer than 9
    bytes, the name from 9 on, the name and the home directory from 19 on, the shell
    as well from 29 on.  The entry's fields point to their texts, those of texts that
    do not fit keep the pointer that was there before, user and group are 1, and the
    result points to the entry.  Nothing else changes: no other byte, within the
    buffer or outside, no other entry or result, and no lock. *)
Theorem passwd_in_buffer uid pwd buffer bufsize result m e old :
  cm_passwd m !! pwd = Some e -> cm_results m !! result = Some old -> allocated (cm_bytes m) buffer bufsize ->
  let written := text_bytes (texts_in bufsize) in
  exists m', getpwuid_r uid pwd buffer bufsize result m = (m', Ok 0%Z) /\
    (N.of_nat (length written) <= bufsize)%N /\
    (forall q, cm_bytes m' !! q = if decide (buffer <= q < buffer + N.of_nat (length written))%N
                                  then written !! N.to_nat (q - buffer) else cm_bytes m !! q) /\
    cm_passwd m' = <[pwd := MkPasswd (if (9 <=? bufsize)%N then buffer else pw_name e) 1 1
                              (if (19 <=? bufsize)%N then (buffer + 9)%N else pw_dir e)
                              (if (29 <=? bufsize)%N then (buffer + 19)%N else pw_shell e)]> (cm_passwd m) /\
    cm_results m' = <[result := pwd]> (cm_results m) /\ cm_locks m' = cm_locks m.
Proof.
  intros He Hr Ha written.
  set (e2 := MkPasswd (pw_name e) 1 1 (pw_dir e) (pw_shell e)).
  assert (getpwuid_r uid pwd buffer bufsize result m =
    (buffer' ← put_in_buffer set_name pwd DEFAULT_USERNAME (MkPasswdBuffer buffer bufsize (N.of_nat (length (@nil byte))));
     buffer' ← put_in_buffer set_dir pwd DEFAULT_HOMEDIR buffer';
     _ ← put_in_buffer set_shell pwd DEFAULT_SHELL buffer';
     answer_entry result pwd) (with_texts pwd buffer [] e2 m)) as ->.
  { unfold getpwuid_r, builder_gid, builder_uid. rewrite (sem_bind_run _ _ _ _ _ (with_passwd_run pwd _ m e He)).
    rewrite (sem_bind_run _ _ _ _ _ (with_passwd_run pwd _ _ _ (lookup_insert_eq _ _ _))).
    unfold with_texts, set_passwd. cbn. by rewrite insert_insert_eq. }
  set (entry := MkPasswd (if (9 <=? bufsize)%N then _ else _) 1 1 _ _).
  assert (N.of_nat (length written) <= bufsize)%N as Hlen.
  { subst written. rewrite text_bytes_length. unfold texts_in.
    destruct (N.ltb_spec bufsize 9), (N.ltb_spec bufsize 19), (N.ltb_spec bufsize 29);
      match goal with |- (?x <= _)%N => let n := eval vm_compute in x in change x with n end; lia. }
  exists (set_results (<[result := pwd]> (cm_results m)) (with_texts pwd buffer written entry m)).
  split; [|split; [done|split; [intros q; apply written_lookup|done]]].
  assert (forall w' e', w' = written -> e' = entry -> answer_entry result pwd (with_texts pwd buffer w' e' m) =
    (set_results (<[result := pwd]> (cm_results m)) (with_texts pwd buffer written entry m), Ok 0%Z)) as Hanswer.
  { intros w' e' -> ->. unfold answer_entry. cbn [with_texts cm_results]. by rewrite Hr. }
  unfold mbind, sem_bind. subst entry written. unfold texts_in in *.
  destruct (N.leb_spec 9 bufsize), (N.leb_spec 19 bufsize), (N.leb_spec 29 bufsize), (N.ltb_spec bufsize 9), (N.ltb_spec bufsize 19),
    (N.ltb_spec bufsize 29); try (exfalso; lia).
  all: do 3 (rewrite put_in_buffer_texts by done;
    match goal with |- context [(?x + ?y <=? ?b)%N] =>
      let n := eval vm_compute in (x + y)%N in change (x + y)%N with n; destruct (N.leb_spec n b) end; try (exfalso; lia)).
  all: apply Hanswer; [reflexivity|].
  all: unfold set_shell, set_dir, set_name, e2; cbn [pw_name pw_uid pw_gid pw_dir pw_shell].
  all: f_equal; first [apply N.add_0_r|reflexivity].
Qed.

(** ** Locks *)
Inductive LockCall := Allocate | Free (lock : N) | Acquire (lock : N) | Release (lock : N).
(** The answer of a call: a lock, a yes or no, or nothing. *)
Inductive LockAnswer := Allocated (lock : N) | Acquired (yes : bool) | Nothing.
Section locks.
Context {AL : Allocator}.
Definition lock_call (c : LockCall) : c_code LockAnswer :=
  match c with
  | Allocate => p ← wt_allocate_lock; mret (Allocated p)
  | Free p => _ ← wt_free_lock p; mret Nothing
  | Acquire p => b ← wt_acquire_lock p; mret (Acquired b)
  | Release p => _ ← wt_release_lock p; mret Nothing
  end.
Fixpoint lock_calls (l : list LockCall) : c_code (list LockAnswer) :=
  match l with
  | [] => mret []
  | c :: l => a ← lock_call c; as_ ← lock_calls l; mret (a :: as_)
  end.
#[local] Instance LockCall_eq_dec : EqDecision LockCall.
Proof. solve_decision. Defined.
(** A call that takes a lock from its holder. *)
Definition gives_up (p : N) (c : LockCall) : Prop := c = Release p \/ c = Free p.
#[local] Instance gives_up_dec p c : Decision (gives_up p c).
Proof. unfold gives_up. apply _. Defined.

Lemma lock_calls_cons c l m m2 as_ : lock_calls (c :: l) m = (m2, Ok as_) ->
  exists m1 a as', lock_call c m = (m1, Ok a) /\ lock_calls l m1 = (m2, Ok as') /\ as_ = a :: as'.
Proof.
  cbn [lock_calls]. intros (m1 & a & Hc & (m3 & as' & Hl & [= <- <-])%sem_bind_Ok)%sem_bind_Ok. by exists m1, a, as'.
Qed.
Lemma lock_calls_length l m m' as_ : lock_calls l m = (m', Ok as_) -> length as_ = length l.
Proof.
  revert m as_. induction l as [|c l IH]; intros m as_ H; [by injection H as _ <-|].
  apply lock_calls_cons in H as (m1 & a & as' & _ & Hl & ->). cbn. f_equal. by eapply IH.
Qed.
Lemma lock_calls_app l1 l2 m m2 as_ : lock_calls (l1 ++ l2) m = (m2, Ok as_) ->
  exists m1 as1 as2, lock_calls l1 m = (m1, Ok as1) /\ lock_calls l2 m1 = (m2, Ok as2) /\ as_ = as1 ++ as2.
Proof.
  revert m as_. induction l1 as [|c l1 IH]; intros m as_ H; [by exists m, [], as_|].
  apply lock_calls_cons in H as (m1 & a & as' & Hc & Hl & ->).
  destruct (IH _ _ Hl) as (m3 & as1 & as2 & H1 & H2 & ->). exists m3, (a :: as1), as2.
  split; [|done]. cbn [lock_calls]. by rewrite (sem_bind_run _ _ _ _ _ Hc), (sem_bind_run _ _ _ _ _ H1).
Qed.
Lemma lock_call_keeps c p m m' a : cm_locks m !! p = Some true -> lock_call c m = (m', Ok a) -> ~ gives_up p c ->
  cm_locks m' !! p = Some true.
Proof.
  intros Hp Hc Hn. unfold lock_call in Hc. destruct c as [|q|q|q].
  - injection Hc as <- _. cbn. rewrite lookup_insert_ne; [done|]. intros Heq. by rewrite <- Heq, alloc_fresh_lock in Hp.
  - assert (q <> p) by (intros ->; apply Hn; by right). unfold wt_free_lock in Hc.
    destruct (q =? 0)%N; [by injection Hc as <- _|]. unfold the_lock, mbind, sem_bind, sem_ask, sem_modify in Hc. cbn in Hc.
    destruct (cm_locks m !! q); [|done]. injection Hc as <- _. cbn. by rewrite lookup_delete_ne.
  - unfold wt_acquire_lock, the_lock, set_lock, mbind, sem_bind, sem_ask, sem_modify in Hc. cbn in Hc.
    destruct (cm_locks m !! q) as [[]|] eqn:Hq; [by injection Hc as <- _| |done]. injection Hc as <- _. cbn.
    destruct (decide (q = p)) as [->|]; [congruence|]. by rewrite lookup_insert_ne.
  - assert (q <> p) by (intros ->; apply Hn; by left).
    unfold wt_release_lock, the_lock, set_lock, mbind, sem_bind, sem_ask, sem_modify in Hc. cbn in Hc.
    destruct (cm_locks m !! q); [|done]. injection Hc as <- _. cbn. by rewrite lookup_insert_ne.
Qed.
Lemma lock_calls_keep l p m m' as_ : cm_locks m !! p = Some true -> lock_calls l m = (m', Ok as_) -> Forall (fun c => ~ gives_up p c) l ->
  cm_locks m' !! p = Some true.
Proof.
  intros Hp Hl Hn. revert m as_ Hp Hl. induction Hn as [|c l Hc Hn IH]; intros m as_ Hp Hl; [by injection Hl as <- _|].
  apply lock_calls_cons in Hl as (m1 & a & as' & H1 & H2 & _).
  eapply IH; [|exact H2]. by eapply lock_call_keeps.
Qed.
Lemma acquire_run p m m' b : lock_call (Acquire p) m = (m', Ok (Acquired b)) ->
  cm_locks m !! p = Some (negb b) /\ cm_locks m' !! p = Some true.
Proof.
  unfold lock_call, wt_acquire_lock, the_lock, set_lock, mbind, sem_bind, sem_ask, sem_modify. cbn.
  destruct (cm_locks m !! p) as [[]|] eqn:Hp; cbn; [| |done]; intros [= <- <-]; [done|]. split; [done|]. cbn. by rewrite lookup_insert_eq.
Qed.

(** C34: a lock has one holder at a time.  In every sequence of calls without undefined
    behaviour, between two calls that acquired the same lock there is one that
    released or freed it; a call to acquire a lock that is held answers no and does
    not wait. *)
Theorem one_holder before p between after m m' answers a1 a2 a3 :
  lock_calls (before ++ Acquire p :: between ++ Acquire p :: after) m = (m', Ok answers) ->
  answers = a1 ++ Acquired true :: a2 ++ Acquired true :: a3 ->
  length a1 = length before -> length a2 = length between ->
  Exists (gives_up p) between.
Proof.
  intros H -> H1 H2. destruct (decide (Exists (gives_up p) between)) as [|Hn]; [done|]. exfalso.
  apply Forall_Exists_neg in Hn. apply lock_calls_app in H as (m1 & as1 & as2 & Hb & Hrest & Has).
  pose proof (lock_calls_length _ _ _ _ Hb) as Hl1. apply app_inj_1 in Has as [_ Has]; [|congruence].
  apply lock_calls_cons in Hrest as (m2 & a & as3 & Ha & Hrest & ->). injection Has as <- Has.
  apply acquire_run in Ha as [_ Hheld]. apply lock_calls_app in Hrest as (m3 & as4 & as5 & Hm & Hrest & ->).
  pose proof (lock_calls_length _ _ _ _ Hm) as Hl2. apply app_inj_1 in Has as [_ Has]; [|congruence].
  apply lock_calls_cons in Hrest as (m4 & a' & as6 & Ha' & _ & ->). injection Has as <- _.
  apply acquire_run in Ha' as [Hfree _]. pose proof (lock_calls_keep between p m2 m3 as4 Hheld Hm Hn) as Hstill.
  rewrite Hstill in Hfree. discriminate Hfree.
Qed.
End locks.

(** ** Thread storage and the iteration *)

(** What is stored under a key is what was last set, nothing after a deletion, and
    other keys do not matter; making a key forgets nothing. *)
Lemma tss_get_set key key' value s : lk_poisoned s = false ->
  wt_tss_get key (wt_tss_set key' value s).1 = if (key =? key')%N then value else wt_tss_get key s.
Proof.
  intros Hs. unfold wt_tss_get, wt_tss_set, tss_write, lock_get, lock_set. rewrite !Hs. cbn.
  destruct (N.eqb_spec key key') as [->|]; [by rewrite lookup_insert_eq|by rewrite lookup_insert_ne].
Qed.
Lemma tss_get_delete key key' s : lk_poisoned s = false ->
  wt_tss_get key (wt_tss_delete key' s).1 = if (key =? key')%N then 0%N else wt_tss_get key s.
Proof.
  intros Hs. unfold wt_tss_get, wt_tss_delete, tss_write, lock_get, lock_set. rewrite !Hs. cbn.
  destruct (N.eqb_spec key key') as [->|]; [by rewrite lookup_delete_eq|by rewrite lookup_delete_ne].
Qed.
Section users.
Context {AL : Allocator}.
Lemma c_string_at b p l fuel : bytes_at b p (l ++ [nul]) -> forallb (fun x => negb (bytes_eqb [x] [nul])) l = true -> length l < fuel ->
  c_string fuel b p = Some l.
Proof.
  revert p fuel. induction l as [|x l IH]; intros p [|fuel] Hb Hl Hf; cbn [length] in Hf; try lia; cbn [c_string].
  - pose proof (Hb 0 nul eq_refl) as H0. rewrite N.add_0_r in H0. by rewrite H0.
  - cbn [forallb] in Hl. apply andb_true_iff in Hl as [Hx Hl]. pose proof (Hb 0 x eq_refl) as H0. rewrite N.add_0_r in H0.
    rewrite H0. cbn [mbind option_bind]. apply negb_true_iff in Hx. rewrite Hx, IH; [done| |done|lia].
    intros k y Hk. replace (p + 1 + N.of_nat k)%N with (p + N.of_nat (S k))%N by lia. by apply Hb.
Qed.
(** Making a C string: at a new place, leaving all other bytes. *)
Lemma new_c_string_run text m : exists p b,
  new_c_string text m = (set_bytes b m, Ok p) /\ bytes_at b p (text_bytes text ++ [nul]) /\
  (forall q l, bytes_at (cm_bytes m) q l -> bytes_at b q l).
Proof.
  unfold new_c_string. set (l := text_bytes text ++ [nul]). exists (alloc m (length l)), (put_bytes (alloc m (length l)) l (cm_bytes m)).
  split; [done|]. split; [apply put_bytes_at|]. intros q k Hq i x Hi. rewrite put_bytes_other; [by apply Hq|].
  destruct (decide (alloc m (length l) <= q + N.of_nat i < alloc m (length l) + N.of_nat (length l))%N) as [Hin|]; [|lia].
  apply Hq in Hi. pose proof (alloc_fresh m (length l) (q + N.of_nat i - alloc m (length l)) ltac:(lia)) as Hnone.
  replace (alloc m (length l) + (q + N.of_nat i - alloc m (length l)))%N with (q + N.of_nat i)%N in Hnone by lia. congruence.
Qed.
Lemma with_c_string_run set self text m e (rest : c_code N) : cm_passwd m !! self = Some e ->
  exists p b, (_ ← (p ← new_c_string text; with_passwd self (set p)); rest) m =
      rest (set_passwd (<[self := set p e]> (cm_passwd m)) (set_bytes b m)) /\
    bytes_at b p (text_bytes text ++ [nul]) /\ (forall q l, bytes_at (cm_bytes m) q l -> bytes_at b q l).
Proof.
  intros He. destruct (new_c_string_run text m) as (p & b & Hr & Hb & Hkeep). exists p, b. split; [|done].
  assert ((p ← new_c_string text; with_passwd self (set p)) m = (set_passwd (<[self := set p e]> (cm_passwd m)) (set_bytes b m), Ok tt)) as H.
  { rewrite (sem_bind_run _ _ _ _ _ Hr). by rewrite (with_passwd_run self (set p) (set_bytes b m) e He). }
  by rewrite (sem_bind_run _ _ _ _ _ H).
Qed.
(** A lookup of a user that needs no buffer gives a new entry with the texts of the
    one user there is. *)
Lemma getpwuid_run uid m : exists m' p e,
  getpwuid uid m = (m', Ok p) /\ p <> 0%N /\ cm_passwd m !! p = None /\ cm_passwd m' !! p = Some e /\ pw_uid e = 1%N /\ pw_gid e = 1%N /\
  c_string 20 (cm_bytes m') (pw_name e) = Some (text_bytes DEFAULT_USERNAME) /\
  c_string 20 (cm_bytes m') (pw_dir e) = Some (text_bytes DEFAULT_HOMEDIR) /\
  c_string 20 (cm_bytes m') (pw_shell e) = Some (text_bytes DEFAULT_SHELL).
Proof.
  set (p := alloc m 20). set (m0 := set_passwd (<[p := MkPasswd 0 0 0 0 0]> (cm_passwd m)) m).
  unfold getpwuid, passwd_default, builder_name, builder_home_dir, builder_shell, builder_gid, builder_uid.
  assert (passwd_builder_new m = (m0, Ok p)) as H0 by done. rewrite (sem_bind_run _ _ _ _ _ H0).
  edestruct (with_c_string_run set_name p DEFAULT_USERNAME m0) as (p1 & b1 & -> & Hp1 & _); [cbn; by rewrite lookup_insert_eq|].
  edestruct (with_c_string_run set_dir p DEFAULT_HOMEDIR) as (p2 & b2 & -> & Hp2 & Hk2); [cbn; by rewrite lookup_insert_eq|].
  edestruct (with_c_string_run set_shell p DEFAULT_SHELL) as (p3 & b3 & -> & Hp3 & Hk3); [cbn; by rewrite lookup_insert_eq|].
  cbn [cm_bytes set_bytes set_passwd] in Hk2, Hk3.
  match goal with |- exists _ _ _, _ ?m3 = _ /\ _ => set (m3' := m3) end.
  assert (cm_passwd m3' !! p = Some (MkPasswd p1 0 0 p2 p3)) as He by (cbn; by rewrite lookup_insert_eq).
  rewrite (sem_bind_run _ _ _ _ _ (with_passwd_run p _ m3' _ He)). cbn [pw_name pw_uid pw_gid pw_dir pw_shell].
  set (m4 := set_passwd _ m3'). assert (cm_passwd m4 !! p = Some (MkPasswd p1 0 1 p2 p3)) as He4 by (cbn; by rewrite lookup_insert_eq).
  rewrite (sem_bind_run _ _ _ _ _ (with_passwd_run p _ m4 _ He4)). cbn [pw_name pw_uid pw_gid pw_dir pw_shell].
  eexists _, p, (MkPasswd p1 1 1 p2 p3). split; [reflexivity|]. split; [apply alloc_not_null|]. split; [apply alloc_fresh_passwd|].
  split; [cbn; by rewrite lookup_insert_eq|]. split; [done|]. split; [done|].
  split_and!; (apply c_string_at; [|done|simpl; lia]); cbn [cm_bytes set_passwd set_bytes m4 m3'].
  - by apply Hk3, Hk2.
  - by apply Hk3.
  - exact Hp3.
Qed.
Lemma no_more_users index m : index <> 0 -> getpwent index m = (m, Ok (index, 0%N)).
Proof. by destruct index. Qed.
End users.

(** ** A concrete memory *)
Module ShimExamples.
Definition highest {V} (m : gmap N V) : N := foldr N.max 0%N (map_to_list m).*1.
Lemma below_max k l : k ∈ l -> (k <= foldr N.max 0 l)%N.
Proof. induction 1; cbn; lia. Qed.
Lemma above_highest {V} (m : gmap N V) k : (highest m < k)%N -> m !! k = None.
Proof.
  intros Hk. destruct (m !! k) as [x|] eqn:Hx; [|done]. exfalso. apply elem_of_map_to_list, (list_elem_of_fmap_2 fst) in Hx.
  apply below_max in Hx. unfold highest in Hk. cbn [fst] in Hx. lia.
Qed.
(** Everything new is put above all that there is. *)
#[export] Instance above_all : Allocator.
Proof.
  refine {| alloc m _ := (1 + N.max (highest (cm_bytes m)) (N.max (highest (cm_passwd m)) (highest (cm_locks m))))%N |};
    intros; try apply above_highest; lia.
Defined.
(** The stack of a caller: an entry that points to the byte at 90, a buffer of 48
    bytes at 100 that holds the letter x, and a result. *)
Definition caller : CMemory :=
  MkCMemory (foldr (fun i b => <[(100 + N.of_nat i)%N := Corelib.Init.Byte.x78]> b) {[ 90%N := nul ]} (seq 0 48))
    {[ 200%N := MkPasswd 90 7 7 90 90 ]} {[ 300%N := 0%N ]} ∅.
Definition looked_up (bufsize : N) : CMemory := (getpwuid_r 5 200 100 bufsize 300 caller).1.
Definition names (m : CMemory) : option (list (option string)) :=
  e ← cm_passwd m !! 200%N;
  Some ((fun p => String.string_of_list_byte <$> c_string 60 (cm_bytes m) p) <$> [pw_name e; pw_dir e; pw_shell e]).
Lemma passwd_in_buffer_witness : exists m', getpwuid_r 5 200 100 20 300 caller = (m', Ok 0%Z) /\
  (forall q, cm_bytes m' !! q = if decide (100 <= q < 119)%N
     then text_bytes "wasi-user/homeless/" !! N.to_nat (q - 100) else cm_bytes caller !! q) /\
  cm_passwd m' !! 200%N = Some (MkPasswd 100 1 1 109 90) /\ cm_results m' !! 300%N = Some 200%N.
Proof.
  destruct (passwd_in_buffer 5 200 100 20 300 caller (MkPasswd 90 7 7 90 90) 0) as
    (m' & Hr & _ & Hb & Hp & Hres & _); [reflexivity|reflexivity| |].
  - intros q Hq. assert (in_memory 100 20 (cm_bytes caller) = true) as Hin by (vm_compute; reflexivity).
    unfold in_memory in Hin. rewrite forallb_forall in Hin. specialize (Hin (N.to_nat (q - 100))).
    replace (100 + N.of_nat (N.to_nat (q - 100)))%N with q in Hin by lia. apply bool_decide_eq_true in Hin; [exact Hin|].
    apply in_seq. lia.
  - exists m'. split; [exact Hr|]. split; [exact Hb|]. rewrite Hp, Hres. split; apply lookup_insert_eq.
Defined.
(** With no zero byte in the buffer the texts run out of it, with one right after them
    they run into each other up to there. *)
Example names_run_on :
  names (looked_up 40) = Some [None; None; None] /\
  names (set_bytes (<[129%N := nul]> (cm_bytes (looked_up 40))) (looked_up 40)) =
    Some [Some "wasi-user/homeless//unshelled"; Some "/homeless//unshelled"; Some "/unshelled"].
Proof. vm_compute. split; reflexivity. Qed.
(** A buffer too small for anything: the answer is success, the entry is the caller's. *)
Example nothing_fits :
  (getpwuid_r 5 200 100 8 300 caller).2 = Ok 0%Z /\ cm_passwd (looked_up 8) !! 200%N = Some (MkPasswd 90 1 1 90 90).
Proof. vm_compute. split; reflexivity. Qed.
Definition contended : list LockCall := [Allocate; Acquire 201; Acquire 201; Release 201; Acquire 201].
Definition contended_run : CMemory * result undefined (list LockAnswer) := lock_calls contended caller.
Lemma one_holder_witness :
  contended_run.2 = Ok [Allocated 201; Acquired true; Acquired false; Nothing; Acquired true] /\
  Exists (gives_up 201) [Acquire 201; Release 201].
Proof.
  assert (contended_run = (contended_run.1, Ok [Allocated 201; Acquired true; Acquired false; Nothing; Acquired true])) as H
    by (vm_compute; reflexivity).
  split; [exact (f_equal snd H)|].
  exact (one_holder [Allocate] 201 [Acquire 201; Release 201] [] caller contended_run.1
    [Allocated 201; Acquired true; Acquired false; Nothing; Acquired true] [Allocated 201] [Acquired false; Nothing] [] H eq_refl eq_refl eq_refl).
Defined.
(** A name of the caller goes into the new entry as it is. *)
Example looked_up_by_name : match getpwnam 90 caller with (m, Ok p) => pw_name <$> cm_passwd m !! p = Some 90%N | _ => False end.
Proof. vm_compute. reflexivity. Qed.
End ShimExamples.
