(* ===== verification/PyRuntime.v ===== *)
(** * The runtime for Python (services/avery/runtimes/python/src/main.rs, firm.rs, socket.rs)

    The runtime is a guest that runs functions written in Python: [python_main] reads
    its context, gets the code and its dependencies through the library of guests
    ([FirmRust]), starts the interpreter, calls the entry point, and turns whatever
    fails into the error of the function.  The module [firm] that the code imports
    is the functions of this file: [get_input] to [py_set_error].

    CPython with pyo3 is the class [Python]: what a Python object can be taken for,
    and importing, calling and printing an exception, which are guest code that may
    use the module [firm] and may end the process: printing does for [SystemExit],
    which is what [sys.exit] raises.  The file system of the guest and its archives
    are [GuestFs].  Not modelled: what is printed, the lock of the interpreter, and
    what runs while it is finalised.

    The theorem is about a run of [python_main] against the host of the runtime, with
    the calculus of [GuestCalculus] and the attachment calls of [FirmRustProps]:
    which errors a run leaves, and when it ends in a trap, which fails the execution
    ([python_failures_reported]).  There the Python code is any that keeps the memory
    of the guest in order while it runs. *)
From S2P Require Import Prelude Interfaces Proto Stream Registry Executor Download WasmMemory WasiHost Wasi WasiRun SimpleCodec WasiProps.
From S2P Require Import FirmRust GuestCalculus FirmRustProps.
From Stdlib Require Import Floats.SpecFloat.
From Stdlib Require Import Ascii.

(** ** Errors of the library *)
Definition display_conversion_error (e : ChannelConversionError) : string :=
  "Could not convert " +:+ quoted (found_type e) +:+ " to " +:+ quoted (expected_type e) +:+ ".".
Section errors.
Variable display_utf8 : Utf8Error -> string.
Variable number_text : N -> string.
Definition display_guest_error (e : GuestError) : string :=
  match e with
  | FailedToDecodeResult e => "Failed to decode: " +:+ e
  | FailedToEncodeOutputValue e => "Failed to encode: " +:+ e
  | HostError ec => "Host error occured. Error code: " +:+ number_text ec
  | HostChannelNotFound => "Failed to find channel on host."
  | FailedToFindRequiredInput key => "Failed to find required input " +:+ quoted key
  | ConversionError e => display_conversion_error e
  | StringConversionError e => "String conversion error: " +:+ display_utf8 e
  | GuestFailedToFindAttachment name => "Failed to find attachment " +:+ quoted name
  end.
End errors.
Definition display_context_error (e : RuntimeContextError) : string :=
  match e with
  | ContextFileIOError path source => "Context file at " +:+ path +:+ " could not be opened: " +:+ source
  | FailedToDecodeContextFile path source => "Failed to decode context file at " +:+ path +:+ ": " +:+ source
  end.

(** ** Python *)
Abbreviation PyEnvironment := (list (string * string)).
Class Python := {
  PyErr : Type;
  (** an exception of a class with a message, and its text *)
  py_new_err : string -> string -> PyErr;
  pyerr_to_string : PyErr -> string;
  PyObject : Type;
  (** what an object can be taken for *)
  extract_bytes : PyObject -> option (list byte);
  extract_strings : PyObject -> option (list string);
  extract_booleans : PyObject -> option (list bool);
  extract_integers : PyObject -> option (list Z);
  extract_floats : PyObject -> option (list spec_float);
  (** whether the interpreter comes up, and loads the modules for sockets *)
  py_initialize : PyEnvironment -> bool;
  py_load_modules : result PyErr unit;
  PyModule : Type;
  PyFunction : Type;
  py_import : PyEnvironment -> string -> guest PyErr PyModule;
  py_getattr : PyModule -> string -> guest PyErr PyFunction;
  py_call0 : PyFunction -> guest PyErr unit;
  (** [PyErr_PrintEx]: runs the hook for uncaught exceptions, and ends the process
      for [SystemExit] *)
  py_print : PyErr -> guest PyErr unit
}.
(** Values the module gives to Python. *)
Inductive PyValue := PyStr (s : string) | PyInt (n : Z) | PyFloat (f : spec_float) | PyBool (b : bool).
Definition py_byte (b : byte) : PyValue := PyInt (Z.of_N (byte_N b)).

(** The rest of guest code, whatever its end was. *)
Definition guest_try {E F A} (c : guest E A) : guest F (result E A) := fun k => c (fun r => k (Ok r)).

Section firm.
Context {GH : GuestHeap} {PC : Prost Channel} {PA : Prost Attachment} {PS : Prost StartProcessRequest} {PY : Python}.
Variable os : HostOs.
Variable display_utf8 : Utf8Error -> string.
Variable number_text : N -> string.
#[local] Abbreviation display := (display_guest_error display_utf8 number_text).

(** ** The module (firm.rs) *)

(** A [String] given to the library. *)
Definition with_text {A} (text : string) (f : WasmString -> guest GuestError A) : guest GuestError A :=
  b ← new_vec (bytes_of text); f b.
Definition raising {A} (class : string) (c : guest GuestError A) : guest PyErr A := guest_map_err (fun e => py_new_err class (display e)) c.
Definition elements (v : ValueType) : list PyValue :=
  match v with
  | Strings x => PyStr <$> x
  | Integers x => PyInt <$> x
  | Floats x => PyFloat <$> x
  | Booleans x => PyBool <$> x
  | Bytes x => py_byte <$> x
  end.
Definition get_input_stream (key : string) : guest PyErr (option (list PyValue)) :=
  channel ← raising "GetInputError" (with_text key (guest_get_channel os));
  mret (elements <$> ch_value channel).
(** [x.values.pop()] is nothing for a channel without values. *)
Definition get_input (key : string) : guest PyErr (option (option PyValue)) :=
  channel ← raising "GetInputError" (with_text key (guest_get_channel os));
  mret ((fun v => last (elements v)) <$> ch_value channel).
(** The variants of [OutputValues] are tried in their order. *)
Definition output_values (values : PyObject) : option ValueType :=
  match extract_bytes values, extract_strings values, extract_booleans values, extract_integers values, extract_floats values with
  | Some b, _, _, _, _ => Some (Bytes b)
  | None, Some s, _, _, _ => Some (Strings s)
  | None, None, Some b, _, _ => Some (Booleans b)
  | None, None, None, Some i, _ => Some (Integers i)
  | None, None, None, None, Some f => Some (Floats f)
  | None, None, None, None, None => None
  end.
(** A [TypeError] of the call where an object is none of them. *)
Definition py_set_output (key : string) (values : PyObject) : guest PyErr unit :=
  match output_values values with
  | None => guest_lift (Err (py_new_err "TypeError" "argument 'values'"))
  | Some v => raising "SetOutputError" (with_text key (fun k => set_output_channel os k (MkChannel (Some v))))
  end.
Definition py_get_host_os : guest PyErr (list byte) := raising "GetHostOsError" (get_host_os os).
Definition py_host_path_exists (path : string) : guest PyErr bool := raising "HostPathExistsError" (with_text path (host_path_exists os)).
Definition py_start_host_process (name : string) (args : option (list string)) (environment : option (gmap string string)) : guest PyErr N :=
  raising "HostProcessError" (start_host_process os name (default [] args) (default ∅ environment)).
Definition py_run_host_process (name : string) (args : option (list string)) (environment : option (gmap string string)) : guest PyErr Z :=
  raising "HostProcessError" (run_host_process os name (default [] args) (default ∅ environment)).
Definition py_map_attachment (attachment_name : string) (unpack : option bool) : guest PyErr string :=
  raising "MapAttachmentError" (with_text attachment_name
    (if default false unpack then map_attachment_and_unpack os else guest_map_attachment os)).
Definition set_error_text (message : string) : guest GuestError unit := with_text message (guest_set_error os).
Definition py_set_error (message : string) : guest PyErr unit := raising "SetErrorError" (set_error_text message).

(** ** The module wasi_socket (socket.rs) *)

(** Reading at most so many bytes from a descriptor and writing bytes to it. *)
Record GuestSockets := MkGuestSockets {
  gs_read : Z -> nat -> result string (list byte);
  gs_write : Z -> list byte -> result string nat
}.
Definition WasiSocket : Type := option Z.
Definition new_socket : WasiSocket := None.
Definition socket_address (host : string) (port : string) : string := host +:+ ":" +:+ port.
Definition socket_connect (address : string) : guest PyErr WasiSocket :=
  fd ← raising "ConnectionError" (with_text address (guest_connect os)); mret (Some fd).
Definition connected (slf : WasiSocket) : result PyErr Z := ok_or (py_new_err "SocketError" "Call connect() first!") slf.
Definition socket_send (s : GuestSockets) (slf : WasiSocket) (bytes : list byte) : result PyErr nat :=
  fd ← connected slf; map_err (py_new_err "SocketError") (gs_write s fd bytes).
(** The buffer has room for [bufsize] bytes but the length 0, and that is how many
    bytes a slice of it takes. *)
Definition socket_recv (s : GuestSockets) (slf : WasiSocket) (bufsize : nat) : result PyErr (list byte) :=
  let buf : list byte := [] in
  fd ← connected slf; map_err (py_new_err "SocketError") (gs_read s fd (length buf)).

(** ** The runtime (main.rs) *)
Record Entrypoint := MkEntrypoint { ep_module : string; ep_function : string }.
(** [splitn(2, ':')] has a first part in any case. *)
Definition entrypoint_of (entrypoint : string) : Entrypoint :=
  match split_once ":"%char entrypoint with
  | Some (module, function) => MkEntrypoint module function
  | None => MkEntrypoint entrypoint "main"
  end.
Record GuestFs := MkGuestFs {
  gf_read : string -> result string (list byte);
  gf_read_dir : string -> result string (list (result string string));
  gf_create_dir_all : string -> option string;
  (** opening a wheel and extracting it into a folder *)
  gf_install : string -> string -> result string unit
}.
Context {PX : Prost RuntimeContext}.
Variable fs : GuestFs.
Definition DEPENDENCIES_PATH : string := "/sandbox/dependencies".
Definition run_guest_code {A} (c : guest GuestError A) : guest string A := guest_map_err display c.
Definition fs_result {A} (r : result string A) : guest string A := guest_lift r.
(** The one folder of an unpacked source distribution. *)
Definition first_dir (code : string) : result string string :=
  entries ← gf_read_dir fs code;
  entry ← ok_or "no folder in unpacked python sdist" (head entries);
  entry.
(** No attachment of dependencies means none are needed. *)
Definition dependency_wheels : guest string (option string) :=
  r ← guest_try (with_text "dependencies" (map_attachment_and_unpack os));
  guest_lift match r with
    | Ok path => Ok (Some path)
    | Err (GuestFailedToFindAttachment _) => Ok None
    | Err e => Err (display e)
    end.
Definition install_wheels (path : string) : result string unit :=
  entries ← gf_read_dir fs (path_join path "dependencies");
  try_fold (fun _ de => whl ← de; gf_install fs whl DEPENDENCIES_PATH) tt entries.
Definition python_path (first_dir : string) : string := "/runtime-fs/lib:/" +:+ first_dir +:+ ":" +:+ DEPENDENCIES_PATH.
(** Importing the module, looking the function up and calling it. *)
Definition call_entrypoint (env : PyEnvironment) (entrypoint : Entrypoint) : guest PyErr unit :=
  _ ← guest_lift py_load_modules;
  main_module ← py_import env (ep_module entrypoint);
  function ← py_getattr main_module (ep_function entrypoint);
  py_call0 function.
(** The code, its folder and its dependencies in place: the environment it runs in. *)
Definition prepare (context : RuntimeContext) : guest string PyEnvironment :=
  attachment ← guest_lift (ok_or "code is required for python" (rc_code context));
  code ← run_guest_code (map_attachment_from_descriptor_and_unpack os attachment);
  dir ← fs_result (first_dir code);
  wheels ← dependency_wheels;
  _ ← fs_result match gf_create_dir_all fs DEPENDENCIES_PATH with Some e => Err e | None => Ok tt end;
  _ ← fs_result match wheels with Some path => install_wheels path | None => Ok tt end;
  mret [("PYTHONHOME", "/runtime-fs:{}"); ("PYTHONPATH", python_path dir)].
Definition call_python (env : PyEnvironment) (entrypoint : Entrypoint) : guest string unit :=
  res ← guest_try (call_entrypoint env entrypoint);
  match res with
  | Ok _ => mret tt
  | Err pyerr =>
      _ ← (guest_try (py_print pyerr) : guest string (result PyErr unit));
      run_guest_code (set_error_text (pyerr_to_string pyerr))
  end.
Definition python_run : guest string unit :=
  context ← guest_lift (map_err display_context_error (from_default (gf_read fs)));
  env ← prepare context;
  _ ← guest_lift (if py_initialize env then Ok tt else Err "🐍 Python failed to initialize!");
  call_python env (entrypoint_of (rc_entrypoint context)).
Definition python_main : guest GuestError unit :=
  r ← guest_try python_run;
  match r with
  | Ok _ => mret tt
  | Err e => set_error_text ("Unhandled Error: " +:+ e)
  end.
End firm.

(** ** What Python code meets *)
Section values.
Context {GH : GuestHeap} {PC : Prost Channel} {PA : Prost Attachment} {PS : Prost StartProcessRequest} {PY : Python}.
(** The default of the module is never used. *)
Lemma no_entrypoint : entrypoint_of "" = MkEntrypoint "" "main".
Proof. done. Qed.
(** A read that gives no more than it is asked for gives nothing, whatever the size. *)
Lemma recv_is_empty s slf bufsize bytes : (forall fd n l, gs_read s fd n = Ok l -> length l <= n) ->
  socket_recv s slf bufsize = Ok bytes -> bytes = [].
Proof.
  intros Hread. unfold socket_recv. destruct (connected slf) as [fd|e]; [|done]. cbn. destruct (gs_read s fd 0) as [l|e] eqn:Hl; [|done].
  intros [= <-]. apply Hread in Hl. by destruct l; [|cbn in Hl; lia].
Qed.
(** A bytes object that is set as an output is got as a number, its last byte. *)
Lemma last_byte b l : last (elements (Bytes (l ++ [b]))) = Some (py_byte b).
Proof. unfold elements. rewrite fmap_app. apply last_snoc. Qed.
End values.

Section python.
Context {DL : DigestLib} {UR : UrlLib} {RR : RegexReplace} {WP : WasmPtrLib} {GH : GuestHeap} {PY : Python}.
Context {PC : Prost Channel} {PA : Prost Attachment} {PS : Prost StartProcessRequest} {PX : Prost RuntimeContext}.
Context {T : Type}.
Variable auth : AuthenticationSource T.
Variable source : Source.
Hypothesis deref_aligned : forall size p width,
  (p mod 8 = 0)%N -> (p + width <= size)%N -> (0 < width)%N -> wasm_deref size p width = Some p.
Variable os : HostOs.
Variable display_utf8 : Utf8Error -> string.
Variable number_text : N -> string.
Variable fs : GuestFs.
Implicit Types s : ApiState (S := T).
#[local] Existing Instance wasi_runner.
#[local] Abbreviation state := (ApiState (S := T)).
#[local] Abbreviation wp := (GuestCalculus.wp (GR := wasi_runner auth source)).
#[local] Ltac on_memory := cbn [gr_memory gr_set_memory wasi_runner set_memory as_memory].

(** ** Code that may end the process *)

(** Like [wp], with [X] for the traps that may end the run. *)
Definition wpt (X : state -> string -> Prop) {E A} (c : guest E A) s (Q : state -> result E A -> Prop) : Prop :=
  (exists s' trap, (forall k, run_guest auth source (c k (as_memory s)) s = (s', Ok (Some trap))) /\ X s' trap) \/
  exists s' r, (forall k, run_guest auth source (c k (as_memory s)) s = run_guest auth source (k r (as_memory s')) s') /\ Q s' r.
Lemma wpt_wp X {E A} (c : guest E A) s (Q : state -> result E A -> Prop) :
  (forall s', X s' out_of_memory) -> wp c s Q -> wpt X c s Q.
Proof. intros HX [[s' H]|H]; [left; exists s', out_of_memory; by split|by right]. Qed.
Lemma wpt_bind X {E A B} (c : guest E A) (f : A -> guest E B) s Q :
  wpt X c s (fun s' r => match r with Ok a => wpt X (f a) s' Q | Err e => Q s' (Err e) end) -> wpt X (c ≫= f) s Q.
Proof.
  intros [(s' & trap & H & HX)|(s' & r & H & Hq)].
  - left. exists s', trap. split; [|done]. intros k. apply H.
  - destruct r as [a|e].
    + destruct Hq as [(s2 & trap & H2 & HX)|(s2 & r2 & H2 & Hq2)].
      * left. exists s2, trap. split; [|done]. intros k. cbv [mbind guest_bind]. by rewrite H.
      * right. exists s2, r2. split; [|done]. intros k. cbv [mbind guest_bind]. by rewrite H.
    + right. exists s', (Err e). split; [|done]. intros k. cbv [mbind guest_bind]. by rewrite H.
Qed.
Lemma wpt_mono X {E A} (c : guest E A) s (Q Q' : state -> result E A -> Prop) :
  wpt X c s Q -> (forall s' r, Q s' r -> Q' s' r) -> wpt X c s Q'.
Proof. intros [H|(s' & r & H & Hq)] Hm; [by left|]. right. exists s', r. auto. Qed.
Lemma wpt_try X {E F A} (c : guest E A) s (Q : state -> result F (result E A) -> Prop) :
  wpt X c s (fun s' r => Q s' (Ok r)) -> wpt X (guest_try c) s Q.
Proof.
  intros [(s' & trap & H & HX)|(s' & r & H & Hq)].
  - left. exists s', trap. split; [|done]. intros k. apply (H (fun r => k (Ok r))).
  - right. exists s', (Ok r). split; [|done]. intros k. apply (H (fun r => k (Ok r))).
Qed.
Lemma wpt_entrypoint X {E A} (c : guest E A) s Q :
  wpt X c s Q ->
  exists s' trap, run_guest auth source (entrypoint c (as_memory s)) s = (s', Ok trap) /\
    match trap with Some t => X s' t | None => exists r, Q s' r end.
Proof.
  unfold entrypoint. intros [(s' & trap & H & HX)|(s' & r & H & Hq)].
  - exists s', (Some trap). by split.
  - exists s', None. rewrite H. split; [done|]. by exists r.
Qed.

(** ** Building blocks *)
Lemma wp_map_err {E F A} (f : E -> F) (c : guest E A) s (Q : state -> result F A -> Prop) :
  wp c s (fun s' r => Q s' (map_err f r)) -> wp (guest_map_err f c) s Q.
Proof.
  intros [[s' H]|(s' & r & H & Hq)]; [left; exists s'; intros k; apply (H (fun r => k (map_err f r)))|].
  right. exists s', (map_err f r). split; [|done]. intros k. apply (H (fun r => k (map_err f r))).
Qed.
Lemma wp_try {E F A} (c : guest E A) s (Q : state -> result F (result E A) -> Prop) :
  wp c s (fun s' r => Q s' (Ok r)) -> wp (guest_try c) s Q.
Proof.
  intros [[s' H]|(s' & r & H & Hq)]; [left; exists s'; intros k; apply (H (fun r => k (Ok r)))|].
  right. exists s', (Ok r). split; [|done]. intros k. apply (H (fun r => k (Ok r))).
Qed.
Lemma wp_with_text {A} live s text f (Q : state -> result GuestError A -> Prop) :
  heap live (as_memory s) ->
  (forall m b, heap (b :: live) m -> same live (as_memory s) m -> buffer b m = Ok (bytes_of text) -> wp (f b) (set_memory m s) Q) ->
  wp (with_text text f) s Q.
Proof.
  intros Hh Hf. unfold with_text. apply wp_bind. apply (wp_new_vec live); [done|]. intros m p (Hm & _ & Hs & _ & Hb). on_memory.
  apply Hf; [done..|]. erewrite heap_buffer by (exact Hm || by left). by f_equal.
Qed.
Lemma wp_set_error_text live s text (Q : state -> result GuestError unit -> Prop) :
  heap live (as_memory s) -> unpoisoned s ->
  (forall m r, heap live m -> is_ok r = is_ok (from_utf8 (bytes_of text)) -> Q (add_errors (shown text) (set_memory m s)) r) ->
  wp (set_error_text os text) s Q.
Proof.
  intros Hh Hun Hq. apply (wp_with_text live); [done|]. intros m b Hm Hs Hb.
  apply (wp_set_error auth source os (b :: live) (set_memory m s) b text); [done|by left|done|done|].
  intros r Hr. apply Hq; [|done]. eapply heap_less; [exact Hm|]. set_solver.
Qed.
Lemma wp_fs {A} (r : result string A) s (Q : state -> result string A -> Prop) : Q s r -> wp (fs_result r) s Q.
Proof. apply wp_lift. Qed.

(** ** Preparing *)
Definition python_env (dir : string) : PyEnvironment := [("PYTHONHOME", "/runtime-fs:{}"); ("PYTHONPATH", python_path dir)].
#[local] Abbreviation tellable_state s := (Forall tellable (as_attachments s)).

(** Why the code of a context is not in place, and the text that says so. *)
Inductive not_prepared (context : RuntimeContext) : string -> Prop :=
| no_code : rc_code context = None -> not_prepared context "code is required for python"
| code_unmapped a e : rc_code context = Some a -> not_prepared context (display_guest_error display_utf8 number_text e)
| no_folder a code e : rc_code context = Some a -> first_dir fs code = Err e -> not_prepared context e
| dependencies_unmapped a e : rc_code context = Some a -> (forall name, e <> GuestFailedToFindAttachment name) ->
    not_prepared context (display_guest_error display_utf8 number_text e)
| no_dependencies_folder a e : rc_code context = Some a -> gf_create_dir_all fs DEPENDENCIES_PATH = Some e -> not_prepared context e
| wheel_not_installed a path e : rc_code context = Some a -> install_wheels fs path = Err e -> not_prepared context e.
Lemma wp_dependency_wheels s (Q : state -> result string (option string) -> Prop) :
  heap [] (as_memory s) -> tellable_state s ->
  (forall s' r, mapped [] s s' ->
     (forall e, r = Err e -> exists e', (forall name, e' <> GuestFailedToFindAttachment name) /\ e = display_guest_error display_utf8 number_text e') ->
     Q s' r) ->
  wp (dependency_wheels os display_utf8 number_text) s Q.
Proof.
  intros Hh Hs Hq. unfold dependency_wheels. apply wp_bind, wp_try. apply (wp_with_text []); [done|].
  intros m b Hm Hsame Hb. apply (wp_map_attachment auth source deref_aligned os [b]); [done|by left|done|].
  intros s' r Hr. assert (mapped [] s s') as Hmapped.
  { eapply mapped_trans; [apply mapped_memory; [eapply heap_less; [exact Hm|set_solver]|exact Hsame]|].
    eapply mapped_less; [exact Hr|]. set_solver. }
  apply wp_lift. apply Hq; [done|]. destruct r as [path|e]; [done|]. intros t Ht. exists e.
  destruct e; try discriminate Ht; injection Ht as <-; (split; [by intros name|done]).
Qed.
Lemma wp_prepare context s (Q : state -> result string PyEnvironment -> Prop) :
  heap [] (as_memory s) -> tellable_state s -> (forall a, rc_code context = Some a -> tellable a) ->
  (forall s' r, mapped [] s s' -> match r with
     | Ok env => is_Some (rc_code context) /\ exists dir, env = python_env dir
     | Err e => not_prepared context e
     end -> Q s' r) ->
  wp (prepare os display_utf8 number_text fs context) s Q.
Proof.
  intros Hh Hs Hcode Hq. unfold prepare. apply wp_bind, wp_lift. destruct (rc_code context) as [a|] eqn:Ha; cbn [ok_or].
  2: { apply Hq; [|by apply no_code]. exists (as_host s), (as_memory s). by destruct s. }
  apply wp_bind. unfold run_guest_code. apply wp_map_err. apply (wp_map_descriptor auth source deref_aligned os []); [done|by apply Hcode|].
  intros s1 r H1. destruct r as [code|e]; cbn [map_err]; [|apply Hq; [done|by eapply code_unmapped]].
  apply wp_bind, wp_fs. destruct (first_dir fs code) as [dir|e] eqn:Hdir; [|apply Hq; [done|by eapply no_folder]].
  apply wp_bind, wp_dependency_wheels; [by eapply mapped_heap|by destruct (mapped_answers _ _ _ H1) as [_ ->]|].
  intros s2 r H2 Hr. assert (mapped [] s s2) as H12 by by eapply mapped_trans.
  destruct r as [wheels|e]; [|apply Hq; [done|]; destruct (Hr e eq_refl) as (e' & He & ->); by eapply dependencies_unmapped].
  apply wp_bind, wp_fs. destruct (gf_create_dir_all fs DEPENDENCIES_PATH) eqn:Hdeps; [apply Hq; [done|by eapply no_dependencies_folder]|].
  apply wp_bind, wp_fs.
  destruct wheels as [path|]; [destruct (install_wheels fs path) as [[]|e] eqn:Hi; [|apply Hq; [done|by eapply wheel_not_installed]]|];
    (apply wp_ret, Hq; [done|split; [done|by exists dir]]).
Qed.

(** ** Runs *)

(** How the Python code ends: it returns, raises an exception that is printed, or
    ends the process with a trap, as [sys.exit] does when its exception is
    printed. *)
Inductive python_end := Returned | Raised (e : PyErr) | Exited (trap : string).
(** What the Python code does, printing its exception included: the errors it sets
    itself, and how it ends. *)
Variable called : list string -> python_end -> Prop.
Definition sets_own s s' (how : python_end) : Prop :=
  exists own, lk_data (as_errors s') = lk_data (as_errors s) ++ own /\ called own how.
Definition in_order s s' (how : python_end) : Prop := heap [] (as_memory s') /\ unpoisoned s' /\ sets_own s s' how.
Definition stopped s s' (trap : string) : Prop := trap = out_of_memory \/ sets_own s s' (Exited trap).
Definition code_runs s : Prop := forall context dir s1,
  from_default (gf_read fs) = Ok context -> mapped [] s s1 ->
  wpt (stopped s1) (call_entrypoint (python_env dir) (entrypoint_of (rc_entrypoint context))) s1 (fun s2 r =>
    match r with
    | Ok _ => in_order s1 s2 Returned
    | Err e => wpt (stopped s1) (py_print e) s2 (fun s3 _ => in_order s1 s3 (Raised e))
    end).
(** Why the code was not called, and the text that says so. *)
Inductive not_called : string -> Prop :=
| no_context err : from_default (gf_read fs) = Err err -> not_called (display_context_error err)
| unprepared context e : from_default (gf_read fs) = Ok context -> not_prepared context e -> not_called e
| no_python context dir : from_default (gf_read fs) = Ok context -> is_Some (rc_code context) ->
    py_initialize (python_env dir) = false -> not_called "🐍 Python failed to initialize!".

(** The errors of a state, after a run that called the code, and after one that did
    not. *)
Definition ended s s' : Prop :=
  let errors := lk_data (as_errors s) in
  let errors' := lk_data (as_errors s') in
  (exists own, called own Returned /\ errors' = errors ++ own) \/
  (exists own e, called own (Raised e) /\ errors' = errors ++ own ++ [pyerr_to_string e]) \/
  (exists e, not_called e /\ errors' = errors ++ shown ("Unhandled Error: " +:+ e) /\ as_results s' = as_results s).

Lemma shown_text text : is_ok (from_utf8 (bytes_of text)) = true -> shown text = [text].
Proof. unfold shown. destruct (from_utf8 (bytes_of text)) as [t|] eqn:Ht; [|done]. intros _. by rewrite (from_utf8_text _ _ Ht). Qed.
Section run.
Context (s : state) (Hrun : code_runs s)
  (Htext : forall own e, called own (Raised e) -> is_ok (from_utf8 (bytes_of (pyerr_to_string e))) = true)
  (Hh : heap [] (as_memory s)) (Hun : unpoisoned s) (Hatt : tellable_state s)
  (Hcode : forall context a, from_default (gf_read fs) = Ok context -> rc_code context = Some a -> tellable a).

Lemma stopped_memory s' : stopped s s' out_of_memory.
Proof. by left. Qed.
Lemma mapped_stopped s1 s' trap : mapped [] s s1 -> stopped s1 s' trap -> stopped s s' trap.
Proof.
  intros H1 [->|(own & He & Hc)]; [by left|right]. destruct (mapped_answers _ _ _ H1) as [[= _ Hs] _]. rewrite Hs in He. by exists own.
Qed.
Lemma wpt_stopped {E A} s1 (c : guest E A) s2 (Q : state -> result E A -> Prop) :
  mapped [] s s1 -> wpt (stopped s1) c s2 Q -> wpt (stopped s) c s2 Q.
Proof. intros H1 [(s' & trap & H & HX)|H]; [left; exists s', trap; split; [done|by eapply mapped_stopped]|by right]. Qed.
Lemma wpt_call_python context dir s1 (Q : state -> result string unit -> Prop) :
  from_default (gf_read fs) = Ok context -> mapped [] s s1 ->
  (forall s', ended s s' -> Q s' (Ok tt)) ->
  wpt (stopped s) (call_python os display_utf8 number_text (python_env dir) (entrypoint_of (rc_entrypoint context))) s1 Q.
Proof.
  intros Hc H1 Hq. unfold call_python.
  apply wpt_bind, wpt_try, (wpt_stopped s1); [done|]. eapply wpt_mono; [by apply (Hrun context dir s1)|].
  destruct (mapped_answers _ _ _ H1) as [[= _ He] _].
  intros s2 [[]|e].
  { intros (_ & _ & own & Herr & Hcalled). rewrite He in Herr. apply wpt_wp, wp_ret, Hq; [apply stopped_memory|]. left. by exists own. }
  intros Hprint. apply wpt_bind, wpt_try, (wpt_stopped s1); [done|]. eapply wpt_mono; [exact Hprint|].
  intros s3 _ (Hh2 & Hun2 & own & Herr & Hcalled). rewrite He in Herr. apply wpt_wp; [apply stopped_memory|].
  unfold run_guest_code. apply wp_map_err. apply (wp_set_error_text []); [done..|]. intros m r Hm Hr.
  rewrite (Htext own e Hcalled) in Hr. destruct r as [[]|]; [|done]. apply Hq. right. left. exists own, e. split; [done|].
  rewrite shown_text by by eapply Htext. unfold add_errors. cbn. by rewrite Herr, <- app_assoc.
Qed.
Lemma wpt_python_run (Q : state -> result string unit -> Prop) :
  (forall s', ended s s' -> Q s' (Ok tt)) -> (forall s' e, mapped [] s s' -> not_called e -> Q s' (Err e)) ->
  wpt (stopped s) (python_run os display_utf8 number_text fs) s Q.
Proof.
  intros Hok Herr. unfold python_run. apply wpt_bind, wpt_wp, wp_lift; [apply stopped_memory|].
  destruct (from_default (gf_read fs)) as [context|e] eqn:Hc; cbn [map_err].
  2: { apply Herr; [exists (as_host s), (as_memory s); by destruct s|]. by apply no_context. }
  apply wpt_bind, wpt_wp, wp_prepare; [apply stopped_memory|done|done|intros a; by apply Hcode|]. intros s1 [env|e] H1 Hprep.
  2: { apply Herr; [done|]. by eapply unprepared. }
  destruct Hprep as [Ha [dir ->]]. apply wpt_bind, wpt_wp, wp_lift; [apply stopped_memory|]. destruct (py_initialize _) eqn:Hpy.
  - by apply (wpt_call_python context dir).
  - apply Herr; [done|]. by eapply no_python.
Qed.
Lemma wpt_python_main : wpt (stopped s) (python_main os display_utf8 number_text fs) s (fun s' _ => ended s s').
Proof.
  unfold python_main. apply wpt_bind, wpt_try, wpt_python_run.
  { intros s' Hend. by apply wpt_wp, wp_ret; [apply stopped_memory|]. }
  intros s1 e H1 Hnot. destruct (mapped_answers _ _ _ H1) as [[= Hr He] _].
  apply wpt_wp, (wp_set_error_text []); [apply stopped_memory|by eapply mapped_heap|unfold unpoisoned; by rewrite Hr, He|].
  intros m r Hm _. right. right. exists e. split; [done|]. unfold add_errors. cbn. by rewrite He, Hr.
Qed.

(** C36: what a run of the runtime for Python leaves.  Unless it ends in a trap, one of
    three things happened: the code was called and returned, and the errors are those
    it set itself; it was called and raised an exception that was printed, whose text
    is one more error; or it was not called, the one error added says why
    ([not_called] has the text for each cause) and there are no results.  A trap is
    the memory of the guest running out, or one in which the Python code ended the
    process, as [sys.exit] does: then the text of its exception is not among the
    errors, only those it set itself are; and the call of the entry point fails with
    the trap's text, whatever was set. *)
Theorem python_failures_reported :
  exists s' trap, run_guest auth source (entrypoint (python_main os display_utf8 number_text fs) (as_memory s)) s = (s', Ok trap) /\
    match trap with
    | None => ended s s'
    | Some t =>
        (t = out_of_memory \/
         exists own, called own (Exited t) /\ lk_data (as_errors s') = lk_data (as_errors s) ++ own) /\
        forall name, (WasiRun.call_entrypoint auth source name (entrypoint (python_main os display_utf8 number_text fs) (as_memory s)) s
            (as_host s)).2 = Err (StopError (wasmer_error ("Failed to call entrypoint function " +:+ name +:+ ": " +:+ t)))
    end.
Proof.
  destruct (wpt_entrypoint _ _ _ _ wpt_python_main) as (s' & trap & H & Ht). exists s', trap.
  split; [exact H|]. destruct trap as [t|]; [|by destruct Ht as [_ Hend]]. split.
  - destruct Ht as [->|(own & He & Hc)]; [by left|right]. by exists own.
  - intros name. unfold WasiRun.call_entrypoint. replace (set_host (as_host s) s) with s by by destruct s. by rewrite H.
Qed.
End run.
End python.

(** ** A function that raises *)
Module PythonExamples.
#[local] Existing Instance Concrete.text_digest.
#[local] Existing Instance Concrete.text_url.
#[local] Existing Instance key_order.
#[local] Existing Instance WasiExamples.no_regex.
#[local] Existing Instance WasiExamples.unaligned.
#[local] Existing Instance PageHeap.pages.
Import WasiExamples.
(** Exceptions are texts and objects are bytes; every function raises, [quit] what
    ends the process when it is printed. *)
#[local] Instance raising_python : Python := {|
  PyErr := string;
  py_new_err := fun class message => class +:+ ": " +:+ message;
  pyerr_to_string := id;
  PyObject := list byte;
  extract_bytes := Some;
  extract_strings := fun _ => None;
  extract_booleans := fun _ => None;
  extract_integers := fun _ => None;
  extract_floats := fun _ => None;
  py_initialize := fun _ => true;
  py_load_modules := Ok tt;
  PyModule := string;
  PyFunction := string;
  py_import := fun env name => mret name;
  py_getattr := fun m name => mret (m +:+ "." +:+ name);
  py_call0 := fun f => guest_lift (Err (if bool_decide (f = "app.quit") then "SystemExit" else f +:+ " raised"));
  py_print := fun e k m => if bool_decide (e = "SystemExit") then Exit (Some "exit 0") else k (Ok tt) m
|}.
Definition code : Attachment := MkAttachment "app.tar.gz" (Some (MkAttachmentUrl "file:/x" 0)) ∅ (Some (MkChecksums "guest")) 0 None None.
Definition folders (context : RuntimeContext) : GuestFs :=
  MkGuestFs (fun _ => Ok (prost_encode context)) (fun p => Ok [Ok (path_join p "app-1.0")]) (fun _ => None) (fun _ _ => Ok tt).
Definition app (code : option Attachment) : RuntimeContext := MkRuntimeContext code "app:run" ∅ "greet".
Definition quitting : RuntimeContext := MkRuntimeContext (Some code) "app:quit" ∅ "greet".
Definition python (context : RuntimeContext) : ApiState (S := unit) * result panic (option string) :=
  run_guest no_auth served (entrypoint (python_main os (fun _ => "utf8") (fun _ => "1") (folders context)) one_page) (blank one_page).
Definition raises (own : list string) (how : python_end) : Prop := own = [] /\ how = Raised ("app.run raised" : PyErr).
Definition quits (own : list string) (how : python_end) : Prop := own = [] /\ how = Exited "exit 0".

Lemma empty_heap : heap [] (as_memory (blank one_page)).
Proof.
  change (PageHeap.page_heap [] one_page). split_and!; [unfold whole_pages; by rewrite one_page_size|by rewrite one_page_size|constructor].
Qed.
Lemma context_read context context' :
  from_default (gf_read (folders context)) = Ok context -> from_default (gf_read (folders context)) = Ok context' -> context = context'.
Proof. congruence. Qed.
(** An exception is reported; the one of [sys.exit] ends the process, and nothing is. *)
Lemma python_failures_reported_witness :
  (exists s' trap, python (app (Some code)) = (s', Ok trap) /\
    match trap with
    | None => ended (fun _ => "utf8") (fun _ => "1") (folders (app (Some code))) raises (blank one_page) s'
    | Some t => t = out_of_memory \/ exists own, raises own (Exited t) /\ lk_data (as_errors s') = own
    end /\ lk_data (as_errors s') = ["app.run raised"]) /\
  (exists s' trap, python quitting = (s', Ok trap) /\
    match trap with
    | None => ended (fun _ => "utf8") (fun _ => "1") (folders quitting) quits (blank one_page) s'
    | Some t => t = out_of_memory \/ exists own, quits own (Exited t) /\ lk_data (as_errors s') = own
    end /\ lk_data (as_errors s') = []).
Proof.
  split.
  - destruct (python_failures_reported no_auth served GuestExamples.aligned os (fun _ => "utf8") (fun _ => "1") (folders (app (Some code)))
      raises (blank one_page)) as (s' & trap & Hrun & Hend).
    + intros context dir s1 Hc Hm. apply (context_read (app (Some code))) in Hc as <-; [|vm_compute; exact eq_refl].
      right. exists s1, (Err "app.run raised"). split; [reflexivity|].
      right. exists s1, (Ok tt). split; [reflexivity|]. split; [exact (mapped_heap _ _ _ Hm)|].
      destruct Hm as (h & m & -> & _). split; [split; exact eq_refl|]. exists []. split; [reflexivity|]. split; reflexivity.
    + intros own e [_ [= ->]]. vm_compute. exact eq_refl.
    + exact empty_heap.
    + split; exact eq_refl.
    + constructor.
    + intros context a Hc Ha. apply (context_read (app (Some code))) in Hc as <-; [|vm_compute; exact eq_refl].
      injection Ha as <-. vm_compute. exact eq_refl.
    + assert (python (app (Some code)) = (s', Ok trap)) as Hp by exact Hrun. exists s', trap. split; [exact Hp|]. split.
      * destruct trap as [t|]; [exact (proj1 Hend)|exact Hend].
      * transitivity (lk_data (as_errors (python (app (Some code))).1)); [|vm_compute; exact eq_refl]. by rewrite Hp.
  - destruct (python_failures_reported no_auth served GuestExamples.aligned os (fun _ => "utf8") (fun _ => "1") (folders quitting)
      quits (blank one_page)) as (s' & trap & Hrun & Hend).
    + intros context dir s1 Hc Hm. apply (context_read quitting) in Hc as <-; [|vm_compute; exact eq_refl].
      right. exists s1, (Err "SystemExit"). split; [reflexivity|].
      left. exists s1, "exit 0". split; [reflexivity|]. right. exists []. split; [by rewrite app_nil_r|]. split; reflexivity.
    + intros own e [_ [=]].
    + exact empty_heap.
    + split; exact eq_refl.
    + constructor.
    + intros context a Hc Ha. apply (context_read quitting) in Hc as <-; [|vm_compute; exact eq_refl].
      injection Ha as <-. vm_compute. exact eq_refl.
    + assert (python quitting = (s', Ok trap)) as Hp by exact Hrun. exists s', trap. split; [exact Hp|]. split.
      * destruct trap as [t|]; [exact (proj1 Hend)|exact Hend].
      * transitivity (lk_data (as_errors (python quitting).1)); [|vm_compute; exact eq_refl]. by rewrite Hp.
Defined.
Example quit_ends_the_process :
  (python quitting).2 = Ok (Some "exit 0") /\ lk_data (as_errors (python quitting).1) = [].
Proof. vm_compute. split; reflexivity. Qed.
(** Without code the error says so. *)
Example without_code :
  lk_data (as_errors (python (app None)).1) = ["Unhandled Error: code is required for python"].
Proof. vm_compute. reflexivity. Qed.
End PythonExamples.
