(* ===== verification/MockHost.v ===== *)
(** * The host of the tests of functions (libraries/rust/firm-rust/src/mock.rs)

    A test of a function runs the function's own code, and this file answers its
    calls instead of the runtime: a registry holds for each thread the closures the
    test has set up.  A closure can share state with the test ([W], what it does
    with a mutex or a cell), fail with a code or panic.

    The registry is behind one lock for all threads; a panic while it is held, in a
    closure or in a copy of slices of different lengths, poisons it.  Arguments are
    decoded before the lock is taken.

    The mock follows raw pointers: a range outside the memory of the test is
    undefined behaviour ([MUndefined]).  [usize_width] is the number of bytes of a
    [usize]; what a fresh vector holds is [spare]. *)
From S2P Require Import Prelude Interfaces Proto Stream Registry Executor Download WasmMemory WasiHost Wasi.

Inductive mock_failure := MPanic | MUndefined.

(** ** Closures *)

(** [Box<dyn Fn(A) -> Result<B, u32>>], working on what it shares with the test. *)
Definition closure (W A B : Type) : Type := A -> W -> W * result panic (result N B).
Definition MockCallbacks (W A B : Type) : Type := gmap N (closure W A B).

Record MockResultRegistry (W : Type) := MkRegistry {
  get_attachment_path_len_closure : MockCallbacks W string N;
  map_attachment_closure : MockCallbacks W (string * bool) string;
  get_attachment_path_len_from_descriptor_closure : MockCallbacks W Attachment N;
  map_attachment_from_descriptor_closure : MockCallbacks W (Attachment * bool) string;
  host_path_exists_closure : MockCallbacks W string bool;
  get_host_os_closure : MockCallbacks W unit string;
  start_host_process_closure : MockCallbacks W StartProcessRequest N;
  run_host_process_closure : MockCallbacks W StartProcessRequest Z;
  get_input_len_closure : MockCallbacks W string N;
  get_input_closure : MockCallbacks W string Channel;
  set_output_closure : MockCallbacks W (string * Channel) unit;
  set_error_closure : MockCallbacks W string unit;
  connect_closure : MockCallbacks W string Z
}.
Arguments MkRegistry {W} _ _ _ _ _ _ _ _ _ _ _ _ _.
Arguments get_attachment_path_len_closure {W} _.
Arguments map_attachment_closure {W} _.
Arguments get_attachment_path_len_from_descriptor_closure {W} _.
Arguments map_attachment_from_descriptor_closure {W} _.
Arguments host_path_exists_closure {W} _.
Arguments get_host_os_closure {W} _.
Arguments start_host_process_closure {W} _.
Arguments run_host_process_closure {W} _.
Arguments get_input_len_closure {W} _.
Arguments get_input_closure {W} _.
Arguments set_output_closure {W} _.
Arguments set_error_closure {W} _.
Arguments connect_closure {W} _.
Definition mock_default {W} : MockResultRegistry W := MkRegistry ∅ ∅ ∅ ∅ ∅ ∅ ∅ ∅ ∅ ∅ ∅ ∅ ∅.

(** The registry, the memory of the test and what its closures share. *)
Record MockState (W : Type) := MkMock {
  ms_registry : lock (MockResultRegistry W); ms_memory : Memory; ms_world : W }.
Arguments MkMock {W} _ _ _.
Arguments ms_registry {W} _.
Arguments ms_memory {W} _.
Arguments ms_world {W} _.
Definition set_mock_memory {W} (m : Memory) (s : MockState W) : MockState W := MkMock (ms_registry s) m (ms_world s).

Section mock.
Context {PC : Prost Channel} {PA : Prost Attachment} {PS : Prost StartProcessRequest}.
Context {W : Type}.
Variable usize_width : nat.
Variable spare : N -> list byte.
(** [thread::current().id()] *)
Variable thread : N.
#[local] Abbreviation mock := (sem (MockState W) mock_failure).

(** ** The lock *)
Definition registry_lock : mock (MockResultRegistry W) :=
  sem_ask (fun s => map_err (fun _ => MPanic) (lock_get (fun e => e) (ms_registry s))).
(** A panic of the thread that holds the lock. *)
Definition poisoning {A} : mock A :=
  fun s => (MkMock (Lock true (lk_data (ms_registry s))) (ms_memory s) (ms_world s), Err MPanic).

(** ** Setting up *)
Definition register (set : MockResultRegistry W -> MockResultRegistry W) : mock unit :=
  registry ← registry_lock;
  sem_modify (fun s => MkMock (lock_set (ms_registry s) (set registry)) (ms_memory s) (ms_world s)).
Definition set_get_attachment_path_len_impl (f : closure W string N) : mock unit :=
  register (fun '(MkRegistry a b c d e g h i j k l m n) => MkRegistry (<[thread := f]> a) b c d e g h i j k l m n).
Definition set_map_attachment_impl (f : closure W (string * bool) string) : mock unit :=
  register (fun '(MkRegistry a b c d e g h i j k l m n) => MkRegistry a (<[thread := f]> b) c d e g h i j k l m n).
Definition set_get_attachment_path_len_from_descriptor_impl (f : closure W Attachment N) : mock unit :=
  register (fun '(MkRegistry a b c d e g h i j k l m n) => MkRegistry a b (<[thread := f]> c) d e g h i j k l m n).
Definition set_map_attachment_from_descriptor_impl (f : closure W (Attachment * bool) string) : mock unit :=
  register (fun '(MkRegistry a b c d e g h i j k l m n) => MkRegistry a b c (<[thread := f]> d) e g h i j k l m n).
Definition set_host_path_exists_impl (f : closure W string bool) : mock unit :=
  register (fun '(MkRegistry a b c d e g h i j k l m n) => MkRegistry a b c d (<[thread := f]> e) g h i j k l m n).
Definition set_get_host_os_impl (f : closure W unit string) : mock unit :=
  register (fun '(MkRegistry a b c d e g h i j k l m n) => MkRegistry a b c d e (<[thread := f]> g) h i j k l m n).
Definition set_start_host_process_impl (f : closure W StartProcessRequest N) : mock unit :=
  register (fun '(MkRegistry a b c d e g h i j k l m n) => MkRegistry a b c d e g (<[thread := f]> h) i j k l m n).
Definition set_run_host_process_impl (f : closure W StartProcessRequest Z) : mock unit :=
  register (fun '(MkRegistry a b c d e g h i j k l m n) => MkRegistry a b c d e g h (<[thread := f]> i) j k l m n).
Definition set_get_input_len_impl (f : closure W string N) : mock unit :=
  register (fun '(MkRegistry a b c d e g h i j k l m n) => MkRegistry a b c d e g h i (<[thread := f]> j) k l m n).
Definition set_get_input_impl (f : closure W string Channel) : mock unit :=
  register (fun '(MkRegistry a b c d e g h i j k l m n) => MkRegistry a b c d e g h i j (<[thread := f]> k) l m n).
Definition set_set_output_impl (f : closure W (string * Channel) unit) : mock unit :=
  register (fun '(MkRegistry a b c d e g h i j k l m n) => MkRegistry a b c d e g h i j k (<[thread := f]> l) m n).
Definition set_set_error_impl (f : closure W string unit) : mock unit :=
  register (fun '(MkRegistry a b c d e g h i j k l m n) => MkRegistry a b c d e g h i j k l (<[thread := f]> m) n).
Definition set_connect_impl (f : closure W string Z) : mock unit :=
  register (fun '(MkRegistry a b c d e g h i j k l m n) => MkRegistry a b c d e g h i j k l m (<[thread := f]> n)).

(** A stream as the inputs of the function under test. *)
Definition set_input_stream (stream : ValueStream) : mock unit :=
  let channel_lengths := encoded_len <$> channels stream in
  _ ← set_get_input_len_impl (fun key w => (w, Ok (ok_or 1%N (channel_lengths !! key))));
  set_get_input_impl (fun key w => (w, Ok (ok_or 1%N (get_channel stream key)))).

(** ** Pointers *)
Definition in_range (b : WasmBuffer) (m : Memory) : bool := (wb_ptr b + wb_len b <=? mem_size m)%N.
(** [slice::from_raw_parts] and [copy_to]. *)
Definition raw_read (b : WasmBuffer) : mock (list byte) :=
  sem_ask (fun s => if in_range b (ms_memory s)
                    then Ok (take (N.to_nat (wb_len b)) (drop (N.to_nat (wb_ptr b)) (ms_memory s)))
                    else Err MUndefined).
Definition raw_write (at_ : N) (content : list byte) (m : Memory) : result mock_failure Memory :=
  if in_range (MkBuffer at_ (N.of_nat (length content))) m then Ok (write_at (N.to_nat at_) content m) else Err MUndefined.
Definition unwrap {E A} (r : result E A) : mock A := sem_lift (map_err (fun _ => MPanic) r).
Definition text_at (b : WasmString) : mock string := content ← raw_read b; unwrap (from_utf8 content).
Definition decoded_at {A} `{Prost A} (b : WasmBuffer) : mock A := content ← raw_read b; unwrap (prost_decode content).
(** [clone_from_slice] into a slice made of a pointer and a length. *)
Definition clone_from_slice (b : WasmBuffer) (src : list byte) (m : Memory) : result mock_failure Memory :=
  if in_range b m
  then if (N.of_nat (length src) =? wb_len b)%N then raw_write (wb_ptr b) src m else Err MPanic
  else Err MUndefined.

(** ** Calls *)

(** [.get(&thread::current().id())] *)
Definition registered {A B} (callbacks : MockCallbacks W A B) : option (closure W A B) := callbacks !! thread.
(** [.lock().unwrap().x_closure.get(thread).map_or_else(|| 1, |c| match c(arg) ...)]:
    [give] is what the arm of [Ok] does with the answer. *)
Definition answer {A B} (field : MockResultRegistry W -> MockCallbacks W A B) (arg : A)
    (give : B -> Memory -> result mock_failure Memory) : mock N :=
  registry ← registry_lock;
  match registered (field registry) return mock N with
  | None => mret 1%N
  | Some c => fun s =>
      let '(w, r) := c arg (ms_world s) in
      let s1 := MkMock (ms_registry s) (ms_memory s) w in
      match r with
      | Err Panicked => poisoning s1
      | Ok (Err code) => (s1, Ok code)
      | Ok (Ok b) =>
          match give b (ms_memory s1) with
          | Ok m => (set_mock_memory m s1, Ok 0%N)
          | Err MPanic => poisoning s1
          | Err MUndefined => (s1, Err MUndefined)
          end
      end
  end.
Definition nothing {B} (_ : B) (m : Memory) : result mock_failure Memory := Ok m.

Definition execute_get_attachment_path_len (attachment_name : WasmString) (path_len : N) : mock N :=
  attachment_name ← text_at attachment_name;
  answer get_attachment_path_len_closure attachment_name (fun ex => raw_write path_len (to_le_bytes usize_width ex)).
Definition execute_map_attachment (attachment_name : WasmString) (unpack : N) (path : WasmBuffer) : mock N :=
  attachment_name ← text_at attachment_name;
  answer map_attachment_closure (attachment_name, negb (unpack =? 0)%N) (fun att_path => clone_from_slice path (bytes_of att_path)).
Definition execute_get_attachment_path_len_from_descriptor (attachment_descriptor : WasmBuffer) (path_len : N) : mock N :=
  attachment ← decoded_at attachment_descriptor;
  answer get_attachment_path_len_from_descriptor_closure attachment (fun ex => raw_write path_len (to_le_bytes usize_width ex)).
Definition execute_map_attachment_from_descriptor (attachment_descriptor : WasmBuffer) (unpack : N) (path : WasmBuffer) : mock N :=
  attachment ← decoded_at attachment_descriptor;
  answer map_attachment_from_descriptor_closure (attachment, negb (unpack =? 0)%N)
    (fun att_path => clone_from_slice path (bytes_of att_path)).
Definition execute_host_path_exists (path : WasmString) (exists_ : N) : mock N :=
  path ← text_at path;
  answer host_path_exists_closure path (fun e => raw_write exists_ (to_le_bytes 1 (if e then 1 else 0)%N)).
Definition execute_get_host_os (os_name os_name_length : N) : mock N :=
  answer get_host_os_closure tt (fun os m =>
    let name := bytes_of os in
    let len := N.of_nat (length name) in
    m ← clone_from_slice (MkBuffer os_name (N.min len 128)) name m;
    raw_write os_name_length (to_le_bytes 4 (len mod u32_modulus)) m).
Definition execute_start_host_process (request : WasmBuffer) (pid : N) : mock N :=
  start_process_request ← decoded_at request;
  answer start_host_process_closure start_process_request (fun p => raw_write pid (to_le_bytes 8 p)).
Definition execute_run_host_process (request : WasmBuffer) (exit_code : N) : mock N :=
  start_process_request ← decoded_at request;
  answer run_host_process_closure start_process_request (fun ex => raw_write exit_code (to_le_bytes 4 (i32_bits ex))).
Definition execute_get_input_len (key : WasmString) (value : N) : mock N :=
  key ← text_at key;
  answer get_input_len_closure key (fun l => raw_write value (to_le_bytes 8 l)).
(** The vector is encoded into from its start; the call copies as many bytes as
    the caller asks for, which past the encoding are what the vector held. *)
Definition execute_get_input (key : WasmString) (value : WasmBuffer) : mock N :=
  key ← text_at key;
  answer get_input_closure key (fun f =>
    let buff := write_at 0 (prost_encode f) (spare (wb_len value)) in
    raw_write (wb_ptr value) (take (N.to_nat (wb_len value)) buff)).
Definition execute_set_output (key : WasmString) (value : WasmBuffer) : mock N :=
  key ← text_at key;
  return_value ← decoded_at value;
  answer set_output_closure (key, return_value) nothing.
Definition execute_set_error (msg : WasmString) : mock N :=
  error_msg ← text_at msg;
  answer set_error_closure error_msg nothing.
Definition execute_connect (addr : WasmString) (file_descriptor : N) : mock N :=
  address ← text_at addr;
  answer connect_closure address (fun fd => raw_write file_descriptor (to_le_bytes 4 (i32_bits fd))).

(** The functions of the module, one for each call of a guest; what the operating
    system would answer plays no part. *)
Definition mock_invoke (os : HostOs) (c : api_call) : mock N :=
  match c with
  | GetPathLen name len => execute_get_attachment_path_len name len
  | MapAttachment name unpack path => execute_map_attachment name unpack path
  | GetPathLenFromDescriptor d len => execute_get_attachment_path_len_from_descriptor d len
  | MapFromDescriptor d unpack path => execute_map_attachment_from_descriptor d unpack path
  | PathExists path exists_ => execute_host_path_exists path exists_
  | GetOs os_name len => execute_get_host_os os_name len
  | StartProcess request pid => execute_start_host_process request pid
  | RunProcess request exit_code => execute_run_host_process request exit_code
  | GetInputLen key value => execute_get_input_len key value
  | GetInput key value => execute_get_input key value
  | SetOutput key value => execute_set_output key value
  | SetError msg => execute_set_error msg
  | SocketConnect addr fd => execute_connect addr fd
  end.

(** A function under test, on this thread. *)
Fixpoint run_mock (g : Guest) (s : MockState W) : MockState W * result mock_failure (option string) :=
  match g with
  | Exit trap => (s, Ok trap)
  | Step f next => let m := f (ms_memory s) in run_mock (next m) (set_mock_memory m s)
  | Call os c next =>
      match mock_invoke os c s with
      | (s', Ok code) => run_mock (next code (ms_memory s')) s'
      | (s', Err e) => (s', Err e)
      end
  end.
End mock.
