(* ===== verification/MockHostProps.v ===== *)
(** * Properties of the host of the tests of functions

    What a function under test gets as its inputs ([mock_inputs]) and where that
    differs from the runtime; that for the calls of a function that finds what it
    asks for the mock and the runtime cannot be told apart ([tests_run_like_runtime]);
    that threads do not see each other's closures but share the lock and its
    poisoning. *)
From S2P Require Import Prelude Interfaces Proto Stream Registry Executor Download WasmMemory WasiHost Wasi WasiRun SimpleCodec WasiProps FirmRust GuestCalculus FirmRustProps MockHost.

Create HintDb mock.

Section mock_props.
Context {PC : Prost Channel} {PA : Prost Attachment} {PS : Prost StartProcessRequest} {GH : GuestHeap}.
Context {W : Type}.
Variable usize_width : nat.
Variable spare : N -> list byte.
Implicit Types s : MockState W.
#[local] Abbreviation mock := (sem (MockState W) mock_failure).
#[local] Abbreviation mock_invoke := (mock_invoke (W := W) usize_width spare).
#[local] Abbreviation run_mock := (run_mock (W := W) usize_width spare).

(** ** The mock runs guests *)
Definition mock_runner (thread : N) : GuestRunner (MockState W) mock_failure.
Proof.
  refine {| gr_memory := ms_memory; gr_set_memory := set_mock_memory; gr_invoke := mock_invoke thread; gr_run := run_mock thread |}; done.
Defined.

Definition working s : Prop := lk_poisoned (ms_registry s) = false.
Definition closures s : MockResultRegistry W := lk_data (ms_registry s).

Lemma registry_lock_run s : working s -> registry_lock s = (s, Ok (closures s)).
Proof. intros H. unfold registry_lock, sem_ask, lock_get. by rewrite H. Qed.
Lemma registry_lock_poisoned s : ~ working s -> registry_lock s = (s, Err MPanic).
Proof.
  unfold working, registry_lock, sem_ask, lock_get. intros H. destruct (lk_poisoned (ms_registry s)); [done|]. by destruct H.
Qed.

Lemma register_run f s : working s ->
  register f s = (MkMock (Lock false (f (closures s))) (ms_memory s) (ms_world s), Ok tt).
Proof.
  intros H. unfold register. rewrite (sem_bind_run _ _ _ _ _ (registry_lock_run s H)).
  unfold sem_modify, lock_set. by rewrite H.
Qed.

Lemma answer_run {A B} thread (field : MockResultRegistry W -> MockCallbacks W A B) arg give s :
  working s ->
  answer thread field arg give s =
    match registered thread (field (closures s)) with
    | None => (s, Ok 1%N)
    | Some c =>
        let '(w, r) := c arg (ms_world s) in
        let s1 := MkMock (ms_registry s) (ms_memory s) w in
        match r with
        | Err Panicked => poisoning s1
        | Ok (Err code) => (s1, Ok code)
        | Ok (Ok b) =>
            match give b (ms_memory s) with
            | Ok m => (set_mock_memory m s1, Ok 0%N)
            | Err MPanic => poisoning s1
            | Err MUndefined => (s1, Err MUndefined)
            end
        end
    end.
Proof.
  intros H. unfold answer. rewrite (sem_bind_run _ _ _ _ _ (registry_lock_run s H)).
  by destruct (registered thread (field (closures s))).
Qed.

(** ** Arguments *)

(** A text the test passes. *)
Definition passed (b : WasmString) (text : string) (m : Memory) : Prop :=
  in_range b m = true /\ from_utf8 (read_bytes (wb_ptr b) (wb_len b) m) = Ok text.
Lemma raw_read_run b s :
  raw_read b s = (s, if in_range b (ms_memory s) then Ok (read_bytes (wb_ptr b) (wb_len b) (ms_memory s)) else Err MUndefined).
Proof. done. Qed.
Lemma text_at_run b s :
  text_at b s = (s, if in_range b (ms_memory s)
                    then map_err (fun _ => MPanic) (from_utf8 (read_bytes (wb_ptr b) (wb_len b) (ms_memory s)))
                    else Err MUndefined).
Proof.
  unfold text_at, unwrap, sem_lift. cbv [mbind sem_bind]. rewrite raw_read_run. by destruct (in_range _ _).
Qed.
Lemma decoded_at_run {A} `{Prost A} b s :
  decoded_at (A := A) b s = (s, if in_range b (ms_memory s)
                    then map_err (fun _ => MPanic) (prost_decode (read_bytes (wb_ptr b) (wb_len b) (ms_memory s)))
                    else Err MUndefined).
Proof.
  unfold decoded_at, unwrap, sem_lift. cbv [mbind sem_bind]. rewrite raw_read_run. by destruct (in_range _ _).
Qed.
Lemma text_passed b text s : passed b text (ms_memory s) -> text_at b s = (s, Ok text).
Proof. intros [H1 H2]. by rewrite text_at_run, H1, H2. Qed.
Lemma raw_write_in p content m b :
  in_memory m b -> wb_ptr b = p -> (N.of_nat (length content) <= wb_len b)%N -> raw_write p content m = Ok (write_at (N.to_nat p) content m).
Proof.
  intros H <- Hl. unfold raw_write, in_range. cbn [wb_ptr wb_len]. unfold in_memory in H.
  rewrite (proj2 (N.leb_le _ _)) by lia. done.
Qed.

(** ** Inputs *)
Definition length_of (stream : ValueStream) : closure W string N := fun key w => (w, Ok (ok_or 1%N ((encoded_len <$> channels stream) !! key))).
Definition channel_of (stream : ValueStream) : closure W string Channel := fun key w => (w, Ok (ok_or 1%N (get_channel stream key))).
Definition inputs_from (thread : N) (stream : ValueStream) s : Prop :=
  working s /\
  registered thread (get_input_len_closure (closures s)) = Some (length_of stream) /\
  registered thread (get_input_closure (closures s)) = Some (channel_of stream).

Lemma set_input_stream_run thread stream s :
  working s ->
  exists s1, set_input_stream thread stream s = (s1, Ok tt) /\ inputs_from thread stream s1 /\
    ms_memory s1 = ms_memory s /\ ms_world s1 = ms_world s.
Proof.
  intros H. unfold set_input_stream, set_get_input_len_impl, set_get_input_impl.
  rewrite (sem_bind_run _ _ _ _ _ (register_run _ s H)).
  rewrite register_run by done. eexists. split; [reflexivity|].
  unfold inputs_from, closures, working. destruct s as [[p reg] m w], reg.
  split_and!; try done; apply (lookup_insert_eq (M := gmap N)).
Qed.

(** What the mock answers about an input: code 1 where there is none. *)
Definition mock_input (stream : ValueStream) (key : string) : result N Channel := ok_or 1%N (get_channel stream key).

Lemma run_get_input_len thread os stream s kb key p :
  inputs_from thread stream s -> passed kb key (ms_memory s) -> in_memory (ms_memory s) (MkBuffer p 8) ->
  mock_invoke thread os (GetInputLen kb p) s =
    match get_channel stream key with
    | Some a => (set_mock_memory (write_at (N.to_nat p) (to_le_bytes 8 (encoded_len a)) (ms_memory s)) s, Ok 0%N)
    | None => (s, Ok 1%N)
    end.
Proof.
  intros (Hw & Hl & _) Hk Hp. cbn [MockHost.mock_invoke]. unfold execute_get_input_len.
  rewrite (sem_bind_run _ _ _ _ _ (text_passed _ _ _ Hk)), answer_run, Hl by done. unfold length_of.
  rewrite lookup_fmap. change (channels stream !! key) with (get_channel stream key).
  destruct (get_channel stream key) as [a|]; cbn [fmap option_fmap option_map ok_or]; [|by destruct s].
  rewrite (raw_write_in _ _ _ (MkBuffer p 8)) by (done || by rewrite to_le_bytes_length). by destruct s.
Qed.
Lemma run_get_input thread os stream s kb key vb a :
  inputs_from thread stream s -> passed kb key (ms_memory s) -> in_memory (ms_memory s) vb ->
  get_channel stream key = Some a -> wb_len vb = encoded_len a -> length (spare (wb_len vb)) = N.to_nat (wb_len vb) ->
  mock_invoke thread os (GetInput kb vb) s =
    (set_mock_memory (write_at (N.to_nat (wb_ptr vb)) (prost_encode a) (ms_memory s)) s, Ok 0%N).
Proof.
  intros (Hw & _ & Hg) Hk Hv Ha Hl Hsp. cbn [MockHost.mock_invoke]. unfold execute_get_input.
  rewrite (sem_bind_run _ _ _ _ _ (text_passed _ _ _ Hk)), answer_run, Hg by done. unfold channel_of. rewrite Ha. cbn [ok_or].
  assert (take (N.to_nat (wb_len vb)) (write_at 0 (prost_encode a) (spare (wb_len vb))) = prost_encode a) as ->.
  { rewrite Hl in Hsp |- *. unfold write_at. rewrite take_0, app_nil_l. unfold encoded_len in *. rewrite Nat2N.id in *. apply take_app_length. }
  rewrite (raw_write_in _ _ _ vb) by (done || rewrite Hl; unfold encoded_len; lia). by destruct s.
Qed.
Lemma heap_passed live kb key m :
  heap live m -> kb ∈ live -> buffer kb m = Ok (bytes_of key) -> from_utf8 (bytes_of key) = Ok key -> passed kb key m.
Proof.
  intros Hh Hin Hb Hk. pose proof (heap_in _ _ _ Hh Hin) as Hm. rewrite (heap_buffer live) in Hb by done. injection Hb as Hb.
  split; [by apply N.leb_le|by rewrite Hb].
Qed.
Lemma mock_answers thread os live stream s kb key :
  (forall n, length (spare n) = N.to_nat n) -> inputs_from thread stream s -> kb ∈ live ->
  buffer kb (ms_memory s) = Ok (bytes_of key) -> from_utf8 (bytes_of key) = Ok key ->
  answers_input (GR := mock_runner thread) os 8 live kb s (mock_input stream key).
Proof.
  intros Hsp Hi Hkb Hk Hu. unfold mock_input.
  assert (forall m b, heap (b :: live) m -> same live (ms_memory s) m -> passed kb key m) as Hpass.
  { intros m b Hh Hs. eapply (heap_passed (b :: live)); [done|set_solver| |done]. by rewrite (Hs kb Hkb). }
  split; cbn [gr_invoke gr_memory gr_set_memory mock_runner].
  - intros m p Hh _ Hs. rewrite (run_get_input_len thread os stream (set_mock_memory m s) kb key);
      [|done|by eapply Hpass|eapply heap_in; [exact Hh|set_solver]].
    by destruct (get_channel stream key).
  - intros m vb a Ha Hh Hs Hl. rewrite (run_get_input thread os stream (set_mock_memory m s) kb key vb a);
      [done|done|by eapply Hpass|eapply heap_in; [exact Hh|set_solver]| |done|apply Hsp].
    destruct (get_channel stream key); [by injection Ha as ->|done].
Qed.

(** The inputs of a function under test.  After [set_input_stream] on the thread of the
    test, asking for an input gives the channel of the stream, converted; where the
    stream has none it is the error of code 1 of the host, whether the function
    gave a default or not (the runtime's answer lets the default take its place).
    Nothing else of the test changes but memory that was not in use. *)
Theorem mock_inputs thread os {V} live stream s kb key :
  (forall n, length (spare n) = N.to_nat n) -> working s ->
  heap live (ms_memory s) -> kb ∈ live ->
  buffer kb (ms_memory s) = Ok (bytes_of key) -> from_utf8 (bytes_of key) = Ok key ->
  (forall a, get_channel stream key = Some a -> (encoded_len a < u32_modulus)%N) ->
  exists s1, set_input_stream thread stream s = (s1, Ok tt) /\ ms_memory s1 = ms_memory s /\ ms_world s1 = ms_world s /\
    wp (GR := mock_runner thread) (guest_get_input os (T := V) kb key) s1 (fun s' r =>
      (exists m, s' = set_mock_memory m s1 /\ heap live m /\ same live (ms_memory s) m) /\
      exists v, r = Ok v /\ forall try_from default_value,
        into try_from (with_defaults default_value v) =
          match get_channel stream key with
          | Some c => map_err ConversionError (try_from c)
          | None => Err (HostError 1)
          end).
Proof.
  intros Hsp Hw Hh Hkb Hk Hu Hlen. destruct (set_input_stream_run thread stream s Hw) as (s1 & Hrun & Hi & Hm & Hworld).
  exists s1. split_and!; [done..|]. rewrite <- Hm in Hh, Hk |- *.
  apply (wp_get_input (GR := mock_runner thread) os 8 live kb key s1 (mock_input stream key)); [done|lia|by apply mock_answers|..].
  - unfold mock_input. intros a. destruct (get_channel stream key) eqn:E; intros [= <-]. by apply Hlen.
  - unfold mock_input. intros code. by destruct (get_channel stream key); intros [= <-].
  - intros m v Hm' Hs Hv. split; [eauto|]. exists v. split; [done|]. intros try_from d. rewrite Hv. unfold mock_input.
    by destruct (get_channel stream key).
Qed.

(** ** Threads *)

(** What a thread can see of the state. *)
Definition agree (thread : N) (r1 r2 : MockResultRegistry W) : Prop :=
  registered thread (get_attachment_path_len_closure r1) = registered thread (get_attachment_path_len_closure r2) /\
  registered thread (map_attachment_closure r1) = registered thread (map_attachment_closure r2) /\
  registered thread (get_attachment_path_len_from_descriptor_closure r1) = registered thread (get_attachment_path_len_from_descriptor_closure r2) /\
  registered thread (map_attachment_from_descriptor_closure r1) = registered thread (map_attachment_from_descriptor_closure r2) /\
  registered thread (host_path_exists_closure r1) = registered thread (host_path_exists_closure r2) /\
  registered thread (get_host_os_closure r1) = registered thread (get_host_os_closure r2) /\
  registered thread (start_host_process_closure r1) = registered thread (start_host_process_closure r2) /\
  registered thread (run_host_process_closure r1) = registered thread (run_host_process_closure r2) /\
  registered thread (get_input_len_closure r1) = registered thread (get_input_len_closure r2) /\
  registered thread (get_input_closure r1) = registered thread (get_input_closure r2) /\
  registered thread (set_output_closure r1) = registered thread (set_output_closure r2) /\
  registered thread (set_error_closure r1) = registered thread (set_error_closure r2) /\
  registered thread (connect_closure r1) = registered thread (connect_closure r2).
Definition looks_same (thread : N) s1 s2 : Prop :=
  lk_poisoned (ms_registry s1) = lk_poisoned (ms_registry s2) /\ agree thread (closures s1) (closures s2) /\
  ms_memory s1 = ms_memory s2 /\ ms_world s1 = ms_world s2.
Definition blind {A} (thread : N) (m : mock A) : Prop :=
  forall s1 s2, looks_same thread s1 s2 -> (m s1).2 = (m s2).2 /\ looks_same thread (m s1).1 (m s2).1.

Lemma blind_bind {A B} thread (m : mock A) (f : A -> mock B) :
  blind thread m -> (forall a, blind thread (f a)) -> blind thread (m ≫= f).
Proof.
  intros Hm Hf s1 s2 H. destruct (Hm s1 s2 H) as [Hr Hs]. unfold mbind, sem_bind.
  destruct (m s1) as [s1' r1], (m s2) as [s2' r2]. cbn [fst snd] in *. subst r2. destruct r1; [by apply Hf|done].
Qed.
Lemma blind_text thread b : blind thread (text_at b).
Proof. intros s1 s2 H. rewrite !text_at_run. destruct H as (? & ? & Hm & ?). cbn. by rewrite Hm. Qed.
Lemma blind_decoded {A} `{Prost A} thread b : blind thread (decoded_at (A := A) b).
Proof. intros s1 s2 Hs. rewrite !decoded_at_run. destruct Hs as (? & ? & Hm & ?). cbn. by rewrite Hm. Qed.
Lemma blind_answer {A B} thread (field : MockResultRegistry W -> MockCallbacks W A B) arg give :
  (forall r1 r2, agree thread r1 r2 -> registered thread (field r1) = registered thread (field r2)) ->
  blind thread (answer thread field arg give).
Proof.
  intros Hf s1 s2 H. pose proof H as (Hp & Ha & Hm & Hw). destruct (decide (working s1)) as [H1|H1].
  - assert (working s2) as H2 by (unfold working in *; congruence).
    rewrite !answer_run, (Hf _ _ Ha), Hm, Hw by done. destruct (registered thread (field (closures s2))) as [c|]; [|done].
    destruct (c arg (ms_world s2)) as [w [[b|code]|[]]]; try done. cbn [ms_memory ms_registry].
    destruct (give b (ms_memory s2)) as [m|[]]; done.
  - assert (~ working s2) as H2 by (unfold working in *; congruence). unfold answer.
    rewrite (sem_bind_stop _ _ _ _ _ (registry_lock_poisoned s1 H1)), (sem_bind_stop _ _ _ _ _ (registry_lock_poisoned s2 H2)).
    done.
Qed.
#[local] Hint Resolve blind_bind blind_text blind_decoded blind_answer : mock.
Lemma blind_invoke thread os c : blind thread (mock_invoke thread os c).
Proof.
  destruct c; cbn [MockHost.mock_invoke];
    unfold execute_get_attachment_path_len, execute_map_attachment, execute_get_attachment_path_len_from_descriptor,
      execute_map_attachment_from_descriptor, execute_host_path_exists, execute_get_host_os, execute_start_host_process,
      execute_run_host_process, execute_get_input_len, execute_get_input, execute_set_output, execute_set_error, execute_connect;
    repeat (apply blind_bind; [solve [auto with mock]|intros ?]); apply blind_answer; unfold agree; intros r1 r2 H; apply H.
Qed.
Lemma blind_run thread g s1 s2 :
  looks_same thread s1 s2 ->
  (run_mock thread g s1).2 = (run_mock thread g s2).2 /\ looks_same thread (run_mock thread g s1).1 (run_mock thread g s2).1.
Proof.
  revert s1 s2. induction g as [trap|f next IH|os c next IH]; intros s1 s2 H; cbn [MockHost.run_mock]; [done| |].
  - pose proof H as (_ & _ & Hm & _). rewrite Hm. apply IH. destruct H as (? & ? & _ & ?). done.
  - destruct (blind_invoke thread os c s1 s2 H) as [Hr Hs].
    destruct (mock_invoke thread os c s1) as [s1' r1], (mock_invoke thread os c s2) as [s2' r2]. cbn [fst snd] in *. subst r2.
    destruct r1; [|done]. pose proof Hs as (_ & _ & Hm & _). rewrite Hm. by apply IH.
Qed.

(** What a test can set up. *)
Inductive registration :=
| SetGetAttachmentPathLen (f : closure W string N)
| SetMapAttachment (f : closure W (string * bool) string)
| SetGetAttachmentPathLenFromDescriptor (f : closure W Attachment N)
| SetMapAttachmentFromDescriptor (f : closure W (Attachment * bool) string)
| SetHostPathExists (f : closure W string bool)
| SetGetHostOs (f : closure W unit string)
| SetStartHostProcess (f : closure W StartProcessRequest N)
| SetRunHostProcess (f : closure W StartProcessRequest Z)
| SetGetInputLen (f : closure W string N)
| SetGetInput (f : closure W string Channel)
| SetSetOutput (f : closure W (string * Channel) unit)
| SetSetError (f : closure W string unit)
| SetConnect (f : closure W string Z).
Definition set_up (thread : N) (r : registration) : mock unit :=
  match r with
  | SetGetAttachmentPathLen f => set_get_attachment_path_len_impl thread f
  | SetMapAttachment f => set_map_attachment_impl thread f
  | SetGetAttachmentPathLenFromDescriptor f => set_get_attachment_path_len_from_descriptor_impl thread f
  | SetMapAttachmentFromDescriptor f => set_map_attachment_from_descriptor_impl thread f
  | SetHostPathExists f => set_host_path_exists_impl thread f
  | SetGetHostOs f => set_get_host_os_impl thread f
  | SetStartHostProcess f => set_start_host_process_impl thread f
  | SetRunHostProcess f => set_run_host_process_impl thread f
  | SetGetInputLen f => set_get_input_len_impl thread f
  | SetGetInput f => set_get_input_impl thread f
  | SetSetOutput f => set_set_output_impl thread f
  | SetSetError f => set_set_error_impl thread f
  | SetConnect f => set_connect_impl thread f
  end.
Lemma agree_refl thread r : agree thread r r.
Proof. by split_and!. Qed.
Lemma set_up_run thread r s :
  working s ->
  exists reg, set_up thread r s = (MkMock (Lock false reg) (ms_memory s) (ms_world s), Ok tt) /\
    forall t, t <> thread -> agree t reg (closures s).
Proof.
  intros H. destruct r; cbn [set_up];
    (eexists; split; [by apply register_run|]; intros t Ht; destruct (closures s); unfold agree, registered;
     split_and!; try reflexivity; by apply (lookup_insert_ne (M := gmap N))).
Qed.
Lemma set_up_poisoned thread r s : ~ working s -> set_up thread r s = (s, Err MPanic).
Proof.
  intros H. destruct r; cbn [set_up]; apply (sem_bind_stop registry_lock _ _ _ _ (registry_lock_poisoned s H)).
Qed.

(** A test does not see the closures of another thread.  What another thread sets up
    is accepted and changes nothing about a function under test on this one:
    neither how it ends, nor its memory, nor what its closures share. *)
Theorem threads_apart thread other r g s :
  thread <> other -> working s ->
  exists s1, set_up other r s = (s1, Ok tt) /\
    (run_mock thread g s1).2 = (run_mock thread g s).2 /\
    ms_memory (run_mock thread g s1).1 = ms_memory (run_mock thread g s).1 /\
    ms_world (run_mock thread g s1).1 = ms_world (run_mock thread g s).1.
Proof.
  intros Hne Hw. destruct (set_up_run other r s Hw) as (reg & Hrun & Ha). eexists. split; [exact Hrun|].
  destruct (blind_run thread g (MkMock (Lock false reg) (ms_memory s) (ms_world s)) s) as (Hr & _ & _ & Hm & Hworld); [|done].
  split_and!; [by rewrite Hw|by apply Ha|done..].
Qed.

(** ** Poisoning *)
Definition stuck {A} (m : mock A) : Prop := forall s, ~ working s -> exists e, m s = (s, Err e).
Lemma stuck_answer {A B} thread (field : MockResultRegistry W -> MockCallbacks W A B) arg give : stuck (answer thread field arg give).
Proof. intros s H. unfold answer. rewrite (sem_bind_stop _ _ _ _ _ (registry_lock_poisoned s H)). eauto. Qed.
Lemma stuck_text {B} b (f : string -> mock B) : (forall a, stuck (f a)) -> stuck (text_at b ≫= f).
Proof.
  intros Hf s H. pose proof (text_at_run b s) as Hrun. destruct (if in_range b _ then _ else _) as [a|e].
  - rewrite (sem_bind_run _ _ _ _ _ Hrun). by apply Hf.
  - rewrite (sem_bind_stop _ _ _ _ _ Hrun). eauto.
Qed.
Lemma stuck_decoded {A B} `{Prost A} b (f : A -> mock B) : (forall a, stuck (f a)) -> stuck (decoded_at b ≫= f).
Proof.
  intros Hf s Hs. pose proof (decoded_at_run (A := A) b s) as Hrun. destruct (if in_range b _ then _ else _) as [a|e].
  - rewrite (sem_bind_run _ _ _ _ _ Hrun). by apply Hf.
  - rewrite (sem_bind_stop _ _ _ _ _ Hrun). eauto.
Qed.
#[local] Hint Resolve stuck_answer stuck_text stuck_decoded : mock.
Lemma stuck_invoke thread os c : stuck (mock_invoke thread os c).
Proof.
  destruct c; cbn [MockHost.mock_invoke];
    unfold execute_get_attachment_path_len, execute_map_attachment, execute_get_attachment_path_len_from_descriptor,
      execute_map_attachment_from_descriptor, execute_host_path_exists, execute_get_host_os, execute_start_host_process,
      execute_run_host_process, execute_get_input_len, execute_get_input, execute_set_output, execute_set_error, execute_connect;
    auto with mock.
Qed.

(** A panic under the lock takes down the tests of every thread.  A host name of more than 128
    bytes, which the mock means to cut, makes [get_host_os] panic instead and poisons
    the lock; from then on every registration and every call of every thread
    fails and changes nothing. *)
Theorem long_os_name_poisons thread os os_name len s c w name :
  working s -> registered thread (get_host_os_closure (closures s)) = Some c -> c tt (ms_world s) = (w, Ok (Ok name)) ->
  128 < length (bytes_of name) -> in_memory (ms_memory s) (MkBuffer os_name 128) ->
  exists s1, mock_invoke thread os (GetOs os_name len) s = (s1, Err MPanic) /\ ms_memory s1 = ms_memory s /\
    forall other, (forall r, set_up other r s1 = (s1, Err MPanic)) /\
      forall os' call, exists e, mock_invoke other os' call s1 = (s1, Err e).
Proof.
  intros Hw Hc Hrun Hlen Hin. eexists. split; [|split; [|split]].
  - cbn [MockHost.mock_invoke]. unfold execute_get_host_os. rewrite answer_run, Hc, Hrun by done. cbn iota beta.
    rewrite N.min_r by lia. unfold clone_from_slice at 1, in_range. rewrite (proj2 (N.leb_le _ _) Hin). cbn [wb_len].
    rewrite (proj2 (N.eqb_neq _ _)) by lia. reflexivity.
  - done.
  - intros r. by apply set_up_poisoned.
  - intros os' call. by apply stuck_invoke.
Qed.
End mock_props.

(** ** The mock and the runtime *)
Definition recorded : Type := ValueStream * list string.
(** A test that keeps what the function hands over. *)
Definition record_output : closure recorded (string * Channel) unit := fun o w => ((set_stream w.1 o, w.2), Ok (Ok tt)).
Definition record_error : closure recorded string unit := fun msg w => ((w.1, w.2 ++ [msg]), Ok (Ok tt)).

Section simulation.
Context {DL : DigestLib} {UR : UrlLib} {RR : RegexReplace} {WP : WasmPtrLib}.
Context {PC : Prost Channel} {PA : Prost Attachment} {PS : Prost StartProcessRequest}.
Context {T : Type}.
Variable auth : AuthenticationSource T.
Variable source : Source.
Variable usize_width : nat.
Variable spare : N -> list byte.
Variable thread : N.
Implicit Types s : ApiState (S := T).
Implicit Types ms : MockState recorded.
#[local] Abbreviation invoke := (invoke auth source).
#[local] Abbreviation run_guest := (run_guest auth source).
#[local] Abbreviation mock_invoke := (mock_invoke (W := recorded) usize_width spare thread).
#[local] Abbreviation run_mock := (run_mock (W := recorded) usize_width spare thread).
Hypothesis spare_length : forall n, length (spare n) = N.to_nat n.

Definition set_up_test (stream : ValueStream) : sem (MockState recorded) mock_failure unit :=
  _ ← set_input_stream thread stream;
  _ ← set_set_output_impl thread record_output;
  set_set_error_impl thread record_error.

(** The calls on which the two hosts agree: inputs and outputs, of inputs that
    are there, into a zeroed 64-bit slot and a buffer of their length. *)
Definition sound (m : Memory) : bool := (mem_size m mod wasm_page =? 0)%N && (mem_size m <? u32_modulus)%N.
Definition asked_input (key : WasmString) s : option Channel := given_text key s ≫= get_channel (as_arguments s).
Definition testable (c : api_call) s : bool :=
  let m := as_memory s in
  sound m &&
  match c with
  | GetInputLen key p =>
      match asked_input key s with
      | Some a =>
          (encoded_len a <? u32_modulus)%N && bool_decide (wasm_deref (mem_size m) p 4 = Some p) &&
          (p + 8 <=? mem_size m)%N && forallb (fun b => byte_N b =? 0)%N (read_bytes (p + 4) 4 m)
      | None => false
      end
  | GetInput key value =>
      match asked_input key s with
      | Some a => (wb_len value =? encoded_len a)%N && in_range value m
      | None => false
      end
  | SetOutput _ _ => bool_decide (is_Some (given_output c s))
  | SetError _ => bool_decide (is_Some (given_error c s))
  | _ => false
  end.
Fixpoint testable_run (g : Guest) s : bool :=
  match g with
  | Exit _ => true
  | Step f next => let m := f (as_memory s) in testable_run (next m) (set_memory m s)
  | Call os c next =>
      testable c s &&
      match invoke os c s with
      | (s', Ok code) => testable_run (next code (as_memory s')) s'
      | (_, Err _) => false
      end
  end.

Record mirrors s ms : Prop := {
  mi_inputs : inputs_from thread (as_arguments s) ms;
  mi_output : registered thread (set_output_closure (closures ms)) = Some record_output;
  mi_error : registered thread (set_error_closure (closures ms)) = Some record_error;
  mi_memory : ms_memory ms = as_memory s;
  mi_world : ms_world ms = (lk_data (as_results s), lk_data (as_errors s))
}.

Lemma sound_buffer m b l :
  sound m = true -> buffer b m = Ok l -> in_range b m = true /\ read_bytes (wb_ptr b) (wb_len b) m = l.
Proof.
  unfold sound, buffer, in_range, read_bytes. intros [Hp Hl]%andb_true_iff. apply N.eqb_eq in Hp. apply N.ltb_lt in Hl.
  destruct (beyond_capacity m b) eqn:Hb; [done|]. intros [= <-]. split; [|done].
  apply N.leb_le. by apply (beyond_capacity_iff m b).
Qed.
Lemma sound_capacity m b : sound m = true -> in_range b m = true -> beyond_capacity m b = false.
Proof.
  unfold sound, in_range. intros [Hp Hl]%andb_true_iff Hi. apply N.eqb_eq in Hp. apply N.ltb_lt in Hl. apply N.leb_le in Hi.
  by apply beyond_capacity_iff.
Qed.
Lemma given_passed b text s : sound (as_memory s) = true -> given_text b s = Some text -> passed b text (as_memory s).
Proof.
  unfold given_text, passed. intros Hs H. destruct (buffer b (as_memory s)) as [l|] eqn:Hb; [|done].
  destruct (sound_buffer _ _ _ Hs Hb) as [Hi ->]. split; [done|]. by destruct (from_utf8 l); [injection H as ->|].
Qed.
Lemma zero_bytes l : forallb (fun b => byte_N b =? 0)%N l = true -> l = to_le_bytes (length l) 0.
Proof.
  induction l as [|b l IH]; [done|]. cbn [forallb length]. intros [Hb Hl]%andb_true_iff. cbn [to_le_bytes].
  change (0 / 256)%N with 0%N. rewrite <- IH by done. f_equal. revert Hb. by destruct b.
Qed.

(** A number below 2^32 in 8 bytes, over four bytes that are zero, is the number
    in 4 bytes. *)
Lemma to_le_bytes_app a b v : to_le_bytes (a + b) v = to_le_bytes a v ++ to_le_bytes b (v / 256 ^ N.of_nat a).
Proof.
  revert v. induction a as [|a IH]; intros v; [by rewrite N.div_1_r|].
  cbn [Nat.add to_le_bytes app]. f_equal. rewrite IH. do 2 f_equal.
  rewrite Nat2N.inj_succ, N.pow_succ_r', N.Div0.div_div. done.
Qed.
Lemma write_at_halves at_ (a b m : list byte) :
  at_ + length a + length b <= length m -> write_at at_ (a ++ b) m = write_at (at_ + length a) b (write_at at_ a m).
Proof.
  intros H. unfold write_at. rewrite <- !app_assoc, length_app.
  rewrite take_app_ge by (rewrite length_take; lia). rewrite length_take, Nat.min_l by lia.
  rewrite take_app_ge by lia. rewrite drop_app_ge by (rewrite length_take; lia). rewrite length_take, Nat.min_l by lia.
  rewrite drop_app_ge by lia. replace (at_ + length a - at_ - length a) with 0 by lia. rewrite take_0, app_nil_r, drop_drop.
  rewrite <- app_assoc. do 4 f_equal. lia.
Qed.
Lemma write_at_same at_ n (m : list byte) : at_ + n <= length m -> write_at at_ (take n (drop at_ m)) m = m.
Proof.
  intros H. unfold write_at. rewrite length_take, length_drop, Nat.min_l by lia.
  rewrite <- (take_drop at_ m) at 4. f_equal. rewrite <- (take_drop n (drop at_ m)) at 2. by rewrite drop_drop.
Qed.
Lemma wide_write m p v :
  (p + 8 <= mem_size m)%N -> (v < u32_modulus)%N -> read_bytes (p + 4) 4 m = to_le_bytes 4 0 ->
  write_at (N.to_nat p) (to_le_bytes 8 v) m = write_at (N.to_nat p) (to_le_bytes 4 v) m.
Proof.
  unfold mem_size. intros Hp Hv Hz. rewrite (to_le_bytes_app 4 4), (N.div_small v) by done.
  rewrite write_at_halves by (rewrite !to_le_bytes_length; lia). rewrite to_le_bytes_length.
  assert (to_le_bytes 4 0 = take 4 (drop (N.to_nat p + 4) (write_at (N.to_nat p) (to_le_bytes 4 v) m))) as ->.
  { rewrite write_at_read_other by (rewrite to_le_bytes_length; lia). rewrite <- Hz. unfold read_bytes.
    do 2 f_equal. lia. }
  apply write_at_same. rewrite write_at_length; [lia|rewrite to_le_bytes_length; lia].
Qed.
(** ** One call on both hosts *)
Lemma asked_inv key s a :
  asked_input key s = Some a -> exists text, given_text key s = Some text /\ get_channel (as_arguments s) text = Some a.
Proof. unfold asked_input. destruct (given_text key s) as [text|]; [eauto|done]. Qed.
Lemma read_given what key text s : given_text key s = Some text -> read_string what key s = (s, Ok text).
Proof.
  intros H. rewrite read_string_run. unfold given_text in H. destruct (buffer key (as_memory s)) as [l|]; [|done].
  destruct (from_utf8 l); [by injection H as ->|done].
Qed.
Lemma mirrors_memory m s ms : mirrors s ms -> mirrors (set_memory m s) (set_mock_memory m ms).
Proof. intros []. by split. Qed.

Definition agreed os c s ms : Prop :=
  exists s' ms', invoke os c s = (s', Ok 0%N) /\ mock_invoke os c ms = (ms', Ok 0%N) /\ unpoisoned s' /\ mirrors s' ms'.
Lemma agreed_len os key p s ms :
  testable (GetInputLen key p) s = true -> unpoisoned s -> mirrors s ms -> agreed os (GetInputLen key p) s ms.
Proof.
  unfold testable. intros [Hs Ht]%andb_true_iff Hu Hm. destruct (asked_input key s) as [a|] eqn:Ha; [|done].
  apply andb_true_iff in Ht as [[[Hl Hd]%andb_true_iff Hp]%andb_true_iff Hz].
  apply N.ltb_lt in Hl. apply bool_decide_eq_true in Hd. apply N.leb_le in Hp.
  destruct (asked_inv key s a Ha) as (text & Hk & Hg).
  assert (read_bytes (p + 4) 4 (as_memory s) = to_le_bytes 4 0) as Hz4.
  { apply zero_bytes in Hz. rewrite Hz. f_equal. unfold read_bytes. rewrite length_take, length_drop. unfold mem_size in Hp. lia. }
  exists (set_memory (write_at (N.to_nat p) (to_le_bytes 4 (encoded_len a)) (as_memory s)) s), 
    (set_mock_memory (write_at (N.to_nat p) (to_le_bytes 4 (encoded_len a)) (as_memory s)) ms).
  split_and!; [| |done|by apply mirrors_memory].
  - unfold Wasi.invoke. cbn [Wasi.handle]. unfold get_input_len. rewrite (sem_bind_run _ _ _ _ _ (read_given _ _ _ _ Hk)).
    unfold find_input, sem_ask. cbv [mbind sem_bind]. rewrite Hg. cbn [ok_or wasi map_err].
    unfold set_item, put_memory, item_set. change (N.of_nat 4) with 4%N. rewrite Hd, N.mod_small by done. done.
  - destruct Hm as [Hin _ _ Hmem _].
    rewrite (run_get_input_len _ _ thread os (as_arguments s) ms key text p) by (rewrite ?Hmem; done || by apply given_passed).
    by rewrite Hg, Hmem, wide_write.
Qed.
Lemma agreed_input os key vb s ms :
  testable (GetInput key vb) s = true -> unpoisoned s -> mirrors s ms -> agreed os (GetInput key vb) s ms.
Proof.
  unfold testable. intros [Hs Ht]%andb_true_iff Hu Hm. destruct (asked_input key s) as [a|] eqn:Ha; [|done].
  apply andb_true_iff in Ht as [Hl Hi]. apply N.eqb_eq in Hl. destruct (asked_inv key s a Ha) as (text & Hk & Hg).
  exists (set_memory (write_at (N.to_nat (wb_ptr vb)) (prost_encode a) (as_memory s)) s), 
    (set_mock_memory (write_at (N.to_nat (wb_ptr vb)) (prost_encode a) (as_memory s)) ms).
  split_and!; [| |done|by apply mirrors_memory].
  - unfold Wasi.invoke. cbn [Wasi.handle]. unfold get_input. rewrite (sem_bind_run _ _ _ _ _ (read_given _ _ _ _ Hk)).
    unfold find_input, sem_ask. cbv [mbind sem_bind]. rewrite Hg. cbn [ok_or wasi map_err].
    pose proof (sound_capacity _ _ Hs Hi) as Hc. unfold put_memory, encode_into, buffer, buffer_put. rewrite Hc.
    cbn [no_panic map_err mbind result_bind]. by rewrite Hl, N.ltb_irrefl.
  - destruct Hm as [Hin _ _ Hmem _].
    rewrite (run_get_input _ _ thread os (as_arguments s) ms key text vb a); rewrite ?Hmem; try done.
    + by apply given_passed.
    + by apply N.leb_le.
Qed.
Lemma agreed_output os key vb s ms :
  testable (SetOutput key vb) s = true -> unpoisoned s -> mirrors s ms -> agreed os (SetOutput key vb) s ms.
Proof.
  unfold testable. intros [Hs Ht]%andb_true_iff Hu Hm. apply bool_decide_eq_true in Ht as [[text c] Ho].
  pose proof (set_output_run key vb s Hu) as Hrun. rewrite Ho in Hrun.
  cbn [given_output] in Ho. unfold given_channel in Ho. destruct (given_text key s) as [k|] eqn:Hk; [|done]. cbn in Ho.
  destruct (buffer vb (as_memory s)) as [l|] eqn:Hb; [|done]. destruct (prost_decode l) as [c'|] eqn:Hdec; [|done].
  injection Ho as -> ->. destruct (sound_buffer _ _ _ Hs Hb) as [Hi Hr]. destruct Hm as [Hin Hout Herr Hmem Hworld].
  exists (set_results (set_stream (lk_data (as_results s)) (text, c)) s),
    (MkMock (ms_registry ms) (ms_memory ms) (set_stream (lk_data (as_results s)) (text, c), lk_data (as_errors s))).
  split_and!; [|  |done|by split].
  - unfold Wasi.invoke. cbn [Wasi.handle]. by rewrite Hrun.
  - cbn [MockHost.mock_invoke]. unfold execute_set_output.
    rewrite (sem_bind_run _ _ _ _ _ (text_passed key text ms ltac:(rewrite Hmem; by apply given_passed))).
    pose proof (decoded_at_run (A := Channel) vb ms) as Hd. rewrite Hmem, Hi, Hr, Hdec in Hd. cbn [map_err] in Hd.
    rewrite (sem_bind_run _ _ _ _ _ Hd), answer_run, Hout by apply Hin. unfold record_output, nothing, set_mock_memory.
    by rewrite Hworld.
Qed.
Lemma agreed_error os msg s ms :
  testable (SetError msg) s = true -> unpoisoned s -> mirrors s ms -> agreed os (SetError msg) s ms.
Proof.
  unfold testable. intros [Hs Ht]%andb_true_iff Hu Hm. apply bool_decide_eq_true in Ht as [text Ho].
  pose proof (set_error_run msg s Hu) as Hrun. rewrite Ho in Hrun. cbn [given_error] in Ho.
  destruct Hm as [Hin Hout Herr Hmem Hworld].
  exists (set_errors (lk_data (as_errors s) ++ [text]) s),
    (MkMock (ms_registry ms) (ms_memory ms) (lk_data (as_results s), lk_data (as_errors s) ++ [text])).
  split_and!; [| |done|by split].
  - unfold Wasi.invoke. cbn [Wasi.handle]. by rewrite Hrun.
  - cbn [MockHost.mock_invoke]. unfold execute_set_error.
    rewrite (sem_bind_run _ _ _ _ _ (text_passed msg text ms ltac:(rewrite Hmem; by apply given_passed))).
    rewrite answer_run, Herr by apply Hin. unfold record_error, nothing, set_mock_memory. by rewrite Hworld.
Qed.
Lemma agreed_call os c s ms : testable c s = true -> unpoisoned s -> mirrors s ms -> agreed os c s ms.
Proof.
  intros Ht. destruct c; try (exfalso; revert Ht; unfold testable; by rewrite andb_false_r);
    revert Ht; eauto using agreed_len, agreed_input, agreed_output, agreed_error.
Qed.
Lemma run_agrees g s ms :
  testable_run g s = true -> unpoisoned s -> mirrors s ms ->
  exists s' ms' trap, run_guest g s = (s', Ok trap) /\ run_mock g ms = (ms', Ok trap) /\ mirrors s' ms'.
Proof.
  revert s ms. induction g as [trap|f next IH|os c next IH]; intros s ms Ht Hu Hm;
    cbn [testable_run Wasi.run_guest MockHost.run_mock] in *.
  - by exists s, ms, trap.
  - rewrite (mi_memory _ _ Hm). by apply (IH _ (set_memory (f (as_memory s)) s)), mirrors_memory.
  - apply andb_true_iff in Ht as [Hc Ht]. destruct (agreed_call os c s ms Hc Hu Hm) as (s' & ms' & Hi & Hmi & Hu' & Hm').
    rewrite Hi in Ht |- *. rewrite Hmi, (mi_memory _ _ Hm'). by apply IH.
Qed.
Lemma set_up_test_run stream ms :
  working ms ->
  exists ms1, set_up_test stream ms = (ms1, Ok tt) /\ inputs_from thread stream ms1 /\
    registered thread (set_output_closure (closures ms1)) = Some record_output /\
    registered thread (set_error_closure (closures ms1)) = Some record_error /\
    ms_memory ms1 = ms_memory ms /\ ms_world ms1 = ms_world ms.
Proof.
  intros Hw. unfold set_up_test. destruct (set_input_stream_run thread stream ms Hw) as (ms1 & Hrun & Hin & Hm & Hworld).
  rewrite (sem_bind_run _ _ _ _ _ Hrun). destruct Hin as (Hw1 & Hl & Hc). unfold set_set_output_impl, set_set_error_impl.
  rewrite (sem_bind_run _ _ _ _ _ (register_run _ ms1 Hw1)), register_run by done. eexists. split; [reflexivity|].
  unfold inputs_from, closures, working, registered in *. destruct ms1 as [[p reg] m w], reg.
  split_and!; try done; apply (lookup_insert_eq (M := gmap N)).
Qed.

(** C33: a test of a function runs the function as the runtime does.  Where a guest asks for
    inputs that are there, the way the library of guests does, and hands over
    outputs and errors that can be read, a test that sets the arguments as its input
    stream and keeps what it is handed ends like the execution, with the same memory,
    and has kept exactly the results and errors of the execution. *)
Theorem tests_run_like_runtime g s ms :
  unpoisoned s -> working ms -> ms_memory ms = as_memory s ->
  ms_world ms = (lk_data (as_results s), lk_data (as_errors s)) -> testable_run g s = true ->
  exists ms1 ms2 s' trap, set_up_test (as_arguments s) ms = (ms1, Ok tt) /\
    run_guest g s = (s', Ok trap) /\ run_mock g ms1 = (ms2, Ok trap) /\
    ms_memory ms2 = as_memory s' /\ ms_world ms2 = (lk_data (as_results s'), lk_data (as_errors s')).
Proof.
  intros Hu Hw Hm Hworld Ht. destruct (set_up_test_run (as_arguments s) ms Hw) as (ms1 & Hset & Hin & Hout & Herr & Hm1 & Hw1).
  destruct (run_agrees g s ms1 Ht Hu) as (s' & ms2 & trap & Hrun & Hmock & Hmi); [split; congruence|].
  exists ms1, ms2, s', trap. destruct Hmi. done.
Qed.
End simulation.

(** ** Concrete tests *)
Module MockExamples.
#[local] Existing Instance Concrete.text_digest.
#[local] Existing Instance Concrete.text_url.
#[local] Existing Instance key_order.
#[local] Existing Instance WasiExamples.no_regex.
#[local] Existing Instance WasiExamples.unaligned.
#[local] Existing Instance PageHeap.pages.
Import WasiExamples.

Definition zeros (n : N) : list byte := replicate (N.to_nat n) Corelib.Init.Byte.x00.
Lemma zeros_length n : length (zeros n) = N.to_nat n.
Proof. apply length_replicate. Qed.
Definition fresh_test : MockState recorded := MkMock (Lock false mock_default) with_key (stream_new, []).
Definition main_thread : N := 1.
Definition echo_guest : Guest := entrypoint (echo os key_buffer key_buffer) (as_memory (blank with_key)).

(** An input that the stream of the test does not have, asked for with a default. *)
Lemma mock_inputs_witness :
  exists s1, set_input_stream main_thread stream_new fresh_test = (s1, Ok tt) /\
    wp (GR := mock_runner 8 zeros main_thread) (guest_get_input os (T := bool) key_buffer "k") s1 (fun _ r =>
      exists v, r = Ok v /\ into (try_from_one bool) (with_default true v) = Err (HostError 1)).
Proof.
  assert (forall a, get_channel stream_new "k" = Some a -> (encoded_len a < u32_modulus)%N) as Hnone by (intros a; discriminate 1).
  destruct (mock_inputs 8 zeros main_thread os (V := bool) [key_buffer] stream_new fresh_test key_buffer "k"
    zeros_length eq_refl GuestExamples.started_heap (list_elem_of_here _ _) (proj1 GuestExamples.key_there)
    (proj2 GuestExamples.key_there) Hnone) as (s1 & Hrun & _ & _ & Hwp).
  exists s1. split; [exact Hrun|]. apply (wp_mono (GR := mock_runner 8 zeros main_thread) _ _ _ _ Hwp).
  intros s' r (_ & v & -> & Hv). exists v. split; [reflexivity|]. exact (Hv (try_from_one bool) (Some true)).
Defined.

(** The host of the runtime answers that the input is missing, and the default is
    taken. *)
Example runtime_takes_default :
  into (try_from_one bool) (with_default true (MkInputValue (Some HostChannelNotFound) None None "k")) = Ok true.
Proof. reflexivity. Qed.

Definition os_closure (name : string) : closure recorded unit string := fun _ w => (w, Ok (Ok name)).
Lemma threads_apart_witness :
  exists s1, set_up 2%N (SetGetHostOs (os_closure "windows")) fresh_test = (s1, Ok tt) /\
    (run_mock 8 zeros main_thread echo_guest s1).2 = (run_mock 8 zeros main_thread echo_guest fresh_test).2.
Proof.
  assert (main_thread <> 2%N) as Hne by discriminate.
  destruct (threads_apart 8 zeros main_thread 2%N (SetGetHostOs (os_closure "windows")) echo_guest fresh_test Hne eq_refl)
    as (s1 & H1 & H2 & _).
  exists s1. split; [exact H1|exact H2].
Defined.

Definition long_name : string := String.string_of_list_byte (replicate 129 Corelib.Init.Byte.x61).
Definition named_test : MockState recorded := (set_get_host_os_impl main_thread (os_closure long_name) fresh_test).1.
Lemma long_os_name_poisons_witness :
  exists s1, mock_invoke 8 zeros main_thread os (GetOs 16%N 8%N) named_test = (s1, Err MPanic) /\
    set_up 2%N (SetGetHostOs (os_closure "linux")) s1 = (s1, Err MPanic).
Proof.
  destruct (long_os_name_poisons 8 zeros main_thread os 16%N 8%N named_test (os_closure long_name) (stream_new, []) long_name)
    as (s1 & H1 & _ & H2).
  - reflexivity.
  - reflexivity.
  - reflexivity.
  - apply Nat.ltb_lt. vm_compute. reflexivity.
  - apply N.leb_le. vm_compute. reflexivity.
  - exists s1. split; [exact H1|]. apply (H2 2%N).
Defined.

(** The guest that hands an input on, run by a test and by the runtime. *)
Lemma tests_run_like_runtime_witness :
  exists ms1 ms2, set_up_test main_thread (as_arguments (blank with_key)) fresh_test = (ms1, Ok tt) /\
    run_mock 8 zeros main_thread echo_guest ms1 = (ms2, Ok None) /\
    ms_world ms2 = (MkStream {[ "k" := yes ]}, []).
Proof.
  assert (testable_run no_auth served echo_guest (blank with_key) = true) as Ht by (vm_compute; exact eq_refl).
  destruct (tests_run_like_runtime no_auth served 8 zeros main_thread zeros_length echo_guest (blank with_key) fresh_test
    (conj eq_refl eq_refl) eq_refl eq_refl eq_refl Ht) as (ms1 & ms2 & s' & trap & H1 & H2 & H3 & _ & H4).
  assert (((run_guest no_auth served echo_guest (blank with_key)).2 = Ok None) /\
    lk_data (as_results (run_guest no_auth served echo_guest (blank with_key)).1) = MkStream {[ "k" := yes ]} /\
    lk_data (as_errors (run_guest no_auth served echo_guest (blank with_key)).1) = []) as (Ht' & Hr & He)
    by (split_and!; vm_compute; exact eq_refl).
  rewrite H2 in Ht', Hr, He. cbn [fst snd] in Ht', Hr, He.
  injection Ht' as ->. exists ms1, ms2. split; [exact H1|]. split; [exact H3|]. rewrite H4, Hr, He. reflexivity.
Defined.
End MockExamples.
